(* ===== verification/_CoqProject ===== *)
-Q . S2P
Prelude.v
Memory.v
ArchX86.v
ArchAarch64.v
Posix.v
Task.v
IoWait.v
PollerApi.v
PollerEpoll.v
EpollInv.v
EpollProps.v
PollerKqueue.v
KqueueInv.v
KqueueProps.v
Worker.v
WorkerInv.v
Resources.v
WorkerIo.v
Io.v
WorkerLoop.v
SchedInv.v
SchedSteps.v
SchedCalls.v
WorkerStop.v
WaitQueue.v
Channel.v
ChannelBuffer.v
ChannelInv.v
ChannelSpec.v
ChannelRefine.v
ChannelOps.v
ChannelWait.v
ChannelBlock.v
ChannelClose.v
ChannelRegistry.v
Select.v
SelectOrder.v
SelectSim.v
ChannelClients.v
ChannelCalls.v
WorkerChannels.v
SchedChannels.v
System.v
Runtime.v
SystemInv.v
SystemRuns.v
RuntimeInv.v
Demo.v
RuntimeProps.v
WorkerProps.v
ChannelProps.v
SelectProps.v
