(* ===== verification/Prelude.v ===== *)
(** * croutine: a verification of the M:N threading runtime

    croutine runs many tasks (coroutines with stacks of their own) on a few
    worker threads.  A task runs until it yields, waits for a descriptor,
    waits on a channel or ends; each of these switches back to the worker,
    which takes the next task from a shared run queue.  One worker at a time
    waits in the readiness poller, the others on a condition variable.

    ** The parts and the files that model them

    The files are listed in the order in which they are compiled.

    - Prelude, Memory, Posix: outcomes of C code, machine-width arithmetic, the
      allocator; byte memory; results and error numbers of system calls.
    - ArchX86, ArchAarch64: src/arch/*.c.  The inline assembly as a sequence
      of instructions on registers and memory, and [create_context].
    - Task: src/task.c and internal/task.h.  Stack sizes, mapped stacks with a
      guard page, task records, the growable ring of runnable tasks.
    - IoWait: the table of parked descriptors of src/worker.c.
    - PollerApi: internal/poller.h, as the class [Poller] with the laws
      [PollerLaws] the scheduler relies on.  PollerEpoll, EpollInv and
      EpollProps are src/poller_epoll.c; PollerKqueue, KqueueInv and
      KqueueProps are src/poller_kqueue.c, and PollerKqueue also holds
      src/poller_stub.c, which refuses everything.  Epoll and kqueue
      discharge the laws.
    - Worker, WorkerLoop: src/worker.c.  The record [sched] is its file-scope
      state; [worker_loop_impl] is cut where the thread gives up the lock.
      WorkerInv, Resources, WorkerIo and WorkerStop are lemmas on these
      operations; SchedInv, SchedSteps and SchedCalls relate the scheduler's
      state to where each worker thread is.
    - Io: src/io.c, over a world that holds the kernel and the other tasks.
    - WaitQueue, Channel, Select: src/channel.c.  Intrusive wait queues, byte
      rings, the registry of channels and select, as heaps of records.
      Channels use the scheduler through the class [Scheduler]; ChannelInv
      states [SchedulerLaws].  ChannelSpec is an abstract machine of lists of
      values and offers; ChannelBuffer, ChannelRefine, ChannelOps,
      ChannelWait, ChannelBlock, ChannelClose, ChannelRegistry, SelectOrder
      and SelectSim show that the code implements it.  ChannelClients and
      ChannelCalls follow the calls that tasks are parked in.
    - WorkerChannels, SchedChannels: src/worker.c keeps [SchedulerLaws].
    - System, SystemInv, SystemRuns: channels, scheduler, workers and tasks
      together; [act] executes one step of one of them.
    - Runtime, RuntimeInv: src/runtime.c, the calls of the thread that owns
      the runtime, around [System].
    - Demo: concrete states for the examples.
    - RuntimeProps, WorkerProps, ChannelProps, SelectProps: the theorems on
      the runtime, the scheduler's entry points, channels and select.

    ** How the code is translated

    C code is a function of its state that returns an [outcome]: a result, the
    deliberate abort of [worker_fail], [Stuck] for undefined behaviour, or
    [OutOfFuel].  Pointers are keys of finite maps, so a use after free is
    [Stuck].  A function that switches contexts or blocks is cut there into
    several definitions.  A critical section is one step, and so is what a
    function does after it up to its next blocking point.

    ** What the theorems show

    - The whole program (RuntimeProps): no reachable step is undefined; every
      task is in one place; workers do not all sleep while a task is
      runnable; nobody waits on a channel that could serve them; after the
      end of main the workers leave in a bounded number of turns; shutdown
      leaves nothing allocated; initialisation and the exit code.
    - Scheduler (WorkerProps): spawning is all-or-nothing; a task parked on a
      descriptor comes back with the right result.
    - Channels and select (ChannelProps, SelectProps): each operation refines
      the abstract machine on every branch; order of delivery; closing,
      destruction and shutdown; the shuffle is a permutation.
    - Pollers (EpollProps, KqueueProps): registrations are those last asked
      for, stale events are dropped, a half-made change is undone unless the
      kernel refuses that too, descriptors are closed.
    - Task, ArchX86, ArchAarch64, Io: the ring is a FIFO queue; stacks are
      unmapped exactly; a context resumes as it was left; I/O calls repeat
      and wait as specified, return if the kernel defers them finitely often,
      and leak no accepted descriptor.

    ** Assumptions

    The theorems on the whole program assume a [platform]: [calloc] grants
    every representable request, a page size between 2^12 and 2^31, new
    mappings at new addresses, and wake-ups that the kernel does not refuse.
    So they do not cover the aborts of a process that is out of memory for
    its queues.  They also assume valid arguments ([plabel_ok]): live
    channels, value objects of the element size, descriptors in range, select
    with 1 to 2^31 cases, and task and channel calls made only between
    initialisation and shutdown.  Kernels are parameters with their
    documented behaviour as laws; a small kernel of each kind satisfies them.
    The concrete program of RuntimeProps runs on epoll.

    ** Bounds and fuel

    Loops over a queue or over the registry get fuel from the size of the heap
    they walk, and the lemmas prove that this is enough.  The doubling of the
    epoll tables ends because a 64-bit size doubles at most 64 times.  The
    retry loop of Io takes any fuel; it returns if the kernel interrupts or
    defers a call only finitely often.  A stale epoll token is told apart for
    2^32 - 2 changes of its descriptor, after which its generation recurs.

    ** Not modelled

    - Interleavings inside a step: [worker_request_shutdown], for instance,
      takes two locks in turn and is one step here.  The C memory model and
      data races are out of scope.
    - The context switches of the Arch files are not linked to [System], where
      a switch is a change of the worker's place.
    - Task bodies: which calls a task makes is left to the label of a step.
      How long a poll blocks is left to the label too.
    - The allocator's answer depends on the size of the request only, and
      mappings are distinguished by their address.
    - Accesses to a task's stack are not checked against the mappings, and
      unmapping a region that is not mapped does nothing.
    - A select case whose operation is neither send nor receive, which the
      type of operations does not have.
    - [errno] is modelled by the decisions it leads to, not as a variable.
    - One thread owns the runtime: initialisation, run and shutdown are not
      called concurrently.  Not covered by the whole-program theorems:
      spawning before initialisation, creating a channel before it, as
      tests/external_wake_test.c does, and destroying one after shutdown.
    - Sanitizer hooks, the build files, tests and examples. *)

From stdpp Require Export gmap list strings fin_maps.
From Stdlib Require Export ZArith Lia Strings.Byte.

Open Scope Z_scope.

(** ** Outcomes of C code

    A run of a piece of C either returns ([Ok]), calls [worker_fail] and
    aborts the process with a message ([Abort]), has no defined behaviour
    (a null or dangling pointer, an index outside an array, a division by
    zero: [Stuck]), or exceeds the iteration bound its model was given
    ([OutOfFuel]).  The total specifications below exclude the last two. *)

Inductive outcome (A : Type) : Type :=
| Ok (a : A)
| Abort (message : string)
| Stuck
| OutOfFuel.
Arguments Ok {A} a.
Arguments Abort {A} message.
Arguments Stuck {A}.
Arguments OutOfFuel {A}.

#[global] Instance outcome_ret : MRet outcome := λ A a, Ok a.
#[global] Instance outcome_bind : MBind outcome := λ A B k m,
  match m with
  | Ok a => k a
  | Abort e => Abort e
  | Stuck => Stuck
  | OutOfFuel => OutOfFuel
  end.

(** Code that reads and writes a state of type [S]. *)
Definition M (S A : Type) : Type := S → outcome (A * S).

#[global] Instance M_ret {S} : MRet (M S) := λ A a s, Ok (a, s).
#[global] Instance M_bind {S} : MBind (M S) := λ A B k m s,
  match m s with
  | Ok (a, s') => k a s'
  | Abort e => Abort e
  | Stuck => Stuck
  | OutOfFuel => OutOfFuel
  end.

Declare Scope c_scope.
Delimit Scope c_scope with C.
Open Scope c_scope.

Definition skip {S} : M S unit := λ s, Ok (tt, s).
Definition get {S} : M S S := λ s, Ok (s, s).
Definition gets {S A} (f : S → A) : M S A := λ s, Ok (f s, s).
Definition modify {S} (f : S → S) : M S unit := λ s, Ok (tt, f s).
Definition stuck {S A} : M S A := λ _, Stuck.
Definition abort {S A} (message : string) : M S A := λ _, Abort message.
(** Dereference: a missing object is undefined behaviour. *)
Definition deref {S A} (f : S → option A) : M S A := λ s,
  match f s with Some a => Ok (a, s) | None => Stuck end.

(** ** Total specifications

    [wp m Φ s]: from state [s] the code [m] returns normally, with a result
    and a state that satisfy [Φ]. *)
Definition wp {S A} (m : M S A) (Φ : A → S → Prop) (s : S) : Prop :=
  match m s with Ok (a, s') => Φ a s' | _ => False end.

Section wp.
Context {S A B : Type}.
Implicit Types (m : M S A) (s : S).

Lemma wp_ret (a : A) (Φ : A → S → Prop) s : Φ a s → wp (mret a) Φ s.
Proof. done. Qed.

Lemma wp_bind m (k : A → M S B) (Φ : B → S → Prop) s :
  wp m (λ a s', wp (k a) Φ s') s → wp (m ≫= k) Φ s.
Proof.
  unfold wp, mbind, M_bind. destruct (m s) as [[a s']|?| |]; done.
Qed.

Lemma wp_mono m (Φ Ψ : A → S → Prop) s :
  wp m Φ s → (∀ a s', Φ a s' → Ψ a s') → wp m Ψ s.
Proof. unfold wp. destruct (m s) as [[a s']|?| |]; naive_solver. Qed.

Lemma wp_eq m (Φ : A → S → Prop) s a s' :
  m s = Ok (a, s') → Φ a s' → wp m Φ s.
Proof. unfold wp. by intros ->. Qed.

Lemma wp_inv m (Φ : A → S → Prop) s :
  wp m Φ s → ∃ a s', m s = Ok (a, s') ∧ Φ a s'.
Proof. unfold wp. destruct (m s) as [[a s']|?| |]; naive_solver. Qed.
End wp.

(** Running a bind whose first part is known. *)
Lemma bind_ok {S A B} (m : M S A) (k : A → M S B) s a s' :
  m s = Ok (a, s') → (m ≫= k) s = k a s'.
Proof. unfold mbind, M_bind. by intros ->. Qed.

Lemma outcome_bind_ok {A B} (m : outcome A) (k : A → outcome B) a :
  m = Ok a → (m ≫= k) = k a.
Proof. by intros ->. Qed.
Lemma outcome_bind_inv {A B} (m : outcome A) (k : A → outcome B) b :
  (m ≫= k) = Ok b → ∃ a, m = Ok a ∧ k a = Ok b.
Proof. destruct m as [a| | |]; try done. intros E. by exists a. Qed.

(** ** Counted loops: [for (size_t i = from; i < from + n; ++i) body] *)
Fixpoint for_range {A} (n : nat) (i : Z) (body : Z → A → outcome A) (a : A)
  : outcome A :=
  match n with
  | O => Ok a
  | S n' => body i a ≫= for_range n' (i + 1) body
  end.

Definition for_loop {A} (n : Z) (body : Z → A → outcome A) (a : A) : outcome A :=
  for_range (Z.to_nat n) 0 body a.

Lemma for_range_inv {A} (I : Z → A → Prop) n i body a :
  I i a →
  (∀ j b, i ≤ j < i + Z.of_nat n → I j b → ∃ b', body j b = Ok b' ∧ I (j + 1) b') →
  ∃ a', for_range n i body a = Ok a' ∧ I (i + Z.of_nat n) a'.
Proof.
  revert i a. induction n as [|n IH]; intros i a Ha Hstep; simpl.
  { exists a. by rewrite Z.add_0_r. }
  destruct (Hstep i a) as (b & Hb & HI); [lia|done|].
  rewrite (outcome_bind_ok _ _ _ Hb).
  destruct (IH (i + 1) b) as (a' & -> & HI'); [done| |].
  { intros j b' Hj. apply Hstep. lia. }
  exists a'. split; [done|]. by replace (i + Z.of_nat (S n)) with (i + 1 + Z.of_nat n) by lia.
Qed.

Lemma for_loop_inv {A} (I : Z → A → Prop) n body a :
  0 ≤ n → I 0 a →
  (∀ j b, 0 ≤ j < n → I j b → ∃ b', body j b = Ok b' ∧ I (j + 1) b') →
  ∃ a', for_loop n body a = Ok a' ∧ I n a'.
Proof.
  intros Hn Ha Hstep. unfold for_loop.
  destruct (for_range_inv I (Z.to_nat n) 0 body a Ha) as (a' & H & HI).
  { intros j b Hj. apply Hstep. lia. }
  exists a'. split; [done|]. by replace n with (0 + Z.of_nat (Z.to_nat n)) by lia.
Qed.

(** ** Arrays: reading and writing [a[i]] for an unsigned index *)
Definition idx_get {A} (l : list A) (i : Z) : outcome A :=
  match l !! Z.to_nat i with Some a => Ok a | None => Stuck end.
Definition idx_set {A} (l : list A) (i : Z) (a : A) : outcome (list A) :=
  if (Z.to_nat i <? length l)%nat then Ok (<[Z.to_nat i := a]> l) else Stuck.
Lemma idx_get_ok {A} (l : list A) i a : l !! Z.to_nat i = Some a → idx_get l i = Ok a.
Proof. unfold idx_get. by intros ->. Qed.
Lemma idx_set_ok {A} (l : list A) i a : (Z.to_nat i < length l)%nat → idx_set l i a = Ok (<[Z.to_nat i := a]> l).
Proof. unfold idx_set. intros Hi. by destruct (Nat.ltb_spec (Z.to_nat i) (length l)); [|lia]. Qed.

(** ** Machine integers *)

Definition SIZE_MAX : Z := 2 ^ 64 - 1.
(** Reduction of a result to [size_t], [uint64_t] and [uint32_t]. *)
Definition u64 (z : Z) : Z := z mod 2 ^ 64.
Definition u32 (z : Z) : Z := z mod 2 ^ 32.
(** Conversion of an unsigned 32-bit value to [int]. *)
Definition i32 (z : Z) : Z := if 2 ^ 31 <=? u32 z then u32 z - 2 ^ 32 else u32 z.
(** [a % b] on [size_t]. *)
Definition umod (a b : Z) : outcome Z := if b =? 0 then Stuck else Ok (a mod b).

Lemma SIZE_MAX_half : SIZE_MAX / 2 = 2 ^ 63 - 1.
Proof. reflexivity. Qed.

Lemma u64_small z : 0 ≤ z < 2 ^ 64 → u64 z = z.
Proof. apply Z.mod_small. Qed.
Lemma u32_small z : 0 ≤ z < 2 ^ 32 → u32 z = z.
Proof. apply Z.mod_small. Qed.
Lemma u64_range z : 0 ≤ u64 z < 2 ^ 64.
Proof. apply Z.mod_pos_bound. lia. Qed.
Lemma u32_range z : 0 ≤ u32 z < 2 ^ 32.
Proof. apply Z.mod_pos_bound. lia. Qed.
Lemma i32_small z : 0 ≤ z < 2 ^ 31 → i32 z = z.
Proof.
  intros Hz. unfold i32. rewrite u32_small by lia.
  destruct (Z.leb_spec (2 ^ 31) z); lia.
Qed.

Lemma umod_ok a b : b ≠ 0 → umod a b = Ok (a mod b).
Proof. unfold umod. intros Hb. by destruct (Z.eqb_spec b 0). Qed.

(** Clearing the low [k] bits with the mask [~(2^k - 1)] of a 64-bit word. *)
Lemma land_align x k :
  0 ≤ x < 2 ^ 64 → 0 ≤ k → Z.land x (u64 (Z.lnot (2 ^ k - 1))) = x - x mod 2 ^ k.
Proof.
  intros Hx Hk. unfold u64. rewrite <-(Z.land_ones _ 64) by lia.
  rewrite (Z.land_comm (Z.lnot _)), Z.land_assoc, Z.land_ones by lia.
  rewrite Z.mod_small by lia.
  replace (2 ^ k - 1) with (Z.ones k) by (rewrite Z.ones_equiv; lia).
  rewrite <-Z.ldiff_land, Z.ldiff_ones_r by lia.
  rewrite Z.shiftl_mul_pow2, Z.shiftr_div_pow2 by lia.
  rewrite (Z.mod_eq x (2 ^ k)) by lia. lia.
Qed.

(** ** Ring buffers

    A ring of [cap] cells, read through [cell], holds the list [l] starting
    at position [head]. *)
Definition ring {A} (cell : Z → option A) (head cap : Z) (l : list A) : Prop :=
  ∀ i x, l !! i = Some x → cell ((head + Z.of_nat i) mod cap) = Some x.

Lemma ring_index_inj cap head i j :
  0 ≤ i < cap → 0 ≤ j < cap → (head + i) mod cap = (head + j) mod cap → i = j.
Proof.
  intros Hi Hj H.
  assert ((i - j) mod cap = 0) as Hm.
  { replace (i - j) with ((head + i) - (head + j)) by lia.
    rewrite Zminus_mod, H, Z.sub_diag. apply Z.mod_0_l. lia. }
  apply Z.mod_divide in Hm; [|lia]. destruct Hm as [k Hk].
  assert (-1 < k < 1) by nia. assert (k = 0) by lia. lia.
Qed.

Lemma ring_push {A} (cell cell' : Z → option A) head cap l x :
  Z.of_nat (length l) < cap →
  ring cell head cap l →
  (∀ j, 0 ≤ j < cap → j ≠ (head + Z.of_nat (length l)) mod cap → cell' j = cell j) →
  cell' ((head + Z.of_nat (length l)) mod cap) = Some x →
  ring cell' head cap (l ++ [x]).
Proof.
  intros Hlen Hr Hsame Hnew i y Hi.
  apply lookup_app_Some in Hi as [Hi|[Hge Hi]].
  - rewrite Hsame; [by apply Hr|apply Z.mod_pos_bound; lia|].
    apply lookup_lt_Some in Hi. intros Heq.
    apply ring_index_inj in Heq; lia.
  - destruct (i - length l)%nat eqn:E; [|done].
    simplify_eq/=. by replace i with (length l) by lia.
Qed.

Lemma ring_head {A} (cell : Z → option A) head cap x l :
  0 ≤ head < cap → ring cell head cap (x :: l) → cell head = Some x.
Proof.
  intros Hh Hr. specialize (Hr 0%nat x eq_refl).
  rewrite Z.add_0_r, Z.mod_small in Hr by lia. done.
Qed.

Lemma ring_tail {A} (cell : Z → option A) head cap x l :
  0 < cap → ring cell head cap (x :: l) → ring cell ((head + 1) mod cap) cap l.
Proof.
  intros Hc Hr i y Hi. rewrite Zplus_mod_idemp_l.
  replace (head + 1 + Z.of_nat i) with (head + Z.of_nat (S i)) by lia.
  by apply Hr.
Qed.

Lemma ring_nil {A} (cell : Z → option A) head cap : ring cell head cap [].
Proof. intros i x Hi. done. Qed.

Lemma ring_ext {A} (cell cell' : Z → option A) head cap l :
  (∀ j, cell' j = cell j) → ring cell head cap l → ring cell' head cap l.
Proof. intros H Hr i x Hi. rewrite H. by apply Hr. Qed.

(** The position after [n] steps, advanced by one. *)
Lemma ring_next head n cap : 0 < cap → ((head + n) mod cap + 1) mod cap = (head + (n + 1)) mod cap.
Proof. intros. rewrite Zplus_mod_idemp_l. f_equal. lia. Qed.

(** ** The C allocator

    Whether a request is granted is the environment's choice.  A granted
    [malloc] block has the requested size and unspecified contents; [calloc]
    refuses a request whose byte size overflows [size_t]. *)
Class Alloc := {
  calloc_ok : Z → Z → bool;
  malloc : Z → option (list byte);
  calloc_bound : ∀ n size, calloc_ok n size = true → n * size ≤ SIZE_MAX;
  malloc_length : ∀ n bs, malloc n = Some bs → Z.of_nat (length bs) = n
}.

(** An environment that grants every representable [calloc]. *)
Definition calloc_grants `{Alloc} : Prop :=
  ∀ n size, n * size ≤ SIZE_MAX → calloc_ok n size = true.

(** An allocator that never runs out, for concrete runs. *)
Program Definition generous : Alloc := {|
  calloc_ok n size := n * size <=? SIZE_MAX;
  malloc n := if n <? 0 then None else Some (replicate (Z.to_nat n) Byte.x00)
|}.
Next Obligation. intros n size H. by apply Z.leb_le. Qed.
Next Obligation.
  simpl. intros n bs H. destruct (Z.ltb_spec n 0); simplify_eq.
  rewrite length_replicate. lia.
Qed.

Lemma generous_grants : @calloc_grants generous.
Proof. intros n size H. by apply Z.leb_le. Qed.

(** ** Automation *)

Arguments u64 : simpl never.
Arguments u32 : simpl never.
Arguments umod : simpl never.
Arguments for_loop : simpl never.

Create HintDb croutine.
#[export] Hint Resolve u64_range u32_range ring_nil : croutine.

(** Case analysis on the boolean comparisons and matches of translated code. *)
Ltac case_bool :=
  match goal with
  | |- context [?a =? ?b] => destruct (Z.eqb_spec a b)
  | |- context [?a <? ?b] => destruct (Z.ltb_spec a b)
  | |- context [?a <=? ?b] => destruct (Z.leb_spec a b)
  | _ : context [?a =? ?b] |- _ => destruct (Z.eqb_spec a b)
  | _ : context [?a <? ?b] |- _ => destruct (Z.ltb_spec a b)
  | _ : context [?a <=? ?b] |- _ => destruct (Z.leb_spec a b)
  end.
