(* ===== verification/Memory.v ===== *)
(** * Byte-addressed memory for the context-switch code

    The architecture files translate the inline assembly of src/arch, which
    stores and loads 2-, 4- and 8-byte little-endian words.  Memory is a
    byte for every address; [store] and [load] are the machine's accesses. *)

From S2P Require Import Prelude.

Definition memory : Type := Z → Z.

(** [n]-byte little-endian store and load. *)
Definition store (m : memory) (a : Z) (n : Z) (v : Z) : memory := λ x,
  if (a <=? x) && (x <? a + n) then Z.shiftr v (8 * (x - a)) mod 256 else m x.

Fixpoint load_bytes (m : memory) (a : Z) (n : nat) : Z :=
  match n with
  | O => 0
  | S n' => m a + 256 * load_bytes m (a + 1) n'
  end.
Definition load (m : memory) (a : Z) (n : Z) : Z := load_bytes m a (Z.to_nat n).

Lemma store_outside m a n v x : x < a ∨ a + n ≤ x → store m a n v x = m x.
Proof.
  intros H. unfold store.
  destruct (Z.leb_spec a x), (Z.ltb_spec x (a + n)); simpl; try done; lia.
Qed.

Lemma load_bytes_ext m m' a n :
  (∀ x, a ≤ x < a + Z.of_nat n → m x = m' x) → load_bytes m a n = load_bytes m' a n.
Proof.
  revert a. induction n as [|n IH]; intros a H; simpl; [done|].
  rewrite (H a) by lia. rewrite (IH (a + 1)); [done|].
  intros x Hx. apply H. lia.
Qed.

Lemma load_ext m m' a n :
  (∀ x, a ≤ x < a + n → m x = m' x) → load m a n = load m' a n.
Proof. intros H. apply load_bytes_ext. intros x Hx. apply H. lia. Qed.

(** A load is not affected by a store elsewhere. *)
Lemma load_store_other m a n v b k :
  b + k ≤ a ∨ a + n ≤ b → load (store m a n v) b k = load m b k.
Proof.
  intros H. apply load_ext. intros x Hx. apply store_outside. lia.
Qed.

Lemma load_bytes_word m a n v :
  (∀ x, a ≤ x < a + Z.of_nat n → m x = Z.shiftr v (8 * (x - a)) mod 256) →
  load_bytes m a n = v mod 2 ^ (8 * Z.of_nat n).
Proof.
  revert a v. induction n as [|n IH]; intros a v H; [by rewrite Z.mod_1_r|].
  cbn [load_bytes]. rewrite (H a) by lia. rewrite (IH (a + 1) (Z.shiftr v 8)).
  - replace (8 * (a - a)) with 0 by lia. rewrite Z.shiftr_0_r, Z.shiftr_div_pow2 by lia.
    replace (8 * Z.of_nat (S n)) with (8 + 8 * Z.of_nat n) by lia.
    rewrite Z.pow_add_r, Z.rem_mul_r by lia. done.
  - intros x Hx. rewrite H by lia. rewrite Z.shiftr_shiftr by lia.
    do 2 f_equal. lia.
Qed.

(** Reading back what was stored. *)
Lemma load_store_same m a n v :
  0 ≤ n → load (store m a n v) a n = v mod 2 ^ (8 * n).
Proof.
  intros Hn. unfold load. rewrite (load_bytes_word _ _ _ v).
  - by rewrite Z2Nat.id by lia.
  - intros x Hx. unfold store.
    destruct (Z.leb_spec a x), (Z.ltb_spec x (a + n)); simpl; try done; lia.
Qed.

Lemma load_store_word m a n v :
  0 ≤ n → 0 ≤ v < 2 ^ (8 * n) → load (store m a n v) a n = v.
Proof. intros. rewrite load_store_same by lia. by apply Z.mod_small. Qed.
