(* ===== verification/ArchX86.v ===== *)
(** * The x86_64 context switch (src/arch/x86_64.c, internal/arch/x86_64.h)

    [context_switch] is the sequence of instructions of the inline assembly,
    run on a machine with the callee-saved registers and byte memory;
    [create_context] prepares the first switch into a task. *)

From S2P Require Import Prelude Memory.

(** [struct Context] *)
Record Context := mkContext {
  ctx_rsp : Z; ctx_rbp : Z; ctx_rbx : Z; ctx_r12 : Z; ctx_r13 : Z;
  ctx_r14 : Z; ctx_r15 : Z; ctx_mxcsr : Z; ctx_x87_cw : Z
}.

Module X86.

Inductive reg := RSP | RBP | RBX | R12 | R13 | R14 | R15 | RDI | RSI.
Definition reg_eqb (a b : reg) : bool :=
  match a, b with
  | RSP, RSP | RBP, RBP | RBX, RBX | R12, R12 | R13, R13 | R14, R14 | R15, R15
  | RDI, RDI | RSI, RSI => true
  | _, _ => false
  end.

Record cpu := mkCpu {
  regs : reg → Z;
  mxcsr : Z;
  x87_cw : Z;
  rip : Z;
  mem : memory
}.

Definition set_reg (r : reg) (v : Z) (c : cpu) : cpu :=
  {| regs := λ r', if reg_eqb r' r then v else regs c r';
     mxcsr := mxcsr c; x87_cw := x87_cw c; rip := rip c; mem := mem c |}.
Definition set_mem (m : memory) (c : cpu) : cpu :=
  {| regs := regs c; mxcsr := mxcsr c; x87_cw := x87_cw c; rip := rip c; mem := m |}.

(** The instructions the file uses; operands in AT&T order. *)
Inductive instr :=
| MovqStore (src : reg) (disp : Z) (base : reg)
| MovqLoad (disp : Z) (base : reg) (dst : reg)
| Stmxcsr (disp : Z) (base : reg)
| Fnstcw (disp : Z) (base : reg)
| Ldmxcsr (disp : Z) (base : reg)
| Fldcw (disp : Z) (base : reg)
| Ret.

Definition ea (c : cpu) (base : reg) (disp : Z) : Z := u64 (regs c base + disp).

Definition exec (i : instr) (c : cpu) : cpu :=
  match i with
  | MovqStore src disp base => set_mem (store (mem c) (ea c base disp) 8 (regs c src)) c
  | MovqLoad disp base dst => set_reg dst (load (mem c) (ea c base disp) 8) c
  | Stmxcsr disp base => set_mem (store (mem c) (ea c base disp) 4 (mxcsr c)) c
  | Fnstcw disp base => set_mem (store (mem c) (ea c base disp) 2 (x87_cw c)) c
  | Ldmxcsr disp base =>
      {| regs := regs c; mxcsr := load (mem c) (ea c base disp) 4;
         x87_cw := x87_cw c; rip := rip c; mem := mem c |}
  | Fldcw disp base =>
      {| regs := regs c; mxcsr := mxcsr c;
         x87_cw := load (mem c) (ea c base disp) 2; rip := rip c; mem := mem c |}
  | Ret =>
      let target := load (mem c) (regs c RSP) 8 in
      let c' := set_reg RSP (u64 (regs c RSP + 8)) c in
      {| regs := regs c'; mxcsr := mxcsr c'; x87_cw := x87_cw c';
         rip := target; mem := mem c' |}
  end.

Definition run (code : list instr) (c : cpu) : cpu := foldl (λ c i, exec i c) c code.

(** The body of [context_switch(old, new)]: [old] is in rdi, [new] in rsi. *)
Definition context_switch : list instr :=
  [ MovqStore RSP 0 RDI; MovqStore RBP 8 RDI; MovqStore RBX 16 RDI;
    MovqStore R12 24 RDI; MovqStore R13 32 RDI; MovqStore R14 40 RDI;
    MovqStore R15 48 RDI; Stmxcsr 56 RDI; Fnstcw 60 RDI;
    MovqLoad 0 RSI RSP; MovqLoad 8 RSI RBP; MovqLoad 16 RSI RBX;
    MovqLoad 24 RSI R12; MovqLoad 32 RSI R13; MovqLoad 40 RSI R14;
    MovqLoad 48 RSI R15; Ldmxcsr 56 RSI; Fldcw 60 RSI; Ret ].

(** [get_task_body] and [get_task_arg] read r15 and r14. *)
Definition get_task_body (c : cpu) : Z := regs c R15.
Definition get_task_arg (c : cpu) : Z := regs c R14.

(** [create_context]: the new context and the memory with the entry point
    stored at the top of the task's stack.  [cur] is the creating thread,
    whose floating-point control words are captured. *)
Definition create_context (cur : cpu) (task_entrypoint task_body arg stack_top : Z)
  : Context * memory :=
  let rsp := u64 (stack_top - 128) in
  let rsp := Z.land rsp (u64 (Z.lnot 15)) in
  let m := store (mem cur) rsp 8 task_entrypoint in
  ({| ctx_rsp := rsp; ctx_rbp := 0; ctx_rbx := 0; ctx_r12 := 0; ctx_r13 := 0;
      ctx_r14 := arg; ctx_r15 := task_body;
      ctx_mxcsr := mxcsr cur; ctx_x87_cw := x87_cw cur |}, m).

(** [struct Context] as it lies in memory at address [a]. *)
Definition context_at (m : memory) (a : Z) : Context :=
  {| ctx_rsp := load m a 8; ctx_rbp := load m (a + 8) 8; ctx_rbx := load m (a + 16) 8;
     ctx_r12 := load m (a + 24) 8; ctx_r13 := load m (a + 32) 8;
     ctx_r14 := load m (a + 40) 8; ctx_r15 := load m (a + 48) 8;
     ctx_mxcsr := load m (a + 56) 4; ctx_x87_cw := load m (a + 60) 2 |}.

(** The callee-saved state of the running code. *)
Definition callee_saved (c : cpu) : Context :=
  {| ctx_rsp := regs c RSP; ctx_rbp := regs c RBP; ctx_rbx := regs c RBX;
     ctx_r12 := regs c R12; ctx_r13 := regs c R13; ctx_r14 := regs c R14;
     ctx_r15 := regs c R15; ctx_mxcsr := mxcsr c; ctx_x87_cw := x87_cw c |}.

(** Registers hold machine words. *)
Definition cpu_ok (c : cpu) : Prop :=
  (∀ r, 0 ≤ regs c r < 2 ^ 64) ∧ 0 ≤ mxcsr c < 2 ^ 32 ∧ 0 ≤ x87_cw c < 2 ^ 16.

(** A context structure that lies inside the address space. *)
Definition ctx_addr (a : Z) : Prop := 0 ≤ a ∧ a + 64 ≤ 2 ^ 64.
Definition ctx_disjoint (a b : Z) : Prop := a + 64 ≤ b ∨ b + 64 ≤ a.

(** What the switch leaves in memory: the caller's registers at [old]. *)
Definition saved (c : cpu) : memory :=
  let a := regs c RDI in
  let m := mem c in
  let m := store m a 8 (regs c RSP) in
  let m := store m (a + 8) 8 (regs c RBP) in
  let m := store m (a + 16) 8 (regs c RBX) in
  let m := store m (a + 24) 8 (regs c R12) in
  let m := store m (a + 32) 8 (regs c R13) in
  let m := store m (a + 40) 8 (regs c R14) in
  let m := store m (a + 48) 8 (regs c R15) in
  let m := store m (a + 56) 4 (mxcsr c) in
  store m (a + 60) 2 (x87_cw c).

Ltac solve_load :=
  repeat first
    [ rewrite load_store_word by lia
    | rewrite load_store_other by lia ].

Lemma saved_context c : cpu_ok c → context_at (saved c) (regs c RDI) = callee_saved c.
Proof.
  intros (Hr & Hm & Hx). unfold context_at, callee_saved, saved.
  pose proof (Hr RSP); pose proof (Hr RBP); pose proof (Hr RBX); pose proof (Hr R12).
  pose proof (Hr R13); pose proof (Hr R14); pose proof (Hr R15).
  f_equal; solve_load; done.
Qed.

Lemma saved_outside c x :
  x < regs c RDI ∨ regs c RDI + 62 ≤ x → saved c x = mem c x.
Proof. intros H. unfold saved. rewrite !store_outside by lia. done. Qed.

Lemma context_at_ext m m' a :
  (∀ x, a ≤ x < a + 62 → m x = m' x) → context_at m a = context_at m' a.
Proof.
  intros H. unfold context_at.
  f_equal; apply load_ext; intros x Hx; apply H; lia.
Qed.

(** The two halves of the switch. *)
Definition save_half : list instr := take 9 context_switch.
Definition restore_half : list instr := drop 9 context_switch.

Lemma run_cons i code c : run (i :: code) c = run code (exec i c).
Proof. reflexivity. Qed.

(** Run a straight-line sequence one instruction at a time. *)
Ltac step_instrs :=
  repeat (rewrite run_cons;
          cbv beta iota zeta delta [exec set_mem set_reg ea regs mem mxcsr x87_cw rip reg_eqb]);
  unfold run; cbn [foldl].

Lemma run_save c :
  ctx_addr (regs c RDI) → run save_half c = set_mem (saved c) c.
Proof.
  intros [H1 H2]. destruct c as [f mx cw ip m]; simpl in H1, H2.
  assert (∀ d, 0 ≤ d < 64 → u64 (f RDI + d) = f RDI + d) as Hd.
  { intros d Hd. apply u64_small. lia. }
  cbv [save_half context_switch firstn]. step_instrs.
  rewrite !Hd by lia. rewrite Z.add_0_r. reflexivity.
Qed.

Lemma run_restore c :
  ctx_addr (regs c RSI) →
  let n := context_at (mem c) (regs c RSI) in
  let c' := run restore_half c in
  mem c' = mem c ∧
  callee_saved c' =
    {| ctx_rsp := u64 (ctx_rsp n + 8); ctx_rbp := ctx_rbp n; ctx_rbx := ctx_rbx n;
       ctx_r12 := ctx_r12 n; ctx_r13 := ctx_r13 n; ctx_r14 := ctx_r14 n;
       ctx_r15 := ctx_r15 n; ctx_mxcsr := ctx_mxcsr n; ctx_x87_cw := ctx_x87_cw n |} ∧
  rip c' = load (mem c) (ctx_rsp n) 8.
Proof.
  intros [H1 H2]. destruct c as [f mx cw ip m]; simpl in H1, H2.
  assert (∀ d, 0 ≤ d < 64 → u64 (f RSI + d) = f RSI + d) as Hd.
  { intros d Hd. apply u64_small. lia. }
  cbv [restore_half context_switch skipn]. step_instrs.
  unfold callee_saved, context_at. cbn [regs mem mxcsr x87_cw rip reg_eqb].
  rewrite !Hd by lia. rewrite !Z.add_0_r. repeat split; reflexivity.
Qed.

Lemma run_app code1 code2 c : run (code1 ++ code2) c = run code2 (run code1 c).
Proof. apply foldl_app. Qed.

Lemma run_switch c :
  ctx_addr (regs c RDI) → ctx_addr (regs c RSI) →
  let n := context_at (saved c) (regs c RSI) in
  let c' := run context_switch c in
  mem c' = saved c ∧
  callee_saved c' =
    {| ctx_rsp := u64 (ctx_rsp n + 8); ctx_rbp := ctx_rbp n; ctx_rbx := ctx_rbx n;
       ctx_r12 := ctx_r12 n; ctx_r13 := ctx_r13 n; ctx_r14 := ctx_r14 n;
       ctx_r15 := ctx_r15 n; ctx_mxcsr := ctx_mxcsr n; ctx_x87_cw := ctx_x87_cw n |} ∧
  rip c' = load (saved c) (ctx_rsp n) 8.
Proof.
  intros Ho Hn. change context_switch with (save_half ++ restore_half).
  rewrite run_app, run_save by done. by apply (run_restore (set_mem (saved c) c)).
Qed.

#[local] Opaque run.

(** Where execution of [c] continues once it is resumed: the caller's
    registers, with the return address popped. *)
Definition resumed (c : cpu) : Context :=
  {| ctx_rsp := u64 (regs c RSP + 8); ctx_rbp := regs c RBP; ctx_rbx := regs c RBX;
     ctx_r12 := regs c R12; ctx_r13 := regs c R13; ctx_r14 := regs c R14;
     ctx_r15 := regs c R15; ctx_mxcsr := mxcsr c; ctx_x87_cw := x87_cw c |}.

(** C24: a task that called [context_switch] and is later switched back to,
    by any thread and from any other context, finds exactly its callee-saved
    registers and floating-point control words, and continues at the return
    address of its own call, provided its saved context and the return
    address on its stack were left alone in between. *)
Theorem x86_switch_resumes c d :
  cpu_ok c →
  ctx_addr (regs c RDI) → ctx_addr (regs c RSI) → ctx_addr (regs d RDI) →
  regs d RSI = regs c RDI →
  ctx_disjoint (regs d RDI) (regs c RDI) →
  (∀ x, regs c RDI ≤ x < regs c RDI + 62 → mem d x = mem (run context_switch c) x) →
  (∀ x, regs c RSP ≤ x < regs c RSP + 8 →
     mem d x = mem c x ∧ (x < regs d RDI ∨ regs d RDI + 62 ≤ x)) →
  let d' := run context_switch d in
  callee_saved d' = resumed c ∧ rip d' = load (mem c) (regs c RSP) 8.
Proof.
  intros Hok Ho Hn Hd Heq Hdis Hctx Hstk.
  destruct (run_switch c Ho Hn) as (Hm & _ & _).
  assert (context_at (saved d) (regs d RSI) = callee_saved c) as Hsv.
  { rewrite Heq, <-(saved_context c Hok). apply context_at_ext.
    intros x Hx. rewrite saved_outside by (unfold ctx_disjoint in Hdis; lia).
    rewrite Hctx, Hm by done. done. }
  destruct (run_switch d Hd) as (_ & Hr & Hip); [by rewrite Heq|].
  rewrite Hsv in Hr, Hip. simpl. split; [exact Hr|]. rewrite Hip.
  apply load_ext. intros x Hx. simpl in Hx.
  destruct (Hstk x Hx) as [<- ?]. by apply saved_outside.
Qed.

Lemma create_context_rsp cur entry fn arg top :
  128 ≤ top < 2 ^ 64 →
  ctx_rsp (create_context cur entry fn arg top).1 = top - 128 - (top - 128) mod 16.
Proof.
  intros H. unfold create_context; simpl.
  change 15 with (2 ^ 4 - 1). rewrite u64_small by lia.
  by rewrite land_align by lia.
Qed.

(** C25: the first switch into a context made by [create_context] enters
    [task_entrypoint] with the task body and argument where [get_task_body]
    and [get_task_arg] look for them, the creator's floating-point control
    words, and a stack pointer that has the alignment the ABI requires at
    function entry and lies inside the task's stack. *)
Theorem x86_first_switch cur entry fn arg stack size d :
  0 ≤ stack → 256 ≤ size → stack + size < 2 ^ 64 → 0 ≤ entry < 2 ^ 64 →
  ctx_addr (regs d RDI) → ctx_addr (regs d RSI) →
  ctx_disjoint (regs d RDI) (regs d RSI) →
  let '(ctx, m) := create_context cur entry fn arg (stack + size) in
  context_at (mem d) (regs d RSI) = ctx →
  (∀ x, ctx_rsp ctx ≤ x < ctx_rsp ctx + 8 →
     mem d x = m x ∧ (x < regs d RDI ∨ regs d RDI + 62 ≤ x)) →
  let d' := run context_switch d in
  rip d' = entry ∧ get_task_body d' = fn ∧ get_task_arg d' = arg ∧
  mxcsr d' = mxcsr cur ∧ x87_cw d' = x87_cw cur ∧
  regs d' RSP mod 16 = 8 ∧ stack ≤ regs d' RSP ≤ stack + size.
Proof.
  intros Hs Hz Htop He Hd Hn Hdis.
  destruct (create_context cur entry fn arg (stack + size)) as [ctx m] eqn:E.
  intros Hctx Hstk.
  pose proof (create_context_rsp cur entry fn arg (stack + size)) as Hrsp.
  rewrite E in Hrsp; simpl in Hrsp. specialize (Hrsp ltac:(lia)).
  unfold create_context in E. injection E as Ec Em.
  destruct (run_switch d Hd Hn) as (_ & Hr & Hip).
  assert (context_at (saved d) (regs d RSI) = ctx) as Hsv.
  { rewrite <-Hctx. apply context_at_ext. intros x Hx.
    apply saved_outside. unfold ctx_disjoint in Hdis. lia. }
  rewrite Hsv in Hr, Hip. unfold callee_saved in Hr. injection Hr as ? ? ? ? ? ? ? ? ?.
  pose proof (Z.mod_pos_bound (stack + size - 128) 16).
  assert (regs (run context_switch d) RSP = ctx_rsp ctx + 8) as HSP.
  { rewrite H. apply u64_small. lia. }
  unfold get_task_body, get_task_arg. rewrite Hip.
  repeat split; try (subst ctx; simpl in *; congruence).
  - rewrite (load_ext _ m).
    + subst m. rewrite <-Ec. simpl. apply load_store_word; lia.
    + intros x Hx. destruct (Hstk x Hx) as [<- ?]. by apply saved_outside.
  - rewrite HSP, Hrsp.
    replace (stack + size - 128 - (stack + size - 128) mod 16 + 8)
      with (8 + ((stack + size - 128) / 16) * 16)
      by (pose proof (Z.div_mod (stack + size - 128) 16); lia).
    by rewrite Z.mod_add.
  - lia.
  - lia.
Qed.

(** ** Concrete contexts *)

(** A task whose context is at 4096 switches to the scheduler, whose context
    is at 8192, and back. *)
Definition demo_cpu (old new : Z) (m : memory) : cpu :=
  mkCpu (λ r, match r with RDI => old | RSI => new | RSP => 65536 | RBX => 7 | _ => 0 end)
    0x1f80 0x37f 0 m.
Definition demo_mem : memory := store (λ _, 0) 65536 8 0x401234.

Lemma demo_cpu_ok old new m : ctx_addr old → ctx_addr new → cpu_ok (demo_cpu old new m).
Proof. intros [? ?] [? ?]. split; [|cbn; lia]. intros []; cbn; lia. Qed.
Lemma demo_cpu_mem old new m : mem (demo_cpu old new m) = m.
Proof. done. Qed.
Lemma demo_ctx_addr a : 0 ≤ a ≤ 8192 → ctx_addr a.
Proof. unfold ctx_addr. lia. Qed.

Lemma x86_switch_resumes_witness :
  let c := demo_cpu 4096 8192 demo_mem in
  let d := demo_cpu 8192 4096 (mem (run context_switch c)) in
  ctx_rbx (callee_saved (run context_switch d)) = 7 ∧ rip (run context_switch d) = 0x401234.
Proof.
  intros c d.
  destruct (run_switch c) as (Hm & _); [apply demo_ctx_addr; cbn; lia..|].
  destruct (x86_switch_resumes c d) as [Hr Hip].
  - apply demo_cpu_ok; apply demo_ctx_addr; lia.
  - apply demo_ctx_addr. cbn. lia.
  - apply demo_ctx_addr. cbn. lia.
  - apply demo_ctx_addr. cbn. lia.
  - reflexivity.
  - right. cbn. lia.
  - intros x _. unfold d. by rewrite demo_cpu_mem.
  - intros x Hx. cbn in Hx. split; [|cbn; lia].
    unfold d. rewrite demo_cpu_mem, Hm. apply saved_outside. cbn. lia.
  - rewrite Hr, Hip. split; [reflexivity|]. apply load_store_word; lia.
Defined.

(** A new task's context, stored at 8192, as the first switch finds it. *)
Definition demo_created : Context * memory :=
  create_context (demo_cpu 0 0 (λ _, 0)) 0x401000 0x402000 42 (2 ^ 20 + 65536).
Definition demo_holder : cpu :=
  mkCpu (λ r, match r with RSP => 1113984 | R14 => 42 | R15 => 0x402000 | RDI => 8192 | _ => 0 end)
    0x1f80 0x37f 0 (snd demo_created).
Definition demo_first : cpu := demo_cpu 4096 8192 (saved demo_holder).

Lemma demo_holder_saved : context_at (saved demo_holder) 8192 = fst demo_created.
Proof.
  change 8192 with (regs demo_holder RDI). rewrite saved_context; [reflexivity|].
  split; [|cbn; lia]. intros []; cbn; lia.
Qed.
Lemma demo_first_context : context_at (mem demo_first) (regs demo_first RSI) = fst demo_created.
Proof. rewrite <-demo_holder_saved. unfold demo_first. by rewrite demo_cpu_mem. Qed.
Lemma demo_first_stack x : 1113984 ≤ x → mem demo_first x = snd demo_created x.
Proof. intros Hx. unfold demo_first. rewrite demo_cpu_mem. apply saved_outside. cbn. lia. Qed.
Lemma demo_first_regs : regs demo_first RDI = 4096 ∧ regs demo_first RSI = 8192.
Proof. done. Qed.
Lemma demo_created_rsp : ctx_rsp (fst demo_created) = 1113984.
Proof. reflexivity. Qed.
#[local] Opaque demo_first.

Lemma x86_first_switch_witness :
  let d' := run context_switch demo_first in
  rip d' = 0x401000 ∧ get_task_body d' = 0x402000 ∧ get_task_arg d' = 42.
Proof.
  destruct demo_first_regs as [R1 R2].
  pose proof (x86_first_switch (demo_cpu 0 0 (λ _, 0)) 0x401000 0x402000 42 (2 ^ 20) 65536 demo_first
    ltac:(lia) ltac:(lia) ltac:(lia) ltac:(lia) ltac:(apply demo_ctx_addr; lia)
    ltac:(apply demo_ctx_addr; lia) ltac:(left; lia)) as Hw.
  fold demo_created in Hw. pose proof demo_first_context as Hs. pose proof demo_created_rsp as Hr.
  pose proof demo_first_stack as Hm. destruct demo_created as [ctx m]. cbn [fst snd] in *.
  destruct (Hw Hs) as (H1 & H2 & H3 & _); [|exact (conj H1 (conj H2 H3))].
  intros x Hx. rewrite Hr in Hx. split; [apply Hm; lia|rewrite R1; lia].
Defined.

End X86.
