(* ===== verification/ArchAarch64.v ===== *)
(** * The aarch64 context switch (src/arch/aarch64.c, internal/arch/aarch64.h)

    [context_switch] is the sequence of instructions of the inline assembly.
    Unlike on x86_64 the return address is a register, x30, which is saved in
    the context with the others. *)

From S2P Require Import Prelude Memory.

Module Aarch64.

(** [struct Context] *)
Record Context := mkContext {
  c_sp : Z; c_lr : Z; c_fp : Z; c_x19 : Z; c_x20 : Z;
  c_x21 : Z; c_x22 : Z; c_x23 : Z; c_x24 : Z; c_x25 : Z;
  c_x26 : Z; c_x27 : Z; c_x28 : Z; c_d8 : Z; c_d9 : Z;
  c_d10 : Z; c_d11 : Z; c_d12 : Z; c_d13 : Z; c_d14 : Z;
  c_d15 : Z; c_fpcr : Z
}.

(** The registers that matter; the low halves of d8 to d15 and the
    floating-point control register are among them. *)
Inductive reg :=
| X0 | X1 | X9 | X19 | X20 | X21 | X22 | X23 | X24 | X25 | X26 | X27 | X28
| X29 | X30 | SP | FPCR | D8 | D9 | D10 | D11 | D12 | D13 | D14 | D15.
#[global] Instance reg_eq_dec : EqDecision reg.
Proof. solve_decision. Defined.

Record cpu := mkCpu { regs : reg → Z; pc : Z; mem : memory }.
Definition set_reg (r : reg) (v : Z) (c : cpu) : cpu :=
  mkCpu (λ r', if decide (r' = r) then v else regs c r') (pc c) (mem c).
Definition set_mem (m : memory) (c : cpu) : cpu := mkCpu (regs c) (pc c) m.

(** The instructions the file uses, destination first except in [Str]. *)
Inductive instr :=
| Mov (dst src : reg)
| Str (src base : reg) (imm : Z)
| Ldr (dst base : reg) (imm : Z)
| Mrs (dst : reg)
| Msr (src : reg)
| Ret.

Definition ea (c : cpu) (base : reg) (imm : Z) : Z := u64 (regs c base + imm).
Definition exec (i : instr) (c : cpu) : cpu :=
  match i with
  | Mov dst src => set_reg dst (regs c src) c
  | Str src base imm => set_mem (store (mem c) (ea c base imm) 8 (regs c src)) c
  | Ldr dst base imm => set_reg dst (load (mem c) (ea c base imm) 8) c
  | Mrs dst => set_reg dst (regs c FPCR) c
  | Msr src => set_reg FPCR (regs c src) c
  | Ret => mkCpu (regs c) (regs c X30) (mem c)
  end.
Definition run (code : list instr) (c : cpu) : cpu := foldl (λ c i, exec i c) c code.

(** The body of [context_switch(old, new)]: [old] is in x0, [new] in x1. *)
Definition context_switch : list instr :=
  [ Mov X9 SP; Str X9 X0 0x00; Str X30 X0 0x08; Str X29 X0 0x10;
    Str X19 X0 0x18; Str X20 X0 0x20; Str X21 X0 0x28; Str X22 X0 0x30;
    Str X23 X0 0x38; Str X24 X0 0x40; Str X25 X0 0x48; Str X26 X0 0x50;
    Str X27 X0 0x58; Str X28 X0 0x60; Str D8 X0 0x68; Str D9 X0 0x70;
    Str D10 X0 0x78; Str D11 X0 0x80; Str D12 X0 0x88; Str D13 X0 0x90;
    Str D14 X0 0x98; Str D15 X0 0xa0; Mrs X9; Str X9 X0 0xa8;
    Ldr X9 X1 0x00; Mov SP X9; Ldr X30 X1 0x08; Ldr X29 X1 0x10;
    Ldr X19 X1 0x18; Ldr X20 X1 0x20; Ldr X21 X1 0x28; Ldr X22 X1 0x30;
    Ldr X23 X1 0x38; Ldr X24 X1 0x40; Ldr X25 X1 0x48; Ldr X26 X1 0x50;
    Ldr X27 X1 0x58; Ldr X28 X1 0x60; Ldr D8 X1 0x68; Ldr D9 X1 0x70;
    Ldr D10 X1 0x78; Ldr D11 X1 0x80; Ldr D12 X1 0x88; Ldr D13 X1 0x90;
    Ldr D14 X1 0x98; Ldr D15 X1 0xa0; Ldr X9 X1 0xa8; Msr X9;
    Ret ].

(** [get_task_body] and [get_task_arg] read x19 and x20. *)
Definition get_task_body (c : cpu) : Z := regs c X19.
Definition get_task_arg (c : cpu) : Z := regs c X20.

Definition zeroed : Context := mkContext 0 0 0 0 0 0 0 0 0 0 0 0 0 0 0 0 0 0 0 0 0 0.
(** [create_context]; [cur] is the creating thread, whose floating-point
    control register is captured. *)
Definition create_context (cur : cpu) (task_entrypoint task_body arg stack_top : Z) : Context :=
  let sp := Z.land stack_top (u64 (Z.lnot 15)) in
  {| c_sp := sp; c_lr := task_entrypoint; c_fp := c_fp zeroed;
     c_x19 := task_body; c_x20 := arg;
     c_x21 := c_x21 zeroed; c_x22 := c_x22 zeroed; c_x23 := c_x23 zeroed; c_x24 := c_x24 zeroed;
     c_x25 := c_x25 zeroed; c_x26 := c_x26 zeroed; c_x27 := c_x27 zeroed; c_x28 := c_x28 zeroed;
     c_d8 := c_d8 zeroed; c_d9 := c_d9 zeroed; c_d10 := c_d10 zeroed; c_d11 := c_d11 zeroed;
     c_d12 := c_d12 zeroed; c_d13 := c_d13 zeroed; c_d14 := c_d14 zeroed; c_d15 := c_d15 zeroed;
     c_fpcr := regs cur FPCR |}.

(** [struct Context] as it lies in memory at address [a]. *)
Definition context_at (m : memory) (a : Z) : Context :=
  {| c_sp := load m (a + 0x00) 8; c_lr := load m (a + 0x08) 8;
     c_fp := load m (a + 0x10) 8; c_x19 := load m (a + 0x18) 8;
     c_x20 := load m (a + 0x20) 8; c_x21 := load m (a + 0x28) 8;
     c_x22 := load m (a + 0x30) 8; c_x23 := load m (a + 0x38) 8;
     c_x24 := load m (a + 0x40) 8; c_x25 := load m (a + 0x48) 8;
     c_x26 := load m (a + 0x50) 8; c_x27 := load m (a + 0x58) 8;
     c_x28 := load m (a + 0x60) 8; c_d8 := load m (a + 0x68) 8;
     c_d9 := load m (a + 0x70) 8; c_d10 := load m (a + 0x78) 8;
     c_d11 := load m (a + 0x80) 8; c_d12 := load m (a + 0x88) 8;
     c_d13 := load m (a + 0x90) 8; c_d14 := load m (a + 0x98) 8;
     c_d15 := load m (a + 0xa0) 8; c_fpcr := load m (a + 0xa8) 8 |}.

(** The callee-saved state of the running code. *)
Definition callee_saved (c : cpu) : Context :=
  {| c_sp := regs c SP; c_lr := regs c X30; c_fp := regs c X29;
     c_x19 := regs c X19; c_x20 := regs c X20; c_x21 := regs c X21;
     c_x22 := regs c X22; c_x23 := regs c X23; c_x24 := regs c X24;
     c_x25 := regs c X25; c_x26 := regs c X26; c_x27 := regs c X27;
     c_x28 := regs c X28; c_d8 := regs c D8; c_d9 := regs c D9;
     c_d10 := regs c D10; c_d11 := regs c D11; c_d12 := regs c D12;
     c_d13 := regs c D13; c_d14 := regs c D14; c_d15 := regs c D15;
     c_fpcr := regs c FPCR |}.

Definition cpu_ok (c : cpu) : Prop := ∀ r, 0 ≤ regs c r < 2 ^ 64.
(** A context structure that lies inside the address space. *)
Definition ctx_addr (a : Z) : Prop := 0 ≤ a ∧ a + 176 ≤ 2 ^ 64.
Definition ctx_disjoint (a b : Z) : Prop := a + 176 ≤ b ∨ b + 176 ≤ a.

(** ** The layout of the structure *)

Definition layout : list (reg * Z) :=
  [ (SP, 0x00); (X30, 0x08); (X29, 0x10); (X19, 0x18); (X20, 0x20); (X21, 0x28); (X22, 0x30);
    (X23, 0x38); (X24, 0x40); (X25, 0x48); (X26, 0x50); (X27, 0x58); (X28, 0x60); (D8, 0x68);
    (D9, 0x70); (D10, 0x78); (D11, 0x80); (D12, 0x88); (D13, 0x90); (D14, 0x98); (D15, 0xa0);
    (FPCR, 0xa8) ].
(** The registers a load or a store names directly; sp and fpcr go through
    x9. *)
Definition direct : list (reg * Z) := drop 1 (take 21 layout).

Definition spill (f : reg → Z) (a : Z) (l : list (reg * Z)) (m : memory) : memory :=
  foldl (λ m ro, store m (a + ro.2) 8 (f ro.1)) m l.

(** Words of eight bytes that do not overlap, all below [lim]. *)
Fixpoint spaced (lim : Z) (l : list (reg * Z)) : bool :=
  match l with
  | [] => true
  | ro :: l => (ro.2 + 8 <=? lim) && forallb (λ ro', ro.2 + 8 <=? ro'.2) l && spaced lim l
  end.

Lemma spill_outside f a l m x :
  (∀ ro, ro ∈ l → x < a + ro.2 ∨ a + ro.2 + 8 ≤ x) → spill f a l m x = m x.
Proof.
  revert m. induction l as [|ro l IH]; intros m Hx; [done|]. cbn [spill foldl].
  fold (spill f a l (store m (a + ro.2) 8 (f ro.1))). rewrite IH by set_solver.
  apply store_outside. destruct (Hx ro); [set_solver|lia..].
Qed.

(** Reading back a word that was spilled. *)
Lemma spill_word f a lim l m r o :
  spaced lim l = true → (r, o) ∈ l → 0 ≤ f r < 2 ^ 64 → load (spill f a l m) (a + o) 8 = f r.
Proof.
  intros Hs Hin Hr. revert m Hs. induction l as [|ro l IH]; intros m Hs; [by apply elem_of_nil in Hin|].
  cbn [spaced] in Hs. apply andb_prop in Hs as [[_ Hl]%andb_prop Hs].
  cbn [spill foldl]. fold (spill f a l (store m (a + ro.2) 8 (f ro.1))).
  apply elem_of_cons in Hin as [<-|Hin]; [|by apply IH]. cbn [fst snd] in *.
  erewrite load_ext; [by apply load_store_word|]. intros x Hx. apply spill_outside.
  intros ro' Hro'. rewrite forallb_forall in Hl.
  apply list_elem_of_In, Hl, Z.leb_le in Hro'. lia.
Qed.

(** ** The two halves of the switch *)

Lemma a64_run_app code1 code2 c : run (code1 ++ code2) c = run code2 (run code1 c).
Proof. apply foldl_app. Qed.

(** Stores relative to x0. *)
Definition strs (l : list (reg * Z)) : list instr := (λ ro, Str ro.1 X0 ro.2) <$> l.
Definition ldrs (l : list (reg * Z)) : list instr := (λ ro, Ldr ro.1 X1 ro.2) <$> l.
Definition in_ctx (l : list (reg * Z)) : Prop := ∀ ro, ro ∈ l → 0 ≤ ro.2 < 176.

Lemma run_strs l c :
  in_ctx l → ctx_addr (regs c X0) → run (strs l) c = set_mem (spill (regs c) (regs c X0) l (mem c)) c.
Proof.
  revert c. induction l as [|ro l IH]; intros c Hl Ha; [by destruct c|].
  cbn [strs fmap list_fmap]. fold (strs l). cbn [run foldl]. fold (run (strs l) (exec (Str ro.1 X0 ro.2) c)).
  rewrite IH; [|intros ro' Hro'; apply Hl; set_solver|done]. cbn [exec set_mem regs mem pc].
  assert (ea c X0 ro.2 = regs c X0 + ro.2) as ->; [|done].
  apply u64_small. destruct Ha. specialize (Hl ro ltac:(set_solver)). lia.
Qed.

Lemma run_ldrs l c :
  in_ctx l → ctx_addr (regs c X1) → NoDup l.*1 → (X1 ∉ l.*1) →
  let c' := run (ldrs l) c in
  mem c' = mem c ∧ (∀ r, r ∉ l.*1 → regs c' r = regs c r) ∧
  (∀ r o, (r, o) ∈ l → regs c' r = load (mem c) (regs c X1 + o) 8).
Proof.
  revert c. induction l as [|[r0 o0] l IH]; intros c Hl Ha Hnd Hx; [by set_solver|].
  cbn [ldrs fmap list_fmap fst snd] in *. fold (ldrs l). cbn [run foldl].
  fold (run (ldrs l) (exec (Ldr r0 X1 o0) c)).
  apply NoDup_cons in Hnd as [Hr0 Hnd]. apply not_elem_of_cons in Hx as [Hx0 Hx].
  set (c1 := exec (Ldr r0 X1 o0) c).
  assert (regs c1 X1 = regs c X1) as E1 by (cbn; by rewrite decide_False).
  assert (regs c1 r0 = load (mem c) (regs c X1 + o0) 8) as E0.
  { cbn. rewrite decide_True by done. f_equal. apply u64_small. destruct Ha.
    specialize (Hl (r0, o0) ltac:(set_solver)). simpl in Hl. lia. }
  destruct (IH c1) as (I1 & I2 & I3); [intros ro Hro; apply Hl; set_solver|by rewrite E1|done|done|].
  split; [done|]. split.
  - intros r [Hne Hr]%not_elem_of_cons. rewrite I2 by done. cbn. by rewrite decide_False.
  - intros r o [[= -> ->]|Hin]%elem_of_cons; [by rewrite I2|]. by rewrite (I3 r o Hin), E1.
Qed.

Lemma switch_halves : context_switch =
  [Mov X9 SP; Str X9 X0 0x00] ++ strs direct ++ [Mrs X9; Str X9 X0 0xa8] ++
  [Ldr X9 X1 0x00; Mov SP X9] ++ ldrs direct ++ [Ldr X9 X1 0xa8; Msr X9; Ret].
Proof. reflexivity. Qed.

(** What the switch leaves in memory: the caller's registers at [old]. *)
Definition saved (c : cpu) : memory := spill (regs c) (regs c X0) layout (mem c).

Lemma layout_spaced : spaced 176 layout = true.
Proof. reflexivity. Qed.
Lemma layout_in ro : ro ∈ layout → 0 ≤ ro.2 ≤ 168.
Proof.
  intros Hro. assert (Forall (λ ro : reg * Z, 0 ≤ ro.2 ≤ 168) layout) as HF by (repeat constructor; cbn; lia).
  rewrite Forall_forall in HF. by apply HF.
Qed.
Lemma direct_in ro : ro ∈ direct → ro ∈ layout.
Proof. intros Hro. apply (subseteq_take 21), (subseteq_drop 1), Hro. Qed.
Lemma direct_ctx : in_ctx direct.
Proof. intros ro Hro%direct_in%layout_in. lia. Qed.

Lemma spill_ext f g a l m : (∀ r, r ∈ l.*1 → f r = g r) → spill f a l m = spill g a l m.
Proof.
  revert m. induction l as [|ro l IH]; intros m Hfg; [done|]. cbn [spill foldl]. rewrite (Hfg ro.1) by set_solver.
  apply IH. set_solver.
Qed.

(** The first half stores the caller's registers at [old]. *)
Lemma a64_save c :
  ctx_addr (regs c X0) →
  let c' := run ([Mov X9 SP; Str X9 X0 0x00] ++ strs direct ++ [Mrs X9; Str X9 X0 0xa8]) c in
  mem c' = saved c ∧ regs c' X1 = regs c X1.
Proof.
  intros Ha. rewrite !a64_run_app.
  assert (∀ o c, ctx_addr (regs c X0) → 0 ≤ o < 176 → ea c X0 o = regs c X0 + o) as Hea.
  { intros o c0 [??] Ho. apply u64_small. lia. }
  set (c1 := run [Mov X9 SP; Str X9 X0 0x00] c).
  assert (regs c1 = regs (set_reg X9 (regs c SP) c)) as R1 by done.
  assert (mem c1 = store (mem c) (regs c X0 + 0) 8 (regs c SP)) as M1.
  { cbn -[ea]. by rewrite Hea by (done || lia). }
  rewrite run_strs; [|apply direct_ctx|by rewrite R1]. cbn -[ea spill direct saved c1].
  rewrite Hea by (done || lia). cbn -[spill direct saved c1]. rewrite M1. split; [|done].
  rewrite R1. rewrite (spill_ext _ (regs c)); [by unfold saved, spill|].
  intros r Hr. cbn. rewrite decide_False; [done|]. intros ->.
  by apply (bool_decide_eq_true (X9 ∈ direct.*1)) in Hr.
Qed.

(** The second half loads every register of the layout from [new] and returns
    to its x30. *)
Lemma a64_restore c :
  ctx_addr (regs c X1) →
  let c' := run ([Ldr X9 X1 0x00; Mov SP X9] ++ ldrs direct ++ [Ldr X9 X1 0xa8; Msr X9; Ret]) c in
  mem c' = mem c ∧ pc c' = regs c' X30 ∧
  (∀ r o, (r, o) ∈ layout → regs c' r = load (mem c) (regs c X1 + o) 8).
Proof.
  intros Ha. rewrite !a64_run_app. set (c1 := run [Ldr X9 X1 0x00; Mov SP X9] c).
  assert (∀ o, 0 ≤ o < 176 → u64 (regs c X1 + o) = regs c X1 + o) as Hea.
  { intros o Ho. destruct Ha. apply u64_small. lia. }
  assert (regs c1 SP = load (mem c) (regs c X1 + 0) 8) as E0.
  { cbn. unfold ea. by rewrite Hea by lia. }
  assert (mem c1 = mem c ∧ regs c1 X1 = regs c X1) as [Em E1] by done.
  destruct (run_ldrs direct c1) as (I1 & I2 & I3).
  { apply direct_ctx. } { by rewrite E1. }
  { by apply (bool_decide_unpack (NoDup direct.*1)). } { by apply (bool_decide_unpack (X1 ∉ direct.*1)). }
  set (c2 := run (ldrs direct) c1) in *.
  assert (regs c2 X1 = regs c X1) as E2.
  { rewrite I2; [done|]. by apply (bool_decide_unpack (X1 ∉ direct.*1)). }
  cbn -[direct c2 layout]. unfold ea. rewrite E2, I1, Em, Hea by lia. split; [done|]. split; [done|].
  intros r o Hin.
  assert (r = SP ∧ o = 0 ∨ (r, o) ∈ direct ∨ r = FPCR ∧ o = 0xa8) as [[-> ->]|[Hd|[-> ->]]].
  { change layout with ((SP, 0) :: direct ++ [(FPCR, 0xa8)]) in Hin. clear -Hin.
    apply elem_of_cons in Hin as [[= -> ->]|[?|[= -> ->]%list_elem_of_singleton]%elem_of_app]; auto. }
  - rewrite !decide_False, I2, E0 by (done || by apply (bool_decide_unpack (SP ∉ direct.*1))). done.
  - assert (r ≠ X9 ∧ r ≠ FPCR) as [N1 N2].
    { apply (list_elem_of_fmap_2 fst) in Hd as Hr. simpl in Hr.
      assert (Forall (λ r, r ≠ X9 ∧ r ≠ FPCR) direct.*1) as HF by (repeat constructor; discriminate).
      rewrite Forall_forall in HF. by apply HF. }
    rewrite !decide_False by done. by rewrite (I3 r o Hd), Em, E1.
  - by rewrite decide_True.
Qed.

Lemma a64_context_at_ext m m' a :
  (∀ x, a ≤ x < a + 176 → m x = m' x) → context_at m a = context_at m' a.
Proof. intros H. unfold context_at. f_equal; apply load_ext; intros x Hx; apply H; lia. Qed.

(** A context whose fields are the registers of [c] is what [c] has saved. *)
Lemma layout_fields (c : cpu) m a :
  (∀ r o, (r, o) ∈ layout → regs c r = load m (a + o) 8) → callee_saved c = context_at m a.
Proof.
  intros Hl. unfold callee_saved, context_at.
  f_equal; apply Hl; by apply (bool_decide_unpack ((_, _) ∈ layout)).
Qed.

Lemma a64_saved_context c : cpu_ok c → context_at (saved c) (regs c X0) = callee_saved c.
Proof.
  intros Hr. symmetry. apply layout_fields. intros r o Hin. symmetry.
  by eapply spill_word; [apply layout_spaced|done|].
Qed.
Lemma a64_saved_outside c x : x < regs c X0 ∨ regs c X0 + 176 ≤ x → saved c x = mem c x.
Proof. intros Hx. apply spill_outside. intros ro Hro%layout_in. lia. Qed.

#[local] Opaque run strs ldrs direct layout.
Definition save_half : list instr :=
  [Mov X9 SP; Str X9 X0 0x00] ++ strs direct ++ [Mrs X9; Str X9 X0 0xa8].
Definition restore_half : list instr :=
  [Ldr X9 X1 0x00; Mov SP X9] ++ ldrs direct ++ [Ldr X9 X1 0xa8; Msr X9; Ret].

Lemma run_halves c : run context_switch c = run restore_half (run save_half c).
Proof. rewrite <-a64_run_app, switch_halves. unfold save_half, restore_half. by rewrite <-!app_assoc. Qed.

Lemma a64_switch c :
  ctx_addr (regs c X0) → ctx_addr (regs c X1) →
  mem (run context_switch c) = saved c ∧
  callee_saved (run context_switch c) = context_at (saved c) (regs c X1) ∧
  pc (run context_switch c) = c_lr (context_at (saved c) (regs c X1)).
Proof.
  intros H0 H1. destruct (a64_save c H0) as [Hm Hx]. fold save_half in Hm, Hx.
  rewrite run_halves. generalize dependent (run save_half c). intros c1 Hm Hx.
  destruct (a64_restore c1) as (R1 & R2 & R3); [by rewrite Hx|]. fold restore_half in R1, R2, R3.
  generalize dependent (run restore_half c1). intros c2 R1 R2 R3. rewrite Hm, Hx in *.
  pose proof (layout_fields c2 _ _ R3) as E. split; [done|]. split; [done|]. by rewrite R2, <-E.
Qed.

(** C36: on aarch64 a task that called [context_switch] and is later switched
    back to, by any thread and from any other context, finds exactly its
    callee-saved registers, its floating-point control register and its stack
    pointer, and continues at the return address of its own call, provided its
    saved context was left alone in between. *)
Theorem a64_switch_resumes c d :
  cpu_ok c →
  ctx_addr (regs c X0) → ctx_addr (regs c X1) → ctx_addr (regs d X0) →
  regs d X1 = regs c X0 → ctx_disjoint (regs d X0) (regs c X0) →
  (∀ x, regs c X0 ≤ x < regs c X0 + 176 → mem d x = mem (run context_switch c) x) →
  let d' := run context_switch d in
  callee_saved d' = callee_saved c ∧ pc d' = regs c X30.
Proof.
  intros Hok Ho Hn Hd Heq Hdis Hctx. destruct (a64_switch c Ho Hn) as (Hm & _ & _).
  assert (context_at (saved d) (regs d X1) = callee_saved c) as Hsv.
  { rewrite Heq, <-(a64_saved_context c Hok). apply a64_context_at_ext. intros x Hx.
    rewrite a64_saved_outside by (unfold ctx_disjoint in Hdis; lia). by rewrite Hctx, Hm. }
  destruct (a64_switch d Hd) as (_ & Hr & Hip); [by rewrite Heq|].
  rewrite Hsv in Hr, Hip. split; [exact Hr|exact Hip].
Qed.

Lemma a64_create_sp cur entry fn arg top :
  0 ≤ top < 2 ^ 64 → c_sp (create_context cur entry fn arg top) = top - top mod 16.
Proof. intros Ht. unfold create_context. cbn. change 15 with (2 ^ 4 - 1). by rewrite land_align by lia. Qed.

(** C37: on aarch64 the first switch into a context made by [create_context]
    enters [task_entrypoint] with the task body and argument where
    [get_task_body] and [get_task_arg] look for them, the creator's
    floating-point control register, no frame to return to, and a stack
    pointer aligned to 16 bytes that lies inside the task's stack. *)
Theorem a64_first_switch cur entry fn arg stack size d :
  0 ≤ stack → 16 ≤ size → stack + size < 2 ^ 64 →
  ctx_addr (regs d X0) → ctx_addr (regs d X1) → ctx_disjoint (regs d X0) (regs d X1) →
  context_at (mem d) (regs d X1) = create_context cur entry fn arg (stack + size) →
  let d' := run context_switch d in
  pc d' = entry ∧ get_task_body d' = fn ∧ get_task_arg d' = arg ∧ regs d' FPCR = regs cur FPCR ∧
  regs d' X29 = 0 ∧ regs d' SP mod 16 = 0 ∧ stack < regs d' SP ≤ stack + size.
Proof.
  intros Hs Hz Htop Hd Hn Hdis Hctx d'.
  pose proof (a64_create_sp cur entry fn arg (stack + size) ltac:(lia)) as Hsp.
  destruct (a64_switch d Hd Hn) as (_ & Hr & Hip). fold d' in Hr, Hip.
  assert (context_at (saved d) (regs d X1) = create_context cur entry fn arg (stack + size)) as Hsv.
  { rewrite <-Hctx. apply a64_context_at_ext. intros x Hx. apply a64_saved_outside.
    unfold ctx_disjoint in Hdis. lia. }
  rewrite Hsv in Hr, Hip. clearbody d'. unfold get_task_body, get_task_arg.
  pose proof (f_equal c_sp Hr) as E1. pose proof (f_equal c_x19 Hr) as E2. pose proof (f_equal c_x20 Hr) as E3.
  pose proof (f_equal c_fpcr Hr) as E4. pose proof (f_equal c_fp Hr) as E5. rewrite Hsp in E1.
  cbn in E1, E2, E3, E4, E5. rewrite E1. pose proof (Z.mod_pos_bound (stack + size) 16).
  split_and!; try done; try lia.
  rewrite Zminus_mod, Zmod_mod, Z.sub_diag. done.
Qed.

(** ** Concrete contexts *)

(** A task whose context is at 4096 switches to the scheduler, whose context
    is at 8192, and back. *)
Definition a64_cpu (old new : Z) (m : memory) : cpu :=
  mkCpu (λ r, match r with X0 => old | X1 => new | SP => 65536 | X19 => 7 | X30 => 0x401234 | _ => 0 end) 0 m.
Lemma a64_cpu_mem old new m : mem (a64_cpu old new m) = m.
Proof. done. Qed.
Lemma a64_cpu_ok old new m : ctx_addr old → ctx_addr new → cpu_ok (a64_cpu old new m).
Proof. intros [? ?] [? ?] []; cbn; lia. Qed.
Lemma a64_addr a : 0 ≤ a ≤ 8192 → ctx_addr a.
Proof. unfold ctx_addr. lia. Qed.

Lemma a64_switch_resumes_witness :
  let c := a64_cpu 4096 8192 (λ _, 0) in
  let d := a64_cpu 8192 4096 (mem (run context_switch c)) in
  c_x19 (callee_saved (run context_switch d)) = 7 ∧ pc (run context_switch d) = 0x401234.
Proof.
  intros c d. destruct (a64_switch_resumes c d) as [Hr Hip].
  - apply a64_cpu_ok; apply a64_addr; lia.
  - apply a64_addr. cbn. lia.
  - apply a64_addr. cbn. lia.
  - apply a64_addr. cbn. lia.
  - reflexivity.
  - right. cbn. lia.
  - intros x _. unfold d. by rewrite a64_cpu_mem.
  - rewrite Hr, Hip. split; reflexivity.
Defined.

(** The context of a new task, stored at 8192. *)
Definition a64_created : Context :=
  create_context (a64_cpu 0 0 (λ _, 0)) 0x401000 0x402000 42 (2 ^ 20 + 65536).
Definition a64_holder : cpu :=
  mkCpu (λ r, match r with SP => 2 ^ 20 + 65536 | X30 => 0x401000 | X19 => 0x402000 | X20 => 42
              | X0 => 8192 | _ => 0 end) 0 (λ _, 0).
Definition a64_first : cpu := a64_cpu 4096 8192 (saved a64_holder).
Lemma a64_holder_saved : context_at (saved a64_holder) 8192 = a64_created.
Proof.
  change 8192 with (regs a64_holder X0). rewrite a64_saved_context; [reflexivity|]. intros []; cbn; lia.
Qed.
Lemma a64_first_context : context_at (mem a64_first) (regs a64_first X1) = a64_created.
Proof. rewrite <-a64_holder_saved. unfold a64_first. by rewrite a64_cpu_mem. Qed.
Lemma a64_first_regs : regs a64_first X0 = 4096 ∧ regs a64_first X1 = 8192.
Proof. done. Qed.
#[local] Opaque a64_first.

Lemma a64_first_switch_witness :
  let d' := run context_switch a64_first in
  pc d' = 0x401000 ∧ get_task_body d' = 0x402000 ∧ get_task_arg d' = 42.
Proof.
  destruct a64_first_regs as [R1 R2].
  destruct (a64_first_switch (a64_cpu 0 0 (λ _, 0)) 0x401000 0x402000 42 (2 ^ 20) 65536 a64_first)
    as (H1 & H2 & H3 & _); try lia.
  - rewrite R1. apply a64_addr. lia.
  - rewrite R2. apply a64_addr. lia.
  - left. lia.
  - exact a64_first_context.
  - exact (conj H1 (conj H2 H3)).
Defined.
End Aarch64.
