(* ===== verification/Posix.v ===== *)
(** * System calls

    The calls the sources make return a result or fail with an error number;
    a call interrupted by a signal fails with EINTR and is repeated.  The
    kernel's behaviour is a parameter of the files that call it. *)

From S2P Require Import Prelude.

(** The error numbers the sources compare against or set. *)
Inductive errno :=
| EINTR | EAGAIN | EWOULDBLOCK | ENOENT | EEXIST | EINVAL | ENOMEM | ENOSYS
| ECANCELED | ENOTSUP | EOTHER (n : Z).
#[global] Instance errno_eq_dec : EqDecision errno.
Proof. solve_decision. Defined.

Inductive sysres (A : Type) := Done (a : A) | Fails (e : errno).
Arguments Done {A} a.
Arguments Fails {A} e.

(** Inversion that does not look into the states. *)
Lemma ok_inj {A S} (a b : A) (s s' : S) : Ok (a, s) = Ok (b, s') → a = b ∧ s = s'.
Proof. by intros [= -> ->]. Qed.

(** ** Blocking calls

    What a blocking call returns is given as the list of answers of the
    successive attempts.  [retry] is the loop [for (;;)] around a call that
    repeats it while it is interrupted; it is still blocked when the answers
    run out. *)
Fixpoint retry {A} (answers : list (sysres A)) : outcome (sysres A) :=
  match answers with
  | [] => OutOfFuel
  | Fails EINTR :: answers => retry answers
  | r :: _ => Ok r
  end.

Definition interrupted {A} (r : sysres A) : bool :=
  match r with Fails EINTR => true | _ => false end.
(** Some attempt is not interrupted. *)
Definition answered {A} (answers : list (sysres A)) : Prop :=
  ∃ r, r ∈ answers ∧ interrupted r = false.

Lemma retry_cons {A} (r : sysres A) l :
  retry (r :: l) = if interrupted r then retry l else Ok r.
Proof. by destruct r as [a|[]]. Qed.

(** The loop ends with the first answer that is not an interruption. *)
Lemma retry_answered {A} (answers : list (sysres A)) :
  answered answers →
  ∃ r l1 l2, retry answers = Ok r ∧ interrupted r = false ∧ answers = l1 ++ r :: l2 ∧
    Forall (λ x, interrupted x = true) l1.
Proof.
  induction answers as [|r l IH]; intros (x & Hx & Hi); [by apply elem_of_nil in Hx|].
  rewrite retry_cons. destruct (interrupted r) eqn:Er.
  - destruct IH as (r' & l1 & l2 & -> & H1 & -> & H2).
    { apply elem_of_cons in Hx as [->|Hx]; [congruence|]. by exists x. }
    exists r', (r :: l1), l2. by repeat constructor.
  - by exists r, [], l.
Qed.

(** ** Calls with an effect

    A call on the kernel state [K]; [patience] bounds how often it is
    interrupted from now on, and the loop runs once more than that. *)
Definition syscall (K A : Type) : Type := K → sysres A * K.

Fixpoint retry_call {K A} (fuel : nat) (call : syscall K A) (k : K) : outcome (sysres A * K) :=
  match fuel with
  | O => OutOfFuel
  | S fuel =>
      let '(r, k) := call k in
      if interrupted r then retry_call fuel call k else Ok (r, k)
  end.

(** What the loop computes: the answer to the first call that is not
    interrupted. *)
Inductive repeated {K A} (call : syscall K A) : K → sysres A → K → Prop :=
| repeated_last k r k' : call k = (r, k') → interrupted r = false → repeated call k r k'
| repeated_again k k1 r k' : call k = (Fails EINTR, k1) → repeated call k1 r k' → repeated call k r k'.

Lemma retry_call_repeated {K A} fuel (call : syscall K A) k r k' :
  retry_call fuel call k = Ok (r, k') → repeated call k r k'.
Proof.
  revert k. induction fuel as [|fuel IH]; intros k; [done|]. cbn. destruct (call k) as [r1 k1] eqn:E.
  destruct (interrupted r1) eqn:Ei; [|intros [= -> ->]; by apply repeated_last].
  intros Hr. eapply repeated_again; [|by apply IH]. by destruct r1 as [|[]].
Qed.

Section retry_call.
Context {K A : Type} (patience : K → nat) (call : syscall K A) (I : K → K → Prop).
Hypothesis impatient : ∀ k r k', call k = (r, k') → interrupted r = true → (patience k' < patience k)%nat.
Hypothesis intact : ∀ k r k', call k = (r, k') → interrupted r = true → I k k'.
Context `{!PreOrder I}.

(** The loop ends: after the interruptions the call is made once more, in a
    state the interruptions left intact. *)
Lemma retry_call_ends fuel k :
  (patience k < fuel)%nat →
  ∃ k1 r k', I k k1 ∧ call k1 = (r, k') ∧ interrupted r = false ∧ retry_call fuel call k = Ok (r, k').
Proof.
  revert k. induction fuel as [|fuel IH]; intros k Hf; [lia|]. simpl.
  destruct (call k) as [r k1] eqn:E. destruct (interrupted r) eqn:Er.
  - destruct (IH k1) as (k2 & r' & k' & HI & Hc & Hr & Hrun).
    { pose proof (impatient _ _ _ E Er). lia. }
    exists k2, r', k'. split_and!; try done. etrans; [by eapply intact|done].
  - exists k, r, k1. by split_and!.
Qed.

(** So the bound on the iterations is enough for every answer. *)
Lemma repeated_retry_call fuel k r k' :
  (patience k < fuel)%nat → repeated call k r k' → retry_call fuel call k = Ok (r, k').
Proof.
  intros Hf Hr. revert fuel Hf. induction Hr as [k r k' E Hi|k k1 r k' E Hr IH]; intros [|fuel] Hf; try lia; cbn; rewrite E.
  - by rewrite Hi.
  - apply IH. pose proof (impatient _ _ _ E eq_refl). lia.
Qed.
End retry_call.

(** ** Descriptors *)

(** A number that is not that of an open descriptor. *)
Definition fresh_fd (s : gset Z) : Z := 1 + set_fold Z.max 0 s.
Lemma fresh_fd_above (s : gset Z) : 0 < fresh_fd s ∧ ∀ d, d ∈ s → d < fresh_fd s.
Proof.
  unfold fresh_fd.
  pose proof (set_fold_ind_L (C:=gset Z) (λ r s, 0 ≤ r ∧ ∀ d : Z, d ∈ s → d ≤ r) Z.max 0) as HI.
  destruct (HI ltac:(split; [done|set_solver])
    ltac:(intros x X r _ [H1 H2]; split; [lia|]; intros d [->%elem_of_singleton|Hd]%elem_of_union; [lia|];
          specialize (H2 d Hd); lia) s) as [H1 H2].
  split; [lia|]. intros d Hd. specialize (H2 d Hd). lia.
Qed.
Lemma fresh_fd_new s : fresh_fd s ∉ s.
Proof. intros Hin. destruct (fresh_fd_above s) as [_ H]. specialize (H _ Hin). lia. Qed.
