(* ===== verification/Task.v ===== *)
(** * Tasks, task stacks and the run queue (src/task.c, internal/task.h)

    The stack-size arithmetic, the [mmap]ed stacks with their guard page, the
    task record, and the growable ring of runnable tasks.  The run queue is
    shown to be a FIFO list of distinct tasks. *)

From S2P Require Import Prelude Posix ArchX86.

(** ** Data of internal/task.h *)

Abbreviation tid := positive (only parsing).

Inductive TaskState :=
| TASK_RUNNABLE
| TASK_WAITING_IO
| TASK_WAITING_CHANNEL
| TASK_FINISHED.
#[global] Instance TaskState_eq_dec : EqDecision TaskState.
Proof. solve_decision. Defined.

Definition CROUTINE_IO_EVENT_NONE : Z := 0.
Definition CROUTINE_IO_EVENT_READ : Z := 1.
Definition CROUTINE_IO_EVENT_WRITE : Z := 2.

Definition CROUTINE_DEFAULT_STACK_SIZE : Z := 256 * 1024.

Record TaskSchedulerState := mkTaskSchedulerState {
  state : TaskState;
  queued : bool;
  is_main : bool
}.

Record TaskIoWaitState := mkTaskIoWaitState {
  io_fd : Z;
  io_events : Z;
  io_wake_success : bool
}.

(** [struct Task], less the sanitizer fields.  Code and data addresses are
    64-bit numbers, 0 being the null pointer. *)
Record Task := mkTask {
  context : Context;
  fn : Z;
  arg : Z;
  arg_size : Z;
  owns_arg : bool;
  stack : Z;
  stack_size : Z;
  scheduler : TaskSchedulerState;
  io_wait : TaskIoWaitState;
  channel_wake_success : bool
}.

Definition set_scheduler (f : TaskSchedulerState → TaskSchedulerState) (t : Task) : Task :=
  mkTask (context t) (fn t) (arg t) (arg_size t) (owns_arg t) (stack t) (stack_size t)
    (f (scheduler t)) (io_wait t) (channel_wake_success t).
Definition set_io_wait (f : TaskIoWaitState → TaskIoWaitState) (t : Task) : Task :=
  mkTask (context t) (fn t) (arg t) (arg_size t) (owns_arg t) (stack t) (stack_size t)
    (scheduler t) (f (io_wait t)) (channel_wake_success t).
Definition set_channel_wake (b : bool) (t : Task) : Task :=
  mkTask (context t) (fn t) (arg t) (arg_size t) (owns_arg t) (stack t) (stack_size t)
    (scheduler t) (io_wait t) b.
Definition set_state (st : TaskState) : Task → Task :=
  set_scheduler (λ s, mkTaskSchedulerState st (queued s) (is_main s)).
Definition set_queued (b : bool) : Task → Task :=
  set_scheduler (λ s, mkTaskSchedulerState (state s) b (is_main s)).

(** ** Stack sizes *)

(** The operating system, as far as stacks and start-up depend on it.
    [mmap maps n] is where a new mapping of [n] bytes goes, next to the
    mappings [maps] there are. *)
Class Os := {
  sysconf_pagesize : Z;
  sysconf_nprocessors : Z;
  mmap : gmap Z Z → Z → option Z;
  mprotect_ok : Z → Z → bool
}.

Definition get_page_size `{Os} : Z :=
  if sysconf_pagesize <=? 0 then 4096 else sysconf_pagesize.

Definition align_up (value alignment : Z) : Z :=
  Z.land (u64 (value + alignment - 1)) (u64 (Z.lnot (u64 (alignment - 1)))).

Definition get_usable_stack_size `{Os} (stack_size : Z) : Z :=
  align_up stack_size get_page_size.

Definition get_stack_mapping_size `{Os} (stack_size : Z) : Z :=
  u64 (get_page_size + get_usable_stack_size stack_size).

(** On a power-of-two alignment [align_up] is the least multiple above. *)
Lemma align_up_eq value k :
  0 ≤ k < 64 → 0 ≤ value → value + 2 ^ k ≤ 2 ^ 64 →
  align_up value (2 ^ k) = (value + 2 ^ k - 1) / 2 ^ k * 2 ^ k.
Proof.
  intros Hk Hv Hb. unfold align_up.
  assert (0 < 2 ^ k < 2 ^ 64) as Hp.
  { split; [lia|]. apply Z.pow_lt_mono_r; lia. }
  rewrite (u64_small (2 ^ k - 1)), (u64_small (value + 2 ^ k - 1)) by lia.
  rewrite land_align by lia.
  pose proof (Z.div_mod (value + 2 ^ k - 1) (2 ^ k)). lia.
Qed.

(** [align_up] on a power-of-two alignment returns the least multiple of
    the alignment that is not below the value, as long as the sum does not
    overflow [size_t]. *)
Theorem align_up_least value k :
  0 ≤ k < 64 → 0 ≤ value → value + 2 ^ k ≤ 2 ^ 64 →
  let r := align_up value (2 ^ k) in
  r mod 2 ^ k = 0 ∧ value ≤ r < value + 2 ^ k ∧
  (∀ r', r' mod 2 ^ k = 0 → value ≤ r' → r ≤ r').
Proof.
  intros Hk Hv Hb r. subst r. rewrite align_up_eq by done.
  assert (0 < 2 ^ k) by lia.
  pose proof (Z.div_mod (value + 2 ^ k - 1) (2 ^ k) ltac:(lia)).
  pose proof (Z.mod_pos_bound (value + 2 ^ k - 1) (2 ^ k) ltac:(lia)).
  split; [|split].
  - apply Z_mod_mult.
  - lia.
  - intros r' Hm Hr. apply Z.mod_divide in Hm as [q ->]; [|lia].
    apply Z.mul_le_mono_nonneg_r; [lia|].
    apply Z.lt_succ_r, Z.div_lt_upper_bound; lia.
Qed.

(** ** Stacks

    [maps] holds the live [mmap]ed regions (base to length). *)

Definition create_stack `{Os} (stack_size : Z) (maps : gmap Z Z) : Z * gmap Z Z :=
  let page_size := get_page_size in
  let mapping_size := get_stack_mapping_size stack_size in
  match mmap maps mapping_size with
  | None => (0, maps)
  | Some mapping =>
      let maps := <[mapping := mapping_size]> maps in
      if mprotect_ok mapping page_size
      then (u64 (mapping + page_size), maps)
      else (0, delete mapping maps)
  end.

Definition destroy_stack `{Os} (stack stack_size : Z) (maps : gmap Z Z) : gmap Z Z :=
  if stack =? 0 then maps else
    let page_size := get_page_size in
    let mapping_size := get_stack_mapping_size stack_size in
    let mapping := u64 (stack - page_size) in
    (* munmap of a live region; on failure the code only prints a message *)
    if bool_decide (maps !! mapping = Some mapping_size)
    then delete mapping maps else maps.

(** ** [task_cleanup] *)

(** [free] of a heap block; freeing a block that is not live is undefined. *)
Definition free_block (p : Z) (blocks : gmap Z (list byte)) : outcome (gmap Z (list byte)) :=
  if p =? 0 then Ok blocks else
    match blocks !! p with Some _ => Ok (delete p blocks) | None => Stuck end.

Definition task_cleanup `{Os} (task : Task) (maps : gmap Z Z) (blocks : gmap Z (list byte))
  : outcome (Task * gmap Z Z * gmap Z (list byte)) :=
  let maps := destroy_stack (stack task) (stack_size task) maps in
  blocks ← (if owns_arg task then free_block (arg task) blocks else Ok blocks);
  Ok (mkTask (context task) (fn task) 0 0 false 0 0
        (mkTaskSchedulerState TASK_RUNNABLE false false)
        (mkTaskIoWaitState (-1) CROUTINE_IO_EVENT_NONE false)
        false, maps, blocks).

(** ** The run queue *)

Record TaskQueue := mkTaskQueue {
  tq_tasks : option (list (option tid));
  tq_capacity : Z;
  tq_head : Z;
  tq_tail : Z;
  tq_count : Z
}.

Section queue.
Context `{Alloc}.

Definition next_index (queue : TaskQueue) (index : Z) : outcome Z :=
  umod (u64 (index + 1)) (tq_capacity queue).

Definition array_get (a : option (list (option tid))) (i : Z) : outcome (option tid) :=
  match a with
  | Some l => match l !! Z.to_nat i with Some x => Ok x | None => Stuck end
  | None => Stuck
  end.
Definition array_set (a : option (list (option tid))) (i : Z) (x : option tid)
  : outcome (option (list (option tid))) :=
  match a with
  | Some l => if Z.to_nat i <? length l then Ok (Some (<[Z.to_nat i := x]> l)) else Stuck
  | None => Stuck
  end%nat.

Definition task_queue_grow (queue : TaskQueue) : outcome (bool * TaskQueue) :=
  if SIZE_MAX / 2 <? tq_capacity queue then Ok (false, queue) else
  let new_capacity := if tq_capacity queue =? 0 then 1 else u64 (tq_capacity queue * 2) in
  if calloc_ok new_capacity 8 then
    new_tasks ← for_loop (tq_count queue)
      (λ i new_tasks,
         idx ← umod (u64 (tq_head queue + i)) (tq_capacity queue);
         x ← array_get (tq_tasks queue) idx;
         array_set new_tasks i x)
      (Some (replicate (Z.to_nat new_capacity) None));
    Ok (true, mkTaskQueue new_tasks new_capacity 0 (tq_count queue) (tq_count queue))
  else Ok (false, queue).

Definition task_queue_init (queue : option TaskQueue) (cap : Z)
  : bool * option TaskQueue :=
  match queue with
  | None => (false, None)
  | Some q =>
      if cap =? 0 then (false, Some q)
      else if calloc_ok cap 8 then
        (true, Some (mkTaskQueue (Some (replicate (Z.to_nat cap) None)) cap 0 0 0))
      else (false, Some (mkTaskQueue None 0 0 0 0))
  end.

Definition task_queue_deinit (queue : option TaskQueue) : option TaskQueue :=
  match queue with
  | None => None
  | Some _ => Some (mkTaskQueue None 0 0 0 0)
  end.

Definition task_queue_is_empty (queue : option TaskQueue) : bool :=
  match queue with
  | None => true
  | Some q => if tq_capacity q =? 0 then true else tq_count q =? 0
  end.

Definition task_queue_is_full (queue : option TaskQueue) : bool :=
  match queue with
  | None => false
  | Some q => if tq_capacity q =? 0 then false else tq_count q =? tq_capacity q
  end.

Definition task_queue_push (queue : option TaskQueue) (task : option tid)
    (heap : gmap tid Task) : outcome (bool * option TaskQueue * gmap tid Task) :=
  match queue, task with
  | Some q, Some t =>
      if tq_capacity q =? 0 then Ok (false, queue, heap) else
      match heap !! t with
      | None => Stuck
      | Some obj =>
          if queued (scheduler obj) then Ok (true, queue, heap) else
          '(ok, q) ← (if task_queue_is_full (Some q) then task_queue_grow q
                      else Ok (true, q));
          if negb ok then Ok (false, Some q, heap) else
          arr ← array_set (tq_tasks q) (tq_tail q) (Some t);
          tl ← next_index q (tq_tail q);
          Ok (true, Some (mkTaskQueue arr (tq_capacity q) (tq_head q) tl (u64 (tq_count q + 1))),
              <[t := set_queued true obj]> heap)
      end
  | _, _ => Ok (false, queue, heap)
  end.

(** [task] tells whether the output pointer is non-null. *)
Definition task_queue_pop (queue : option TaskQueue) (task : bool)
    (heap : gmap tid Task)
  : outcome (bool * option tid * option TaskQueue * gmap tid Task) :=
  match queue with
  | Some q =>
      if negb task || task_queue_is_empty (Some q)
      then Ok (false, None, queue, heap) else
      x ← array_get (tq_tasks q) (tq_head q);
      hd ← next_index q (tq_head q);
      match x with
      | None => Stuck
      | Some t =>
          match heap !! t with
          | None => Stuck
          | Some obj =>
              Ok (true, Some t,
                  Some (mkTaskQueue (tq_tasks q) (tq_capacity q) hd (tq_tail q) (u64 (tq_count q - 1))),
                  <[t := set_queued false obj]> heap)
          end
      end
  | None => Ok (false, None, queue, heap)
  end.
End queue.

Arguments array_get : simpl never.
Arguments array_set : simpl never.
Arguments task_queue_push : simpl never.
Arguments task_queue_pop : simpl never.

(** ** The queue as a list *)

Definition tq_cell (arr : list (option tid)) (j : Z) : option tid :=
  mjoin (arr !! Z.to_nat j).

(** [q] stores the tasks [l], oldest first. *)
Record tq_rep (q : TaskQueue) (l : list tid) : Prop := {
  rep_array : ∃ arr, tq_tasks q = Some arr ∧
                Z.of_nat (length arr) = tq_capacity q ∧
                ring (tq_cell arr) (tq_head q) (tq_capacity q) l;
  rep_capacity : 0 < tq_capacity q < 2 ^ 64;
  rep_head : 0 ≤ tq_head q < tq_capacity q;
  rep_count : tq_count q = Z.of_nat (length l);
  rep_bound : Z.of_nat (length l) ≤ tq_capacity q;
  rep_tail : tq_tail q = (tq_head q + Z.of_nat (length l)) mod tq_capacity q
}.

(** The queue together with the [queued] flags of the tasks: the flags say
    exactly who is in the queue, and nobody is in it twice. *)
Record tq_inv (q : TaskQueue) (heap : gmap tid Task) (l : list tid) : Prop := {
  inv_rep : tq_rep q l;
  inv_nodup : NoDup l;
  inv_live : ∀ t, t ∈ l → is_Some (heap !! t);
  inv_flag : ∀ t obj, heap !! t = Some obj → (queued (scheduler obj) = true ↔ t ∈ l)
}.

Section queue_lemmas.
Context `{Alloc}.
Implicit Types (q : TaskQueue) (l : list tid) (heap : gmap tid Task).

Lemma array_get_ok arr i x :
  arr !! Z.to_nat i = Some x → array_get (Some arr) i = Ok x.
Proof. unfold array_get. by intros ->. Qed.

Lemma array_set_ok arr i x :
  0 ≤ i < Z.of_nat (length arr) →
  array_set (Some arr) i x = Ok (Some (<[Z.to_nat i := x]> arr)).
Proof.
  intros Hi. unfold array_set.
  destruct (Nat.ltb_spec (Z.to_nat i) (length arr)); [done|lia].
Qed.

Lemma tq_cell_get arr j t :
  tq_cell arr j = Some t → array_get (Some arr) j = Ok (Some t).
Proof.
  unfold tq_cell. destruct (arr !! Z.to_nat j) as [[?|]|] eqn:E; simpl; try done.
  intros [= ->]. by apply array_get_ok.
Qed.

Lemma tq_cell_set arr i x j :
  0 ≤ i < Z.of_nat (length arr) → 0 ≤ j →
  tq_cell (<[Z.to_nat i := x]> arr) j = if decide (j = i) then x else tq_cell arr j.
Proof.
  intros Hi Hj. unfold tq_cell. case_decide as E.
  - subst j. rewrite list_lookup_insert_eq by lia. by destruct x.
  - rewrite list_lookup_insert_ne by lia. done.
Qed.

(** The copy loop of [task_queue_grow]. *)
Lemma grow_copy q l arr n :
  tq_rep q l → tq_tasks q = Some arr →
  ring (tq_cell arr) (tq_head q) (tq_capacity q) l →
  tq_capacity q ≤ SIZE_MAX / 2 → Z.of_nat (length l) ≤ n →
  ∃ new, for_loop (tq_count q)
      (λ i new_tasks,
         idx ← umod (u64 (tq_head q + i)) (tq_capacity q);
         x ← array_get (tq_tasks q) idx;
         array_set new_tasks i x)
      (Some (replicate (Z.to_nat n) None)) = Ok (Some new) ∧
    length new = Z.to_nat n ∧ ring (tq_cell new) 0 n l.
Proof.
  intros [_ Hcap Hhd Hcnt Hb _] Harr Hring Hmax Hn. rewrite Hcnt.
  destruct (for_loop_inv
    (λ i new_tasks, ∃ new, new_tasks = Some new ∧ length new = Z.to_nat n ∧
       ∀ k t, Z.of_nat k < i → l !! k = Some t → tq_cell new (Z.of_nat k) = Some t)
    (Z.of_nat (length l))
    (λ i new_tasks,
       idx ← umod (u64 (tq_head q + i)) (tq_capacity q);
       x ← array_get (tq_tasks q) idx;
       array_set new_tasks i x)
    (Some (replicate (Z.to_nat n) None))) as (a & Hrun & new & -> & Hlen & Hnew).
  - lia.
  - eexists. split; [done|]. split; [apply length_replicate|]. intros; lia.
  - intros j b Hj (new & -> & Hlen & Hnew).
    destruct (lookup_lt_is_Some_2 l (Z.to_nat j)) as [t Ht]; [lia|].
    assert (tq_cell arr ((tq_head q + j) mod tq_capacity q) = Some t) as Hc.
    { specialize (Hring _ _ Ht). by rewrite Z2Nat.id in Hring by lia. }
    rewrite SIZE_MAX_half in Hmax.
    rewrite u64_small, umod_ok by lia. simpl.
    rewrite Harr, (tq_cell_get _ _ _ Hc). simpl.
    rewrite array_set_ok by lia. eexists. split; [done|].
    eexists. split; [done|]. split; [by rewrite length_insert|].
    intros k t' Hk Hkt. rewrite tq_cell_set by lia. case_decide as Ek.
    + subst j. rewrite Nat2Z.id in Ht. congruence.
    + apply Hnew; [lia|done].
  - exists new. split; [done|]. split; [done|].
    intros k t Hk. pose proof (lookup_lt_Some _ _ _ Hk).
    rewrite Z.add_0_l, Z.mod_small by lia. apply Hnew; [lia|done].
Qed.

Lemma grow_spec q l :
  tq_rep q l →
  if (tq_capacity q <=? SIZE_MAX / 2) && calloc_ok (2 * tq_capacity q) 8
  then ∃ q', task_queue_grow q = Ok (true, q') ∧ tq_rep q' l ∧
             tq_capacity q' = 2 * tq_capacity q
  else task_queue_grow q = Ok (false, q).
Proof.
  intros Hrep. pose proof Hrep as [(arr & Harr & Hlen & Hring) Hcap Hhd Hcnt Hb _].
  unfold task_queue_grow.
  destruct (Z.leb_spec (tq_capacity q) (SIZE_MAX / 2)) as [Hle|Hgt]; simpl.
  2:{ destruct (Z.ltb_spec (SIZE_MAX / 2) (tq_capacity q)); [done|lia]. }
  destruct (Z.ltb_spec (SIZE_MAX / 2) (tq_capacity q)); [lia|].
  destruct (Z.eqb_spec (tq_capacity q) 0); [lia|].
  assert (2 * tq_capacity q < 2 ^ 64) by (rewrite SIZE_MAX_half in Hle; lia).
  rewrite (Z.mul_comm (tq_capacity q)), u64_small by lia.
  destruct (calloc_ok (2 * tq_capacity q) 8); [|done].
  destruct (grow_copy q l arr (2 * tq_capacity q)) as (new & Hrun & Hnl & Hnr);
    [done..|lia|].
  rewrite Hrun. simpl. eexists. split; [done|]. split; [|done]. rewrite Hcnt.
  split; simpl; try lia.
  - exists new. split; [done|]. split; [lia|done].
  - symmetry. apply Z.mod_small. lia.
Qed.

(** There is room for one more task, or the array can be doubled. *)
Definition tq_room (q : TaskQueue) : bool :=
  (tq_count q <? tq_capacity q) ||
  ((tq_capacity q <=? SIZE_MAX / 2) && calloc_ok (2 * tq_capacity q) 8).

(** Writing a task at the tail of a ring that is not full. *)
Lemma push_ring q l t :
  tq_rep q l → Z.of_nat (length l) < tq_capacity q →
  ∃ arr tl, array_set (tq_tasks q) (tq_tail q) (Some t) = Ok arr ∧
    next_index q (tq_tail q) = Ok tl ∧
    tq_rep (mkTaskQueue arr (tq_capacity q) (tq_head q) tl (u64 (tq_count q + 1))) (l ++ [t]).
Proof.
  intros [(arr & Harr & Hlen & Hring) Hcap Hhd Hcnt Hb Htl] Hroom.
  assert (0 ≤ tq_tail q < tq_capacity q) as Htb.
  { rewrite Htl. apply Z.mod_pos_bound. lia. }
  rewrite Harr, array_set_ok by lia. unfold next_index.
  rewrite umod_ok, (u64_small (tq_tail q + 1)), (u64_small (tq_count q + 1)) by lia.
  do 2 eexists. split; [done|]. split; [done|].
  assert (length (l ++ [t]) = S (length l)) as Hl by (rewrite length_app; simpl; lia).
  split; simpl; rewrite ?Hl; try lia.
  - eexists. split; [done|]. split; [by rewrite length_insert|].
    eapply ring_push; [done|exact Hring| |]; rewrite <-Htl.
    + intros j Hj Hne. rewrite tq_cell_set by lia. by rewrite decide_False.
    + rewrite tq_cell_set by lia. by rewrite decide_True.
  - rewrite Htl, ring_next by lia. do 2 f_equal. lia.
Qed.

Lemma is_full_spec q l :
  tq_rep q l → task_queue_is_full (Some q) = (Z.of_nat (length l) =? tq_capacity q).
Proof.
  intros [_ Hcap _ Hcnt _ _]. simpl.
  destruct (Z.eqb_spec (tq_capacity q) 0); [lia|]. by rewrite Hcnt.
Qed.

Lemma is_empty_spec q l :
  tq_rep q l → task_queue_is_empty (Some q) = bool_decide (l = []).
Proof.
  intros [_ Hcap _ Hcnt _ _]. simpl.
  destruct (Z.eqb_spec (tq_capacity q) 0); [lia|]. rewrite Hcnt.
  by destruct l.
Qed.

(** Setting the flag of a task that enters or leaves the list. *)
Lemma flag_insert heap l l' t obj b :
  heap !! t = Some obj →
  (∀ u o, heap !! u = Some o → (queued (scheduler o) = true ↔ u ∈ l)) →
  (∀ u, u ≠ t → (u ∈ l' ↔ u ∈ l)) → (b = true ↔ t ∈ l') →
  ∀ u o, <[t := set_queued b obj]> heap !! u = Some o →
         (queued (scheduler o) = true ↔ u ∈ l').
Proof.
  intros Ht Hflag Hne Hb u o. destruct (decide (u = t)) as [->|Hu].
  - rewrite lookup_insert_eq. intros [= <-]. done.
  - rewrite lookup_insert_ne by done. intros Ho. rewrite Hne by done. by apply Hflag.
Qed.

Lemma push_spec q heap l t obj :
  tq_inv q heap l → heap !! t = Some obj → t ∉ l →
  if tq_room q
  then ∃ q', task_queue_push (Some q) (Some t) heap =
               Ok (true, Some q', <[t := set_queued true obj]> heap) ∧
             tq_inv q' (<[t := set_queued true obj]> heap) (l ++ [t])
  else task_queue_push (Some q) (Some t) heap = Ok (false, Some q, heap).
Proof.
  intros [Hrep Hnd Hlive Hflag] Ht Hnot.
  pose proof Hrep as [_ Hcap _ Hcnt Hb _].
  assert (queued (scheduler obj) = false) as Hq.
  { destruct (queued (scheduler obj)) eqn:E; [|done]. by apply (Hflag t obj) in E. }
  assert (∀ q1, tq_rep q1 (l ++ [t]) → tq_inv q1 (<[t:=set_queued true obj]> heap) (l ++ [t]))
    as Hinv.
  { intros q1 Hq1. split; [done| | |].
    - apply NoDup_app. split; [done|]. split; [|apply NoDup_singleton]. set_solver.
    - intros u Hu. destruct (decide (u = t)) as [->|Hne].
      + rewrite lookup_insert_eq. eauto.
      + rewrite lookup_insert_ne by done. apply Hlive. set_solver.
    - eapply flag_insert; [done..| |]; set_solver. }
  unfold task_queue_push. destruct (Z.eqb_spec (tq_capacity q) 0); [lia|].
  rewrite Ht, Hq, (is_full_spec q l Hrep). unfold tq_room. rewrite Hcnt.
  destruct (Z.eqb_spec (Z.of_nat (length l)) (tq_capacity q)) as [Hfull|Hnf].
  - destruct (Z.ltb_spec (Z.of_nat (length l)) (tq_capacity q)); [lia|]. simpl orb.
    pose proof (grow_spec q l Hrep) as Hg.
    destruct ((tq_capacity q <=? SIZE_MAX / 2) && calloc_ok (2 * tq_capacity q) 8).
    + destruct Hg as (q1 & Hg & Hr1 & Hc1). rewrite Hg. simpl.
      destruct (push_ring q1 l t Hr1) as (arr & tl & Ha & Hn & Hr2); [lia|].
      rewrite Ha. simpl. rewrite Hn. simpl. eauto.
    + rewrite Hg. done.
  - destruct (Z.ltb_spec (Z.of_nat (length l)) (tq_capacity q)); [|lia]. simpl.
    destruct (push_ring q l t Hrep) as (arr & tl & Ha & Hn & Hr2); [lia|].
    rewrite Ha. simpl. rewrite Hn. simpl. eauto.
Qed.

Lemma push_queued_spec q heap l t obj :
  tq_inv q heap l → heap !! t = Some obj → t ∈ l →
  task_queue_push (Some q) (Some t) heap = Ok (true, Some q, heap).
Proof.
  intros [[_ Hcap _ _ _ _] _ _ Hflag] Ht Hin. unfold task_queue_push.
  destruct (Z.eqb_spec (tq_capacity q) 0); [lia|].
  rewrite Ht. by rewrite (proj2 (Hflag t obj Ht) Hin).
Qed.

Lemma pop_spec q heap t l :
  tq_inv q heap (t :: l) →
  ∃ q' obj, heap !! t = Some obj ∧
    task_queue_pop (Some q) true heap =
      Ok (true, Some t, Some q', <[t := set_queued false obj]> heap) ∧
    tq_inv q' (<[t := set_queued false obj]> heap) l.
Proof.
  intros [Hrep Hnd Hlive Hflag]. pose proof (is_empty_spec q _ Hrep) as He.
  destruct Hrep as [(arr & Harr & Hlen & Hring) Hcap Hhd Hcnt Hb Htl].
  destruct (Hlive t) as [obj Hobj]; [by left|].
  rewrite bool_decide_eq_false_2 in He by done.
  apply NoDup_cons in Hnd as [Hnot Hnd].
  assert (array_get (tq_tasks q) (tq_head q) = Ok (Some t)) as Hget.
  { rewrite Harr. apply tq_cell_get. by eapply ring_head. }
  unfold task_queue_pop. rewrite He. cbn [negb orb].
  rewrite (outcome_bind_ok _ _ _ Hget). unfold next_index.
  rewrite umod_ok, (u64_small (tq_head q + 1)) by lia. simpl in Hcnt, Hb.
  cbn [mbind outcome_bind]. rewrite Hobj, u64_small by lia.
  eexists _, obj. split; [done|]. split; [done|]. split; [|done| |].
  - split; simpl; try lia.
    + exists arr. split; [done|]. split; [done|]. apply ring_tail in Hring; [done|lia].
    + apply Z.mod_pos_bound. lia.
    + rewrite Htl, Zplus_mod_idemp_l. f_equal. simpl. lia.
  - intros u Hu. rewrite lookup_insert_ne by set_solver. apply Hlive. by right.
  - eapply flag_insert; [done..| |]; set_solver.
Qed.

Lemma pop_empty_spec q heap :
  tq_inv q heap [] → task_queue_pop (Some q) true heap = Ok (false, None, Some q, heap).
Proof.
  intros [Hrep _ _ _]. pose proof (is_empty_spec q _ Hrep) as He.
  unfold task_queue_pop. by rewrite He.
Qed.

Lemma empty_inv cap heap :
  0 < cap < 2 ^ 64 →
  (∀ t obj, heap !! t = Some obj → queued (scheduler obj) = false) →
  tq_inv (mkTaskQueue (Some (replicate (Z.to_nat cap) None)) cap 0 0 0) heap [].
Proof.
  intros Hc Hq. split.
  - split; simpl; try lia.
    + eexists. split; [done|]. rewrite length_replicate. split; [lia|apply ring_nil].
    + rewrite Z.mod_0_l; lia.
  - constructor.
  - set_solver.
  - intros t obj Ht. rewrite (Hq t obj Ht). set_solver.
Qed.

Lemma init_spec q0 cap heap :
  0 < cap < 2 ^ 64 → calloc_ok cap 8 = true →
  (∀ t obj, heap !! t = Some obj → queued (scheduler obj) = false) →
  ∃ q, task_queue_init (Some q0) cap = (true, Some q) ∧ tq_inv q heap [] ∧
       tq_capacity q = cap.
Proof.
  intros Hc Hok Hq. unfold task_queue_init.
  destruct (Z.eqb_spec cap 0); [lia|]. rewrite Hok.
  eexists. split; [done|]. split; [|done]. by apply empty_inv.
Qed.
End queue_lemmas.

(** With an allocator that grants array growth, the queue never refuses a
    task: it holds each live task at most once. *)
Lemma queue_length_bound q heap l : tq_inv q heap l → (length l ≤ size heap)%nat.
Proof.
  intros [_ Hnd Hlive _].
  rewrite <-size_dom, <-(size_list_to_set (C:=gset positive) l) by done.
  apply subseteq_size. intros t Ht%elem_of_list_to_set. apply elem_of_dom. by apply Hlive.
Qed.

Lemma room_granted `{Alloc} q heap l :
  tq_inv q heap l → calloc_grants → Z.of_nat (size heap) < 2 ^ 60 →
  tq_room q = true.
Proof.
  intros Hinv Hok Hsz. pose proof (queue_length_bound _ _ _ Hinv).
  destruct Hinv as [[_ Hcap _ Hcnt Hb _] _ _ _].
  unfold tq_room. rewrite Hcnt, SIZE_MAX_half.
  destruct (Z.ltb_spec (Z.of_nat (length l)) (tq_capacity q)); [done|].
  destruct (Z.leb_spec (tq_capacity q) (2 ^ 63 - 1)); [|lia].
  apply Hok. unfold SIZE_MAX. lia.
Qed.

(** ** The run queue against its specification *)

(** What a client may ask of the queue, and what it answers. *)
Inductive qop := QPush (t : tid) | QPop.
Inductive qanswer := Pushed (ok : bool) | Popped (t : option tid).

(** The specification: a list of distinct tasks, served in order of arrival;
    pushing a queued task again changes nothing. *)
Definition fifo_step (op : qop) (l : list tid) : qanswer * list tid :=
  match op with
  | QPush t => (Pushed true, if decide (t ∈ l) then l else l ++ [t])
  | QPop => match l with [] => (Popped None, []) | t :: l' => (Popped (Some t), l') end
  end.
Fixpoint fifo_run (ops : list qop) (l : list tid) : list qanswer * list tid :=
  match ops with
  | [] => ([], l)
  | op :: ops' =>
      let '(a, l1) := fifo_step op l in
      let '(more, l2) := fifo_run ops' l1 in (a :: more, l2)
  end.

(** The same requests served by the code of src/task.c. *)
Definition queue_step `{Alloc} (op : qop) (st : option TaskQueue * gmap tid Task)
  : outcome (qanswer * (option TaskQueue * gmap tid Task)) :=
  match op with
  | QPush t => '(ok, q, h) ← task_queue_push st.1 (Some t) st.2; Ok (Pushed ok, (q, h))
  | QPop => '(ok, t, q, h) ← task_queue_pop st.1 true st.2; Ok (Popped t, (q, h))
  end.
Fixpoint queue_run `{Alloc} (ops : list qop) (st : option TaskQueue * gmap tid Task)
  : outcome (list qanswer * (option TaskQueue * gmap tid Task)) :=
  match ops with
  | [] => Ok ([], st)
  | op :: ops' =>
      '(a, st1) ← queue_step op st;
      '(more, st2) ← queue_run ops' st1;
      Ok (a :: more, st2)
  end.

Definition qop_live (heap : gmap tid Task) (op : qop) : Prop :=
  match op with QPush t => is_Some (heap !! t) | QPop => True end.

Lemma queue_step_spec `{Alloc} op q heap l :
  calloc_grants → Z.of_nat (size heap) < 2 ^ 60 →
  tq_inv q heap l → qop_live heap op →
  ∃ q' heap', queue_step op (Some q, heap) =
                Ok ((fifo_step op l).1, (Some q', heap')) ∧
              tq_inv q' heap' (fifo_step op l).2 ∧ dom heap' = dom heap.
Proof.
  intros Hok Hsz Hinv Hlive. destruct op as [t|]; simpl.
  - destruct Hlive as [obj Hobj]. case_decide as Hin.
    + rewrite (push_queued_spec q heap l t obj) by done. simpl. eauto.
    + pose proof (push_spec q heap l t obj Hinv Hobj Hin) as Hp.
      rewrite (room_granted q heap l) in Hp by done.
      destruct Hp as (q' & -> & Hinv'). simpl.
      do 2 eexists. split; [done|]. split; [done|]. apply dom_insert_lookup_L. eauto.
  - destruct l as [|t l].
    + rewrite (pop_empty_spec q heap) by done. simpl. eauto.
    + destruct (pop_spec q heap t l Hinv) as (q' & obj & Hobj & -> & Hinv'). simpl.
      do 2 eexists. split; [done|]. split; [done|]. apply dom_insert_lookup_L. eauto.
Qed.

(** C26: The run queue of src/task.c, grown on demand, answers every sequence
    of pushes and pops exactly as a FIFO list of distinct tasks does: no task
    is lost, duplicated or reordered by wrap-around or growth. *)
Theorem run_queue_refines_fifo `{Alloc} ops q heap l :
  calloc_grants → Z.of_nat (size heap) < 2 ^ 60 →
  tq_inv q heap l → Forall (qop_live heap) ops →
  ∃ q' heap', queue_run ops (Some q, heap) =
                Ok ((fifo_run ops l).1, (Some q', heap')) ∧
              tq_inv q' heap' (fifo_run ops l).2.
Proof.
  intros Hok. revert q heap l. induction ops as [|op ops IH]; intros q heap l Hsz Hinv Hl.
  { simpl. eauto. }
  apply Forall_cons in Hl as [Hop Hl].
  destruct (queue_step_spec op q heap l Hok Hsz Hinv Hop) as (q1 & h1 & Hs & Hinv1 & Hdom).
  destruct (IH q1 h1 (fifo_step op l).2) as (q2 & h2 & Hr & Hinv2).
  { by rewrite <-size_dom, Hdom, size_dom. }
  { done. }
  { eapply Forall_impl; [done|]. intros [t|]; simpl; [|done].
    by rewrite <-!elem_of_dom, Hdom. }
  exists q2, h2. cbn [queue_run fifo_run]. rewrite Hs. cbn [mbind outcome_bind].
  rewrite Hr. cbn [mbind outcome_bind].
  destruct (fifo_step op l) as [a l1]; simpl in *.
  by destruct (fifo_run ops l1) as [more l2].
Qed.

(** When the ring is full and cannot be doubled (the capacity passes
    [SIZE_MAX / 2] or the allocation fails), a push reports failure and
    leaves queue and task untouched. *)
Theorem run_queue_push_refused `{Alloc} q heap l t obj :
  tq_inv q heap l → heap !! t = Some obj → t ∉ l → tq_count q = tq_capacity q →
  (SIZE_MAX / 2 < tq_capacity q ∨ calloc_ok (2 * tq_capacity q) 8 = false) →
  task_queue_push (Some q) (Some t) heap = Ok (false, Some q, heap).
Proof.
  intros Hinv Ht Hnot Hfull Hno. pose proof (push_spec q heap l t obj Hinv Ht Hnot) as Hp.
  assert (tq_room q = false) as Hr; [|by rewrite Hr in Hp].
  unfold tq_room. destruct (Z.ltb_spec (tq_count q) (tq_capacity q)); [lia|].
  destruct Hno as [Hno| ->]; [|by rewrite andb_false_r].
  by destruct (Z.leb_spec (tq_capacity q) (SIZE_MAX / 2)); [lia|].
Qed.

(** ** Stacks and task memory *)

(** Page sizes are powers of two below the address-space size. *)
Definition page_size_ok `{Os} : Prop := ∃ k, 12 ≤ k < 32 ∧ get_page_size = 2 ^ k.

Lemma stack_mapping_size_eq `{Os} size :
  page_size_ok → 0 ≤ size < 2 ^ 62 →
  get_stack_mapping_size size = get_page_size + get_usable_stack_size size ∧
  size ≤ get_usable_stack_size size < size + get_page_size.
Proof.
  intros (k & Hk & Hp) Hs. unfold get_stack_mapping_size, get_usable_stack_size.
  rewrite Hp. assert (0 < 2 ^ k < 2 ^ 32) by (split; [lia|apply Z.pow_lt_mono_r; lia]).
  rewrite align_up_eq by lia.
  pose proof (Z.div_mod (size + 2 ^ k - 1) (2 ^ k) ltac:(lia)).
  pose proof (Z.mod_pos_bound (size + 2 ^ k - 1) (2 ^ k) ltac:(lia)).
  rewrite u64_small by lia. lia.
Qed.

(** A new mapping is page-aligned, lies inside the address space and is not
    at the address of an existing one. *)
Definition mmap_fresh `{Os} : Prop :=
  ∀ maps n a, mmap maps n = Some a →
    0 < a ∧ a + n < 2 ^ 64 ∧ a mod get_page_size = 0 ∧ maps !! a = None.

(** C27: A stack that [create_stack] returns lies one guard page above a
    fresh mapping that holds the whole usable area, and [destroy_stack]
    with the same size unmaps exactly that mapping; a failed creation leaves
    no mapping behind. *)
Theorem stack_create_destroy `{Os} size maps :
  page_size_ok → 0 ≤ size < 2 ^ 62 →
  mmap_fresh →
  let '(stack, maps') := create_stack size maps in
  destroy_stack stack size maps' = maps ∧
  (stack = 0 → maps' = maps) ∧
  (stack ≠ 0 → ∃ n, maps' !! (stack - get_page_size) = Some n ∧
                    stack + size ≤ stack - get_page_size + n).
Proof.
  intros Hp Hs Hmmap. destruct (stack_mapping_size_eq size Hp Hs) as [Hms Hus].
  destruct Hp as (k & Hk & Hp). assert (0 < 2 ^ k) by lia.
  unfold create_stack. destruct (mmap _ _) as [a|] eqn:Ea; [|by split_and!].
  destruct (Hmmap _ _ _ Ea) as (Ha & Hb & _ & Hfresh).
  destruct (mprotect_ok a get_page_size).
  - rewrite u64_small by lia. unfold destroy_stack.
    destruct (Z.eqb_spec (a + get_page_size) 0); [lia|].
    replace (a + get_page_size - get_page_size) with a by lia.
    rewrite u64_small by lia. rewrite lookup_insert_eq.
    rewrite bool_decide_eq_true_2 by done. rewrite delete_insert_id by done.
    split_and!; [done|done|]. intros _. eexists. split; [done|]. lia.
  - rewrite delete_insert_id by done. by split_and!.
Qed.

(** C28: [task_cleanup] unmaps the task's stack and frees the argument block
    when, and only when, the runtime owns it, and leaves a record that owns
    nothing, so that a second clean-up releases nothing again. *)
Theorem task_cleanup_releases `{Os} task maps blocks :
  (owns_arg task = true → is_Some (blocks !! arg task)) →
  ∃ task', task_cleanup task maps blocks =
      Ok (task', destroy_stack (stack task) (stack_size task) maps,
          if owns_arg task && negb (arg task =? 0) then delete (arg task) blocks else blocks) ∧
    (∀ maps' blocks', task_cleanup task' maps' blocks' = Ok (task', maps', blocks')).
Proof.
  intros Hown. unfold task_cleanup, free_block.
  destruct (owns_arg task) eqn:E; simpl.
  - destruct (Hown eq_refl) as [bs Hbs].
    destruct (Z.eqb_spec (arg task) 0); simpl; [|rewrite Hbs; simpl]; eauto.
  - eauto.
Qed.

(** ** Concrete runs *)

Definition demo_task : Task :=
  mkTask (mkContext 0 0 0 0 0 0 0 0 0) 4096 0 0 false 0 0
    (mkTaskSchedulerState TASK_RUNNABLE false false)
    (mkTaskIoWaitState (-1) CROUTINE_IO_EVENT_NONE false) false.
Definition demo_heap : gmap tid Task := {[ 1%positive := demo_task; 2%positive := demo_task ]}.
Definition demo_queue (cap : Z) : TaskQueue :=
  mkTaskQueue (Some (replicate (Z.to_nat cap) None)) cap 0 0 0.

Lemma demo_heap_idle t obj : demo_heap !! t = Some obj → queued (scheduler obj) = false.
Proof.
  unfold demo_heap. intros [[_ <-]|[_ [_ <-]%lookup_singleton_Some]]%lookup_insert_Some; done.
Qed.

(** The sequence of tests/task_queue_test.c on a ring of one slot. *)
Definition demo_ops : list qop := [QPush 1; QPush 1; QPush 2; QPop; QPop; QPop].

Lemma run_queue_refines_fifo_witness :
  ∃ q' heap', @queue_run generous demo_ops (Some (demo_queue 1), demo_heap) =
    Ok ([Pushed true; Pushed true; Pushed true; Popped (Some 1%positive);
         Popped (Some 2%positive); Popped None], (Some q', heap')) ∧
    tq_inv q' heap' [].
Proof.
  apply (@run_queue_refines_fifo generous demo_ops (demo_queue 1) demo_heap []).
  - exact generous_grants.
  - vm_compute. reflexivity.
  - apply empty_inv; [lia|exact demo_heap_idle].
  - repeat constructor; eexists; vm_compute; reflexivity.
Defined.

(** A full ring of one slot whose allocator refuses to double it. *)
Program Definition stingy : Alloc := {|
  calloc_ok _ _ := false;
  malloc _ := None
|}.
Solve All Obligations with done.

Definition full_queue : TaskQueue := mkTaskQueue (Some [Some 1%positive]) 1 0 0 1.
Definition full_heap : gmap tid Task :=
  {[ 1%positive := set_queued true demo_task; 2%positive := demo_task ]}.

Lemma full_inv : tq_inv full_queue full_heap [1%positive].
Proof.
  split.
  - split; simpl; try lia; [|done]. exists [Some 1%positive]. split; [done|]. split; [done|].
    intros i x Hi. destruct i; simpl in Hi; by simplify_eq.
  - apply NoDup_singleton.
  - intros t ->%list_elem_of_singleton. by eexists.
  - intros t obj. unfold full_heap.
    intros [[<- <-]|[Hne [<- <-]%lookup_singleton_Some]]%lookup_insert_Some; simpl; set_solver.
Qed.

Lemma run_queue_push_refused_witness :
  @task_queue_push stingy (Some full_queue) (Some 2%positive) full_heap =
  Ok (false, Some full_queue, full_heap).
Proof.
  apply (@run_queue_push_refused stingy full_queue full_heap [1%positive] 2%positive demo_task).
  - exact full_inv.
  - vm_compute. reflexivity.
  - set_solver.
  - reflexivity.
  - right. reflexivity.
Defined.

Lemma align_up_least_witness :
  align_up 5000 (2 ^ 12) = 8192 ∧ align_up 5000 (2 ^ 12) mod 2 ^ 12 = 0.
Proof.
  split; [vm_compute; reflexivity|]. apply (align_up_least 5000 12); lia.
Defined.

Definition demo_os : Os := {|
  sysconf_pagesize := 4096;
  sysconf_nprocessors := 4;
  mmap maps n :=
    let a := 2 ^ 41 + (fresh_fd (dom maps) - 1) / 4096 * 4096 in
    if (n <? 2 ^ 40) && (a <? 2 ^ 62) then Some a else None;
  mprotect_ok _ _ := true
|}.

Lemma demo_page_size_ok : @page_size_ok demo_os.
Proof. exists 12. split; [lia|reflexivity]. Qed.

Lemma demo_mmap_fresh : @mmap_fresh demo_os.
Proof.
  intros maps n a. unfold mmap, demo_os. set (f := fresh_fd (dom maps)). pose proof (Z.div_mod (f - 1) 4096) as Hd.
  pose proof (Z.mod_pos_bound (f - 1) 4096) as Hm. destruct (fresh_fd_above (dom maps)) as [Hp Hn]. fold f in Hp, Hn.
  destruct (Z.ltb_spec n (2 ^ 40)), (Z.ltb_spec (2 ^ 41 + (f - 1) / 4096 * 4096) (2 ^ 62)); try done.
  intros [= <-]. split_and!; [lia..| |].
  - change (get_page_size) with 4096. replace (2 ^ 41) with (2 ^ 29 * 4096) by lia.
    rewrite <-Z.mul_add_distr_r. apply Z_mod_mult.
  - apply not_elem_of_dom. intros Hin. specialize (Hn _ Hin). lia.
Qed.

Lemma stack_create_destroy_witness :
  @destroy_stack demo_os (2 ^ 41 + 4096) 65536
    (@create_stack demo_os 65536 ∅).2 = ∅.
Proof.
  exact (proj1 (@stack_create_destroy demo_os 65536 ∅ demo_page_size_ok
                  ltac:(lia) demo_mmap_fresh)).
Defined.

Lemma task_cleanup_releases_witness :
  ∃ task', @task_cleanup demo_os (mkTask (context demo_task) 0 7 3 true 0 0
             (scheduler demo_task) (io_wait demo_task) false) ∅
             {[ 7 := [Byte.x01; Byte.x02; Byte.x03] ]} = Ok (task', ∅, ∅).
Proof.
  destruct (@task_cleanup_releases demo_os (mkTask (context demo_task) 0 7 3 true 0 0
             (scheduler demo_task) (io_wait demo_task) false) ∅
             {[ 7 := [Byte.x01; Byte.x02; Byte.x03] ]}) as (task' & Heq & _).
  - intros _. eexists. reflexivity.
  - exists task'. exact Heq.
Defined.
