(* ===== verification/IoWait.v ===== *)
(** * The table of tasks parked on descriptors (src/worker.c, [IoWaitTable])

    An unordered array of entries, one per descriptor with parked tasks, at
    most one reader and one writer each.  The table is shown to be a finite
    map from descriptors to the pair of parked tasks. *)

From S2P Require Import Prelude ArchX86 Task.

Record IoWaitEntry := mkIoWaitEntry {
  fd : Z;
  read_task : option tid;
  write_task : option tid;
  in_use : bool
}.

(** [entries] is the array behind the pointer, empty when it is null. *)
Record IoWaitTable := mkIoWaitTable {
  entries : list IoWaitEntry;
  it_capacity : Z;
  it_count : Z
}.

(** [io_wait_entry_events]: the events the parked tasks wait for. *)
Definition io_wait_entry_events (entry : IoWaitEntry) : Z :=
  let events := CROUTINE_IO_EVENT_NONE in
  let events := if read_task entry is Some _ then Z.lor events CROUTINE_IO_EVENT_READ else events in
  if write_task entry is Some _ then Z.lor events CROUTINE_IO_EVENT_WRITE else events.

(** The value [io_wait_entry_reset] writes. *)
Definition io_wait_entry_reset : IoWaitEntry := mkIoWaitEntry (-1) None None false.

(** [io_wait_entry_clear_task] *)
Definition io_wait_entry_clear_task (entry : IoWaitEntry) (task : tid) : IoWaitEntry :=
  mkIoWaitEntry (fd entry)
    (if decide (read_task entry = Some task) then None else read_task entry)
    (if decide (write_task entry = Some task) then None else write_task entry)
    (in_use entry).

Definition entry_get (es : list IoWaitEntry) (i : Z) : outcome IoWaitEntry :=
  match es !! Z.to_nat i with Some e => Ok e | None => Stuck end.
Definition entry_set (es : list IoWaitEntry) (i : Z) (e : IoWaitEntry)
  : outcome (list IoWaitEntry) :=
  if (Z.to_nat i <? length es)%nat then Ok (<[Z.to_nat i := e]> es) else Stuck.

(** The first index below the bound whose entry satisfies [p]: the shape of
    the search loops with an early return. *)
Fixpoint search (es : list IoWaitEntry) (p : IoWaitEntry → bool) (n : nat) (i : Z)
  : outcome (option Z) :=
  match n with
  | O => Ok None
  | S n' =>
      e ← entry_get es i;
      if p e then Ok (Some i) else search es p n' (i + 1)
  end.

Section table.
Context `{Alloc}.

(** [sizeof(struct IoWaitEntry)] is 32. *)
Definition io_wait_table_init (capacity : Z) : bool * IoWaitTable :=
  if calloc_ok capacity 32
  then (true, mkIoWaitTable (replicate (Z.to_nat capacity) io_wait_entry_reset) capacity 0)
  else (false, mkIoWaitTable [] 0 0).

Definition io_wait_table_deinit (table : option IoWaitTable) : option IoWaitTable :=
  match table with
  | None => None
  | Some _ => Some (mkIoWaitTable [] 0 0)
  end.

Definition io_wait_table_grow (table : IoWaitTable) : outcome (bool * IoWaitTable) :=
  let new_capacity := if it_capacity table =? 0 then 1 else u64 (it_capacity table * 2) in
  if calloc_ok new_capacity 32 then
    '(es, dst) ← for_loop (it_capacity table)
      (λ i '(es, dst),
         e ← entry_get (entries table) i;
         if negb (in_use e) then Ok (es, dst) else
         es' ← entry_set es dst e;
         Ok (es', u64 (dst + 1)))
      (replicate (Z.to_nat new_capacity) io_wait_entry_reset, 0);
    Ok (true, mkIoWaitTable es new_capacity dst)
  else Ok (false, table).

Definition io_wait_table_find (table : IoWaitTable) (fd' : Z) : outcome (option Z) :=
  search (entries table) (λ e, in_use e && (fd e =? fd')) (Z.to_nat (it_capacity table)) 0.

Definition io_wait_table_get_or_insert (table : IoWaitTable) (fd' : Z)
  : outcome (option Z * IoWaitTable) :=
  found ← io_wait_table_find table fd';
  match found with
  | Some i => Ok (Some i, table)
  | None =>
      '(ok, table) ← (if it_count table =? it_capacity table
                      then io_wait_table_grow table else Ok (true, table));
      if negb ok then Ok (None, table) else
      free ← search (entries table) (λ e, negb (in_use e))
               (Z.to_nat (it_capacity table)) 0;
      match free with
      | Some i =>
          es ← entry_set (entries table) i (mkIoWaitEntry fd' None None true);
          Ok (Some i, mkIoWaitTable es (it_capacity table) (u64 (it_count table + 1)))
      | None => Ok (None, table)
      end
  end.

Definition io_wait_table_remove_entry (table : IoWaitTable) (entry : option Z)
  : outcome IoWaitTable :=
  match entry with
  | None => Ok table
  | Some i =>
      e ← entry_get (entries table) i;
      if negb (in_use e) then Ok table else
      es ← entry_set (entries table) i io_wait_entry_reset;
      Ok (mkIoWaitTable es (it_capacity table)
            (if 0 <? it_count table then it_count table - 1 else it_count table))
  end.
End table.

(** Overwriting the entry behind a pointer. *)
Definition io_wait_entry_update (table : IoWaitTable) (i : Z)
    (f : IoWaitEntry → IoWaitEntry) : outcome IoWaitTable :=
  e ← entry_get (entries table) i;
  es ← entry_set (entries table) i (f e);
  Ok (mkIoWaitTable es (it_capacity table) (it_count table)).

Arguments entry_get : simpl never.
Arguments entry_set : simpl never.

(** ** The table as a map from descriptors to parked tasks *)

Definition used (es : list IoWaitEntry) : list IoWaitEntry := filter (λ e, in_use e = true) es.

Definition parked_of (e : IoWaitEntry) : option tid * option tid :=
  (read_task e, write_task e).
Definition binding (e : IoWaitEntry) : Z * (option tid * option tid) :=
  (fd e, parked_of e).

(** The table [tb] stores the map [m]. *)
Record it_rep (tb : IoWaitTable) (m : gmap Z (option tid * option tid)) : Prop := {
  it_len : Z.of_nat (length (entries tb)) = it_capacity tb;
  it_cap : it_capacity tb < 2 ^ 62;
  it_cnt : it_count tb = Z.of_nat (length (used (entries tb)));
  it_nodup : NoDup (fd <$> used (entries tb));
  it_map : m = list_to_map (binding <$> used (entries tb))
}.

Lemma entry_get_ok es i e : es !! Z.to_nat i = Some e → entry_get es i = Ok e.
Proof. unfold entry_get. by intros ->. Qed.

Lemma entry_set_ok es i e :
  (Z.to_nat i < length es)%nat → entry_set es i e = Ok (<[Z.to_nat i := e]> es).
Proof. intros Hi. unfold entry_set. by destruct (Nat.ltb_spec (Z.to_nat i) (length es)); [|lia]. Qed.

Lemma search_spec es p n i :
  0 ≤ i → i + Z.of_nat n ≤ Z.of_nat (length es) →
  ∃ r, search es p n i = Ok r ∧
    match r with
    | Some j => i ≤ j < i + Z.of_nat n ∧ ∃ e, es !! Z.to_nat j = Some e ∧ p e = true
    | None => ∀ j e, i ≤ Z.of_nat j < i + Z.of_nat n → es !! j = Some e → p e = false
    end.
Proof.
  revert i. induction n as [|n IH]; intros i Hi Hn.
  { exists None. split; [done|]. intros j e Hj. lia. }
  destruct (lookup_lt_is_Some_2 es (Z.to_nat i)) as [e He]; [lia|].
  cbn [search]. rewrite (entry_get_ok _ _ _ He). cbn [mbind outcome_bind].
  destruct (p e) eqn:Ep.
  { exists (Some i). split; [done|]. split; [lia|eauto]. }
  destruct (IH (i + 1)) as (r & -> & Hr); [lia|lia|]. exists r. split; [done|].
  destruct r as [j|].
  - destruct Hr as [Hj He']. split; [lia|done].
  - intros j e' Hj He'. destruct (decide (Z.of_nat j = i)) as [Hji|Hne].
    + replace (Z.to_nat i) with j in He by lia. congruence.
    + apply (Hr j); [lia|done].
Qed.

(** Overwriting one entry, seen from the list of used entries. *)
Lemma used_split es i e :
  es !! i = Some e →
  used es = used (take i es) ++ (if in_use e then [e] else []) ++ used (drop (S i) es).
Proof.
  intros He. unfold used. rewrite <-(take_drop_middle es i e He) at 1.
  rewrite filter_app, filter_cons.
  destruct (in_use e); case_decide; done.
Qed.

Lemma used_insert es i e e' :
  es !! i = Some e →
  used (<[i := e']> es) =
  used (take i es) ++ (if in_use e' then [e'] else []) ++ used (drop (S i) es).
Proof.
  intros He. pose proof (lookup_lt_Some _ _ _ He) as Hlt.
  rewrite (used_split (<[i:=e']> es) i e') by (by apply list_lookup_insert_eq).
  by rewrite take_insert_ge, drop_insert_lt by lia.
Qed.

Lemma used_all es : length (used es) = length es → ∀ i e, es !! i = Some e → in_use e = true.
Proof.
  unfold used. induction es as [|x es IH]; intros Hl i e; [done|].
  rewrite filter_cons in Hl. case_decide as Hx; simpl in Hl.
  - destruct i; simpl; [intros [= <-]; done|]. apply IH. lia.
  - pose proof (length_filter (λ e, in_use e = true) es). lia.
Qed.

Lemma used_le es : (length (used es) ≤ length es)%nat.
Proof. apply length_filter. Qed.

Lemma used_replicate n : used (replicate n io_wait_entry_reset) = [].
Proof. unfold used. induction n as [|n IH]; [done|]. simpl. rewrite filter_cons. by case_decide. Qed.

Lemma elem_of_used es e :
  e ∈ used es ↔ in_use e = true ∧ ∃ i, es !! i = Some e.
Proof. unfold used. by rewrite list_elem_of_filter, list_elem_of_lookup. Qed.

Lemma binding_fst l : (binding <$> l).*1 = fd <$> l.
Proof. rewrite <-list_fmap_compose. done. Qed.

(** A binding in the middle of the table. *)
Lemma bindings_middle l1 e l2 :
  NoDup (fd <$> l1 ++ e :: l2) →
  list_to_map (M:=gmap Z _) (binding <$> l1 ++ e :: l2) =
    <[fd e := parked_of e]> (list_to_map (binding <$> l1 ++ l2)) ∧
  list_to_map (M:=gmap Z _) (binding <$> l1 ++ l2) !! fd e = None ∧
  NoDup (fd <$> l1 ++ l2).
Proof.
  intros Hnd.
  assert (fd <$> l1 ++ e :: l2 ≡ₚ fd e :: (fd <$> l1 ++ l2)) as Hp.
  { rewrite !fmap_app, fmap_cons. by rewrite Permutation_middle. }
  pose proof Hnd as Hnd'. rewrite Hp in Hnd'. apply NoDup_cons in Hnd' as [Hni Hnd'].
  split; [|split].
  - rewrite (list_to_map_proper _ (binding e :: (binding <$> l1 ++ l2))); [done| |].
    + by rewrite binding_fst.
    + rewrite !fmap_app, fmap_cons. by rewrite Permutation_middle.
  - apply not_elem_of_list_to_map. by rewrite binding_fst.
  - done.
Qed.

Lemma it_lookup tb m d v :
  it_rep tb m → (m !! d = Some v ↔ ∃ i e, entries tb !! i = Some e ∧ in_use e = true ∧
                                        fd e = d ∧ v = parked_of e).
Proof.
  intros [_ _ _ Hnd ->]. rewrite <-elem_of_list_to_map by (by rewrite binding_fst).
  rewrite list_elem_of_fmap. split.
  - intros (e & [= -> ->] & [Hu [i Hi]]%elem_of_used). eauto 10.
  - intros (i & e & Hi & Hu & <- & ->). exists e. split; [done|]. apply elem_of_used. eauto.
Qed.

Section table_lemmas.
Context `{Alloc}.
Implicit Types (tb : IoWaitTable) (m : gmap Z (option tid * option tid)).

Lemma find_spec tb m d :
  it_rep tb m →
  ∃ r, io_wait_table_find tb d = Ok r ∧
    match r with
    | Some i => 0 ≤ i ∧ ∃ e, entries tb !! Z.to_nat i = Some e ∧ in_use e = true ∧
                  fd e = d ∧ m !! d = Some (parked_of e)
    | None => m !! d = None
    end.
Proof.
  intros Hrep. pose proof (it_len _ _ Hrep). unfold io_wait_table_find.
  destruct (search_spec (entries tb) (λ e, in_use e && (fd e =? d))
              (Z.to_nat (it_capacity tb)) 0) as (r & -> & Hr); [lia..|].
  exists r. split; [done|]. destruct r as [i|].
  - destruct Hr as (Hi & e & He & [Hu Hd%Z.eqb_eq]%andb_prop).
    split; [lia|]. exists e. split_and!; try done. apply (it_lookup tb); eauto 10.
  - destruct (m !! d) as [v|] eqn:E; [exfalso|done].
    apply (it_lookup tb) in E as (i & e & Hi & Hu & <- & _); [|done].
    pose proof (lookup_lt_Some _ _ _ Hi).
    specialize (Hr i e ltac:(lia) Hi). by rewrite Hu, Z.eqb_refl in Hr.
Qed.

(** The entry at [i] is replaced by one for the same descriptor. *)
Lemma update_rep tb m i e e' :
  it_rep tb m → entries tb !! i = Some e → in_use e = true → in_use e' = true →
  fd e' = fd e →
  it_rep (mkIoWaitTable (<[i := e']> (entries tb)) (it_capacity tb) (it_count tb))
    (<[fd e := parked_of e']> m).
Proof.
  intros [Hlen Hcap Hcnt Hnd ->] He Hu Hu' Hfd.
  pose proof (used_split _ _ _ He) as Hs. pose proof (used_insert _ _ _ e' He) as Hi.
  rewrite Hu in Hs. rewrite Hu' in Hi. simpl in Hs, Hi.
  rewrite Hs in Hnd. pose proof (bindings_middle _ _ _ Hnd) as (Hm & _ & _).
  assert (NoDup (fd <$> used (take i (entries tb)) ++ e' :: used (drop (S i) (entries tb))))
    as Hnd'.
  { rewrite fmap_app, fmap_cons in Hnd |- *. by rewrite Hfd. }
  pose proof (bindings_middle _ _ _ Hnd') as (Hm' & _ & _).
  split; simpl; rewrite ?Hi, ?length_insert; try done.
  - rewrite Hcnt, Hs, !length_app. done.
  - rewrite Hm', Hs, Hm, Hfd. by rewrite insert_insert_eq.
Qed.

(** A free entry at [i] is taken for a new descriptor. *)
Lemma take_free_rep tb m i e e' :
  it_rep tb m → entries tb !! i = Some e → in_use e = false → in_use e' = true →
  m !! fd e' = None →
  it_rep (mkIoWaitTable (<[i := e']> (entries tb)) (it_capacity tb) (u64 (it_count tb + 1)))
    (<[fd e' := parked_of e']> m).
Proof.
  intros [Hlen Hcap Hcnt Hnd ->] He Hu Hu' Hfresh.
  pose proof (used_split _ _ _ He) as Hs. pose proof (used_insert _ _ _ e' He) as Hi.
  rewrite Hu in Hs. rewrite Hu' in Hi. simpl in Hs, Hi. rewrite Hs in Hnd, Hfresh.
  assert (NoDup (fd <$> used (take i (entries tb)) ++ e' :: used (drop (S i) (entries tb))))
    as Hnd'.
  { rewrite fmap_app, fmap_cons, <-Permutation_middle, <-fmap_app.
    apply NoDup_cons. split; [|done]. rewrite <-binding_fst.
    by apply not_elem_of_list_to_map. }
  pose proof (bindings_middle _ _ _ Hnd') as (Hm' & _ & _).
  pose proof (used_le (entries tb)).
  split; simpl; rewrite ?Hi, ?length_insert; try done.
  - rewrite u64_small by lia. rewrite Hcnt, Hs, !length_app. simpl. lia.
  - by rewrite Hm', Hs.
Qed.

Lemma remove_spec tb m i e :
  it_rep tb m → entries tb !! Z.to_nat i = Some e → in_use e = true →
  ∃ tb', io_wait_table_remove_entry tb (Some i) = Ok tb' ∧
         it_rep tb' (delete (fd e) m) ∧ it_capacity tb' = it_capacity tb ∧
         entries tb' = <[Z.to_nat i := io_wait_entry_reset]> (entries tb).
Proof.
  intros [Hlen Hcap Hcnt Hnd ->] He Hu.
  pose proof (used_split _ _ _ He) as Hs.
  pose proof (used_insert _ _ _ io_wait_entry_reset He) as Hi.
  rewrite Hu in Hs. simpl in Hs, Hi. rewrite Hs in Hnd.
  pose proof (bindings_middle _ _ _ Hnd) as (Hm & Hno & Hnd').
  unfold io_wait_table_remove_entry.
  rewrite (entry_get_ok _ _ _ He). cbn [mbind outcome_bind]. rewrite Hu. cbn [negb].
  rewrite entry_set_ok by (by eapply lookup_lt_Some). cbn [mbind outcome_bind].
  eexists. split; [done|]. split; [|done].
  rewrite Hs, length_app in Hcnt. simpl in Hcnt.
  split; simpl; rewrite ?Hi, ?length_insert; try done.
  - destruct (Z.ltb_spec 0 (it_count tb)); [|lia]. rewrite length_app. lia.
  - rewrite Hs, Hm. by rewrite delete_insert_id.
Qed.

(** The compaction loop of [io_wait_table_grow]. *)
Lemma grow_compact es n :
  (length (used es) ≤ n)%nat → Z.of_nat (length es) < 2 ^ 62 →
  for_loop (Z.of_nat (length es))
    (λ i '(new, dst),
       e ← entry_get es i;
       if negb (in_use e) then Ok (new, dst) else
       es' ← entry_set new dst e;
       Ok (es', u64 (dst + 1)))
    (replicate n io_wait_entry_reset, 0) =
  Ok (used es ++ replicate (n - length (used es)) io_wait_entry_reset,
      Z.of_nat (length (used es))).
Proof.
  intros Hn Hb.
  destruct (for_loop_inv
    (λ i st, st = (used (take (Z.to_nat i) es) ++
                   replicate (n - length (used (take (Z.to_nat i) es))) io_wait_entry_reset,
                   Z.of_nat (length (used (take (Z.to_nat i) es)))))
    (Z.of_nat (length es))
    (λ i '(new, dst),
       e ← entry_get es i;
       if negb (in_use e) then Ok (new, dst) else
       es' ← entry_set new dst e;
       Ok (es', u64 (dst + 1)))
    (replicate n io_wait_entry_reset, 0)) as (a & -> & ->).
  - lia.
  - simpl. by rewrite Nat.sub_0_r.
  - intros j b Hj ->.
    destruct (lookup_lt_is_Some_2 es (Z.to_nat j)) as [e He]; [lia|].
    rewrite (entry_get_ok _ _ _ He). cbn [mbind outcome_bind].
    replace (Z.to_nat (j + 1)) with (S (Z.to_nat j)) by lia.
    rewrite (take_S_r _ _ _ He). set (l1 := used (take (Z.to_nat j) es)).
    assert (used (take (Z.to_nat j) es ++ [e]) = l1 ++ if in_use e then [e] else []) as Hu.
    { unfold used. rewrite filter_app, filter_cons.
      by destruct (in_use e); case_decide. }
    rewrite Hu. destruct (in_use e) eqn:Eu; cbn [negb].
    2:{ eexists. split; [done|]. by rewrite app_nil_r. }
    pose proof (used_split _ _ _ He) as Hs. rewrite Eu in Hs.
    apply (f_equal length) in Hs. rewrite !length_app in Hs. simpl in Hs. fold l1 in Hs.
    rewrite entry_set_ok by (rewrite length_app, length_replicate; lia).
    cbn [mbind outcome_bind]. eexists. split; [done|].
    pose proof (used_le es).
    rewrite u64_small, Nat2Z.id, length_app by lia. simpl length. f_equal; [|lia].
    replace (n - length l1)%nat with (S (n - (length l1 + 1))) by lia.
    replace (length l1) with (length l1 + 0)%nat at 1 by lia.
    rewrite insert_app_r. simpl. by rewrite <-app_assoc.
  - by rewrite Nat2Z.id, firstn_all.
Qed.

Lemma grow_rep tb m :
  it_rep tb m →
  let n := if it_capacity tb =? 0 then 1 else 2 * it_capacity tb in
  if calloc_ok n 32
  then ∃ tb', io_wait_table_grow tb = Ok (true, tb') ∧ it_rep tb' m ∧ it_capacity tb' = n ∧
              it_count tb' = it_count tb
  else io_wait_table_grow tb = Ok (false, tb).
Proof.
  intros [Hlen Hcap Hcnt Hnd Hm] n. unfold io_wait_table_grow.
  assert ((if it_capacity tb =? 0 then 1 else u64 (it_capacity tb * 2)) = n) as ->.
  { subst n. destruct (Z.eqb_spec (it_capacity tb) 0); [done|]. rewrite u64_small; lia. }
  destruct (calloc_ok n 32) eqn:Eok; [|done].
  apply calloc_bound in Eok. unfold SIZE_MAX in Eok.
  pose proof (used_le (entries tb)).
  assert (it_capacity tb ≤ n) by (subst n; destruct (Z.eqb_spec (it_capacity tb) 0); lia).
  pose proof (grow_compact (entries tb) (Z.to_nat n) ltac:(lia) ltac:(lia)) as Hloop.
  rewrite Hlen in Hloop. rewrite Hloop. clear Hloop.
  assert (used (used (entries tb) ++
                replicate (Z.to_nat n - length (used (entries tb))) io_wait_entry_reset)
          = used (entries tb)) as Hu.
  { unfold used at 1. rewrite filter_app. fold (used (used (entries tb))).
    fold (used (replicate (Z.to_nat n - length (used (entries tb))) io_wait_entry_reset)).
    rewrite used_replicate, app_nil_r. unfold used.
    rewrite list_filter_filter. apply list_filter_iff. tauto. }
  eexists. split; [done|]. split; [|done]. split; simpl; rewrite ?Hu; try done; try lia.
  rewrite length_app, length_replicate. lia.
Qed.

Lemma search_free tb m :
  it_rep tb m → it_count tb < it_capacity tb →
  ∃ i e, search (entries tb) (λ e, negb (in_use e)) (Z.to_nat (it_capacity tb)) 0 = Ok (Some i) ∧
         entries tb !! Z.to_nat i = Some e ∧ in_use e = false ∧ 0 ≤ i.
Proof.
  intros [Hlen Hcap Hcnt _ _] Hfree.
  destruct (search_spec (entries tb) (λ e, negb (in_use e))
              (Z.to_nat (it_capacity tb)) 0) as (r & -> & Hr); [lia..|].
  destruct r as [i|].
  - destruct Hr as (Hi & e & He & Hu%negb_true_iff). exists i, e. split_and!; [done..|lia].
  - exfalso. assert (length (used (entries tb)) = length (entries tb)) as Hall; [|lia].
    clear Hcnt Hcap Hfree. rewrite <-Hlen in Hr. clear Hlen.
    assert (∀ e, e ∈ entries tb → in_use e = true) as Hin.
    { intros e [j Hj]%list_elem_of_lookup. pose proof (lookup_lt_Some _ _ _ Hj).
      specialize (Hr j e ltac:(lia) Hj). by apply negb_false_iff in Hr. }
    unfold used. f_equal. induction (entries tb) as [|x l IH]; [done|].
    rewrite filter_cons, decide_True by (apply Hin; left).
    f_equal. apply IH; [|intros; apply Hin; by right].
    intros j e Hj He. apply (Hr (S j)); [simpl in *; lia|done].
Qed.

Lemma get_or_insert_spec tb m d :
  it_rep tb m →
  ∃ r tb', io_wait_table_get_or_insert tb d = Ok (r, tb') ∧
    match r with
    | Some i => 0 ≤ i ∧ ∃ e, entries tb' !! Z.to_nat i = Some e ∧ in_use e = true ∧ fd e = d ∧
                  it_rep tb' (<[d := parked_of e]> m) ∧
                  (m !! d = Some (parked_of e) ∨ (m !! d = None ∧ parked_of e = (None, None)))
    | None => tb' = tb ∧ m !! d = None ∧
              calloc_ok (if it_capacity tb =? 0 then 1 else 2 * it_capacity tb) 32 = false
    end.
Proof.
  intros Hrep. unfold io_wait_table_get_or_insert.
  destruct (find_spec tb m d Hrep) as (r & -> & Hr). cbn [mbind outcome_bind].
  destruct r as [i|].
  { destruct Hr as (Hi & e & He & Hu & Hd & Hm). exists (Some i), tb. split; [done|].
    split; [done|]. exists e. split_and!; try done; [|by left]. by rewrite insert_id. }
  assert (∀ tb1, it_rep tb1 m → it_count tb1 < it_capacity tb1 →
    ∃ r tb', (free ← search (entries tb1) (λ e, negb (in_use e)) (Z.to_nat (it_capacity tb1)) 0;
       match free with
       | Some i =>
           es ← entry_set (entries tb1) i (mkIoWaitEntry d None None true);
           Ok (Some i, mkIoWaitTable es (it_capacity tb1) (u64 (it_count tb1 + 1)))
       | None => Ok (None, tb1)
       end) = Ok (Some r, tb') ∧ 0 ≤ r ∧
      ∃ e, entries tb' !! Z.to_nat r = Some e ∧ in_use e = true ∧ fd e = d ∧
           it_rep tb' (<[d := parked_of e]> m) ∧ parked_of e = (None, None)) as Hins.
  { intros tb1 Hrep1 Hfree.
    destruct (search_free tb1 m Hrep1 Hfree) as (i & e & -> & He & Hu & Hi).
    pose proof (lookup_lt_Some _ _ _ He). cbn [mbind outcome_bind].
    rewrite entry_set_ok by done. cbn [mbind outcome_bind].
    do 2 eexists. split; [done|]. split; [done|].
    eexists. simpl. split; [by apply list_lookup_insert_eq|]. split_and!; try done.
    by apply (take_free_rep tb1 m _ e (mkIoWaitEntry d None None true)). }
  pose proof (used_le (entries tb)). pose proof (it_len _ _ Hrep). pose proof (it_cnt _ _ Hrep).
  destruct (Z.eqb_spec (it_count tb) (it_capacity tb)) as [Hfull|Hnf].
  - pose proof (grow_rep tb m Hrep) as Hg. simpl in Hg.
    destruct (calloc_ok (if it_capacity tb =? 0 then 1 else 2 * it_capacity tb) 32) eqn:Eok.
    + destruct Hg as (tb1 & -> & Hrep1 & Hcap1 & Hcnt1). cbn [mbind outcome_bind negb].
      destruct (Hins tb1 Hrep1) as (i & tb' & -> & Hi & e & ? & ? & ? & ? & ?).
      { destruct (Z.eqb_spec (it_capacity tb) 0); lia. }
      do 2 eexists. split; [done|]. split; [done|]. eauto 10.
    + rewrite Hg. cbn [mbind outcome_bind negb]. do 2 eexists. split; [done|]. done.
  - cbn [mbind outcome_bind negb].
    destruct (Hins tb Hrep) as (i & tb' & -> & Hi & e & ? & ? & ? & ? & ?); [lia|].
    do 2 eexists. split; [done|]. split; [done|]. eauto 10.
Qed.

Lemma init_rep cap :
  0 ≤ cap < 2 ^ 62 →
  let '(ok, tb) := io_wait_table_init cap in
  it_rep tb ∅ ∧ it_capacity tb = (if ok then cap else 0).
Proof.
  intros Hc. unfold io_wait_table_init. destruct (calloc_ok cap 32); (split; [split|done]);
    simpl; rewrite ?used_replicate, ?length_replicate; try done; try lia; constructor.
Qed.
End table_lemmas.
