(* ===== verification/PollerApi.v ===== *)
(** * The interface between the scheduler and a readiness poller
    (internal/poller.h)

    The scheduler is written against five functions, which
    src/poller_epoll.c, src/poller_kqueue.c and src/poller_stub.c implement.
    [Poller] gives the operations and [PollerLaws] what the scheduler relies
    on: the events registered for a descriptor are the ones last set, and a
    wake-up stays pending until the poller is waited on. *)

From S2P Require Import Prelude Posix Task.

(** [struct CroutinePollEvent] *)
Record CroutinePollEvent := mkPollEvent { pe_fd : Z; pe_events : Z }.

(** [poller_wait] gets the answers of the kernel to the successive attempts;
    [None] is the result -1. *)
Class Poller (P : Type) := {
  kernel_event : Type;
  poller_init : M P bool;
  poller_deinit : M P unit;
  poller_set : Z → Z → Z → M P bool;
  poller_wait : Z → list (sysres (list kernel_event)) → M P (option (list CroutinePollEvent));
  poller_wake : M P bool
}.

(** Descriptors are [int]s; event masks combine READ and WRITE. *)
Definition fd_ok (fd : Z) : Prop := - 2 ^ 31 ≤ fd < 2 ^ 31.
Definition events_ok (ev : Z) : Prop := 0 ≤ ev ≤ 3.
(** A request to add one kind of event to those already registered. *)
Definition adds_one (old new : Z) : Prop :=
  ∃ ev, (ev = CROUTINE_IO_EVENT_READ ∨ ev = CROUTINE_IO_EVENT_WRITE) ∧
        Z.land old ev = 0 ∧ new = Z.lor old ev.
(** The kernel never reports more events than there is room for. *)
Definition fits_in {A} (max : Z) (answers : list (sysres (list A))) : Prop :=
  ∀ evs, Done evs ∈ answers → Z.of_nat (length evs) ≤ max.

Class PollerLaws (P : Type) `{Poller P} := {
  (** an initialised poller, whose bookkeeping and kernel state agree *)
  poller_ready : P → Prop;
  (** an [int] that is not a descriptor of the poller's own *)
  fd_valid : P → Z → Prop;
  (** the events registered for a descriptor *)
  interest : P → Z → Z;
  (** what the kernel may put into an event (its fields have their widths) *)
  event_ok : kernel_event → Prop;
  (** a wake-up has been requested and no wait has consumed it *)
  wake_pending : P → Prop;
  (** a poller that is not initialised *)
  poller_down : P → Prop;
  poller_set_law : ∀ fd old new p,
    poller_ready p → fd_valid p fd → events_ok old → events_ok new → interest p fd = old →
    ∃ b p', poller_set fd old new p = Ok (b, p') ∧ poller_ready p' ∧
      (∀ d, fd_valid p' d ↔ fd_valid p d) ∧
      (∀ fd', fd' ≠ fd → interest p' fd' = interest p fd') ∧
      (wake_pending p → wake_pending p') ∧
      (if b then interest p' fd = new else adds_one old new → interest p' fd = old);
  poller_wait_law : ∀ max answers p,
    poller_ready p → 0 < max < 2 ^ 31 → answered answers → fits_in max answers →
    (∀ evs, Done evs ∈ answers → Forall event_ok evs) →
    ∃ r p', poller_wait max answers p = Ok (r, p') ∧ poller_ready p' ∧
      (∀ d, fd_valid p' d ↔ fd_valid p d) ∧ (∀ fd, interest p' fd = interest p fd) ∧
      (∀ evs, r = Some evs → Z.of_nat (length evs) ≤ max);
  poller_wake_law : ∀ p, poller_ready p →
    ∃ b p', poller_wake p = Ok (b, p') ∧ poller_ready p' ∧
      (∀ d, fd_valid p' d ↔ fd_valid p d) ∧ (∀ fd, interest p' fd = interest p fd) ∧
      (wake_pending p → wake_pending p') ∧ (b = true → wake_pending p');
  poller_init_law : ∀ p, poller_down p →
    ∃ b p', poller_init p = Ok (b, p') ∧
      if b then poller_ready p' ∧ (∀ fd, interest p' fd = CROUTINE_IO_EVENT_NONE) else poller_down p';
  poller_deinit_law : ∀ p, poller_ready p →
    ∃ p', poller_deinit p = Ok (tt, p') ∧ poller_down p'
}.
