(* ===== verification/PollerEpoll.v ===== *)
(** * The epoll poller (src/poller_epoll.c)

    Descriptors are registered with the kernel under a token that combines
    the descriptor and a generation count; a table of generations and flags
    indexed by descriptor tells current tokens from stale ones.  The kernel
    is a parameter ([EpollKernel]) with the documented behaviour of
    [epoll_ctl] and [eventfd] as laws ([EpollLaws]). *)

From S2P Require Import Prelude Posix Task PollerApi.

Inductive ctl_op := EPOLL_CTL_ADD | EPOLL_CTL_MOD | EPOLL_CTL_DEL.
(** [struct epoll_event]; [data] is the 64-bit token. *)
Record epoll_event := mkEpollEvent { ee_events : Z; ee_data : Z }.

Definition EPOLLIN : Z := 0x1.
Definition EPOLLPRI : Z := 0x2.
Definition EPOLLOUT : Z := 0x4.
Definition EPOLLERR : Z := 0x8.
Definition EPOLLHUP : Z := 0x10.
Definition EPOLLRDHUP : Z := 0x2000.

(** The system calls, on a kernel state [K]. *)
Class EpollKernel (K : Type) := {
  epoll_create1 : syscall K Z;
  eventfd : syscall K Z;
  epoll_ctl : Z → ctl_op → Z → option epoll_event → syscall K unit;
  eventfd_read : Z → syscall K Z;
  eventfd_write : Z → Z → syscall K unit;
  close : Z → K → K
}.

(** The file-scope state.  The two tables are the arrays behind the
    pointers, empty when they are null. *)
Record epoll (K : Type) := mkEpoll {
  poller_fd : Z;
  wake_fd : Z;
  fd_generations : list Z;
  fd_registered : list Z;
  fd_table_capacity : Z;
  kern : K
}.
Arguments mkEpoll {K}.
Arguments poller_fd {K}.
Arguments wake_fd {K}.
Arguments fd_generations {K}.
Arguments fd_registered {K}.
Arguments fd_table_capacity {K}.
Arguments kern {K}.

Definition WAKE_TOKEN : Z := 2 ^ 64 - 1.

Module Epoll.
Section epoll.
Context `{Alloc} {K : Type} `{EpollKernel K}.
Abbreviation St := (epoll K).

Definition set_poller_fd v (p : St) : St :=
  mkEpoll v (wake_fd p) (fd_generations p) (fd_registered p) (fd_table_capacity p) (kern p).
Definition set_wake_fd v (p : St) : St :=
  mkEpoll (poller_fd p) v (fd_generations p) (fd_registered p) (fd_table_capacity p) (kern p).
Definition set_tables g r c (p : St) : St := mkEpoll (poller_fd p) (wake_fd p) g r c (kern p).
Definition set_generations g (p : St) : St := set_tables g (fd_registered p) (fd_table_capacity p) p.
Definition set_registered r (p : St) : St := set_tables (fd_generations p) r (fd_table_capacity p) p.
Definition set_kern k (p : St) : St :=
  mkEpoll (poller_fd p) (wake_fd p) (fd_generations p) (fd_registered p) (fd_table_capacity p) k.

Definition sys {A} (call : syscall K A) : M St (sysres A) := λ p,
  let '(r, k) := call (kern p) in Ok (r, set_kern k p).
Definition lift {A} (o : outcome A) : M St A := λ p, a ← o; Ok (a, p).

(** The loop of [ensure_fd_capacity]; 64 doublings exceed any [size_t]. *)
Fixpoint double_until (fuel : nat) (capacity needed : Z) : outcome (option Z) :=
  match fuel with
  | O => OutOfFuel
  | S fuel =>
      if capacity <? needed then
        if SIZE_MAX / 2 <? capacity then Ok None
        else double_until fuel (u64 (capacity * 2)) needed
      else Ok (Some capacity)
  end.

(** [calloc] followed by the [memcpy] of the old table. *)
Definition grown (old : list Z) (old_capacity capacity : Z) : outcome (list Z) :=
  if (length old <? Z.to_nat old_capacity)%nat then Stuck else
  Ok (take (Z.to_nat old_capacity) old ++ replicate (Z.to_nat capacity - Z.to_nat old_capacity) 0).

Definition ensure_fd_capacity (fd : Z) : M St bool :=
  if fd <? 0 then mret false else
  let needed := u64 (u64 fd + 1) in
  p ← get;
  if needed <=? fd_table_capacity p then mret true else
  c ← lift (double_until 65 (if fd_table_capacity p =? 0 then 64 else fd_table_capacity p) needed);
  match c with
  | None => mret false
  | Some capacity =>
      if negb (calloc_ok capacity 4 && calloc_ok capacity 1) then mret false else
      generations ← lift (grown (fd_generations p) (fd_table_capacity p) capacity);
      registered ← lift (grown (fd_registered p) (fd_table_capacity p) capacity);
      modify (set_tables generations registered capacity);;
      mret true
  end.

Definition token (generation fd : Z) : Z := Z.lor (u64 (Z.shiftl generation 32)) (u32 fd).
Definition fd_token (fd : Z) : M St Z :=
  p ← get; g ← lift (idx_get (fd_generations p) fd); mret (token g fd).

Definition to_epoll_events (events : Z) : Z :=
  let epoll_events := 0 in
  let epoll_events := if negb (Z.land events CROUTINE_IO_EVENT_READ =? 0)
    then Z.lor epoll_events (Z.lor (Z.lor EPOLLIN EPOLLRDHUP) EPOLLPRI) else epoll_events in
  if negb (Z.land events CROUTINE_IO_EVENT_WRITE =? 0)
  then Z.lor epoll_events EPOLLOUT else epoll_events.

Definition from_epoll_events (epoll_events : Z) : Z :=
  let events := CROUTINE_IO_EVENT_NONE in
  let events := if negb (Z.land epoll_events (Z.lor (Z.lor EPOLLIN EPOLLPRI) EPOLLRDHUP) =? 0)
    then Z.lor events CROUTINE_IO_EVENT_READ else events in
  let events := if negb (Z.land epoll_events EPOLLOUT =? 0)
    then Z.lor events CROUTINE_IO_EVENT_WRITE else events in
  if negb (Z.land epoll_events (Z.lor EPOLLERR EPOLLHUP) =? 0)
  then Z.lor events (Z.lor CROUTINE_IO_EVENT_READ CROUTINE_IO_EVENT_WRITE) else events.

Definition poller_ctl (op : ctl_op) (fd events tok : Z) : M St bool :=
  p ← get;
  r ← sys (epoll_ctl (poller_fd p) op fd (Some (mkEpollEvent (to_epoll_events events) tok)));
  mret match r with Done _ => true | Fails _ => false end.

Definition drain_wake_fd : M St unit :=
  p ← get; sys (eventfd_read (wake_fd p));; mret tt.

Definition croutine_poller_init : M St bool :=
  p ← get;
  if 0 <=? poller_fd p then mret true else
  r ← sys epoll_create1;
  match r with
  | Fails _ => modify (set_poller_fd (-1));; mret false
  | Done ep =>
      modify (set_poller_fd ep);;
      r ← sys eventfd;
      match r with
      | Fails _ =>
          modify (set_wake_fd (-1));;
          modify (λ p, set_kern (close ep (kern p)) p);;
          modify (set_poller_fd (-1));;
          mret false
      | Done wfd =>
          modify (set_wake_fd wfd);;
          r ← sys (epoll_ctl ep EPOLL_CTL_ADD wfd (Some (mkEpollEvent EPOLLIN WAKE_TOKEN)));
          match r with
          | Done _ => mret true
          | Fails _ =>
              modify (λ p, set_kern (close wfd (kern p)) p);;
              modify (λ p, set_kern (close ep (kern p)) p);;
              modify (set_wake_fd (-1));;
              modify (set_poller_fd (-1));;
              mret false
          end
      end
  end.

Definition croutine_poller_deinit : M St unit :=
  p ← get;
  (if 0 <=? wake_fd p
   then modify (λ p, set_kern (close (wake_fd p) (kern p)) p);; modify (set_wake_fd (-1))
   else mret tt);;
  (if 0 <=? poller_fd p
   then modify (λ p, set_kern (close (poller_fd p) (kern p)) p);; modify (set_poller_fd (-1))
   else mret tt);;
  modify (set_tables [] [] 0).

Definition bump_generation (fd : Z) : M St unit :=
  p ← get;
  g ← lift (idx_get (fd_generations p) fd);
  gs ← lift (idx_set (fd_generations p) fd (u32 (g + 1)));
  modify (set_generations gs).
Definition set_flag (fd v : Z) : M St unit :=
  p ← get; rs ← lift (idx_set (fd_registered p) fd v); modify (set_registered rs).

(** [fd] is an [int]; [(size_t)fd] is [u64 fd]. *)
Definition poller_set_locked (fd old_events new_events : Z) : M St bool :=
  if old_events =? new_events then mret true else
  p ← get;
  if new_events =? CROUTINE_IO_EVENT_NONE then
    r ← sys (epoll_ctl (poller_fd p) EPOLL_CTL_DEL fd None);
    match r with
    | Done _ | Fails ENOENT =>
        (if u64 fd <? fd_table_capacity p
         then set_flag fd 0;; bump_generation fd else mret tt);;
        mret true
    | Fails _ => mret false
    end
  else if old_events =? CROUTINE_IO_EVENT_NONE then
    ok ← ensure_fd_capacity fd;
    if negb ok then mret false else
    bump_generation fd;;
    tok ← fd_token fd;
    ok ← poller_ctl EPOLL_CTL_ADD fd new_events tok;
    if negb ok then mret false else
    set_flag fd 1;;
    mret true
  else
    live ← (if fd_table_capacity p <=? u64 fd then mret false
            else r ← lift (idx_get (fd_registered p) fd); mret (negb (r =? 0)));
    if negb live then mret false else
    tok ← fd_token fd;
    poller_ctl EPOLL_CTL_MOD fd new_events tok.

Definition croutine_poller_set : Z → Z → Z → M St bool := poller_set_locked.

(** One ready event: the event it is reported as, if any. *)
Definition translate (ev : epoll_event) : M St (option CroutinePollEvent) :=
  let tok := ee_data ev in
  if tok =? WAKE_TOKEN then drain_wake_fd;; mret None else
  let fd := i32 tok in
  let generation := u32 (Z.shiftr tok 32) in
  p ← get;
  current ← (if fd_table_capacity p <=? u64 fd then mret false else
             r ← lift (idx_get (fd_registered p) fd);
             if r =? 0 then mret false else
             g ← lift (idx_get (fd_generations p) fd);
             mret (g =? generation));
  if negb current then mret None else
  let translated := from_epoll_events (ee_events ev) in
  mret (if translated =? CROUTINE_IO_EVENT_NONE then None else Some (mkPollEvent fd translated)).

Fixpoint collect (evs : list epoll_event) : M St (list CroutinePollEvent) :=
  match evs with
  | [] => mret []
  | ev :: evs =>
      r ← translate ev;
      rs ← collect evs;
      mret (match r with Some e => e :: rs | None => rs end)
  end.

(** The caller's array is never null; the answers are those of
    [epoll_wait]. *)
Definition croutine_poller_wait (max_events : Z) (answers : list (sysres (list epoll_event)))
  : M St (option (list CroutinePollEvent)) :=
  if max_events <=? 0 then mret None else
  r ← lift (retry answers);
  match r with
  | Fails _ => mret None
  | Done ready => evs ← collect ready; mret (Some evs)
  end.

Definition croutine_poller_wake : M St bool :=
  p ← get;
  r ← sys (eventfd_write (wake_fd p) 1);
  mret match r with Done _ | Fails EAGAIN => true | Fails _ => false end.
End epoll.
End Epoll.

#[global] Instance epoll_poller `{Alloc} {K} `{EpollKernel K} : Poller (epoll K) := {|
  kernel_event := epoll_event;
  poller_init := Epoll.croutine_poller_init;
  poller_deinit := Epoll.croutine_poller_deinit;
  poller_set := Epoll.croutine_poller_set;
  poller_wait := Epoll.croutine_poller_wait;
  poller_wake := Epoll.croutine_poller_wake
|}.
