(* ===== verification/EpollInv.v ===== *)
(** * The epoll poller keeps its promises to the scheduler

    The tables of src/poller_epoll.c agree with the kernel's registrations:
    the poller interface holds for it, and an event reported under a stale
    token is dropped. *)

From S2P Require Import Prelude Posix Task PollerApi PollerEpoll.

(** The documented behaviour of the kernel: [registration k ep fd] is the
    event [fd] is registered with in the instance [ep], [counter k fd] the
    count of an eventfd, [open_fds k] the process's open descriptors. *)
Class EpollLaws (K : Type) `{EpollKernel K} := {
  registration : K → Z → Z → option epoll_event;
  counter : K → Z → Z;
  open_fds : K → gset Z;
  epoll_create1_spec : ∀ k r k', epoll_create1 k = (r, k') →
    match r with
    | Done ep => 0 ≤ ep ∧ (ep ∉ open_fds k) ∧ open_fds k' = {[ep]} ∪ open_fds k ∧
                 ∀ fd, registration k' ep fd = None
    | Fails _ => open_fds k' = open_fds k
    end;
  eventfd_spec : ∀ k r k', eventfd k = (r, k') →
    (∀ ep fd, registration k' ep fd = registration k ep fd) ∧
    match r with
    | Done d => 0 ≤ d ∧ (d ∉ open_fds k) ∧ open_fds k' = {[d]} ∪ open_fds k
    | Fails _ => open_fds k' = open_fds k
    end;
  close_spec : ∀ d k, open_fds (close d k) = open_fds k ∖ {[d]};
  epoll_ctl_open : ∀ ep op fd ev k r k', epoll_ctl ep op fd ev k = (r, k') → open_fds k' = open_fds k;
  epoll_ctl_spec : ∀ ep op fd ev k r k', epoll_ctl ep op fd ev k = (r, k') →
    (∀ d, counter k' d = counter k d) ∧
    match r with
    | Done _ =>
        (op = EPOLL_CTL_ADD ↔ registration k ep fd = None) ∧
        registration k' ep fd = (if op is EPOLL_CTL_DEL then None else ev) ∧
        (∀ fd', fd' ≠ fd → registration k' ep fd' = registration k ep fd')
    | Fails e =>
        (∀ fd', registration k' ep fd' = registration k ep fd') ∧
        (op ≠ EPOLL_CTL_ADD → e = ENOENT → registration k ep fd = None)
    end;
  eventfd_read_spec : ∀ d k r k', eventfd_read d k = (r, k') →
    ∀ ep fd, registration k' ep fd = registration k ep fd;
  eventfd_write_spec : ∀ d v k r k', eventfd_write d v k = (r, k') → 0 < v →
    (∀ ep fd, registration k' ep fd = registration k ep fd) ∧
    (0 < counter k d → 0 < counter k' d) ∧
    (r = Done tt ∨ r = Fails EAGAIN → 0 < counter k' d)
}.

Import Epoll.

(** ** Tokens *)

Lemma land_shifted g x n : 0 ≤ n → 0 ≤ x < 2 ^ n → Z.land (Z.shiftl g n) x = 0.
Proof.
  intros Hn Hx. apply Z.bits_inj'. intros i Hi. rewrite Z.land_spec, Z.bits_0.
  destruct (Z.lt_ge_cases i n).
  - by rewrite Z.shiftl_spec_low by lia.
  - rewrite <-(Z.mod_small x (2 ^ n)), Z.mod_pow2_bits_high, andb_false_r by lia. done.
Qed.

Lemma token_eq g fd : 0 ≤ g < 2 ^ 32 → token g fd = g * 2 ^ 32 + u32 fd.
Proof.
  intros Hg. unfold token. pose proof (u32_range fd).
  assert (u64 (Z.shiftl g 32) = Z.shiftl g 32) as ->.
  { apply u64_small. rewrite Z.shiftl_mul_pow2; lia. }
  pose proof (Z.add_lor_land (Z.shiftl g 32) (u32 fd)) as E.
  rewrite land_shifted, Z.add_0_r in E by lia. rewrite E, Z.shiftl_mul_pow2; lia.
Qed.

(** A token gives back the descriptor and the generation, and none is the
    token of the wake-up descriptor. *)
Lemma token_decode g fd : 0 ≤ g < 2 ^ 32 → 0 ≤ fd < 2 ^ 31 →
  i32 (token g fd) = fd ∧ u32 (Z.shiftr (token g fd) 32) = g ∧ token g fd ≠ WAKE_TOKEN.
Proof.
  intros Hg Hfd. rewrite token_eq, (u32_small fd) by lia. split_and!.
  - unfold i32, u32. rewrite (Z.add_comm _ fd), Z.mod_add, Z.mod_small by lia.
    case_bool; lia.
  - rewrite Z.shiftr_div_pow2 by lia. rewrite Z.div_add_l, Z.div_small by lia.
    rewrite Z.add_0_r. by apply u32_small.
  - unfold WAKE_TOKEN. lia.
Qed.

Lemma token_encode tok : 0 ≤ tok < 2 ^ 64 → 0 ≤ i32 tok →
  token (u32 (Z.shiftr tok 32)) (i32 tok) = tok.
Proof.
  intros Ht Hi. rewrite token_eq by apply u32_range. rewrite Z.shiftr_div_pow2 by lia.
  rewrite (u32_small (tok / 2 ^ 32)).
  2: { split; [apply Z.div_pos; lia|]. apply Z.div_lt_upper_bound; lia. }
  unfold i32 in *. pose proof (u32_range tok). destruct (Z.leb_spec (2 ^ 31) (u32 tok)); [lia|].
  rewrite (u32_small (u32 tok)) by lia. unfold u32. pose proof (Z.div_mod tok (2 ^ 32)). lia.
Qed.

(** ** Events *)

Definition wants (ev bit : Z) : bool := negb (Z.land ev bit =? 0).
(** The events an [epoll_event] asks for. *)
Definition asked (ev : epoll_event) : Z :=
  Z.lor (if wants (ee_events ev) EPOLLIN then CROUTINE_IO_EVENT_READ else 0)
        (if wants (ee_events ev) EPOLLOUT then CROUTINE_IO_EVENT_WRITE else 0).

Lemma asked_to_epoll ev tok : events_ok ev → asked (mkEpollEvent (to_epoll_events ev) tok) = ev.
Proof.
  intros Hev. assert (ev = 0 ∨ ev = 1 ∨ ev = 2 ∨ ev = 3) as Hc by (unfold events_ok in Hev; lia).
  by destruct Hc as [-> |[-> |[-> | ->]]].
Qed.

Section epoll.
Context `{Alloc} {K : Type} `{EpollLaws K}.
Implicit Types (p : epoll K) (fd : Z).

(** ** The tables and the kernel agree *)

Record epoll_ok p : Prop := {
  eo_fds : 0 ≤ poller_fd p ∧ 0 ≤ wake_fd p;
  eo_cap : 0 ≤ fd_table_capacity p < 2 ^ 62;
  eo_gens : Z.of_nat (length (fd_generations p)) = fd_table_capacity p;
  eo_regs : Z.of_nat (length (fd_registered p)) = fd_table_capacity p;
  eo_range : ∀ i g, fd_generations p !! i = Some g → 0 ≤ g < 2 ^ 32;
  eo_wake : is_Some (registration (kern p) (poller_fd p) (wake_fd p));
  eo_known : ∀ fd e, fd ≠ wake_fd p → registration (kern p) (poller_fd p) fd = Some e →
    0 ≤ fd < 2 ^ 31 ∧ ∃ g r, fd_generations p !! Z.to_nat fd = Some g ∧
      fd_registered p !! Z.to_nat fd = Some r ∧ r ≠ 0 ∧ ee_data e = token g fd ∧
      asked e ≠ CROUTINE_IO_EVENT_NONE;
  eo_flag : ∀ fd r, 0 ≤ fd → fd_registered p !! Z.to_nat fd = Some r → r ≠ 0 →
    fd ≠ wake_fd p ∧ is_Some (registration (kern p) (poller_fd p) fd)
}.

Definition epoll_interest p fd : Z :=
  if fd =? wake_fd p then CROUTINE_IO_EVENT_NONE else
  match registration (kern p) (poller_fd p) fd with
  | Some e => asked e
  | None => CROUTINE_IO_EVENT_NONE
  end.

(** ** Running pieces of code *)

Lemma lift_run {A} (o : outcome A) a p : o = Ok a → lift o p = Ok (a, p).
Proof. by intros ->. Qed.
Lemma sys_run {A} (call : syscall K A) r k p :
  call (kern p) = (r, k) → sys call p = Ok (r, set_kern k p).
Proof. unfold sys. by intros ->. Qed.

Lemma double_until_spec fuel c needed :
  0 < c < 2 ^ 64 → 2 ^ 64 ≤ c * 2 ^ Z.of_nat fuel → needed < 2 ^ 64 →
  ∃ r, double_until (S fuel) c needed = Ok r ∧
    (∀ c', r = Some c' → c ≤ c' ∧ needed ≤ c' < 2 ^ 64) ∧
    (needed < 2 ^ 63 → ∃ c', r = Some c' ∧ (c' = c ∨ c' < 2 * needed)).
Proof.
  revert c. induction fuel as [|fuel IH]; intros c Hc Hf Hn; [lia|].
  cbn [double_until]. destruct (Z.ltb_spec c needed).
  2: { eexists. split; [done|]. split; [intros ? [= <-]; lia|]. intros _. exists c. auto. }
  rewrite SIZE_MAX_half. destruct (Z.ltb_spec (2 ^ 63 - 1) c); [by eexists; split_and!; [..|lia]|].
  rewrite u64_small by lia. destruct (IH (c * 2)) as (r & Hr & Hc' & Hs); [lia| |done|].
  { rewrite Nat2Z.inj_succ, Z.pow_succ_r in Hf by lia. lia. }
  exists r. split; [exact Hr|]. split; [intros c' E; specialize (Hc' c' E); lia|].
  intros Hn'. destruct (Hs Hn') as (c' & -> & Hc2). exists c'. split; [done|lia].
Qed.

Lemma grown_run old cap cap' :
  Z.of_nat (length old) = cap →
  grown old cap cap' = Ok (old ++ replicate (Z.to_nat cap' - Z.to_nat cap) 0).
Proof.
  intros Hl. unfold grown. destruct (Nat.ltb_spec (length old) (Z.to_nat cap)); [lia|].
  by rewrite take_ge by lia.
Qed.

(** The tables of [p'] extend those of [p]. *)
Record extends p p' : Prop := {
  ex_kern : kern p' = kern p;
  ex_fds : poller_fd p' = poller_fd p ∧ wake_fd p' = wake_fd p;
  ex_gens : ∀ i g, fd_generations p !! i = Some g → fd_generations p' !! i = Some g;
  ex_regs : ∀ i r, fd_registered p !! i = Some r → fd_registered p' !! i = Some r
}.

(** The allocator refused a request it could have granted. *)
Definition memory_refused : Prop := ∃ n size, n * size ≤ SIZE_MAX ∧ calloc_ok n size = false.

Lemma ensure_run p fd :
  epoll_ok p → fd_ok fd →
  ∃ b p', ensure_fd_capacity fd p = Ok (b, p') ∧ epoll_ok p' ∧ extends p p' ∧
    (if b then 0 ≤ fd ∧ (Z.to_nat fd < length (fd_generations p'))%nat
     else fd < 0 ∨ memory_refused).
Proof.
  intros Hok Hfd. pose proof Hok as [O1 O2 O3 O4 O5 O6 O7 O8]. unfold fd_ok in Hfd.
  assert (extends p p) as Hrefl by done. unfold ensure_fd_capacity.
  destruct (Z.ltb_spec fd 0); [by exists false, p; auto|].
  rewrite (bind_ok _ _ p p p) by done. rewrite (u64_small fd), u64_small by lia.
  destruct (Z.leb_spec (fd + 1) (fd_table_capacity p)).
  { exists true, p. split_and!; try done. lia. }
  set (c0 := if fd_table_capacity p =? 0 then 64 else fd_table_capacity p).
  assert (0 < c0 < 2 ^ 32 ∧ fd_table_capacity p ≤ c0) as [Hc0 Hle].
  { unfold c0. case_bool; lia. }
  destruct (double_until_spec 64 c0 (fd + 1)) as (r & Hc & Hc' & Hs); [lia..|].
  destruct (Hs ltac:(lia)) as (c & -> & Hsmall).
  rewrite (bind_ok _ _ _ _ _ (lift_run _ _ _ Hc)).
  destruct (Hc' c eq_refl) as [H1' H2']. assert (c * 4 ≤ SIZE_MAX) as Hfit by (unfold SIZE_MAX; lia).
  destruct (calloc_ok c 4) eqn:Ec; [|by exists false, p; split_and!; try done; right; exists c, 4].
  destruct (calloc_ok c 1) eqn:Ec1; cbn [andb negb].
  2: { exists false, p. split_and!; try done. right. exists c, 1. split; [lia|done]. }
  apply calloc_bound in Ec. unfold SIZE_MAX in Ec.
  rewrite (bind_ok _ _ _ _ _ (lift_run _ _ _ (grown_run _ _ c O3))).
  rewrite (bind_ok _ _ _ _ _ (lift_run _ _ _ (grown_run _ _ c O4))).
  eexists true, _. split; [done|].
  assert (∀ (l : list Z) n i x, (l ++ replicate n 0) !! i = Some x → l !! i = Some x ∨ x = 0) as Hl.
  { intros l n i x [?|[_ [-> _]%lookup_replicate]]%lookup_app_Some; auto. }
  split; [split|split; [split|]]; simpl; try done.
  - lia.
  - rewrite length_app, length_replicate. lia.
  - rewrite length_app, length_replicate. lia.
  - intros i g [Hg| ->]%Hl; [by eapply O5|lia].
  - intros d e Hd He. destruct (O7 d e Hd He) as (J1 & g & r & J2 & J3 & J4). split; [done|].
    exists g, r. by rewrite !(lookup_app_l_Some _ _ _ _ J2), (lookup_app_l_Some _ _ _ _ J3).
  - intros d r Hd [Hr| ->]%Hl; [by apply O8|done].
  - intros i g. apply lookup_app_l_Some.
  - intros i g. apply lookup_app_l_Some.
  - rewrite length_app, length_replicate. lia.
Qed.

(** The kernel changes, but not the registrations. *)
Lemma kern_same p k :
  epoll_ok p → (∀ d, registration k (poller_fd p) d = registration (kern p) (poller_fd p) d) →
  epoll_ok (set_kern k p) ∧ ∀ fd, epoll_interest (set_kern k p) fd = epoll_interest p fd.
Proof.
  intros [O1 O2 O3 O4 O5 O6 O7 O8] Hk. split.
  - split; simpl; try done; [by rewrite Hk| |]; intros d x Hd; rewrite Hk; [by apply O7|by apply O8].
  - intros fd. unfold epoll_interest. simpl. by rewrite Hk.
Qed.

(** A generation may change while its descriptor is not registered. *)
Lemma bump_run p fd :
  epoll_ok p → 0 ≤ fd → (Z.to_nat fd < length (fd_generations p))%nat →
  fd = wake_fd p ∨ registration (kern p) (poller_fd p) fd = None →
  ∃ g, fd_generations p !! Z.to_nat fd = Some g ∧
    let p' := set_generations (<[Z.to_nat fd := u32 (g + 1)]> (fd_generations p)) p in
    bump_generation fd p = Ok (tt, p') ∧ epoll_ok p'.
Proof.
  intros [O1 O2 O3 O4 O5 O6 O7 O8] Hfd Hlt Hor.
  destruct (lookup_lt_is_Some_2 _ _ Hlt) as [g Hg]. exists g. split; [done|]. split.
  - unfold bump_generation. rewrite (bind_ok _ _ p p p) by done.
    rewrite (bind_ok _ _ _ _ _ (lift_run _ _ _ (idx_get_ok _ _ _ Hg))).
    by rewrite (bind_ok _ _ _ _ _ (lift_run _ _ _ (idx_set_ok _ _ _ Hlt))).
  - split; simpl; rewrite ?length_insert; try done.
    + intros i g'. destruct (decide (i = Z.to_nat fd)) as [->|Hne].
      * rewrite list_lookup_insert_eq by done. intros [= <-]. apply u32_range.
      * rewrite list_lookup_insert_ne by done. apply O5.
    + intros d e Hd He. destruct (O7 d e Hd He) as (J1 & g' & r & J2). split; [done|].
      exists g', r. rewrite list_lookup_insert_ne; [done|]. intros E.
      assert (d = fd) as -> by lia. destruct Hor; congruence.
Qed.

(** ** [croutine_poller_set] *)

(** The generation of [fd] advances by [n], the others stay. *)
Definition ages fd (n : Z) p p' : Prop :=
  ∀ i g, fd_generations p !! i = Some g →
    fd_generations p' !! i = Some (if decide (i = Z.to_nat fd) then u32 (g + n) else g).

Lemma ages_same p p' fd :
  epoll_ok p → (∀ i g, fd_generations p !! i = Some g → fd_generations p' !! i = Some g) → ages fd 0 p p'.
Proof.
  intros Hok Hp i g Hg. rewrite (Hp i g Hg), Z.add_0_r, u32_small; [by case_decide|].
  by eapply eo_range.
Qed.
Lemma ages_bump p p' fd g :
  fd_generations p !! Z.to_nat fd = Some g →
  fd_generations p' = <[Z.to_nat fd := u32 (g + 1)]> (fd_generations p) → ages fd 1 p p'.
Proof.
  intros Hg E i g' Hg'. rewrite E. case_decide as Ei.
  - subst i. rewrite list_lookup_insert_eq by (by eapply lookup_lt_Some). congruence.
  - by rewrite list_lookup_insert_ne.
Qed.

(** Why a call may fail: there is no memory, or the kernel refused. *)
Definition set_refused p fd : Prop :=
  fd < 0 ∨ memory_refused ∨
  ∃ op ev k e k', epoll_ctl (poller_fd p) op fd ev k = (Fails e, k') ∧
                  (op = EPOLL_CTL_DEL → e ≠ ENOENT).

(** What a call guarantees, whatever its result. *)
Definition set_result p p' fd (b : bool) old new : Prop :=
  epoll_ok p' ∧
  (∃ n, 0 ≤ n ≤ 1 ∧ ages fd n p p' ∧
     (b = true → old ≠ CROUTINE_IO_EVENT_NONE → new = CROUTINE_IO_EVENT_NONE → n = 1)) ∧
  (∀ fd', fd' ≠ fd → epoll_interest p' fd' = epoll_interest p fd') ∧
  wake_fd p' = wake_fd p ∧ (∀ d, counter (kern p') d = counter (kern p) d) ∧
  epoll_interest p' fd = (if b then new else old) ∧
  (b = false → set_refused p fd).

Lemma registered_known p fd old :
  epoll_ok p → epoll_interest p fd = old → old ≠ CROUTINE_IO_EVENT_NONE →
  fd ≠ wake_fd p ∧ ∃ e g r, registration (kern p) (poller_fd p) fd = Some e ∧ asked e = old ∧
    0 ≤ fd < 2 ^ 31 ∧ fd_generations p !! Z.to_nat fd = Some g ∧
    fd_registered p !! Z.to_nat fd = Some r ∧ r ≠ 0 ∧ ee_data e = token g fd.
Proof.
  unfold epoll_interest. intros Hok Hi Hne. destruct (Z.eqb_spec fd (wake_fd p)); [done|]. split; [done|].
  destruct (registration (kern p) (poller_fd p) fd) as [e|] eqn:E; [|done].
  destruct (eo_known _ Hok fd e) as (H1' & g & r & H2' & H3' & H4' & H5' & _); [done..|].
  by exists e, g, r.
Qed.

Lemma interest_other p p' fd fd' :
  kern p' = kern p ∨ (∀ d, d ≠ fd → registration (kern p') (poller_fd p') d = registration (kern p) (poller_fd p) d) →
  poller_fd p' = poller_fd p → wake_fd p' = wake_fd p → fd' ≠ fd →
  epoll_interest p' fd' = epoll_interest p fd'.
Proof.
  unfold epoll_interest. intros Hk E1 E2 Hne. rewrite E2. case_bool; [done|].
  destruct Hk as [->|Hk]; [by rewrite E1|by rewrite Hk].
Qed.

Lemma set_remove p fd old :
  epoll_ok p → epoll_interest p fd = old → old ≠ CROUTINE_IO_EVENT_NONE →
  ∃ b p', croutine_poller_set fd old CROUTINE_IO_EVENT_NONE p = Ok (b, p') ∧
    set_result p p' fd b old CROUTINE_IO_EVENT_NONE.
Proof.
  intros Hok Hi Hne. pose proof Hok as [O1 O2 O3 O4 O5 O6 O7 O8].
  destruct (registered_known p fd old Hok Hi Hne) as (Hw & e & g & r & He & Ha & Hfd & Hg & Hr & Hr0 & Htok).
  unfold croutine_poller_set, poller_set_locked. destruct (Z.eqb_spec old CROUTINE_IO_EVENT_NONE); [done|].
  rewrite (bind_ok _ _ p p p), Z.eqb_refl by done.
  destruct (epoll_ctl (poller_fd p) EPOLL_CTL_DEL fd None (kern p)) as [res k] eqn:Ek.
  rewrite (bind_ok _ _ _ _ _ (sys_run _ _ _ _ Ek)).
  destruct (epoll_ctl_spec _ _ _ _ _ _ _ Ek) as [Hcnt Hres].
  assert (res = Done tt ∨ ∃ err, res = Fails err ∧ err ≠ ENOENT ∧
    (∀ d, registration k (poller_fd p) d = registration (kern p) (poller_fd p) d)) as [->|(err & -> & Herr & Hsame)].
  { destruct res as [[]|err]; [by left|right]. destruct Hres as [Hs Hn]. exists err. split; [done|].
    split; [|done]. intros ->. rewrite Hn in He by done. done. }
  - destruct Hres as (_ & Hdel & Hoth). rewrite u64_small by lia.
    pose proof (lookup_lt_Some _ _ _ Hr) as Hlr. pose proof (lookup_lt_Some _ _ _ Hg) as Hlg.
    destruct (Z.ltb_spec fd (fd_table_capacity p)); [|lia].
    set (p1 := set_registered (<[Z.to_nat fd := 0]> (fd_registered p)) (set_kern k p)).
    assert (set_flag fd 0 (set_kern k p) = Ok (tt, p1)) as Hflag.
    { unfold set_flag. rewrite (bind_ok _ _ (set_kern k p) (set_kern k p) (set_kern k p)) by done.
      by rewrite (bind_ok _ _ _ _ _ (lift_run _ _ _ (idx_set_ok _ _ _ Hlr))). }
    assert (epoll_ok p1) as Hok1.
    { split; simpl; rewrite ?length_insert; try done.
      - by rewrite Hoth.
      - intros d e' Hd He'. destruct (decide (d = fd)) as [->|Hdf]; [congruence|].
        rewrite Hoth in He' by done. destruct (O7 d e' Hd He') as (J1 & g' & r' & J2 & J3 & J4).
        split; [done|]. exists g', r'. rewrite list_lookup_insert_ne by lia. done.
      - intros d r' Hd. destruct (decide (d = fd)) as [->|Hdf].
        + rewrite list_lookup_insert_eq by done. by intros [= <-].
        + rewrite list_lookup_insert_ne by lia. rewrite Hoth by done. by apply O8. }
    destruct (bump_run p1 fd Hok1) as (g' & Hg' & Hb & Hok2); [lia|done|by right|].
    erewrite bind_ok by (by rewrite (bind_ok _ _ _ _ _ Hflag)).
    eexists true, _. split; [done|]. split; [done|]. split_and!; try done.
    + exists 1. split; [lia|]. split; [|done]. by eapply ages_bump.
    + intros d Hd. apply (interest_other p _ fd); try done. by right.
    + unfold epoll_interest. simpl. rewrite Hdel. by case_bool.
  - destruct (kern_same p k Hok Hsame) as [Hok' Hi'].
    exists false, (set_kern k p). split; [by destruct err|]. split_and!; try done; [|by rewrite Hi'|].
    + exists 0. split; [lia|]. split; [by apply ages_same|done].
    + intros _. right. right. by eexists _, _, _, _, _.
Qed.

Lemma fd_token_run p fd g :
  fd_generations p !! Z.to_nat fd = Some g → fd_token fd p = Ok (token g fd, p).
Proof.
  intros Hg. unfold fd_token. rewrite (bind_ok _ _ p p p) by done.
  by rewrite (bind_ok _ _ _ _ _ (lift_run _ _ _ (idx_get_ok _ _ _ Hg))).
Qed.

Lemma poller_ctl_run p op fd ev tok :
  op ≠ EPOLL_CTL_DEL →
  ∃ b k, poller_ctl op fd ev tok p = Ok (b, set_kern k p) ∧
    (∀ d, counter k d = counter (kern p) d) ∧
    if b then
      (op = EPOLL_CTL_ADD ↔ registration (kern p) (poller_fd p) fd = None) ∧
      registration k (poller_fd p) fd = Some (mkEpollEvent (to_epoll_events ev) tok) ∧
      (∀ d, d ≠ fd → registration k (poller_fd p) d = registration (kern p) (poller_fd p) d)
    else set_refused p fd ∧
      ∀ d, registration k (poller_fd p) d = registration (kern p) (poller_fd p) d.
Proof.
  intros Hop. unfold poller_ctl. rewrite (bind_ok _ _ p p p) by done.
  destruct (epoll_ctl (poller_fd p) op fd (Some (mkEpollEvent (to_epoll_events ev) tok)) (kern p))
    as [res k] eqn:Ek.
  destruct (epoll_ctl_spec _ _ _ _ _ _ _ Ek) as [Hc Hr].
  rewrite (bind_ok _ _ _ _ _ (sys_run _ _ _ _ Ek)). eexists _, k. split; [done|]. split; [done|].
  destruct res as [[]|err]; [by destruct op|]. destruct Hr as [Hr _]. split; [|done].
  right. right. by eexists _, _, _, _, _.
Qed.

Lemma set_modify p fd old new :
  epoll_ok p → events_ok new → epoll_interest p fd = old →
  old ≠ CROUTINE_IO_EVENT_NONE → new ≠ CROUTINE_IO_EVENT_NONE → old ≠ new →
  ∃ b p', croutine_poller_set fd old new p = Ok (b, p') ∧ set_result p p' fd b old new.
Proof.
  intros Hok Hev Hi Hne Hn Hon. pose proof Hok as [O1 O2 O3 O4 O5 O6 O7 O8].
  destruct (registered_known p fd old Hok Hi Hne) as (Hw & e & g & r & He & Ha & Hfd & Hg & Hr & Hr0 & Htok).
  pose proof (lookup_lt_Some _ _ _ Hr) as Hlr.
  unfold croutine_poller_set, poller_set_locked. rewrite (proj2 (Z.eqb_neq old new)) by done.
  rewrite (bind_ok _ _ p p p), (proj2 (Z.eqb_neq new _)), (proj2 (Z.eqb_neq old _)) by done.
  rewrite u64_small by lia. destruct (Z.leb_spec (fd_table_capacity p) fd); [lia|].
  erewrite bind_ok by (by rewrite (bind_ok _ _ _ _ _ (lift_run _ _ _ (idx_get_ok _ _ _ Hr)))).
  rewrite (proj2 (Z.eqb_neq r 0)) by done. cbn [negb].
  rewrite (bind_ok _ _ _ _ _ (fd_token_run p fd g Hg)).
  destruct (poller_ctl_run p EPOLL_CTL_MOD fd new (token g fd)) as (b & k & Hrun & Hcnt & Hres); [done|].
  exists b, (set_kern k p). split; [done|]. destruct b.
  - destruct Hres as (_ & Hreg & Hoth). split; [split; simpl; try done|].
    + by rewrite Hoth.
    + intros d e' Hd. destruct (decide (d = fd)) as [->|Hdf].
      * rewrite Hreg. intros [= <-]. split; [done|]. exists g, r. by rewrite asked_to_epoll.
      * rewrite Hoth by done. by apply O7.
    + intros d r' Hd Hr' Hr0'. destruct (decide (d = fd)) as [->|Hdf]; [by rewrite Hreg|].
      rewrite Hoth by done. by apply (O8 d r').
    + split_and!; try done.
      * exists 0. split; [lia|]. split; [by apply ages_same|done].
      * intros d Hd. apply (interest_other p _ fd); try done. by right.
      * unfold epoll_interest. simpl. rewrite Hreg. case_bool; [done|]. by apply asked_to_epoll.
  - destruct Hres as [Href Hres]. destruct (kern_same p k Hok Hres) as [Hok' Hi'].
    split_and!; try done; [|by rewrite Hi'].
    exists 0. split; [lia|]. split; [by apply ages_same|done].
Qed.

Lemma extends_interest p p' : extends p p' → ∀ fd, epoll_interest p' fd = epoll_interest p fd.
Proof. intros [E1 [E2 E3] _ _] fd. unfold epoll_interest. by rewrite E1, E2, E3. Qed.

(** Registering: the kernel accepted the event, then the flag is set. *)
Lemma registered_ok p fd k g ev :
  epoll_ok p → 0 ≤ fd < 2 ^ 31 → fd ≠ wake_fd p → fd_generations p !! Z.to_nat fd = Some g →
  registration k (poller_fd p) fd = Some (mkEpollEvent ev (token g fd)) →
  asked (mkEpollEvent ev (token g fd)) ≠ CROUTINE_IO_EVENT_NONE →
  (∀ d, d ≠ fd → registration k (poller_fd p) d = registration (kern p) (poller_fd p) d) →
  set_flag fd 1 (set_kern k p) =
    Ok (tt, set_registered (<[Z.to_nat fd := 1]> (fd_registered p)) (set_kern k p)) ∧
  epoll_ok (set_registered (<[Z.to_nat fd := 1]> (fd_registered p)) (set_kern k p)).
Proof.
  intros [O1 O2 O3 O4 O5 O6 O7 O8] Hfd Hw Hg Hreg Hask Hoth.
  pose proof (lookup_lt_Some _ _ _ Hg) as Hlt.
  assert (Z.to_nat fd < length (fd_registered p))%nat as Hlr by lia. split.
  - unfold set_flag. rewrite (bind_ok _ _ (set_kern k p) (set_kern k p) (set_kern k p)) by done.
    by rewrite (bind_ok _ _ _ _ _ (lift_run _ _ _ (idx_set_ok _ _ _ Hlr))).
  - split; simpl; rewrite ?length_insert; try done.
    + by rewrite Hoth.
    + intros d e Hd. destruct (decide (d = fd)) as [->|Hne].
      * rewrite Hreg. intros [= <-]. split; [done|]. exists g, 1.
        by rewrite list_lookup_insert_eq.
      * rewrite Hoth by done. intros He. destruct (O7 d e Hd He) as (J1 & g' & r' & J2 & J3 & J4).
        split; [done|]. exists g', r'. by rewrite list_lookup_insert_ne by lia.
    + intros d r Hd. destruct (decide (d = fd)) as [->|Hne]; [by rewrite Hreg|].
      rewrite list_lookup_insert_ne, Hoth by (done || lia). by apply O8.
Qed.

Lemma set_add p fd new :
  epoll_ok p → fd_ok fd → events_ok new → epoll_interest p fd = CROUTINE_IO_EVENT_NONE →
  new ≠ CROUTINE_IO_EVENT_NONE →
  ∃ b p', croutine_poller_set fd CROUTINE_IO_EVENT_NONE new p = Ok (b, p') ∧
    set_result p p' fd b CROUTINE_IO_EVENT_NONE new.
Proof.
  intros Hok Hfd Hev Hi Hn. unfold croutine_poller_set, poller_set_locked.
  rewrite (proj2 (Z.eqb_neq _ new)) by done. rewrite (bind_ok _ _ p p p) by done.
  rewrite (proj2 (Z.eqb_neq new _)), Z.eqb_refl by done.
  destruct (ensure_run p fd Hok Hfd) as (b1 & p1 & Hrun1 & Hok1 & Hex & Hlt).
  rewrite (bind_ok _ _ _ _ _ Hrun1). pose proof (extends_interest _ _ Hex) as Hi1.
  destruct Hex as [Ek [Ef Ew] Eg _].
  destruct b1.
  2: { exists false, p1. split; [done|]. unfold set_result. split_and!; try done; intros; rewrite ?Ek, ?Hi1, ?Hi; try done.
       2: by destruct Hlt; [left|right; left].
       exists 0. split; [lia|]. split; [by apply ages_same|done]. }
  destruct Hlt as [Hge Hlen]. cbn [negb].
  destruct (bump_run p1 fd Hok1 Hge Hlen) as (g & Hg & Hrun2 & Hok2).
  { rewrite Ew, Ek, Ef. unfold epoll_interest in Hi.
    destruct (Z.eqb_spec fd (wake_fd p)) as [|Hw]; [by left|right].
    destruct (registration (kern p) (poller_fd p) fd) as [e|] eqn:Ee; [|done].
    by destruct (eo_known _ Hok fd e Hw Ee) as (_ & ? & ? & _ & _ & _ & _ & ?). }
  rewrite (bind_ok _ _ _ _ _ Hrun2). set (p2 := set_generations _ p1) in *.
  assert (fd_generations p2 !! Z.to_nat fd = Some (u32 (g + 1))) as Hg2 by (by apply list_lookup_insert_eq).
  assert (∀ p', fd_generations p' = fd_generations p2 → ages fd 1 p p') as Hage.
  { intros p' E i g0 Hi0. by rewrite (ages_bump p1 p' fd g Hg E i g0 (Eg i g0 Hi0)). }
  rewrite (bind_ok _ _ _ _ _ (fd_token_run p2 fd _ Hg2)).
  destruct (poller_ctl_run p2 EPOLL_CTL_ADD fd new (token (u32 (g + 1)) fd)) as (b & k & Hrun & Hcnt & Hres); [done|].
  rewrite (bind_ok _ _ _ _ _ Hrun). destruct b; cbn [negb].
  - destruct Hres as (Hiff & Hreg & Hoth). unfold fd_ok in Hfd.
    assert (fd ≠ wake_fd p2) as Hw.
    { intros E. destruct (eo_wake _ Hok2) as [e He]. rewrite <-E, (proj1 Hiff) in He by done. done. }
    destruct (registered_ok p2 fd k _ _ Hok2 ltac:(lia) Hw Hg2 Hreg) as [Hflag Hok3].
    { by rewrite asked_to_epoll. }
    { done. }
    rewrite (bind_ok _ _ _ _ _ Hflag). eexists true, _. split; [done|].
    split_and!; try done.
    + exists 1. split; [lia|]. split; [by apply Hage|done].
    + intros d Hd. rewrite <-Hi1. apply (interest_other p1 _ fd); try done. right. intros d' Hd'. by apply Hoth.
    + intros d. simpl. rewrite Hcnt. simpl. by rewrite Ek.
    + unfold epoll_interest. simpl. change (poller_fd p1) with (poller_fd p2). rewrite Hreg.
      change (wake_fd p1) with (wake_fd p2). case_bool; [done|]. by apply asked_to_epoll.
  - destruct Hres as [Href Hres]. destruct (kern_same p2 k Hok2 Hres) as [Hok' Hi'].
    eexists false, _. split; [done|]. split_and!; try done.
    + exists 1. split; [lia|]. split; [by apply Hage|done].
    + intros d _. rewrite Hi'. by rewrite <-Hi1.
    + intros d. simpl. rewrite Hcnt. simpl. by rewrite Ek.
    + rewrite Hi', <-Hi. by rewrite <-Hi1.
    + unfold set_refused in *. by rewrite <-Ef.
Qed.

Lemma epoll_set_law fd old new p :
  epoll_ok p → fd_ok fd → events_ok old → events_ok new → epoll_interest p fd = old →
  ∃ b p', croutine_poller_set fd old new p = Ok (b, p') ∧ set_result p p' fd b old new.
Proof.
  intros Hok Hfd Ho Hn Hi. destruct (decide (old = new)) as [->|Hne].
  { exists true, p. unfold croutine_poller_set, poller_set_locked. rewrite Z.eqb_refl. split; [done|].
    unfold set_result. split_and!; try done. exists 0. split; [lia|]. split; [by apply ages_same|done]. }
  destruct (decide (new = CROUTINE_IO_EVENT_NONE)) as [->|Hn0]; [by apply set_remove|].
  destruct (decide (old = CROUTINE_IO_EVENT_NONE)) as [->|Ho0]; [by apply set_add|by apply set_modify].
Qed.

(** ** [croutine_poller_wait] *)

(** The event [ev] is reported as [r]: exactly when its token is the one of
    a current registration and it says something about the descriptor. *)
Definition reported p (ev : epoll_event) (r : option CroutinePollEvent) : Prop :=
  ∀ fd x, r = Some (mkPollEvent fd x) ↔
    fd ≠ wake_fd p ∧ x = from_epoll_events (ee_events ev) ∧ x ≠ CROUTINE_IO_EVENT_NONE ∧
    ∃ e, registration (kern p) (poller_fd p) fd = Some e ∧ ee_data e = ee_data ev.

(** The kernel may have changed, but not what is registered. *)
Record unmoved p p' : Prop := {
  um_fds : poller_fd p' = poller_fd p ∧ wake_fd p' = wake_fd p;
  um_reg : ∀ fd, registration (kern p') (poller_fd p) fd = registration (kern p) (poller_fd p) fd
}.
Lemma reported_unmoved p p' (ev : epoll_event) r : unmoved p p' → reported p' ev r → reported p ev r.
Proof.
  intros [[E1 E2] E3] Hr fd x. specialize (Hr fd x). rewrite E1, E2, E3 in Hr. exact Hr.
Qed.
Lemma unmoved_interest p p' fd : unmoved p p' → epoll_interest p' fd = epoll_interest p fd.
Proof. intros [[E1 E2] E3]. unfold epoll_interest. by rewrite E1, E2, E3. Qed.

Lemma drain_run p : epoll_ok p →
  ∃ p', drain_wake_fd p = Ok (tt, p') ∧ epoll_ok p' ∧ unmoved p p'.
Proof.
  intros Hok. unfold drain_wake_fd. rewrite (bind_ok _ _ p p p) by done.
  destruct (eventfd_read (wake_fd p) (kern p)) as [r k] eqn:Ek.
  rewrite (bind_ok _ _ _ _ _ (sys_run _ _ _ _ Ek)). exists (set_kern k p). split; [done|].
  pose proof (eventfd_read_spec _ _ _ _ Ek) as Hk. split; [by apply kern_same|done].
Qed.

(** A registered descriptor's token decodes to it. *)
Lemma registered_token p fd e :
  epoll_ok p → fd ≠ wake_fd p → registration (kern p) (poller_fd p) fd = Some e →
  ee_data e ≠ WAKE_TOKEN ∧ i32 (ee_data e) = fd ∧ 0 ≤ fd < fd_table_capacity p ∧ fd < 2 ^ 31 ∧
  (∃ r, fd_registered p !! Z.to_nat fd = Some r ∧ r ≠ 0) ∧
  fd_generations p !! Z.to_nat fd = Some (u32 (Z.shiftr (ee_data e) 32)).
Proof.
  intros Hok Hw He. destruct (eo_known _ Hok fd e Hw He) as (Hfd & g & r & Hg & Hr & Hr0 & Htok & _).
  destruct (token_decode g fd (eo_range _ Hok _ _ Hg) Hfd) as (T1 & T2 & T3). rewrite Htok, T1, T2.
  pose proof (lookup_lt_Some _ _ _ Hr). pose proof (eo_regs _ Hok). split_and!; eauto; lia.
Qed.

Lemma translate_run p (ev : epoll_event) :
  epoll_ok p → 0 ≤ ee_data ev < 2 ^ 64 →
  ∃ r p', translate ev p = Ok (r, p') ∧ epoll_ok p' ∧ unmoved p p' ∧ reported p ev r.
Proof.
  intros Hok Hd. unfold translate. set (tok := ee_data ev) in *.
  assert ((∀ fd e, fd ≠ wake_fd p → registration (kern p) (poller_fd p) fd = Some e →
    ee_data e = tok → False) → reported p ev None) as Hno.
  { intros HP fd x. split; [done|]. intros (H1' & _ & _ & e & He & E). by destruct (HP fd e). }
  destruct (Z.eqb_spec tok WAKE_TOKEN) as [Et|Et].
  { destruct (drain_run p Hok) as (p' & Hrun & Hok' & Hum). rewrite (bind_ok _ _ _ _ _ Hrun).
    exists None, p'. split_and!; try done. apply Hno. intros fd e Hw He E.
    destruct (registered_token p fd e Hok Hw He) as (H1' & _). congruence. }
  rewrite (bind_ok _ _ p p p) by done. set (fd := i32 tok). set (g := u32 (Z.shiftr tok 32)).
  assert (- 2 ^ 31 ≤ fd < 2 ^ 31) as Hfd.
  { unfold fd, i32. pose proof (u32_range tok). case_bool; lia. }
  pose proof (eo_cap _ Hok) as Hcap.
  destruct (Z.leb_spec (fd_table_capacity p) (u64 fd)) as [Hge|Hlt].
  { exists None, p. split_and!; try done. apply Hno. intros d e Hw He E.
    destruct (registered_token p d e Hok Hw He) as (_ & Ed & Hr & _). rewrite E in Ed. fold fd in Ed.
    subst d. rewrite u64_small in Hge; lia. }
  assert (0 ≤ fd) as Hpos.
  { destruct (Z.le_gt_cases 0 fd); [done|]. exfalso. unfold u64 in Hlt.
    rewrite <-(Z.mod_add fd 1), Z.mod_small in Hlt; lia. }
  rewrite u64_small in Hlt by lia.
  pose proof (eo_regs _ Hok) as Hlr. pose proof (eo_gens _ Hok) as Hlg.
  destruct (lookup_lt_is_Some_2 (fd_registered p) (Z.to_nat fd)) as [r Hr]; [lia|].
  destruct (lookup_lt_is_Some_2 (fd_generations p) (Z.to_nat fd)) as [g' Hg]; [lia|].
  set (cur := negb (r =? 0) && (g' =? g)).
  erewrite (bind_ok _ _ p cur p).
  2: { rewrite (bind_ok _ _ _ _ _ (lift_run _ _ _ (idx_get_ok _ _ _ Hr))). unfold cur.
       destruct (r =? 0); [done|].
       by rewrite (bind_ok _ _ _ _ _ (lift_run _ _ _ (idx_get_ok _ _ _ Hg))). }
  set (x := from_epoll_events (ee_events ev)).
  exists (if cur then if x =? CROUTINE_IO_EVENT_NONE then None else Some (mkPollEvent fd x) else None), p.
  split; [by destruct cur|]. split_and!; try done. intros d y. split.
  - destruct cur eqn:Ec; [|done]. apply andb_prop in Ec as [Er Eg%Z.eqb_eq].
    apply negb_true_iff, Z.eqb_neq in Er. destruct (Z.eqb_spec x CROUTINE_IO_EVENT_NONE); [done|].
    intros [= <- <-]. destruct (eo_flag _ Hok fd r Hpos Hr Er) as [Hw [e He]]. split_and!; try done.
    exists e. split; [done|]. destruct (eo_known _ Hok fd e Hw He) as (_ & g1 & r1 & Hg1 & _ & _ & -> & _).
    rewrite Hg in Hg1. injection Hg1 as <-. rewrite Eg. by apply token_encode.
  - intros (Hw & -> & Hx & e & He & E).
    destruct (registered_token p d e Hok Hw He) as (_ & Ed & _ & _ & (r1 & Hr1 & Hr0) & Hg1).
    rewrite E in Ed, Hg1. fold tok fd in Ed. fold tok g in Hg1. subst d.
    rewrite Hr in Hr1. rewrite Hg in Hg1. injection Hr1 as <-. injection Hg1 as ->.
    unfold cur. rewrite (proj2 (Z.eqb_neq r 0)), Z.eqb_refl by done. simpl. fold x in Hx |- *.
    by rewrite (proj2 (Z.eqb_neq x _)).
Qed.

(** Tokens are 64-bit words. *)
Definition tokens_ok (evs : list epoll_event) : Prop := Forall (λ ev, 0 ≤ ee_data ev < 2 ^ 64) evs.

Lemma unmoved_trans p p1 p2 : unmoved p p1 → unmoved p1 p2 → unmoved p p2.
Proof.
  intros [[E1 E2] E3] [[F1 F2] F3]. split; [split; congruence|].
  intros fd. rewrite E1 in F3. by rewrite F3, E3.
Qed.

Lemma collect_run evs p :
  epoll_ok p → tokens_ok evs →
  ∃ rs p', collect evs p = Ok (omap id rs, p') ∧ epoll_ok p' ∧ unmoved p p' ∧
    Forall2 (reported p) evs rs.
Proof.
  revert p. induction evs as [|ev evs IH]; intros p Hok Ht.
  { exists [], p. by split_and!. }
  apply Forall_cons in Ht as [Hev Ht].
  destruct (translate_run p ev Hok Hev) as (r & p1 & Hrun & Hok1 & Hu1 & Hr).
  destruct (IH p1 Hok1 Ht) as (rs & p2 & Hrun2 & Hok2 & Hu2 & Hrs).
  exists (r :: rs), p2. cbn [collect].
  rewrite (bind_ok _ _ _ _ _ Hrun), (bind_ok _ _ _ _ _ Hrun2).
  split; [by destruct r as [[]|]|]. split; [done|]. split; [by eapply unmoved_trans|].
  constructor; [done|]. eapply Forall2_impl; [done|]. intros ev' r'. by apply reported_unmoved.
Qed.

Lemma omap_id_length {A} (rs : list (option A)) : (length (omap id rs) ≤ length rs)%nat.
Proof. induction rs as [|[a|] rs IH]; cbn in *; lia. Qed.

Lemma wait_run max answers p :
  epoll_ok p → 0 < max → answered answers → (∀ evs, Done evs ∈ answers → tokens_ok evs) →
  ∃ r p', croutine_poller_wait max answers p = Ok (r, p') ∧ epoll_ok p' ∧ unmoved p p' ∧
    match r with
    | None => ∃ e, Fails e ∈ answers ∧ e ≠ EINTR
    | Some out => ∃ evs rs, Done evs ∈ answers ∧ Forall2 (reported p) evs rs ∧ out = omap id rs
    end.
Proof.
  intros Hok Hm Ha Ht. unfold croutine_poller_wait. destruct (Z.leb_spec max 0); [lia|].
  destruct (retry_answered answers Ha) as (r & l1 & l2 & Hr & Hi & E & _).
  assert (r ∈ answers) as Hin by (rewrite E; set_solver).
  rewrite (bind_ok _ _ _ _ _ (lift_run _ _ p Hr)). destruct r as [evs|e].
  - destruct (collect_run evs p Hok (Ht evs Hin)) as (rs & p' & Hrun & Hok' & Hu & Hrs).
    rewrite (bind_ok _ _ _ _ _ Hrun). exists (Some (omap id rs)), p'. split_and!; try done. by exists evs, rs.
  - exists None, p. split_and!; try done. exists e. split; [done|]. by intros ->.
Qed.

(** ** [croutine_poller_wake] *)

Lemma epoll_wake_run p : epoll_ok p →
  ∃ b p', croutine_poller_wake p = Ok (b, p') ∧ epoll_ok p' ∧ unmoved p p' ∧
    (0 < counter (kern p) (wake_fd p) → 0 < counter (kern p') (wake_fd p')) ∧
    (b = true → 0 < counter (kern p') (wake_fd p')).
Proof.
  intros Hok. unfold croutine_poller_wake. rewrite (bind_ok _ _ p p p) by done.
  destruct (eventfd_write (wake_fd p) 1 (kern p)) as [r k] eqn:Ek.
  rewrite (bind_ok _ _ _ _ _ (sys_run _ _ _ _ Ek)).
  destruct (eventfd_write_spec _ _ _ _ _ Ek) as (Hk & Hc & Hb); [lia|].
  eexists _, (set_kern k p). split; [done|]. split; [by apply kern_same|]. split_and!; try done.
  intros E. apply Hb. destruct r as [[]|[]]; auto; done.
Qed.

(** ** The poller interface *)


(** ** Stale events *)

(** A history of interest changes, each with the old events the scheduler
    knows. *)
Inductive set_calls : nat → epoll K → epoll K → Prop :=
| set_calls_nil p : set_calls 0 p p
| set_calls_cons n p fd old new b p1 p2 :
    fd_ok fd → events_ok old → events_ok new → epoll_interest p fd = old →
    croutine_poller_set fd old new p = Ok (b, p1) →
    set_calls n p1 p2 → set_calls (S n) p p2.

Lemma ages_step fd d n p p' i g :
  0 ≤ n ≤ 1 → ages d n p p' → fd_generations p !! i = Some g → 0 ≤ g < 2 ^ 32 →
  ∃ k, 0 ≤ k ≤ 1 ∧ fd_generations p' !! i = Some (u32 (g + k)).
Proof.
  intros Hn Ha Hg Hr. rewrite (Ha i g Hg). case_decide; [by exists n|]. exists 0.
  rewrite Z.add_0_r, u32_small by done. split; [lia|done].
Qed.

(** Each call advances a generation by at most one. *)
Lemma set_calls_age n p p' i g :
  set_calls n p p' → epoll_ok p → fd_generations p !! i = Some g →
  epoll_ok p' ∧ wake_fd p' = wake_fd p ∧
  ∃ k, 0 ≤ k ≤ Z.of_nat n ∧ fd_generations p' !! i = Some (u32 (g + k)).
Proof.
  intros Hc. revert g. induction Hc as [p|n p fd old new b p1 p2 Hf Ho Hn Hi Hrun _ IH]; intros g Hok Hg.
  - split; [done|]. split; [done|]. exists 0. rewrite Z.add_0_r, u32_small by (by eapply eo_range). split; [lia|done].
  - destruct (epoll_set_law fd old new p Hok Hf Ho Hn Hi) as (b' & p1' & Hrun' & Hok1 & (m & Hm & Ha & _) & _ & Hw & _).
    rewrite Hrun in Hrun'. injection Hrun' as <- <-.
    destruct (ages_step fd fd m p p1 i g Hm Ha Hg (eo_range _ Hok _ _ Hg)) as (k & Hk & Hg1).
    destruct (IH _ Hok1 Hg1) as (Hok2 & Hw2 & k' & Hk' & Hg2). split; [done|]. split; [congruence|].
    exists (k + k'). split; [lia|]. rewrite Hg2. unfold u32. rewrite Zplus_mod_idemp_l. by rewrite Z.add_assoc.
Qed.

Lemma stale_unreported p p1 p2 fd old e n x :
  epoll_ok p → fd_ok fd → events_ok old → epoll_interest p fd = old → old ≠ CROUTINE_IO_EVENT_NONE →
  registration (kern p) (poller_fd p) fd = Some e →
  croutine_poller_set fd old CROUTINE_IO_EVENT_NONE p = Ok (true, p1) →
  set_calls n p1 p2 → Z.of_nat n < 2 ^ 32 - 1 →
  ∃ p3, translate (mkEpollEvent x (ee_data e)) p2 = Ok (None, p3) ∧ epoll_ok p3.
Proof.
  intros Hok Hfd Ho Hi Hne He Hrun Hc Hn.
  destruct (registered_known p fd old Hok Hi Hne) as (Hw & e' & g & r & He' & _ & Hfd' & Hg & _ & _ & Htok).
  rewrite He in He'. injection He' as <-. pose proof (eo_range _ Hok _ _ Hg) as Hgr.
  destruct (epoll_set_law fd old CROUTINE_IO_EVENT_NONE p Hok Hfd Ho) as (b & p1' & Hrun' & Hok1 & (m & _ & Ha & Hm) & _ & Hw1 & _);
    [done..|]. rewrite Hrun in Hrun'. injection Hrun' as <- <-. rewrite (Hm eq_refl Hne eq_refl) in Ha.
  pose proof (Ha _ _ Hg) as Hg1. rewrite decide_True in Hg1 by done.
  destruct (set_calls_age n p1 p2 _ _ Hc Hok1 Hg1) as (Hok2 & Hw2 & k & Hk & Hg2).
  destruct (token_decode g fd Hgr Hfd') as (T1 & T2 & _).
  assert (0 ≤ ee_data e < 2 ^ 64) as Hrange.
  { rewrite Htok, token_eq by done. pose proof (u32_range fd). lia. }
  destruct (translate_run p2 (mkEpollEvent x (ee_data e)) Hok2 Hrange) as (o & p3 & Hrun3 & Hok3 & _ & Hrep).
  exists p3. destruct o as [[d y]|]; [exfalso|done].
  destruct (proj1 (Hrep d y) eq_refl) as (Hd & _ & _ & e2 & He2 & E). simpl in E.
  destruct (registered_token p2 d e2 Hok2 Hd He2) as (_ & Ed & _ & _ & _ & Hg3).
  rewrite E, Htok, T1 in Ed. subst d. rewrite E, Htok, T2, Hg2 in Hg3. injection Hg3 as Heq.
  unfold u32 in Heq. rewrite Zplus_mod_idemp_l in Heq.
  assert ((g + (1 + k)) mod 2 ^ 32 = (g + 0) mod 2 ^ 32) as Hcong.
  { rewrite Z.add_assoc, Heq, Z.add_0_r. symmetry. by apply Z.mod_small. }
  apply ring_index_inj in Hcong; lia.
Qed.

(** ** Start and stop *)

(** The poller before [croutine_poller_init] and after
    [croutine_poller_deinit]. *)
Definition off (k : K) : epoll K := mkEpoll (-1) (-1) [] [] 0 k.

Lemma epoll_init_run k :
  ∃ b p, croutine_poller_init (off k) = Ok (b, p) ∧
    if b then epoll_ok p ∧ (∀ fd, epoll_interest p fd = CROUTINE_IO_EVENT_NONE) ∧
      (poller_fd p ∉ open_fds k) ∧ (wake_fd p ∉ open_fds k) ∧
      open_fds (kern p) = {[wake_fd p; poller_fd p]} ∪ open_fds k ∧
      fd_table_capacity p = 0 ∧ fd_generations p = [] ∧ fd_registered p = []
    else ∃ k', p = off k' ∧ open_fds k' = open_fds k.
Proof.
  unfold croutine_poller_init. rewrite (bind_ok _ _ (off k) (off k) (off k)) by done. cbn [off poller_fd].
  destruct (Z.leb_spec 0 (-1)); [lia|].
  destruct (epoll_create1 k) as [r1 k1] eqn:E1. pose proof (epoll_create1_spec _ _ _ E1) as H1'.
  rewrite (bind_ok _ _ _ _ _ (sys_run _ _ _ (off k) E1)).
  destruct r1 as [ep|]; [|by eexists false, _; split; [done|]; exists k1].
  destruct H1' as (Hep & Hnew1 & Ho1 & Hreg1). rewrite (bind_ok _ _ _ tt (set_poller_fd ep (off k1))) by done.
  destruct (eventfd k1) as [r2 k2] eqn:E2. destruct (eventfd_spec _ _ _ E2) as [Hreg2 H2'].
  rewrite (bind_ok _ _ _ _ _ (sys_run _ _ _ (set_poller_fd ep (off k1)) E2)).
  destruct r2 as [wf|].
  2: { eexists false, _. split; [done|]. eexists. split; [done|]. simpl. rewrite close_spec, H2', Ho1. set_solver. }
  destruct H2' as (Hwf & Hnew2 & Ho2).
  rewrite (bind_ok _ _ _ tt (mkEpoll ep wf [] [] 0 k2)) by done.
  destruct (epoll_ctl ep EPOLL_CTL_ADD wf (Some (mkEpollEvent EPOLLIN WAKE_TOKEN)) k2) as [r3 k3] eqn:E3.
  pose proof (epoll_ctl_open _ _ _ _ _ _ _ E3) as Ho3.
  destruct (epoll_ctl_spec _ _ _ _ _ _ _ E3) as [_ H3'].
  rewrite (bind_ok _ _ _ _ _ (sys_run _ _ _ (mkEpoll ep wf [] [] 0 k2) E3)).
  destruct r3 as [u|].
  - destruct H3' as (_ & Hw & Hoth). eexists true, _. split; [done|].
    assert (∀ fd, fd ≠ wf → registration k3 ep fd = None) as Hnone.
    { intros fd Hne. rewrite Hoth, Hreg2 by done. apply Hreg1. }
    split; [split; simpl; try done; try lia|split_and!; simpl; try done].
    + intros fd e Hne. by rewrite Hnone.
    + intros fd. unfold epoll_interest. simpl. case_bool; [done|]. by rewrite Hnone.
    + set_solver.
    + rewrite Ho3, Ho2, Ho1. set_solver.
  - eexists false, _. split; [done|]. eexists. split; [done|]. simpl.
    rewrite !close_spec, Ho3, Ho2, Ho1. set_solver.
Qed.

Lemma epoll_deinit_run p :
  0 ≤ wake_fd p → 0 ≤ poller_fd p →
  ∃ k', croutine_poller_deinit p = Ok (tt, off k') ∧
    open_fds k' = open_fds (kern p) ∖ {[wake_fd p; poller_fd p]}.
Proof.
  intros Hw Hp. unfold croutine_poller_deinit. rewrite (bind_ok _ _ p p p) by done.
  destruct (Z.leb_spec 0 (wake_fd p)); [|lia]. destruct (Z.leb_spec 0 (poller_fd p)); [|lia].
  eexists. split; [done|]. simpl. rewrite !close_spec. set_solver.
Qed.

(** ** The interface *)

#[global] Instance epoll_laws : PollerLaws (epoll K).
Proof.
  refine (Build_PollerLaws (epoll K) epoll_poller epoll_ok (λ _, fd_ok) epoll_interest
    (λ ev : epoll_event, 0 ≤ ee_data ev < 2 ^ 64) (λ p, 0 < counter (kern p) (wake_fd p))
    (λ p, ∃ k, p = off k) _ _ _ _ _).
  - intros fd old new p Hok Hfd Ho Hn Hi.
    destruct (epoll_set_law fd old new p Hok Hfd Ho Hn Hi) as (b & p' & Hrun & R1 & _ & R2 & R3 & R4 & R5 & _).
    exists b, p'. split; [exact Hrun|]. split_and!; try done; [by rewrite R3, R4|by destruct b].
  - intros max answers p Hok Hm Ha Hf Ht.
    destruct (wait_run max answers p Hok) as (r & p' & Hrun & Hok' & Hu & Hr); [lia|done|done|].
    exists r, p'. split; [exact Hrun|]. split_and!; [done..|intros fd; by apply unmoved_interest|].
    intros out ->. destruct Hr as (evs & rs & Hin & Hrs & ->).
    apply Forall2_length in Hrs. pose proof (omap_id_length rs).
    assert (Z.of_nat (length evs) ≤ max) by exact (Hf evs Hin). lia.
  - intros p Hok. destruct (epoll_wake_run p Hok) as (b & p' & Hrun & Hok' & Hu & H1' & H2').
    exists b, p'. split; [exact Hrun|]. split_and!; try done. intros fd. by apply unmoved_interest.
  - intros p [k ->]. destruct (epoll_init_run k) as (b & p' & Hrun & Hb). exists b, p'. split; [exact Hrun|].
    destruct b; [|destruct Hb as (k' & -> & _); by exists k']. by destruct Hb as (Hok & Hi & _).
  - intros p Hok. destruct (eo_fds p Hok) as [F1 F2]. destruct (epoll_deinit_run p F2 F1) as (k' & Hrun & _).
    exists (off k'). split; [exact Hrun|]. by exists k'.
Defined.
End epoll.
