(* ===== verification/EpollProps.v ===== *)
(** * What the epoll poller guarantees

    Theorems on src/poller_epoll.c over every kernel that behaves as
    documented, and a small such kernel on which they are evaluated. *)

From S2P Require Import Prelude Posix Task PollerApi PollerEpoll EpollInv.
Import Epoll.

(** ** A kernel *)

Module EpollKernelModel.
Record ek := mkEk { ek_regs : gmap (Z * Z) epoll_event; ek_counts : gmap Z Z; ek_open : gset Z }.

Definition without (d : Z) (m : gmap (Z * Z) epoll_event) : gmap (Z * Z) epoll_event :=
  base.filter (λ kv, kv.1.1 ≠ d ∧ kv.1.2 ≠ d) m.

Definition count (k : ek) (d : Z) : Z := Z.max 0 (default 0 (ek_counts k !! d)).

Definition ctl (ep : Z) (op : ctl_op) (fd : Z) (ev : option epoll_event) : syscall ek unit := λ k,
  let put v := mkEk (partial_alter (λ _, v) (ep, fd) (ek_regs k)) (ek_counts k) (ek_open k) in
  match op, ek_regs k !! (ep, fd) with
  | EPOLL_CTL_ADD, None => (Done tt, put ev)
  | EPOLL_CTL_ADD, Some _ => (Fails EEXIST, k)
  | EPOLL_CTL_MOD, Some _ => (Done tt, put ev)
  | EPOLL_CTL_DEL, Some _ => (Done tt, put None)
  | _, None => (Fails ENOENT, k)
  end.

#[global] Instance ek_kernel : EpollKernel ek := {|
  epoll_create1 k :=
    let ep := fresh_fd (ek_open k) in
    (Done ep, mkEk (without ep (ek_regs k)) (ek_counts k) ({[ep]} ∪ ek_open k));
  eventfd k :=
    let d := fresh_fd (ek_open k) in
    (Done d, mkEk (ek_regs k) (<[d := 0]> (ek_counts k)) ({[d]} ∪ ek_open k));
  epoll_ctl := ctl;
  eventfd_read d k :=
    match count k d with
    | 0 => (Fails EAGAIN, k)
    | n => (Done n, mkEk (ek_regs k) (<[d := 0]> (ek_counts k)) (ek_open k))
    end;
  eventfd_write d v k :=
    (Done tt, mkEk (ek_regs k) (<[d := count k d + v]> (ek_counts k)) (ek_open k));
  close d k := mkEk (without d (ek_regs k)) (ek_counts k) (ek_open k ∖ {[d]})
|}.

#[global] Instance ek_laws : EpollLaws ek.
Proof.
  refine {| registration k ep fd := ek_regs k !! (ep, fd); counter := count;
            open_fds := ek_open |}.
  - intros k r k' [= <- <-]. destruct (fresh_fd_above (ek_open k)). simpl. split; [lia|].
    split; [apply fresh_fd_new|]. split; [done|]. intros fd. apply map_lookup_filter_None. right. naive_solver.
  - intros k r k' [= <- <-]. destruct (fresh_fd_above (ek_open k)). simpl. split; [done|]. split; [lia|].
    split; [apply fresh_fd_new|done].
  - done.
  - intros ep op fd ev k r k' E. cbn in E. unfold ctl in E.
    by destruct op, (ek_regs k !! (ep, fd)); injection E as <- <-.
  - intros ep op fd ev k r k' E. cbn in E. unfold ctl in E.
    destruct op, (ek_regs k !! (ep, fd)) eqn:Er; injection E as <- <-; cbn [ek_regs ek_counts];
      (split; [done|]); (split_and!; try done; try (split; congruence));
      try (by rewrite lookup_partial_alter_eq); try (intros fd' Hne; apply lookup_partial_alter_ne; congruence).
  - intros d k r k' E ep fd. cbn in E. by destruct (count k d); injection E as <- <-.
  - intros d v k r k' [= <- <-] Hv. unfold count. cbn. rewrite lookup_insert_eq. simpl.
    split_and!; [done|lia|lia].
Defined.

(** Standard input is open; the poller starts and descriptor 0 is watched. *)
Definition started : epoll ek :=
  match croutine_poller_init (off (mkEk ∅ ∅ {[0]})) with Ok (_, p) => p | _ => off (mkEk ∅ ∅ ∅) end.
Lemma started_init : croutine_poller_init (off (mkEk ∅ ∅ {[0]})) = Ok (true, started).
Proof. vm_compute. reflexivity. Qed.
End EpollKernelModel.
Import EpollKernelModel.

Lemma started_ok : epoll_ok started ∧ ∀ fd, epoll_interest started fd = CROUTINE_IO_EVENT_NONE.
Proof.
  destruct (epoll_init_run (mkEk ∅ ∅ {[0]})) as (b & p & E & Hb). rewrite started_init in E.
  apply ok_inj in E as [<- <-]. by destruct Hb as (? & ? & _).
Qed.

(** ** Properties *)

Section props.
Context `{Alloc} {K : Type} `{EpollLaws K}.

(** C29: On an initialised epoll poller, [croutine_poller_set] called with the
    events that are registered for a descriptor always returns, keeps the
    generation tables and the kernel's registrations in agreement, leaves
    every other descriptor alone, and registers exactly the new events when
    it returns true; when it returns false the old events are still
    registered and the allocator or the kernel had refused a request. *)
Theorem epoll_set_registers p fd old new :
  epoll_ok p → fd_ok fd → events_ok old → events_ok new → epoll_interest p fd = old →
  ∃ b p', croutine_poller_set fd old new p = Ok (b, p') ∧ epoll_ok p' ∧
    epoll_interest p' fd = (if b then new else old) ∧
    (∀ d, d ≠ fd → epoll_interest p' d = epoll_interest p d) ∧
    (b = false → set_refused p fd).
Proof.
  intros Hok Hfd Ho Hn Hi.
  destruct (epoll_set_law fd old new p Hok Hfd Ho Hn Hi) as (b & p' & Hrun & R1 & _ & R2 & _ & _ & R3 & R4).
  by exists b, p'.
Qed.

(** C30: After a registration has been removed, and as long as fewer than
    2^32 - 1 further calls of [croutine_poller_set] are made (on that or on
    other descriptors, re-registering it included), an event the kernel still
    delivers under the token of the removed registration is dropped. *)
Theorem epoll_stale_event_dropped p p1 p2 fd old e n events :
  epoll_ok p → fd_ok fd → events_ok old → epoll_interest p fd = old → old ≠ CROUTINE_IO_EVENT_NONE →
  registration (kern p) (poller_fd p) fd = Some e →
  croutine_poller_set fd old CROUTINE_IO_EVENT_NONE p = Ok (true, p1) →
  set_calls n p1 p2 → Z.of_nat n < 2 ^ 32 - 1 →
  ∃ p3, collect [mkEpollEvent events (ee_data e)] p2 = Ok ([], p3) ∧ epoll_ok p3.
Proof.
  intros Hok Hfd Ho Hi Hne He Hrun Hc Hn.
  destruct (stale_unreported p p1 p2 fd old e n events Hok Hfd Ho Hi Hne He Hrun Hc Hn) as (p3 & Hrun3 & Hok3).
  exists p3. cbn [collect]. by rewrite (bind_ok _ _ _ _ _ Hrun3).
Qed.

(** C31: [croutine_poller_wait] returns as soon as the kernel answers
    anything but an interruption; the kernel's events are reported in order,
    each exactly when its token belongs to a current registration, for that
    descriptor and with the events it translates to, and what is registered
    does not change. *)
Theorem epoll_wait_reports p max answers :
  epoll_ok p → 0 < max → answered answers → (∀ evs, Done evs ∈ answers → tokens_ok evs) →
  ∃ r p', croutine_poller_wait max answers p = Ok (r, p') ∧ epoll_ok p' ∧
    (∀ fd, epoll_interest p' fd = epoll_interest p fd) ∧
    match r with
    | None => ∃ e, Fails e ∈ answers ∧ e ≠ EINTR
    | Some out => ∃ evs rs, Done evs ∈ answers ∧ Forall2 (reported p) evs rs ∧ out = omap id rs
    end.
Proof.
  intros Hok Hm Ha Ht. destruct (wait_run max answers p Hok Hm Ha Ht) as (r & p' & Hrun & Hok' & Hu & Hr).
  exists r, p'. split_and!; try done. intros fd. by apply unmoved_interest.
Qed.

(** C32: [croutine_poller_init] either leaves a working poller that watches
    nothing, with two new descriptors open, and [croutine_poller_deinit] then
    closes exactly those; or it fails, and every descriptor it opened is
    closed again. *)
Theorem epoll_start_stop k :
  ∃ b p, croutine_poller_init (off k) = Ok (b, p) ∧
    if b then epoll_ok p ∧ (∀ fd, epoll_interest p fd = CROUTINE_IO_EVENT_NONE) ∧
      open_fds (kern p) = {[wake_fd p; poller_fd p]} ∪ open_fds k ∧
      ∃ k', croutine_poller_deinit p = Ok (tt, off k') ∧ open_fds k' = open_fds k
    else ∃ k', p = off k' ∧ open_fds k' = open_fds k.
Proof.
  destruct (epoll_init_run k) as (b & p & Hrun & Hb). exists b, p. split; [done|]. destruct b; [|done].
  destruct Hb as (Hok & Hi & Hn1 & Hn2 & Ho & _). split_and!; try done.
  destruct (eo_fds _ Hok). destruct (epoll_deinit_run p) as (k' & Hd & Ho'); [done..|].
  exists k'. split; [done|]. rewrite Ho', Ho. set_solver.
Qed.
End props.

(** ** Witnesses *)

#[local] Existing Instance generous.

(** Descriptor 0 is registered for reading. *)
Lemma epoll_set_registers_witness :
  ∃ b p', croutine_poller_set 0 CROUTINE_IO_EVENT_NONE CROUTINE_IO_EVENT_READ started = Ok (b, p') ∧
    epoll_interest p' 0 = (if b then CROUTINE_IO_EVENT_READ else CROUTINE_IO_EVENT_NONE).
Proof.
  destruct (epoll_set_registers started 0 CROUTINE_IO_EVENT_NONE CROUTINE_IO_EVENT_READ)
    as (b & p' & E & _ & Hi & _);
    [apply started_ok|unfold fd_ok; lia|unfold events_ok; vm_compute; split; discriminate..|apply started_ok|].
  by exists b, p'.
Defined.

Definition reading : epoll ek :=
  match croutine_poller_set 0 CROUTINE_IO_EVENT_NONE CROUTINE_IO_EVENT_READ started with
  | Ok (_, p) => p | _ => started end.
Lemma reading_set :
  croutine_poller_set 0 CROUTINE_IO_EVENT_NONE CROUTINE_IO_EVENT_READ started = Ok (true, reading).
Proof. vm_compute. reflexivity. Qed.
Lemma reading_ok : epoll_ok reading ∧ epoll_interest reading 0 = CROUTINE_IO_EVENT_READ.
Proof.
  destruct (epoll_set_law 0 CROUTINE_IO_EVENT_NONE CROUTINE_IO_EVENT_READ started)
    as (b & p' & E & R1 & _ & _ & _ & _ & R2 & _);
    [apply started_ok|unfold fd_ok; lia|unfold events_ok; vm_compute; split; discriminate..|apply started_ok|].
  rewrite reading_set in E. apply ok_inj in E as [<- <-]. done.
Qed.
Definition unwatched : epoll ek :=
  match croutine_poller_set 0 CROUTINE_IO_EVENT_READ CROUTINE_IO_EVENT_NONE reading with
  | Ok (_, p) => p | _ => started end.

(** The token of the first registration, delivered after its removal. *)
Lemma epoll_stale_event_dropped_witness :
  ∃ p3, collect [mkEpollEvent EPOLLIN (token 1 0)] unwatched = Ok ([], p3) ∧ epoll_ok p3.
Proof.
  apply (epoll_stale_event_dropped reading unwatched unwatched 0 CROUTINE_IO_EVENT_READ
    (mkEpollEvent (to_epoll_events CROUTINE_IO_EVENT_READ) (token 1 0)) 0).
  - apply reading_ok.
  - unfold fd_ok; lia.
  - vm_compute. split; discriminate.
  - apply reading_ok.
  - discriminate.
  - vm_compute. reflexivity.
  - vm_compute. reflexivity.
  - constructor.
  - lia.
Defined.

(** After an interruption the kernel reports the wake-up and descriptor 0. *)
Lemma epoll_wait_reports_witness :
  ∃ r p', croutine_poller_wait 64
      [Fails EINTR; Done [mkEpollEvent EPOLLIN WAKE_TOKEN; mkEpollEvent EPOLLIN (token 1 0)]] reading
    = Ok (r, p') ∧ epoll_ok p'.
Proof.
  destruct (epoll_wait_reports reading 64
    [Fails EINTR; Done [mkEpollEvent EPOLLIN WAKE_TOKEN; mkEpollEvent EPOLLIN (token 1 0)]])
    as (r & p' & E & Hok & _).
  - apply reading_ok.
  - lia.
  - eexists. split; [apply elem_of_cons; right; apply elem_of_cons; by left|done].
  - intros evs [E|[E|E%elem_of_nil]%elem_of_cons]%elem_of_cons; [done| |done].
    injection E as ->. repeat constructor; done.
  - by exists r, p'.
Defined.
