(* ===== verification/PollerKqueue.v ===== *)
(** * The kqueue poller (src/poller_kqueue.c)

    Each kind of event of a descriptor is a filter of its own, so changing
    the events of a descriptor may take two system calls, the first of which
    is undone when the second fails.  Wake-ups are bytes written to a pipe.
    The kernel is a parameter ([Kernel]); KqueueInv.v states the documented
    behaviour it is assumed to have. *)

From S2P Require Import Prelude Posix Task PollerApi.

Module Kqueue.

Definition EVFILT_READ : Z := -1.
Definition EVFILT_WRITE : Z := -2.
Definition EV_ADD : Z := 0x1.
Definition EV_DELETE : Z := 0x2.
Definition EV_ENABLE : Z := 0x4.
Definition EV_CLEAR : Z := 0x20.
Definition EV_ERROR : Z := 0x4000.
Definition EV_EOF : Z := 0x8000.

(** The commands of [fcntl] that are used, and the flags they set. *)
Inductive fcntl_cmd := F_GETFD | F_SETFD | F_GETFL | F_SETFL.
Definition FD_CLOEXEC : Z := 0x1.
Definition O_NONBLOCK : Z := 0x4.

(** The members of [struct kevent] that are read. *)
Record kevent_t := mkKevent { ident : Z; filter : Z; flags : Z }.

(** The system calls, on a kernel state [K].  [kevent_change] is [kevent]
    with one change and no room for events.  [patience] bounds how often
    calls are interrupted from now on and [unread] is the number of bytes in
    a pipe; they bound the loops. *)
Class Kernel (K : Type) := {
  kqueue : syscall K Z;
  pipe : syscall K (Z * Z);
  fcntl : Z → fcntl_cmd → Z → syscall K Z;
  kevent_change : Z → kevent_t → syscall K unit;
  read : Z → Z → syscall K Z;
  write : Z → Z → syscall K Z;
  close : Z → K → K;
  patience : K → nat;
  unread : K → Z → nat
}.

(** The file-scope state. *)
Record St (K : Type) := mkSt {
  poller_fd : Z;
  wake_read_fd : Z;
  wake_write_fd : Z;
  kern : K
}.
Arguments mkSt {K}.
Arguments poller_fd {K}.
Arguments wake_read_fd {K}.
Arguments wake_write_fd {K}.
Arguments kern {K}.

Section kqueue.
Context {K : Type} `{Kernel K}.

Definition set_poller_fd v (p : St K) : St K := mkSt v (wake_read_fd p) (wake_write_fd p) (kern p).
Definition set_wake_read_fd v (p : St K) : St K := mkSt (poller_fd p) v (wake_write_fd p) (kern p).
Definition set_wake_write_fd v (p : St K) : St K := mkSt (poller_fd p) (wake_read_fd p) v (kern p).
Definition set_kern k (p : St K) : St K := mkSt (poller_fd p) (wake_read_fd p) (wake_write_fd p) k.

Definition sys {A} (call : syscall K A) : M (St K) (sysres A) := λ p,
  let '(r, k) := call (kern p) in Ok (r, set_kern k p).
Definition lift {A} (o : outcome A) : M (St K) A := λ p, a ← o; Ok (a, p).
(** A call repeated while it is interrupted. *)
Definition again {A} (call : syscall K A) : M (St K) (sysres A) := λ p,
  rk ← retry_call (S (patience (kern p))) call (kern p);
  Ok (rk.1, set_kern rk.2 p).

(** [close_if_open(&fd)], the descriptor being read and written through a
    getter and a setter. *)
Definition close_if_open (fd : St K → Z) (set : Z → St K → St K) : M (St K) unit :=
  p ← get;
  if 0 <=? fd p
  then modify (λ p, set_kern (close (fd p) (kern p)) p);; modify (set (-1))
  else mret tt.

(** A successful F_SETFD or F_SETFL that returned anything but 0 would go on
    to read an [errno] that was not set. *)
Definition set_fd_flag (fd : Z) (get_cmd set_cmd : fcntl_cmd) (flag : Z) : M (St K) bool :=
  r ← again (fcntl fd get_cmd 0);
  match r with
  | Fails _ => mret false
  | Done value =>
      if negb (Z.land value flag =? 0) then mret true else
      r ← again (fcntl fd set_cmd (Z.lor value flag));
      match r with
      | Done 0 => mret true
      | Done _ => stuck
      | Fails _ => mret false
      end
  end.

Definition prepare_fd (fd : Z) : M (St K) bool :=
  ok ← set_fd_flag fd F_GETFD F_SETFD FD_CLOEXEC;
  if negb ok then mret false else set_fd_flag fd F_GETFL F_SETFL O_NONBLOCK.

Definition create_wake_pipe : M (St K) bool :=
  r ← sys pipe;
  match r with
  | Fails _ => mret false
  | Done (rd, wr) =>
      ok ← prepare_fd rd;
      ok ← (if ok : bool then prepare_fd wr else mret false);
      if negb ok then
        modify (λ p, set_kern (close rd (kern p)) p);;
        modify (λ p, set_kern (close wr (kern p)) p);;
        mret false
      else
        modify (set_wake_read_fd rd);;
        modify (set_wake_write_fd wr);;
        mret true
  end.

(** [(uintptr_t)fd] is [u64 fd]. *)
Definition apply_filter_change (fd filter : Z) (enable : bool) : M (St K) bool :=
  let flags := if enable then Z.lor (Z.lor EV_ADD EV_ENABLE) EV_CLEAR else EV_DELETE in
  p ← get;
  r ← again (kevent_change (poller_fd p) (mkKevent (u64 fd) filter flags));
  mret match r with
       | Done _ => true
       | Fails e => negb enable && bool_decide (e = ENOENT)
       end.

Definition sync_filter (fd old_events new_events event_bit filter : Z) : M (St K) bool :=
  let had_event := negb (Z.land old_events event_bit =? 0) in
  let needs_event := negb (Z.land new_events event_bit =? 0) in
  if Bool.eqb had_event needs_event then mret true
  else apply_filter_change fd filter needs_event.

Definition reverse_filter (fd old_events new_events event_bit filter : Z) : M (St K) bool :=
  let had_event := negb (Z.land old_events event_bit =? 0) in
  let needs_event := negb (Z.land new_events event_bit =? 0) in
  if Bool.eqb had_event needs_event then mret true
  else apply_filter_change fd filter had_event.

(** The loop of [drain_wake_fd]: every iteration reads a byte at least, is
    interrupted or ends the loop. *)
Fixpoint drain (fuel : nat) : M (St K) unit :=
  match fuel with
  | O => λ _, OutOfFuel
  | S fuel =>
      p ← get;
      r ← sys (read (wake_read_fd p) 256);
      match r with
      | Done n => if 0 <? n then drain fuel else mret tt
      | Fails EINTR => drain fuel
      | Fails _ => mret tt
      end
  end.
Definition drain_wake_fd : M (St K) unit :=
  p ← get; drain (S (patience (kern p) + unread (kern p) (wake_read_fd p))).

Definition translate_ready_event (event : kevent_t) : Z :=
  let ready := CROUTINE_IO_EVENT_NONE in
  let ready := if filter event =? EVFILT_READ
    then Z.lor ready CROUTINE_IO_EVENT_READ else ready in
  let ready := if filter event =? EVFILT_WRITE
    then Z.lor ready CROUTINE_IO_EVENT_WRITE else ready in
  if negb (Z.land (flags event) (Z.lor EV_EOF EV_ERROR) =? 0)
  then Z.lor ready (Z.lor CROUTINE_IO_EVENT_READ CROUTINE_IO_EVENT_WRITE) else ready.

(** [events] holds the first [count] elements of an array of [room + count];
    writing past the array is stuck. *)
Fixpoint merge_ready_event (room : Z) (events : list CroutinePollEvent) (fd ready : Z)
  : outcome (list CroutinePollEvent) :=
  match events with
  | [] => if 0 <? room then Ok [mkPollEvent fd ready] else Stuck
  | e :: events =>
      if pe_fd e =? fd then Ok (mkPollEvent (pe_fd e) (Z.lor (pe_events e) ready) :: events)
      else merged ← merge_ready_event room events fd ready; Ok (e :: merged)
  end.

Definition croutine_poller_init : M (St K) bool :=
  p ← get;
  if 0 <=? poller_fd p then mret true else
  r ← sys kqueue;
  match r with
  | Fails _ => modify (set_poller_fd (-1));; mret false
  | Done kq =>
      modify (set_poller_fd kq);;
      ok ← create_wake_pipe;
      if negb ok then
        close_if_open poller_fd set_poller_fd;;
        mret false
      else
        p ← get;
        ok ← apply_filter_change (wake_read_fd p) EVFILT_READ true;
        if negb ok then
          close_if_open wake_write_fd set_wake_write_fd;;
          close_if_open wake_read_fd set_wake_read_fd;;
          close_if_open poller_fd set_poller_fd;;
          mret false
        else mret true
  end.

Definition croutine_poller_deinit : M (St K) unit :=
  close_if_open wake_write_fd set_wake_write_fd;;
  close_if_open wake_read_fd set_wake_read_fd;;
  close_if_open poller_fd set_poller_fd.

Definition croutine_poller_set (fd old_events new_events : Z) : M (St K) bool :=
  if old_events =? new_events then mret true else
  ok ← sync_filter fd old_events new_events CROUTINE_IO_EVENT_READ EVFILT_READ;
  if negb ok then mret false else
  ok ← sync_filter fd old_events new_events CROUTINE_IO_EVENT_WRITE EVFILT_WRITE;
  if ok : bool then mret true else
  reverse_filter fd old_events new_events CROUTINE_IO_EVENT_READ EVFILT_READ;;
  mret false.

(** The loop over the ready events, [events] being those reported so far. *)
Fixpoint collect (max_events : Z) (ready_events : list kevent_t)
    (events : list CroutinePollEvent) : M (St K) (list CroutinePollEvent) :=
  match ready_events with
  | [] => mret events
  | ev :: ready_events =>
      p ← get;
      if (i32 (ident ev) =? wake_read_fd p) && (filter ev =? EVFILT_READ) then
        drain_wake_fd;; collect max_events ready_events events
      else
        let translated := translate_ready_event ev in
        if translated =? CROUTINE_IO_EVENT_NONE then collect max_events ready_events events else
        events ← lift (merge_ready_event (max_events - Z.of_nat (length events)) events
                         (i32 (ident ev)) translated);
        collect max_events ready_events events
  end.

(** The caller's array is never null.  The answers are those of [kevent]; the
    timeout, 0 or -1, decides only how soon there is one. *)
Definition croutine_poller_wait (max_events : Z) (answers : list (sysres (list kevent_t)))
  : M (St K) (option (list CroutinePollEvent)) :=
  if max_events <=? 0 then mret None else
  r ← lift (retry answers);
  match r with
  | Fails _ => mret None
  | Done ready_events => evs ← collect max_events ready_events []; mret (Some evs)
  end.

(** A [write] of one byte that returned 0 would go on to read an [errno] that
    was not set. *)
Definition croutine_poller_wake : M (St K) bool :=
  p ← get;
  r ← again (write (wake_write_fd p) 1);
  match r with
  | Done 1 => mret true
  | Done _ => stuck
  | Fails EAGAIN | Fails EWOULDBLOCK => mret true
  | Fails _ => mret false
  end.
End kqueue.
End Kqueue.

#[global] Instance kqueue_poller {K} `{Kqueue.Kernel K} : Poller (Kqueue.St K) := {|
  kernel_event := Kqueue.kevent_t;
  poller_init := Kqueue.croutine_poller_init;
  poller_deinit := Kqueue.croutine_poller_deinit;
  poller_set := Kqueue.croutine_poller_set;
  poller_wait := Kqueue.croutine_poller_wait;
  poller_wake := Kqueue.croutine_poller_wake
|}.

(** * The poller of other systems (src/poller_stub.c)

    Every operation fails with ENOSYS. *)
Module Stub.
Definition croutine_poller_init : M unit bool := mret false.
Definition croutine_poller_deinit : M unit unit := mret tt.
Definition croutine_poller_set (fd old_events new_events : Z) : M unit bool := mret false.
Definition croutine_poller_wait (max_events : Z) (answers : list (sysres (list Empty_set)))
  : M unit (option (list CroutinePollEvent)) := mret None.
Definition croutine_poller_wake : M unit bool := mret false.
End Stub.

#[global] Instance stub_poller : Poller unit := {|
  kernel_event := Empty_set;
  poller_init := Stub.croutine_poller_init;
  poller_deinit := Stub.croutine_poller_deinit;
  poller_set := Stub.croutine_poller_set;
  poller_wait := Stub.croutine_poller_wait;
  poller_wake := Stub.croutine_poller_wake
|}.
