(* ===== verification/KqueueInv.v ===== *)
(** * The kqueue poller keeps its promises to the scheduler

    The filters registered with the kernel are the ones last asked for, a
    change that fails half-way is undone, and the events of a descriptor are
    reported once, merged. *)

From S2P Require Import Prelude Posix Task PollerApi PollerKqueue.
Import Kqueue.

(** ** The documented behaviour of the kernel *)

(** The two words of flags of a descriptor. *)
Inductive fd_word := DescriptorFlags | StatusFlags.
Definition cmd_word (c : fcntl_cmd) : fd_word :=
  match c with F_GETFD | F_SETFD => DescriptorFlags | F_GETFL | F_SETFL => StatusFlags end.
Definition cmd_sets (c : fcntl_cmd) : bool :=
  match c with F_SETFD | F_SETFL => true | F_GETFD | F_GETFL => false end.

(** What can be observed of a kernel state: whether a filter of an
    identifier is registered in a queue, the read end of the pipe a
    descriptor writes to, the flags of descriptors and which are open. *)
Class KqueueView (K : Type) := {
  knote : K → Z → Z → Z → bool;
  reader : K → Z → option Z;
  word_of : K → fd_word → Z → Z;
  open_fds : K → gset Z
}.

Section view.
Context {K : Type} `{KqueueView K} `{Kernel K}.
Record same_notes (k k' : K) : Prop := {
  sn_notes : ∀ kq i f, knote k' kq i f = knote k kq i f;
  sn_words : ∀ c d, word_of k' c d = word_of k c d
}.
Record same_pipes (k k' : K) : Prop := {
  sp_reader : ∀ d, reader k' d = reader k d;
  sp_unread : ∀ d, unread k' d = unread k d
}.
(** A change adds a filter or removes it. *)
Definition asks (c : kevent_t) : bool := negb (Z.land (flags c) EV_ADD =? 0).
End view.

(** [kevent] may be interrupted after it has applied the change; adding a
    filter that is there already is not refused. *)
Class KqueueLaws (K : Type) `{KqueueView K} `{Kernel K} := {
  kqueue_spec : ∀ k r k', kqueue k = (r, k') →
    match r with
    | Done kq => 0 ≤ kq ∧ (kq ∉ open_fds k) ∧ open_fds k' = {[kq]} ∪ open_fds k ∧
                 ∀ i f, knote k' kq i f = false
    | Fails _ => open_fds k' = open_fds k
    end;
  pipe_spec : ∀ k r k', pipe k = (r, k') →
    (∀ kq i f, knote k' kq i f = knote k kq i f) ∧
    match r with
    | Done (rd, wr) => 0 ≤ rd < 2 ^ 31 ∧ 0 ≤ wr < 2 ^ 31 ∧ rd ≠ wr ∧
        (rd ∉ open_fds k) ∧ (wr ∉ open_fds k) ∧ open_fds k' = {[rd; wr]} ∪ open_fds k ∧
        reader k' wr = Some rd
    | Fails _ => open_fds k' = open_fds k
    end;
  close_spec : ∀ d k, open_fds (close d k) = open_fds k ∖ {[d]};
  fcntl_spec : ∀ d c arg k r k', fcntl d c arg k = (r, k') →
    open_fds k' = open_fds k ∧ same_pipes k k' ∧
    (∀ kq i f, knote k' kq i f = knote k kq i f) ∧
    (∀ w d', (w, d') ≠ (cmd_word c, d) → word_of k' w d' = word_of k w d') ∧
    (interrupted r = true → (patience k' < patience k)%nat) ∧
    match r with
    | Done v => if cmd_sets c then v = 0 ∧ word_of k' (cmd_word c) d = arg
                else v = word_of k (cmd_word c) d ∧ word_of k' (cmd_word c) d = v
    | Fails _ => word_of k' (cmd_word c) d = word_of k (cmd_word c) d
    end;
  kevent_spec : ∀ kq c k r k', kevent_change kq c k = (r, k') →
    open_fds k' = open_fds k ∧ same_pipes k k' ∧
    (∀ w d, word_of k' w d = word_of k w d) ∧
    (∀ i f, (i, f) ≠ (ident c, filter c) → knote k' kq i f = knote k kq i f) ∧
    match r with
    | Done _ => knote k' kq (ident c) (filter c) = asks c
    | Fails EINTR =>
        (patience k' < patience k)%nat ∧
        (knote k' kq (ident c) (filter c) = knote k kq (ident c) (filter c) ∨
         knote k' kq (ident c) (filter c) = asks c)
    | Fails e =>
        knote k' kq (ident c) (filter c) = knote k kq (ident c) (filter c) ∧
        (asks c = true ∨ e = ENOENT → knote k kq (ident c) (filter c) = false)
    end;
  read_spec : ∀ d n k r k', read d n k = (r, k') →
    open_fds k' = open_fds k ∧ same_notes k k' ∧ (∀ d', reader k' d' = reader k d') ∧
    (patience k' ≤ patience k)%nat ∧ (interrupted r = true → (patience k' < patience k)%nat) ∧
    match r with
    | Done m => 0 ≤ m ≤ Z.of_nat (unread k d) ∧ Z.of_nat (unread k' d) = Z.of_nat (unread k d) - m
    | Fails _ => unread k' d = unread k d
    end;
  write_spec : ∀ d n k r k', 0 < n → write d n k = (r, k') →
    open_fds k' = open_fds k ∧ same_notes k k' ∧ (∀ d', reader k' d' = reader k d') ∧
    (∀ d', (unread k d' ≤ unread k' d')%nat) ∧
    (interrupted r = true → (patience k' < patience k)%nat) ∧
    match r with
    | Done m => 0 < m ≤ n ∧ ∀ rd, reader k d = Some rd → (0 < unread k' rd)%nat
    | Fails e => e = EAGAIN ∨ e = EWOULDBLOCK →
                 ∀ rd, reader k d = Some rd → (0 < unread k' rd)%nat
    end
}.

Section kqueue.
Context {K : Type} `{KqueueLaws K}.
Implicit Types (p : St K) (k : K).

(** ** Invariant *)

Record kq_ok p : Prop := {
  ko_poller : 0 ≤ poller_fd p;
  ko_read : 0 ≤ wake_read_fd p < 2 ^ 31;
  ko_write : 0 ≤ wake_write_fd p < 2 ^ 31;
  ko_pipe : reader (kern p) (wake_write_fd p) = Some (wake_read_fd p);
  ko_wake : knote (kern p) (poller_fd p) (wake_read_fd p) EVFILT_READ = true
}.

(** The scheduler's descriptors are not the pipe. *)
Definition kq_valid p (fd : Z) : Prop := fd_ok fd ∧ fd ≠ wake_read_fd p.
#[global] Instance kq_valid_dec p fd : Decision (kq_valid p fd).
Proof. unfold kq_valid, fd_ok. solve_decision. Defined.

Definition has (k : K) kq fd filter : bool := knote k kq (u64 fd) filter.
Definition kq_interest p fd : Z :=
  if decide (kq_valid p fd) then
    Z.lor (if has (kern p) (poller_fd p) fd EVFILT_READ then CROUTINE_IO_EVENT_READ else 0)
          (if has (kern p) (poller_fd p) fd EVFILT_WRITE then CROUTINE_IO_EVENT_WRITE else 0)
  else CROUTINE_IO_EVENT_NONE.

Lemma u64_inj fd fd' : fd_ok fd → fd_ok fd' → u64 fd = u64 fd' → fd = fd'.
Proof.
  unfold fd_ok, u64, umod. intros Hd Hd' E.
  assert ((fd + 2 ^ 63) mod 2 ^ 64 = (fd' + 2 ^ 63) mod 2 ^ 64) as E'.
  { rewrite <-(Zplus_mod_idemp_l fd), E. apply Zplus_mod_idemp_l. }
  rewrite !Z.mod_small in E' by lia. lia.
Qed.

(** ** Running pieces of code *)

Lemma kq_lift_run {A} (o : outcome A) a p : o = Ok a → lift o p = Ok (a, p).
Proof. by intros ->. Qed.
Lemma kq_sys_run {A} (call : syscall K A) r k p :
  call (kern p) = (r, k) → sys call p = Ok (r, set_kern k p).
Proof. unfold sys. by intros ->. Qed.
Lemma again_run {A} (call : syscall K A) r k p :
  retry_call (S (patience (kern p))) call (kern p) = Ok (r, k) → again call p = Ok (r, set_kern k p).
Proof. unfold again. by intros ->. Qed.

(** Interruptions of a change: elsewhere nothing happens, and the filter is
    as it was or as asked. *)
Definition halfway (kq : Z) (c : kevent_t) k k' : Prop :=
  open_fds k' = open_fds k ∧ same_pipes k k' ∧ (∀ w d, word_of k' w d = word_of k w d) ∧
  (∀ i f, (i, f) ≠ (ident c, filter c) → knote k' kq i f = knote k kq i f) ∧
  (knote k' kq (ident c) (filter c) = knote k kq (ident c) (filter c) ∨
   knote k' kq (ident c) (filter c) = asks c).
Instance same_pipes_preorder : PreOrder (same_pipes (K:=K)).
Proof.
  split; [by split|]. intros k1 k2 k3 [A1 A2] [B1 B2].
  split; intros d; by rewrite ?B1, ?B2.
Qed.
Instance halfway_preorder kq c : PreOrder (halfway kq c).
Proof.
  split.
  - intros k. split_and!; try done. by left.
  - intros k1 k2 k3 (A1 & A2 & A3 & A4 & A5) (B1 & B2 & B3 & B4 & B5).
    split_and!; [congruence|by etrans|intros; by rewrite B3|intros i f Hne; by rewrite B4, A4|].
    destruct A5 as [<-|A5], B5 as [B5|B5]; auto. right. by rewrite B5.
Qed.

(** The flags [apply_filter_change] passes. *)
Lemma asks_enable fd f (enable : bool) :
  asks (mkKevent fd f (if enable then Z.lor (Z.lor EV_ADD EV_ENABLE) EV_CLEAR else EV_DELETE)) = enable.
Proof. by destruct enable. Qed.

(** The change that enables or disables a filter of [fd]. *)
Definition filter_change (fd f : Z) (enable : bool) : kevent_t :=
  mkKevent (u64 fd) f (if enable then Z.lor (Z.lor EV_ADD EV_ENABLE) EV_CLEAR else EV_DELETE).
(** From [k], after interruptions, the kernel refused that change and was left
    in [k'].  That a filter to be disabled is not there is no refusal. *)
Definition refuses (kq fd f : Z) (enable : bool) k k' : Prop :=
  ∃ k1 e, halfway kq (filter_change fd f enable) k k1 ∧
    kevent_change kq (filter_change fd f enable) k1 = (Fails e, k') ∧
    e ≠ EINTR ∧ (enable = false → e ≠ ENOENT).

Lemma apply_run fd f enable p :
  ∃ b k', apply_filter_change fd f enable p = Ok (b, set_kern k' p) ∧
    open_fds k' = open_fds (kern p) ∧ same_pipes (kern p) k' ∧
    (∀ w d, word_of k' w d = word_of (kern p) w d) ∧
    (∀ i f', (i, f') ≠ (u64 fd, f) → knote k' (poller_fd p) i f' = knote (kern p) (poller_fd p) i f') ∧
    (if b then has k' (poller_fd p) fd f = enable
     else refuses (poller_fd p) fd f enable (kern p) k' ∧ (enable = true →
            has (kern p) (poller_fd p) fd f = false ∧ has k' (poller_fd p) fd f = false)).
Proof.
  unfold apply_filter_change. rewrite (bind_ok _ _ p p p) by done.
  fold (filter_change fd f enable). set (c := filter_change fd f enable). pose proof (asks_enable (u64 fd) f enable) as Hasks. fold c in Hasks.
  destruct (retry_call_ends patience (kevent_change (poller_fd p) c) (halfway (poller_fd p) c)
    ltac:(intros k r k' E Hr; apply kevent_spec in E as (_ & _ & _ & _ & E); by destruct r as [|[]]; destruct E)
    ltac:(intros k r k' E Hr; apply kevent_spec in E as (? & ? & ? & ? & E); destruct r as [|[]]; try done;
          destruct E; by split_and!)
    (S (patience (kern p))) (kern p)) as (k1 & r & k' & Hh & Ec & Hr & Hrun); [lia|].
  rewrite (bind_ok _ _ _ _ _ (again_run _ _ _ _ Hrun)).
  pose proof Hh as Hhalf. destruct Hh as (A1 & A2 & A3 & A4 & A5). destruct (kevent_spec _ _ _ _ _ Ec) as (B1 & B2 & B3 & B4 & B5).
  eexists _, k'. split; [done|]. split_and!; [congruence|by etrans|intros; by rewrite B3|..].
  { intros i f' Hne. by rewrite B4, A4. }
  change (asks c = enable) in Hasks. rewrite Hasks in *. change (ident c) with (u64 fd) in *. change (filter c) with f in *. fold (has k' (poller_fd p) fd f) in *.
  fold (has k1 (poller_fd p) fd f) in *. fold (has (kern p) (poller_fd p) fd f) in *.
  destruct r as [[]|e]; [done|]. assert (e ≠ EINTR) as Hne by (by intros ->).
  assert (has k' (poller_fd p) fd f = has k1 (poller_fd p) fd f ∧
          (enable = true ∨ e = ENOENT → has k1 (poller_fd p) fd f = false)) as [C1 C2] by (by destruct e).
  assert ((enable = false → e ≠ ENOENT) → refuses (poller_fd p) fd f enable (kern p) k') as Href.
  { intros He. by exists k1, e. }
  destruct enable; cbn [negb andb].
  - split; [by apply Href|]. intros _. rewrite C1, C2 by auto. split; [|done]. destruct A5 as [<-|A5]; [by apply C2; left|].
    rewrite C2 in A5 by auto. done.
  - case_bool_decide; [|by split; [apply Href|]]. rewrite C1. by apply C2; right.
Qed.

(** ** Changing the events of a descriptor *)

(** [b] is whether the filter changed as the masks [old] and [new] say. *)
Definition wants (ev bit : Z) : bool := negb (Z.land ev bit =? 0).

(** What one filter's change leaves behind. *)
Definition filter_result (k k' : K) kq fd f (had needs b : bool) : Prop :=
  open_fds k' = open_fds k ∧ same_pipes k k' ∧ (∀ w d, word_of k' w d = word_of k w d) ∧
  (∀ i f', (i, f') ≠ (u64 fd, f) → knote k' kq i f' = knote k kq i f') ∧
  (has k kq fd f = had →
   if b then has k' kq fd f = needs
   else refuses kq fd f needs k k' ∧ had ≠ needs ∧ (needs = true → has k' kq fd f = had)).

Lemma sync_run fd old new bit f p :
  ∃ b k', sync_filter fd old new bit f p = Ok (b, set_kern k' p) ∧
    filter_result (kern p) k' (poller_fd p) fd f (wants old bit) (wants new bit) b.
Proof.
  unfold sync_filter. fold (wants old bit) (wants new bit).
  destruct (Bool.eqb (wants old bit) (wants new bit)) eqn:Eb.
  - apply eqb_prop in Eb. exists true, (kern p). split; [by destruct p|]. rewrite Eb.
    split_and!; try done.
  - destruct (apply_run fd f (wants new bit) p) as (b & k' & Hrun & A1 & A2 & A3 & A4 & A5).
    exists b, k'. split; [done|]. split_and!; try done. intros Hh. destruct b; [done|].
    destruct A5 as [Href A5]. split; [done|].
    split; [intros E; rewrite E, eqb_reflx in Eb; done|]. intros Hn. destruct (A5 Hn). congruence.
Qed.

Lemma reverse_run fd old new bit f p :
  ∃ b k', reverse_filter fd old new bit f p = Ok (b, set_kern k' p) ∧
    filter_result (kern p) k' (poller_fd p) fd f (wants new bit) (wants old bit) b.
Proof.
  destruct (sync_run fd new old bit f p) as (b & k' & Hrun & Hr). exists b, k'. split; [|done].
  rewrite <-Hrun. unfold sync_filter, reverse_filter.
  by destruct (negb (Z.land old bit =? 0)), (negb (Z.land new bit =? 0)).
Qed.

Lemma has_interest p fd ev : kq_valid p fd → events_ok ev → kq_interest p fd = ev ↔
  has (kern p) (poller_fd p) fd EVFILT_READ = wants ev CROUTINE_IO_EVENT_READ ∧
  has (kern p) (poller_fd p) fd EVFILT_WRITE = wants ev CROUTINE_IO_EVENT_WRITE.
Proof.
  intros Hv Hev. unfold kq_interest. rewrite decide_True by done.
  assert (ev = 0 ∨ ev = 1 ∨ ev = 2 ∨ ev = 3) as Hcases by (unfold events_ok in Hev; lia).
  destruct (has _ _ _ EVFILT_READ), (has _ _ _ EVFILT_WRITE), Hcases as [->|[->|[->| ->]]];
    vm_compute; split; (done || intros []; done).
Qed.

(** A kernel that differs in the filters of [fd] only. *)
Definition only_at (kq fd : Z) (k k' : K) : Prop :=
  open_fds k' = open_fds k ∧ same_pipes k k' ∧ (∀ w d, word_of k' w d = word_of k w d) ∧
  (∀ i f, i ≠ u64 fd → knote k' kq i f = knote k kq i f).
Instance only_at_preorder kq fd : PreOrder (only_at kq fd).
Proof.
  split; [by intros k; split_and!|]. intros k1 k2 k3 (A1 & A2 & A3 & A4) (B1 & B2 & B3 & B4).
  split_and!; [congruence|by etrans|intros; by rewrite B3|intros i f Hne; by rewrite B4, A4].
Qed.
Lemma filter_only k k' kq fd f had needs b :
  filter_result k k' kq fd f had needs b → only_at kq fd k k'.
Proof. intros (A1 & A2 & A3 & A4 & _). split_and!; try done. intros i f' Hne. apply A4. congruence. Qed.

Lemma kq_ok_only p k' fd : kq_ok p → kq_valid p fd → only_at (poller_fd p) fd (kern p) k' →
  kq_ok (set_kern k' p) ∧ (∀ d, d ≠ fd → kq_interest (set_kern k' p) d = kq_interest p d).
Proof.
  intros [K1 K2 K3 K4 K5] [Hfd Hne] (_ & Hp & _ & Hn). split.
  - split; try done; simpl.
    + by rewrite (sp_reader _ _ Hp).
    + rewrite Hn, K5; [done|]. intros E. apply Hne.
      apply u64_inj; [done|unfold fd_ok; lia|]. rewrite <-E. symmetry. apply u64_small. lia.
  - intros d Hd. unfold kq_interest. change (kq_valid (set_kern k' p) d) with (kq_valid p d).
    destruct (decide (kq_valid p d)) as [[Hv _]|]; [|done]. unfold has. simpl.
    by rewrite !Hn by (intros E; by apply Hd, u64_inj).
Qed.

(** The filters of [fd] are those of the mask [ev]. *)
Definition filters (k : K) kq fd ev : Prop :=
  has k kq fd EVFILT_READ = wants ev CROUTINE_IO_EVENT_READ ∧
  has k kq fd EVFILT_WRITE = wants ev CROUTINE_IO_EVENT_WRITE.
(** How a change of the events of [fd] from [old] to [new] fails, [k] and [k']
    being the kernel before and after it.  Either the kernel refused to change
    the READ filter, and nothing else was tried.  Or READ was changed, in
    [k1], and the kernel refused to change WRITE, in [k2]: then the READ filter
    is as it was before, unless the kernel refused that as well.  A filter that
    could not be added is absent as before. *)
Inductive set_failed (k : K) kq fd old new (k' : K) : Prop :=
| read_refused :
    wants old CROUTINE_IO_EVENT_READ ≠ wants new CROUTINE_IO_EVENT_READ →
    refuses kq fd EVFILT_READ (wants new CROUTINE_IO_EVENT_READ) k k' →
    (wants new CROUTINE_IO_EVENT_READ = true → has k' kq fd EVFILT_READ = false) →
    has k' kq fd EVFILT_WRITE = wants old CROUTINE_IO_EVENT_WRITE →
    set_failed k kq fd old new k'
| write_refused k1 k2 :
    only_at kq fd k k1 →
    has k1 kq fd EVFILT_READ = wants new CROUTINE_IO_EVENT_READ →
    has k1 kq fd EVFILT_WRITE = wants old CROUTINE_IO_EVENT_WRITE →
    wants old CROUTINE_IO_EVENT_WRITE ≠ wants new CROUTINE_IO_EVENT_WRITE →
    refuses kq fd EVFILT_WRITE (wants new CROUTINE_IO_EVENT_WRITE) k1 k2 →
    has k' kq fd EVFILT_WRITE = has k2 kq fd EVFILT_WRITE →
    (wants new CROUTINE_IO_EVENT_WRITE = true → has k' kq fd EVFILT_WRITE = false) →
    (has k' kq fd EVFILT_READ = wants old CROUTINE_IO_EVENT_READ ∨
     wants old CROUTINE_IO_EVENT_READ ≠ wants new CROUTINE_IO_EVENT_READ ∧
     refuses kq fd EVFILT_READ (wants old CROUTINE_IO_EVENT_READ) k2 k') →
    set_failed k kq fd old new k'.

(** All of [croutine_poller_set]. *)
Lemma set_filters fd old new p :
  filters (kern p) (poller_fd p) fd old →
  ∃ b k', croutine_poller_set fd old new p = Ok (b, set_kern k' p) ∧
    only_at (poller_fd p) fd (kern p) k' ∧
    (if b then filters k' (poller_fd p) fd new
     else set_failed (kern p) (poller_fd p) fd old new k').
Proof.
  intros [Hr Hw]. unfold croutine_poller_set. case_bool.
  { subst new. exists true, (kern p). by split; [destruct p|]. }
  destruct (sync_run fd old new CROUTINE_IO_EVENT_READ EVFILT_READ p) as (b1 & k1 & Hrun1 & R1).
  rewrite (bind_ok _ _ _ _ _ Hrun1). pose proof (filter_only _ _ _ _ _ _ _ _ R1) as O1.
  destruct R1 as (_ & _ & _ & R1o & R1f). specialize (R1f Hr).
  assert (has k1 (poller_fd p) fd EVFILT_WRITE = wants old CROUTINE_IO_EVENT_WRITE) as Hw1.
  { unfold has in *. by rewrite R1o. }
  destruct b1; cbn [negb].
  2: { exists false, k1. do 2 (split; [done|]). destruct R1f as (Href & Hne & R1f). apply read_refused; try done.
       intros E. rewrite (R1f E). destruct (wants old CROUTINE_IO_EVENT_READ); congruence. }
  destruct (sync_run fd old new CROUTINE_IO_EVENT_WRITE EVFILT_WRITE (set_kern k1 p)) as (b2 & k2 & Hrun2 & R2).
  rewrite (bind_ok _ _ _ _ _ Hrun2). pose proof (filter_only _ _ _ _ _ _ _ _ R2) as O2. simpl in R2, O2.
  destruct R2 as (_ & _ & _ & R2o & R2f). specialize (R2f Hw1).
  assert (has k2 (poller_fd p) fd EVFILT_READ = wants new CROUTINE_IO_EVENT_READ) as Hr2.
  { unfold has in *. by rewrite R2o. }
  destruct b2; [by exists true, k2; split_and!; [| etrans|]|].
  destruct (reverse_run fd old new CROUTINE_IO_EVENT_READ EVFILT_READ (set_kern k2 p)) as (b3 & k3 & Hrun3 & R3).
  rewrite (bind_ok _ _ _ _ _ Hrun3). pose proof (filter_only _ _ _ _ _ _ _ _ R3) as O3. simpl in R3, O3.
  destruct R3 as (_ & _ & _ & R3o & R3f). specialize (R3f Hr2).
  assert (has k3 (poller_fd p) fd EVFILT_WRITE = has k2 (poller_fd p) fd EVFILT_WRITE) as Hw3.
  { unfold has in *. by rewrite R3o. }
  exists false, k3. split; [done|]. split; [by do 2 (etrans; [done|])|].
  destruct R2f as (Href & Hne & R2f). apply (write_refused _ _ _ _ _ _ k1 k2); try done.
  - intros E. rewrite Hw3, (R2f E). destruct (wants old CROUTINE_IO_EVENT_WRITE); congruence.
  - destruct b3; [by left|]. right. destruct R3f as (Href3 & Hne3 & _). split; [congruence|done].
Qed.

Lemma adds_one_wants old new : events_ok old → adds_one old new →
  let rd ev := wants ev CROUTINE_IO_EVENT_READ in let wr ev := wants ev CROUTINE_IO_EVENT_WRITE in
  (wr new = true ∨ wr old = wr new) ∧ (rd old = rd new ∨ rd new = true ∧ wr old = wr new).
Proof.
  intros Ho (ev & Hev & H0' & ->).
  assert (old = 0 ∨ old = 1 ∨ old = 2 ∨ old = 3) as Hcases by (unfold events_ok in Ho; lia).
  by destruct Hcases as [->|[->|[->| ->]]], Hev as [->| ->]; vm_compute in H0' |- *; auto.
Qed.
Lemma adds_one_failed k kq fd old new k' :
  events_ok old → adds_one old new → set_failed k kq fd old new k' → filters k' kq fd old.
Proof.
  intros Ho Ha HF. destruct (adds_one_wants old new Ho Ha) as [A1 A2].
  destruct HF as [Hne _ Hrd Hwr|k1 k2 _ _ _ Hne _ _ Hwr Hrd]; split; try done.
  - destruct A2 as [?|[E _]]; [done|]. rewrite (Hrd E).
    destruct (wants old CROUTINE_IO_EVENT_READ); congruence.
  - destruct A2 as [E|[_ ?]]; [|done]. by destruct Hrd as [?|[? _]].
  - destruct A1 as [E|?]; [|done]. rewrite (Hwr E).
    destruct (wants old CROUTINE_IO_EVENT_WRITE); congruence.
Qed.

Lemma kq_set_law fd old new p :
  kq_ok p → kq_valid p fd → events_ok old → events_ok new → kq_interest p fd = old →
  ∃ b k', croutine_poller_set fd old new p = Ok (b, set_kern k' p) ∧ kq_ok (set_kern k' p) ∧
    only_at (poller_fd p) fd (kern p) k' ∧
    (∀ d, d ≠ fd → kq_interest (set_kern k' p) d = kq_interest p d) ∧
    (if b then kq_interest (set_kern k' p) fd = new
     else set_failed (kern p) (poller_fd p) fd old new k' ∧
          (adds_one old new → kq_interest (set_kern k' p) fd = old)).
Proof.
  intros Hok Hv Ho Hn Hi. apply has_interest in Hi; [|done..].
  destruct (set_filters fd old new p Hi) as (b & k' & Hrun & Hat & Hb).
  exists b, k'. split; [done|]. destruct (kq_ok_only p k' fd Hok Hv Hat) as [Hok' Hoth].
  split_and!; try done. destruct b; [by apply has_interest|]. split; [done|].
  intros Ha. apply has_interest; [done..|]. by eapply adds_one_failed.
Qed.

(** ** Waiting *)

(** A state that differs in the contents of pipes only. *)
Record kq_unmoved p p' : Prop := {
  ku_poller : poller_fd p' = poller_fd p;
  ku_read : wake_read_fd p' = wake_read_fd p;
  ku_write : wake_write_fd p' = wake_write_fd p;
  ku_notes : same_notes (kern p) (kern p');
  ku_reader : ∀ d, reader (kern p') d = reader (kern p) d;
  ku_open : open_fds (kern p') = open_fds (kern p)
}.
Instance kq_unmoved_preorder : PreOrder kq_unmoved.
Proof.
  split; [by intros p; repeat split|]. intros p1 p2 p3 [A1 A2 A3 [A4 A5] A6 A7] [B1 B2 B3 [B4 B5] B6 B7].
  repeat split; try congruence; intros; by rewrite ?B4, ?B5, ?B6.
Qed.
Lemma kq_unmoved_ok p p' : kq_unmoved p p' → kq_ok p → kq_ok p'.
Proof.
  intros [E1 E2 E3 [E4 _] E6 _] [K1 K2 K3 K4 K5]. by split; rewrite ?E1, ?E2, ?E3, ?E4, ?E6.
Qed.
Lemma kq_unmoved_valid p p' d : kq_unmoved p p' → kq_valid p' d ↔ kq_valid p d.
Proof. intros [_ E _ _ _ _]. unfold kq_valid. by rewrite E. Qed.
Lemma kq_unmoved_interest p p' d : kq_unmoved p p' → kq_interest p' d = kq_interest p d.
Proof.
  intros Hu. unfold kq_interest, has. rewrite (ku_poller _ _ Hu), !(sn_notes _ _ (ku_notes _ _ Hu)).
  by rewrite (decide_ext _ _ _ _ (kq_unmoved_valid p p' d Hu)).
Qed.

(** Each iteration of [drain_wake_fd] reads something or is an interruption. *)
Lemma kq_drain_run fuel p :
  (patience (kern p) + unread (kern p) (wake_read_fd p) < fuel)%nat →
  ∃ p', drain fuel p = Ok (tt, p') ∧ kq_unmoved p p' ∧
    (unread (kern p') (wake_read_fd p) ≤ unread (kern p) (wake_read_fd p))%nat.
Proof.
  revert p. induction fuel as [|fuel IH]; intros p Hf; [lia|]. simpl.
  rewrite (bind_ok _ _ p p p) by done.
  destruct (read (wake_read_fd p) 256 (kern p)) as [r k] eqn:Er.
  rewrite (bind_ok _ _ _ _ _ (kq_sys_run _ _ _ _ Er)).
  destruct (read_spec _ _ _ _ _ Er) as (R1 & R2 & R3 & R4 & R5 & R6).
  assert (kq_unmoved p (set_kern k p)) as Hu by done.
  assert ((patience k + unread k (wake_read_fd p) < fuel)%nat →
    (unread k (wake_read_fd p) ≤ unread (kern p) (wake_read_fd p))%nat →
    ∃ p', drain fuel (set_kern k p) = Ok (tt, p') ∧ kq_unmoved p p' ∧
      (unread (kern p') (wake_read_fd p) ≤ unread (kern p) (wake_read_fd p))%nat) as Hloop.
  { intros Hlt Hle. destruct (IH (set_kern k p) Hlt) as (p' & Hrun & Hu' & Hle').
    exists p'. split; [done|]. split; [by etrans|]. simpl in Hle'. lia. }
  destruct r as [n|e].
  - destruct (Z.ltb_spec 0 n); [apply Hloop; lia|]. eexists. split; [done|]. split; [done|]. simpl. lia.
  - destruct e; try by (eexists; split; [done|]; split; [done|]; simpl; lia).
    specialize (R5 eq_refl). apply Hloop; lia.
Qed.

(** The mask reported for a descriptor, over all entries. *)
Definition mask_at (l : list CroutinePollEvent) (d : Z) : Z :=
  foldr (λ e a, if pe_fd e =? d then Z.lor (pe_events e) a else a) 0 l.

Lemma merge_run room l d x :
  0 < room → NoDup (pe_fd <$> l) →
  ∃ l', merge_ready_event room l d x = Ok l' ∧ NoDup (pe_fd <$> l') ∧
    (length l ≤ length l' ≤ S (length l))%nat ∧
    (∀ fd, fd ∈ (pe_fd <$> l') ↔ fd ∈ (pe_fd <$> l) ∨ fd = d) ∧
    (∀ fd, mask_at l' fd = Z.lor (mask_at l fd) (if fd =? d then x else 0)).
Proof.
  intros Hroom. induction l as [|e l IH]; intros Hnd; simpl.
  - rewrite (proj2 (Z.ltb_lt 0 room)) by done. eexists. split; [done|]. simpl.
    split; [apply NoDup_singleton|]. split; [lia|]. split; [set_solver|].
    intros fd. rewrite (Z.eqb_sym fd d). destruct (d =? fd); [apply Z.lor_0_r|done].
  - apply NoDup_cons in Hnd as [Hin Hnd]. case_bool.
    + subst d. eexists. split; [done|]. split; [by constructor|]. split; [simpl; lia|]. simpl.
      split; [set_solver|]. intros fd. rewrite (Z.eqb_sym fd). case_bool; [|by rewrite Z.lor_0_r].
      rewrite <-!Z.lor_assoc. f_equal. apply Z.lor_comm.
    + destruct (IH Hnd) as (l' & -> & Hnd' & Hlen & Hfds & Hm). eexists. split; [done|]. simpl.
      split; [constructor; [rewrite Hfds; set_solver|done]|]. split; [lia|].
      split; [intros fd; rewrite !elem_of_cons, Hfds; tauto|]. intros fd. rewrite Hm. destruct (pe_fd e =? fd); [apply Z.lor_assoc|done].
Qed.

(** What one kernel event says about descriptor [d], [wake] being the read end
    of the pipe. *)
Definition says (wake : Z) (ev : kevent_t) (d : Z) : Z :=
  if (i32 (ident ev) =? wake) && (filter ev =? EVFILT_READ) then 0
  else if i32 (ident ev) =? d then translate_ready_event ev else 0.
Definition says_all wake (evs : list kevent_t) d : Z := foldr (λ ev a, Z.lor (says wake ev d) a) 0 evs.

Lemma kq_collect_run max evs p l :
  Z.of_nat (length l + length evs) ≤ max → NoDup (pe_fd <$> l) →
  ∃ l' p', collect max evs l p = Ok (l', p') ∧ kq_unmoved p p' ∧
    NoDup (pe_fd <$> l') ∧ (length l' ≤ length l + length evs)%nat ∧
    (∀ d, mask_at l' d = Z.lor (mask_at l d) (says_all (wake_read_fd p) evs d)) ∧
    (∀ d, d ∈ (pe_fd <$> l') → d ∈ (pe_fd <$> l) ∨ says_all (wake_read_fd p) evs d ≠ 0).
Proof.
  revert p l. induction evs as [|ev evs IH]; intros p l Hlen Hnd; cbn [collect says_all foldr length] in *.
  { exists l, p. split_and!; [done..|lia| |auto]. intros d. by rewrite Z.lor_0_r. }
  rewrite (bind_ok _ _ p p p) by done. unfold says at 1 3.
  destruct ((i32 (ident ev) =? wake_read_fd p) && (filter ev =? EVFILT_READ)) eqn:Ew.
  - destruct (kq_drain_run (S (patience (kern p) + unread (kern p) (wake_read_fd p))) p)
      as (p1 & Hd & Hu & _); [lia|].
    unfold drain_wake_fd. rewrite (bind_ok _ _ _ _ _ (eq_trans (bind_ok _ _ p p p eq_refl) Hd)).
    destruct (IH p1 l) as (l' & p' & Hrun & Hu' & Hnd' & Hlen' & Hm & Hin); [lia|done|].
    rewrite (ku_read _ _ Hu) in Hm, Hin. exists l', p'. split_and!; try done; [by etrans|lia|..];
      setoid_rewrite Z.lor_0_l; done.
  - destruct (Z.eqb_spec (translate_ready_event ev) CROUTINE_IO_EVENT_NONE) as [Hz|Hz].
    { destruct (IH p l) as (l' & p' & Hrun & Hu' & Hnd' & Hlen' & Hm & Hin); [lia|done|].
      exists l', p'. split_and!; try done; [lia|..]; intros d; rewrite Hz, Tauto.if_same, Z.lor_0_l; auto. }
    destruct (merge_run (max - Z.of_nat (length l)) l (i32 (ident ev)) (translate_ready_event ev))
      as (l1 & Hmg & Hnd1 & Hlen1 & Hin1 & Hm1); [lia|done|].
    rewrite (bind_ok _ _ _ _ _ (kq_lift_run _ _ _ Hmg)).
    destruct (IH p l1) as (l' & p' & Hrun & Hu' & Hnd' & Hlen' & Hm & Hin); [lia|done|].
    exists l', p'. split_and!; try done; [lia|..]; intros d.
    + rewrite Hm, Hm1, (Z.eqb_sym d), <-Z.lor_assoc. done.
    + intros Hd. rewrite Z.lor_eq_0_iff. destruct (Hin d Hd) as [Hd1|Hd1]; [|right; tauto].
      apply Hin1 in Hd1 as [Hd1|Hd1]; [by left|right]. rewrite (proj2 (Z.eqb_eq _ _)); [tauto|done].
Qed.

(** What [croutine_poller_wait] reports: every descriptor once, with all that
    the kernel's events say about it. *)
Definition kq_reports wake (evs : list kevent_t) (out : list CroutinePollEvent) : Prop :=
  NoDup (pe_fd <$> out) ∧ (length out ≤ length evs)%nat ∧
  (∀ d, mask_at out d = says_all wake evs d) ∧
  (∀ d, d ∈ (pe_fd <$> out) ↔ says_all wake evs d ≠ 0).

Lemma mask_at_absent l d : d ∉ (pe_fd <$> l) → mask_at l d = 0.
Proof.
  induction l as [|e l IH]; [done|]. simpl. intros Hd. case_bool; [set_solver|]. apply IH. set_solver.
Qed.

Lemma kq_wait_run max answers p :
  0 < max → answered answers → fits_in max answers →
  ∃ r p', croutine_poller_wait max answers p = Ok (r, p') ∧ kq_unmoved p p' ∧
    match r with
    | Some out => ∃ evs, Done evs ∈ answers ∧ kq_reports (wake_read_fd p) evs out
    | None => ∃ e, Fails e ∈ answers ∧ e ≠ EINTR
    end.
Proof.
  intros Hm Ha Hf. unfold croutine_poller_wait. rewrite (proj2 (Z.leb_gt max 0)) by lia.
  destruct (retry_answered answers Ha) as (r & l1 & l2 & Hr & Hi & -> & _).
  rewrite (bind_ok _ _ _ _ _ (kq_lift_run _ _ _ Hr)).
  assert (r ∈ l1 ++ r :: l2) as Hin by set_solver.
  destruct r as [evs|e].
  - destruct (kq_collect_run max evs p []) as (out & p' & Hrun & Hu & Hnd & Hlen & Hmask & Hfds).
    { apply Hf. done. } { constructor. }
    rewrite (bind_ok _ _ _ _ _ Hrun). exists (Some out), p'. split; [done|]. split; [done|].
    exists evs. split; [done|]. split_and!; try done. intros d. split.
    + intros Hd. by destruct (Hfds d Hd) as [Hd'%elem_of_nil|].
    + intros Hs. destruct (decide (d ∈ pe_fd <$> out)) as [|Hd]; [done|].
      destruct Hs. rewrite <-(mask_at_absent out d Hd). symmetry. apply Hmask.
  - exists None, p. split; [done|]. split; [done|]. exists e. split; [done|]. by intros ->.
Qed.

(** ** Waking *)

(** Interruptions of a write. *)
Definition more_unread k k' : Prop :=
  open_fds k' = open_fds k ∧ same_notes k k' ∧ (∀ d, reader k' d = reader k d) ∧
  (∀ d, (unread k d ≤ unread k' d)%nat).
Instance more_unread_preorder : PreOrder more_unread.
Proof.
  split; [by intros k; repeat split|].
  intros k1 k2 k3 (A1 & [A2 A3] & A4 & A5) (B1 & [B2 B3] & B4 & B5).
  split_and!; [congruence|split; intros; by rewrite ?B2, ?B3, ?A2, ?A3|intros; by rewrite B4|].
  intros d. specialize (A5 d). specialize (B5 d). lia.
Qed.

Lemma kq_wake_run p : kq_ok p →
  ∃ b p', croutine_poller_wake p = Ok (b, p') ∧ kq_unmoved p p' ∧
    (unread (kern p) (wake_read_fd p) ≤ unread (kern p') (wake_read_fd p))%nat ∧
    (b = true → (0 < unread (kern p') (wake_read_fd p))%nat).
Proof.
  intros Hok. unfold croutine_poller_wake. rewrite (bind_ok _ _ p p p) by done.
  destruct (retry_call_ends patience (write (wake_write_fd p) 1) more_unread
    ltac:(intros k r k' E; by apply (write_spec _ _ _ _ _ Z.lt_0_1) in E as (_ & _ & _ & _ & E & _))
    ltac:(intros k r k' E _; by apply (write_spec _ _ _ _ _ Z.lt_0_1) in E as (? & ? & ? & ? & _))
    (S (patience (kern p))) (kern p)) as (k1 & r & k' & (A1 & A2 & A3 & A4) & Ec & Hr & Hrun); [lia|].
  rewrite (bind_ok _ _ _ _ _ (again_run _ _ _ _ Hrun)).
  destruct (write_spec _ _ _ _ _ Z.lt_0_1 Ec) as (B1 & B2 & B3 & B4 & _ & B5).
  assert (more_unread (kern p) k') as (C1 & C2 & C3 & C4) by (by trans k1).
  assert (kq_unmoved p (set_kern k' p)) as Hu by done.
  assert (reader k1 (wake_write_fd p) = Some (wake_read_fd p)) as Hpipe by (rewrite A3; apply Hok).
  destruct r as [n|e].
  - destruct B5 as [Hn B5]. assert (n = 1) as -> by lia. eexists true, _. split_and!; try done. by intros _; apply B5.
  - exists (bool_decide (e = EAGAIN ∨ e = EWOULDBLOCK)), (set_kern k' p).
    split; [by destruct e|]. split_and!; try done.
    intros E%bool_decide_eq_true. by apply B5.
Qed.

(** ** The poller interface *)


(** ** Start and stop *)

(** Nothing changes but the word [w] of [d]. *)
Definition only_word (w : fd_word) (d : Z) k k' : Prop :=
  open_fds k' = open_fds k ∧ same_pipes k k' ∧ (∀ kq i f, knote k' kq i f = knote k kq i f) ∧
  (∀ w' d', (w', d') ≠ (w, d) → word_of k' w' d' = word_of k w' d').
Instance only_word_preorder w d : PreOrder (only_word w d).
Proof.
  split; [by intros k; split_and!|]. intros k1 k2 k3 (A1 & A2 & A3 & A4) (B1 & B2 & B3 & B4).
  split_and!; [congruence|by etrans|intros; by rewrite B3|intros w' d' Hne; by rewrite B4, A4].
Qed.

Lemma fcntl_again d c arg p :
  ∃ r k', again (fcntl d c arg) p = Ok (r, set_kern k' p) ∧ only_word (cmd_word c) d (kern p) k' ∧
    match r with
    | Done v => if cmd_sets c then v = 0 ∧ word_of k' (cmd_word c) d = arg
                else word_of k' (cmd_word c) d = v
    | Fails _ => True
    end.
Proof.
  destruct (retry_call_ends patience (fcntl d c arg) (only_word (cmd_word c) d)
    ltac:(intros k r k' E; by apply fcntl_spec in E as (_ & _ & _ & _ & E & _))
    ltac:(intros k r k' E _; by apply fcntl_spec in E as (? & ? & ? & ? & _))
    (S (patience (kern p))) (kern p)) as (k1 & r & k' & A & Ec & Hr & Hrun); [lia|].
  destruct (fcntl_spec _ _ _ _ _ _ Ec) as (B1 & B2 & B3 & B4 & _ & B5).
  exists r, k'. split; [by apply again_run|]. split; [by trans k1|].
  destruct r; [|done]. destruct (cmd_sets c); [done|]. by destruct B5.
Qed.

Lemma land_lor_flag v flag : Z.land (Z.lor v flag) flag = flag.
Proof.
  apply Z.bits_inj'. intros n _. rewrite Z.land_spec, Z.lor_spec.
  by destruct (Z.testbit v n), (Z.testbit flag n).
Qed.

Lemma set_fd_flag_run d get set flag p :
  cmd_sets get = false → cmd_sets set = true → cmd_word get = cmd_word set → flag ≠ 0 →
  ∃ b k', set_fd_flag d get set flag p = Ok (b, set_kern k' p) ∧ only_word (cmd_word set) d (kern p) k' ∧
    (b = true → Z.land (word_of k' (cmd_word set) d) flag ≠ 0).
Proof.
  intros Hg Hs Hw Hf. unfold set_fd_flag.
  destruct (fcntl_again d get 0 p) as (r1 & k1 & Hrun1 & O1 & R1). rewrite (bind_ok _ _ _ _ _ Hrun1).
  rewrite Hw, Hg in *. destruct r1 as [v|e]; [|by exists false, k1].
  case_bool; cbn [negb]; [|by exists true, k1; subst].
  destruct (fcntl_again d set (Z.lor v flag) (set_kern k1 p)) as (r2 & k2 & Hrun2 & O2 & R2).
  rewrite (bind_ok _ _ _ _ _ Hrun2). rewrite Hs in R2.
  destruct r2 as [v2|e2]; [|exists false, k2; split_and!; [done|by trans k1|done]].
  destruct R2 as [-> R2]. exists true, k2. split_and!; [done|by trans k1|]. by rewrite R2, land_lor_flag.
Qed.

(** Non-blocking, and closed on [exec]. *)
Definition prepared k d : Prop :=
  Z.land (word_of k DescriptorFlags d) FD_CLOEXEC ≠ 0 ∧ Z.land (word_of k StatusFlags d) O_NONBLOCK ≠ 0.
(** Nothing changes but the flags of [d]. *)
Definition only_flags (d : Z) k k' : Prop :=
  open_fds k' = open_fds k ∧ same_pipes k k' ∧ (∀ kq i f, knote k' kq i f = knote k kq i f) ∧
  (∀ w' d', d' ≠ d → word_of k' w' d' = word_of k w' d').

Lemma prepare_run d p :
  ∃ b k', prepare_fd d p = Ok (b, set_kern k' p) ∧ only_flags d (kern p) k' ∧ (b = true → prepared k' d).
Proof.
  unfold prepare_fd.
  destruct (set_fd_flag_run d F_GETFD F_SETFD FD_CLOEXEC p) as (b1 & k1 & Hrun1 & (A1 & A2 & A3 & A4) & R1);
    [done..|]. rewrite (bind_ok _ _ _ _ _ Hrun1). simpl in *. destruct b1; cbn [negb].
  2: { exists false, k1. split; [done|]. split; [|done]. split_and!; try done.
       intros w' d' Hne. apply A4. congruence. }
  destruct (set_fd_flag_run d F_GETFL F_SETFL O_NONBLOCK (set_kern k1 p))
    as (b2 & k2 & Hrun2 & (B1 & B2 & B3 & B4) & R2); [done..|]. simpl in *.
  exists b2, k2. split; [exact Hrun2|]. split.
  - split_and!; [congruence|by trans k1|intros; by rewrite B3|].
    intros w' d' Hne. rewrite B4, A4; congruence.
  - intros Hb. split; [|auto]. rewrite B4 by done. auto.
Qed.

(** The poller before [croutine_poller_init] and after
    [croutine_poller_deinit]. *)
Definition kq_off (k : K) : St K := mkSt (-1) (-1) (-1) k.

Lemma wake_pipe_run kq k :
  ∃ b p, create_wake_pipe (mkSt kq (-1) (-1) k) = Ok (b, p) ∧ poller_fd p = kq ∧
    (∀ i f, knote (kern p) kq i f = knote k kq i f ∨ b = false) ∧
    if b then 0 ≤ wake_read_fd p < 2 ^ 31 ∧ 0 ≤ wake_write_fd p < 2 ^ 31 ∧
      reader (kern p) (wake_write_fd p) = Some (wake_read_fd p) ∧
      (wake_read_fd p ∉ open_fds k) ∧ (wake_write_fd p ∉ open_fds k) ∧
      open_fds (kern p) = {[wake_read_fd p; wake_write_fd p]} ∪ open_fds k ∧
      prepared (kern p) (wake_read_fd p) ∧ prepared (kern p) (wake_write_fd p)
    else wake_read_fd p = -1 ∧ wake_write_fd p = -1 ∧ open_fds (kern p) = open_fds k.
Proof.
  unfold create_wake_pipe. destruct (pipe k) as [r k1] eqn:Ep. destruct (pipe_spec _ _ _ Ep) as [Hn1 Hr].
  set (p0 := mkSt kq (-1) (-1) k). rewrite (bind_ok _ _ _ _ _ (kq_sys_run pipe r k1 p0 Ep)).
  destruct r as [[rd wr]|]; [|eexists false, _; split; [done|]; by split_and!; auto].
  destruct Hr as (Hrd & Hwr & Hne & Hnew1 & Hnew2 & Hopen & Hreader).
  destruct (prepare_run rd (set_kern k1 p0)) as (b2 & k2 & Hrun2 & (A1 & A2 & A3 & A4) & R2).
  rewrite (bind_ok _ _ _ _ _ Hrun2). simpl in *.
  assert (∃ b3 k3, (if b2 then prepare_fd wr else mret false) (set_kern k2 p0) = Ok (b3, set_kern k3 p0) ∧
    only_flags wr k2 k3 ∧ (b3 = true → b2 = true ∧ prepared k3 wr)) as (b3 & k3 & Hrun3 & (B1 & B2 & B3 & B4) & R3).
  { destruct b2; [|by exists false, k2]. destruct (prepare_run wr (set_kern k2 p0)) as (b3 & k3 & Hrun3 & O3 & R3).
    exists b3, k3. split; [exact Hrun3|]. split; [done|]. auto. }
  assert (open_fds k3 = {[rd; wr]} ∪ open_fds k) as Ho3 by congruence.
  change (set_kern k2 (set_kern k1 p0)) with (set_kern k2 p0). rewrite (bind_ok _ _ _ _ _ Hrun3).
  destruct b3; cbn [negb].
  - destruct (R3 eq_refl) as [-> Hp3]. eexists true, _. split; [done|]. simpl. split; [done|]. split.
    { intros i f. left. by rewrite B3, A3. }
    split_and!; try done; try apply Hrd; try apply Hwr; [by rewrite (sp_reader _ _ B2), (sp_reader _ _ A2)|].
    destruct (R2 eq_refl) as [P1 P2]. split; by rewrite B4.
  - eexists false, _. split; [done|]. simpl. split_and!; auto. rewrite !close_spec, Ho3. set_solver.
Qed.

Lemma close_run (fd : St K → Z) set p :
  0 ≤ fd p → close_if_open fd set p = Ok (tt, set (-1) (set_kern (close (fd p) (kern p)) p)).
Proof.
  intros Hfd. unfold close_if_open. rewrite (bind_ok _ _ p p p) by done.
  by rewrite (proj2 (Z.leb_le 0 (fd p))).
Qed.

Lemma kq_init_run k :
  ∃ b p, croutine_poller_init (kq_off k) = Ok (b, p) ∧
    if b then kq_ok p ∧ (∀ fd, kq_interest p fd = CROUTINE_IO_EVENT_NONE) ∧
      prepared (kern p) (wake_read_fd p) ∧ prepared (kern p) (wake_write_fd p) ∧
      ({[poller_fd p; wake_read_fd p; wake_write_fd p]} ## open_fds k) ∧
      open_fds (kern p) = {[poller_fd p; wake_read_fd p; wake_write_fd p]} ∪ open_fds k
    else ∃ k', p = kq_off k' ∧ open_fds k' = open_fds k.
Proof.
  unfold croutine_poller_init. rewrite (bind_ok _ _ (kq_off k) (kq_off k) (kq_off k)) by done.
  cbn [kq_off poller_fd]. destruct (Z.leb_spec 0 (-1)); [lia|].
  destruct (kqueue k) as [r1 k1] eqn:E1. pose proof (kqueue_spec _ _ _ E1) as H1'.
  rewrite (bind_ok _ _ _ _ _ (kq_sys_run _ _ _ (kq_off k) E1)).
  destruct r1 as [kq|]; [|by eexists false, _; split; [done|]; exists k1].
  destruct H1' as (Hkq & Hnew & Ho1 & Hn1). rewrite (bind_ok _ _ _ tt (mkSt kq (-1) (-1) k1)) by done.
  destruct (wake_pipe_run kq k1) as (b2 & p2 & Hrun2 & Hkq2 & Hn2 & Hb2).
  rewrite (bind_ok _ _ _ _ _ Hrun2). destruct b2; cbn [negb].
  2: { destruct Hb2 as (W1 & W2 & Ho2). rewrite (bind_ok _ _ _ _ _ (close_run poller_fd _ p2 ltac:(by rewrite Hkq2))).
       destruct p2 as [kq' rd wr k2]. simpl in *. subst. eexists false, _. split; [done|].
       eexists. split; [done|]. simpl. rewrite close_spec, Ho2, Ho1. set_solver. }
  destruct Hb2 as (Hrd & Hwr & Hpipe & Hnr & Hnw & Ho2 & Hpr & Hpw).
  rewrite (bind_ok _ _ p2 p2 p2) by done.
  destruct (apply_run (wake_read_fd p2) EVFILT_READ true p2) as (b3 & k3 & Hrun3 & Ho3 & Hp3 & Hw3 & Hn3 & Hb3).
  rewrite (bind_ok _ _ _ _ _ Hrun3). destruct p2 as [kq' rd wr k2]. simpl in *. subst kq'.
  assert (∀ i f, knote k2 kq i f = false) as Hnone by (intros i f; destruct (Hn2 i f) as [->|]; done).
  destruct b3; cbn [negb].
  - eexists true, _. split; [done|]. simpl. split_and!.
    + split; simpl; try done; [by rewrite (sp_reader _ _ Hp3)|].
      unfold has in Hb3. by rewrite u64_small in Hb3 by lia.
    + intros fd. unfold kq_interest. destruct (decide _) as [[Hfd Hne]|]; [|done]. unfold has. simpl in *.
      assert (u64 fd ≠ u64 rd) by (intros E; apply Hne, u64_inj; [done|unfold fd_ok; lia|done]).
      by rewrite !Hn3, !Hnone by congruence.
    + unfold prepared. by rewrite !Hw3.
    + unfold prepared. by rewrite !Hw3.
    + set_solver.
    + rewrite Ho3, Ho2, Ho1. set_solver.
  - rewrite (bind_ok _ _ _ _ _ (close_run wake_write_fd _ (mkSt kq rd wr k3) ltac:(simpl; lia))).
    erewrite bind_ok by (apply close_run; simpl; lia). erewrite bind_ok by (by apply close_run).
    eexists false, _. split; [done|]. eexists. split; [done|]. simpl. rewrite !close_spec, Ho3, Ho2, Ho1. set_solver.
Qed.

Lemma kq_deinit_run p :
  0 ≤ wake_write_fd p → 0 ≤ wake_read_fd p → 0 ≤ poller_fd p →
  ∃ k', croutine_poller_deinit p = Ok (tt, kq_off k') ∧
    open_fds k' = open_fds (kern p) ∖ {[poller_fd p; wake_read_fd p; wake_write_fd p]}.
Proof.
  intros Hw Hr Hp. unfold croutine_poller_deinit. eexists.
  rewrite (bind_ok _ _ _ _ _ (close_run _ _ _ Hw)). erewrite bind_ok by (by apply close_run).
  split; [by rewrite close_run|]. simpl. rewrite !close_spec. set_solver.
Qed.

(** ** The interface *)

#[global] Instance kqueue_laws : PollerLaws (St K).
Proof.
  refine (Build_PollerLaws (St K) kqueue_poller kq_ok kq_valid kq_interest (λ _, True)
    (λ p, (0 < unread (kern p) (wake_read_fd p))%nat) (λ p, ∃ k, p = kq_off k) _ _ _ _ _).
  - intros fd old new p Hok Hfd Ho Hn Hi.
    destruct (kq_set_law fd old new p Hok Hfd Ho Hn Hi) as (b & k' & Hrun & R1 & R2 & R3 & R4).
    exists b, (set_kern k' p). split; [exact Hrun|]. split_and!; try done.
    + destruct R2 as (_ & R2 & _). simpl. by rewrite (sp_unread _ _ R2).
    + destruct b; [done|]. apply R4.
  - intros max answers p Hok Hm Ha Hf Ht.
    destruct (kq_wait_run max answers p) as (r & p' & Hrun & Hu & Hr); [lia|done|done|].
    exists r, p'. split; [exact Hrun|].
    split_and!; [by eapply kq_unmoved_ok|intros d; by apply kq_unmoved_valid|intros d; by apply kq_unmoved_interest|].
    intros out ->. destruct Hr as (evs & Hin & _ & Hlen & _).
    assert (Z.of_nat (length evs) ≤ max) by exact (Hf evs Hin). lia.
  - intros p Hok. destruct (kq_wake_run p Hok) as (b & p' & Hrun & Hu & H1' & H2').
    exists b, p'. split; [exact Hrun|]. rewrite (ku_read _ _ Hu).
    split_and!; [by eapply kq_unmoved_ok|intros d; by apply kq_unmoved_valid|intros d; by apply kq_unmoved_interest|lia|done].
  - intros p [k ->]. destruct (kq_init_run k) as (b & p' & Hrun & Hb). exists b, p'. split; [exact Hrun|].
    destruct b; [|destruct Hb as (k' & -> & _); by exists k']. by destruct Hb as (Hok & Hi & _).
  - intros p [K1 K2 K3 _ _]. destruct (kq_deinit_run p) as (k' & Hrun & _); [lia..|].
    exists (kq_off k'). split; [exact Hrun|]. by exists k'.
Defined.
End kqueue.
