(* ===== verification/KqueueProps.v ===== *)
(** * What the kqueue poller guarantees

    Theorems on src/poller_kqueue.c over every kernel that behaves as
    documented, and a small such kernel, which interrupts calls and refuses
    filters, on which they are evaluated. *)

From S2P Require Import Prelude Posix Task PollerApi PollerKqueue KqueueInv.
Import Kqueue.

(** ** A kernel *)

Module KqueueKernelModel.
(** [kk_signals] calls are going to be interrupted; a pair of
    [kk_unsupported] is an identifier and a filter it does not support. *)
Record kk := mkKk {
  kk_notes : gset (Z * (Z * Z));
  kk_unsupported : gset (Z * Z);
  kk_pipes : gmap Z Z;
  kk_unread : gmap Z nat;
  kk_words : gmap (bool * Z) Z;
  kk_open : gset Z;
  kk_signals : nat
}.
Definition with_notes v (k : kk) : kk := mkKk v (kk_unsupported k) (kk_pipes k) (kk_unread k) (kk_words k) (kk_open k) (kk_signals k).
Definition with_pipes v (k : kk) : kk := mkKk (kk_notes k) (kk_unsupported k) v (kk_unread k) (kk_words k) (kk_open k) (kk_signals k).
Definition with_unread v (k : kk) : kk := mkKk (kk_notes k) (kk_unsupported k) (kk_pipes k) v (kk_words k) (kk_open k) (kk_signals k).
Definition with_words v (k : kk) : kk := mkKk (kk_notes k) (kk_unsupported k) (kk_pipes k) (kk_unread k) v (kk_open k) (kk_signals k).
Definition with_open v (k : kk) : kk := mkKk (kk_notes k) (kk_unsupported k) (kk_pipes k) (kk_unread k) (kk_words k) v (kk_signals k).
Definition with_signals v (k : kk) : kk := mkKk (kk_notes k) (kk_unsupported k) (kk_pipes k) (kk_unread k) (kk_words k) (kk_open k) v.

Definition interruptible {A} (call : syscall kk A) : syscall kk A := λ k,
  match kk_signals k with
  | O => call k
  | S n => (Fails EINTR, with_signals n k)
  end.

Definition word_key (c : fd_word) : bool := match c with DescriptorFlags => true | StatusFlags => false end.
Definition pending (k : kk) (d : Z) : nat := default O (kk_unread k !! d).

#[global] Instance kk_kernel : Kernel kk := {|
  kqueue k :=
    let d := fresh_fd (kk_open k) in
    (Done d, with_notes (base.filter (λ n, n.1 ≠ d) (kk_notes k)) (with_open ({[d]} ∪ kk_open k) k));
  pipe k :=
    let d := fresh_fd (kk_open k) in
    if d + 1 <? 2 ^ 31 then
      (Done (d, d + 1), with_pipes (<[d + 1 := d]> (kk_pipes k)) (with_open ({[d; d + 1]} ∪ kk_open k) k))
    else (Fails (EOTHER 24), k);
  fcntl d c arg := interruptible (λ k,
    let key := (word_key (cmd_word c), d) in
    if cmd_sets c then (Done 0, with_words (<[key := arg]> (kk_words k)) k)
    else (Done (default 0 (kk_words k !! key)), k));
  kevent_change kq c := interruptible (λ k,
    let note := (kq, (ident c, filter c)) in
    if asks c then
      if decide ((note ∉ kk_notes k) ∧ (ident c, filter c) ∈ kk_unsupported k) then (Fails EINVAL, k)
      else (Done tt, with_notes ({[note]} ∪ kk_notes k) k)
    else if decide (note ∈ kk_notes k) then (Done tt, with_notes (kk_notes k ∖ {[note]}) k)
    else (Fails ENOENT, k));
  read d n := interruptible (λ k,
    match Nat.min (Z.to_nat n) (pending k d) with
    | O => (Fails EAGAIN, k)
    | m => (Done (Z.of_nat m), with_unread (<[d := (pending k d - m)%nat]> (kk_unread k)) k)
    end);
  write d n := interruptible (λ k,
    match kk_pipes k !! d with
    | Some rd => (Done n, with_unread (<[rd := (pending k rd + Z.to_nat n)%nat]> (kk_unread k)) k)
    | None => (Fails (EOTHER 9), k)
    end);
  close d k := with_open (kk_open k ∖ {[d]}) k;
  patience := kk_signals;
  unread := pending
|}.

#[global] Instance kk_view : KqueueView kk := {|
  knote k kq i f := bool_decide ((kq, (i, f)) ∈ kk_notes k);
  reader k d := kk_pipes k !! d;
  word_of k c d := default 0 (kk_words k !! (word_key c, d));
  open_fds := kk_open
|}.

(** A call that is interrupted uses up a signal and changes nothing else. *)
Lemma interruptible_spec {A} (call : syscall kk A) k r k' :
  interruptible call k = (r, k') →
  (kk_signals k = O ∧ call k = (r, k')) ∨
  (∃ n, kk_signals k = S n ∧ r = Fails EINTR ∧ k' = with_signals n k).
Proof. unfold interruptible. destruct (kk_signals k) eqn:E; [by left|]. intros [= <- <-]. right. by exists n. Qed.

Lemma word_key_inj c c' : word_key c = word_key c' → c = c'.
Proof. by destruct c, c'. Qed.

Lemma kk_kqueue_spec k r k' : kqueue k = (r, k') →
  match r with
  | Done kq => 0 ≤ kq ∧ (kq ∉ open_fds k) ∧ open_fds k' = {[kq]} ∪ open_fds k ∧
               ∀ i f, knote k' kq i f = false
  | Fails _ => open_fds k' = open_fds k
  end.
Proof.
  intros [= <- <-]. cbn. destruct (fresh_fd_above (kk_open k)) as [Ha Hb].
  split; [lia|]. split; [intros Hin; specialize (Hb _ Hin); lia|]. split; [done|].
  intros i f. apply bool_decide_eq_false. rewrite elem_of_filter. naive_solver.
Qed.
Lemma kk_kevent_spec kq c k r k' : kevent_change kq c k = (r, k') →
  open_fds k' = open_fds k ∧ same_pipes k k' ∧
  (∀ w d, word_of k' w d = word_of k w d) ∧
  (∀ i f, (i, f) ≠ (ident c, filter c) → knote k' kq i f = knote k kq i f) ∧
  match r with
  | Done _ => knote k' kq (ident c) (filter c) = asks c
  | Fails EINTR =>
      (patience k' < patience k)%nat ∧
      (knote k' kq (ident c) (filter c) = knote k kq (ident c) (filter c) ∨
       knote k' kq (ident c) (filter c) = asks c)
  | Fails e =>
      knote k' kq (ident c) (filter c) = knote k kq (ident c) (filter c) ∧
      (asks c = true ∨ e = ENOENT → knote k kq (ident c) (filter c) = false)
  end.
Proof.
  intros [[_ E]|(n & En & -> & ->)]%interruptible_spec.
  2: { cbn. rewrite En. split_and!; try done; [lia|by left]. }
  cbv beta zeta in E. destruct (asks c) eqn:Ea; case_decide as Hd; injection E as <- <-; cbn; (split; [done|]); (split; [done|]);
    (split; [done|]); (split; [done || (intros i f Hne; apply bool_decide_ext;
      rewrite ?elem_of_union, ?elem_of_difference, elem_of_singleton; naive_solver)|]).
  - split; [done|]. intros _. by apply bool_decide_eq_false, Hd.
  - apply bool_decide_eq_true. set_solver.
  - apply bool_decide_eq_false. set_solver.
  - split; [done|]. intros _. by apply bool_decide_eq_false.
Qed.

#[global] Instance kk_laws : KqueueLaws kk.
Proof.
  split.
  - exact kk_kqueue_spec.
  - intros k r k' E. cbn in E. destruct (fresh_fd_above (kk_open k)) as [Ha Hb].
    destruct (Z.ltb_spec (fresh_fd (kk_open k) + 1) (2 ^ 31)); injection E as <- <-; cbn; (split; [done|]); [|done].
    split_and!; try lia; try done.
    + intros Hin. specialize (Hb _ Hin). lia.
    + intros Hin. specialize (Hb _ Hin). lia.
    + by rewrite lookup_insert_eq.
  - done.
  - intros d c arg k r k' [[_ E]|(n & En & -> & ->)]%interruptible_spec.
    2: { cbn. rewrite En. split_and!; try done. intros _. lia. }
    destruct (cmd_sets c) eqn:Ec; injection E as <- <-; cbn; (split_and!; try done); [|by rewrite lookup_insert_eq].
    intros w d' Hne. rewrite lookup_insert_ne; [done|]. intros [= E%word_key_inj ->]. congruence.
  - exact kk_kevent_spec.
  - intros d m k r k' [[E0 E]|(n & En & -> & ->)]%interruptible_spec.
    2: { cbn. rewrite En. split_and!; try done; intros; lia. }
    destruct (Nat.min (Z.to_nat m) (pending k d)) eqn:Em; injection E as <- <-; cbn; [by split_and!|].
    rewrite E0. split_and!; try done; [lia..|]. unfold pending at 1. cbn. rewrite lookup_insert_eq. simpl. lia.
  - intros d m k r k' Hm [[E0 E]|(n & En & -> & ->)]%interruptible_spec.
    2: { cbn. rewrite En. split_and!; try done; intros; [lia|naive_solver]. }
    destruct (kk_pipes k !! d) as [rd|] eqn:Ep; injection E as <- <-; cbn.
    + split_and!; try done.
      * intros d'. unfold pending at 2. cbn. destruct (decide (d' = rd)) as [->|Hne].
        { rewrite lookup_insert_eq. simpl. lia. }
        by rewrite lookup_insert_ne.
      * intros rd'. rewrite Ep. intros [= <-]. unfold pending at 1. cbn. rewrite lookup_insert_eq. simpl. lia.
    + split_and!; try done. naive_solver.
Defined.
End KqueueKernelModel.
Import KqueueKernelModel.

(** ** Properties *)

Section props.
Context {K : Type} `{KqueueLaws K}.

(** C33: On an initialised kqueue poller, [croutine_poller_set] called with the
    events that are registered for a descriptor returns after finitely many
    interruptions, changes only that descriptor's filters, and registers
    exactly the new events when it returns true.  It returns false only when
    the kernel refused to change a filter.  If that was the WRITE filter, the
    READ filter, which had been changed before, is put back: afterwards it is
    registered exactly if it was at the start, unless the kernel refused to
    put it back.  A failed addition of one event leaves the old events. *)
Theorem kqueue_set_undoes p fd old new :
  kq_ok p → kq_valid p fd → events_ok old → events_ok new → kq_interest p fd = old →
  ∃ b k', croutine_poller_set fd old new p = Ok (b, set_kern k' p) ∧ kq_ok (set_kern k' p) ∧
    (∀ d, d ≠ fd → kq_interest (set_kern k' p) d = kq_interest p d) ∧
    (if b then kq_interest (set_kern k' p) fd = new
     else set_failed (kern p) (poller_fd p) fd old new k' ∧
          (adds_one old new → kq_interest (set_kern k' p) fd = old)).
Proof.
  intros Hok Hv Ho Hn Hi.
  destruct (kq_set_law fd old new p Hok Hv Ho Hn Hi) as (b & k' & R1 & R2 & _ & R3 & R4).
  by exists b, k'.
Qed.

(** C34: [croutine_poller_wait] on a kqueue returns as soon as the kernel
    answers anything but an interruption, writes at most as many entries as
    there are events, and reports every descriptor at most once: with the
    union of what the kernel's events say about it, and only if they say
    something; the wake-up pipe is never reported for being readable. *)
Theorem kqueue_wait_merges p max answers :
  kq_ok p → 0 < max → answered answers → fits_in max answers →
  ∃ r p', croutine_poller_wait max answers p = Ok (r, p') ∧ kq_ok p' ∧
    (∀ fd, kq_interest p' fd = kq_interest p fd) ∧
    match r with
    | Some out => ∃ evs, Done evs ∈ answers ∧ kq_reports (wake_read_fd p) evs out
    | None => ∃ e, Fails e ∈ answers ∧ e ≠ EINTR
    end.
Proof.
  intros Hok Hm Ha Hf. destruct (kq_wait_run max answers p Hm Ha Hf) as (r & p' & Hrun & Hu & Hr).
  exists r, p'. split_and!; try done; [by eapply kq_unmoved_ok|]. intros fd. by apply kq_unmoved_interest.
Qed.

(** C35: [croutine_poller_init] on a kqueue either leaves a working poller
    that watches nothing, whose pipe is non-blocking and closed on exec, and
    [croutine_poller_deinit] then closes exactly the three new descriptors;
    or it fails, and every descriptor it opened is closed again. *)
Theorem kqueue_start_stop k :
  ∃ b p, croutine_poller_init (kq_off k) = Ok (b, p) ∧
    if b then kq_ok p ∧ (∀ fd, kq_interest p fd = CROUTINE_IO_EVENT_NONE) ∧
      prepared (kern p) (wake_read_fd p) ∧ prepared (kern p) (wake_write_fd p) ∧
      ∃ k', croutine_poller_deinit p = Ok (tt, kq_off k') ∧ open_fds k' = open_fds k
    else ∃ k', p = kq_off k' ∧ open_fds k' = open_fds k.
Proof.
  destruct (kq_init_run k) as (b & p & Hrun & Hb). exists b, p. split; [done|]. destruct b; [|done].
  destruct Hb as (Hok & Hi & P1 & P2 & Hnew & Ho). split_and!; try done.
  destruct Hok as [K1 K2 K3 _ _].
  destruct (kq_deinit_run p) as (k' & Hd & Ho'); [lia..|].
  exists k'. split; [done|]. rewrite Ho', Ho. set_solver.
Qed.
End props.

(** ** Witnesses *)

(** Standard input is open and cannot be written to; three calls are going to
    be interrupted. *)
Definition kq_kernel : kk := mkKk ∅ {[(0, EVFILT_WRITE)]} ∅ ∅ ∅ {[0]} 3.
Definition kq_started : St kk :=
  match croutine_poller_init (kq_off kq_kernel) with Ok (_, p) => p | _ => kq_off kq_kernel end.
Lemma kq_started_init : croutine_poller_init (kq_off kq_kernel) = Ok (true, kq_started).
Proof. vm_compute. reflexivity. Qed.
Lemma kq_started_ok : kq_ok kq_started ∧ ∀ fd, kq_interest kq_started fd = CROUTINE_IO_EVENT_NONE.
Proof.
  destruct (kq_init_run kq_kernel) as (b & p & E & Hb). rewrite kq_started_init in E.
  apply ok_inj in E as [<- <-]. by destruct Hb as (? & ? & _).
Qed.

(** Both events are asked for; the READ filter is added, the WRITE filter
    refused, and the READ filter removed again. *)
Lemma kqueue_set_undoes_witness :
  ∃ b k', croutine_poller_set 0 CROUTINE_IO_EVENT_NONE 3 kq_started = Ok (b, set_kern k' kq_started) ∧
    b = false ∧ kq_interest (set_kern k' kq_started) 0 = CROUTINE_IO_EVENT_NONE.
Proof.
  destruct (kqueue_set_undoes kq_started 0 CROUTINE_IO_EVENT_NONE 3) as (b & k' & E & _ & _ & _).
  - apply kq_started_ok.
  - split; [unfold fd_ok; lia|vm_compute; discriminate].
  - vm_compute. split; discriminate.
  - vm_compute. split; discriminate.
  - apply kq_started_ok.
  - exists b, k'. split; [exact E|].
    assert (∀ c, c = croutine_poller_set 0 CROUTINE_IO_EVENT_NONE 3 kq_started →
      match c with Ok (b, p) => b = false ∧ kq_interest p 0 = CROUTINE_IO_EVENT_NONE | _ => True end) as Hc.
    { intros c ->. vm_compute. split; reflexivity. }
    specialize (Hc _ eq_refl). rewrite E in Hc. exact Hc.
Defined.

(** Descriptor 0 is readable and at its end, which are two events. *)
Lemma kqueue_wait_merges_witness :
  ∃ r p', croutine_poller_wait 64
      [Fails EINTR; Done [mkKevent 0 EVFILT_READ 0; mkKevent 0 EVFILT_WRITE EV_EOF]] kq_started = Ok (r, p') ∧
    kq_ok p'.
Proof.
  destruct (kqueue_wait_merges kq_started 64
    [Fails EINTR; Done [mkKevent 0 EVFILT_READ 0; mkKevent 0 EVFILT_WRITE EV_EOF]]) as (r & p' & E & Hok & _).
  - apply kq_started_ok.
  - lia.
  - eexists. split; [apply elem_of_cons; right; apply elem_of_cons; by left|done].
  - intros evs [E|[E|E%elem_of_nil]%elem_of_cons]%elem_of_cons; [done| |done]. injection E as ->. simpl. lia.
  - exists r, p'. exact (conj E Hok).
Defined.

(** The started poller stops again, with only standard input left open. *)
Lemma kqueue_start_stop_witness :
  ∃ b p, croutine_poller_init (kq_off kq_kernel) = Ok (b, p) ∧
    (b = true → ∃ k', croutine_poller_deinit p = Ok (tt, kq_off k') ∧ open_fds k' = {[0]}).
Proof.
  destruct (kqueue_start_stop kq_kernel) as (b & p & E & Hb). exists b, p. split; [exact E|].
  intros ->. destruct Hb as (_ & _ & _ & _ & k' & Hd & Ho). exists k'. exact (conj Hd Ho).
Defined.
