(* ===== verification/Worker.v ===== *)
(** * The scheduler (src/worker.c)

    The file-scope state of worker.c as a record, and the operations that run
    under [scheduler_mutex]: waking and parking tasks, spawning, start-up and
    clean-up.  A critical section is one definition; where the C code
    switches to another context in the middle of a function, the parts before
    and after the switch are separate definitions. *)

From S2P Require Import Prelude Memory ArchX86 Posix Task IoWait PollerApi.

Definition INITIAL_RUN_QUEUE_CAPACITY : Z := 1024.
Definition INITIAL_IO_WAIT_CAPACITY : Z := 64.
Definition MAX_POLLER_EVENTS : Z := 64.
(** [sizeof(struct Task)] on x86_64 *)
Definition SIZEOF_TASK : Z := 168.

(** The globals of worker.c, the heap of task records, the argument copies,
    the stack mappings and the poller.  [cond_waiting] counts the threads
    blocked on [scheduler_cond], [cond_woken] those that were signalled and
    have not yet reacquired the mutex; [runtime_init_called] is the state of
    [runtime_init_once]. *)
Record sched (P : Type) := mkSched {
  heap : gmap tid Task;
  blocks : gmap Z (list byte);
  maps : gmap Z Z;
  stack_mem : memory;
  runnable_tasks : TaskQueue;
  io_waits : IoWaitTable;
  runtime_init_called : bool;
  runtime_init_ok : bool;
  shutdown_requested : bool;
  poller_waiter_active : bool;
  idle_workers : Z;
  cond_waiting : Z;
  cond_woken : Z;
  main_finished : bool;
  scheduler_main_finished : bool;
  main_spawned : bool;
  main_exit_code : Z;
  configured_stack_size : Z;
  poller : P
}.
Arguments heap {P}.
Arguments blocks {P}.
Arguments maps {P}.
Arguments stack_mem {P}.
Arguments runnable_tasks {P}.
Arguments io_waits {P}.
Arguments runtime_init_called {P}.
Arguments runtime_init_ok {P}.
Arguments shutdown_requested {P}.
Arguments poller_waiter_active {P}.
Arguments idle_workers {P}.
Arguments cond_waiting {P}.
Arguments cond_woken {P}.
Arguments main_finished {P}.
Arguments scheduler_main_finished {P}.
Arguments main_spawned {P}.
Arguments main_exit_code {P}.
Arguments configured_stack_size {P}.
Arguments poller {P}.
Arguments mkSched {P}.

Section setters.
Context {P : Type}.
Definition set_heap (v : gmap tid Task) (s : sched P) : sched P :=
  mkSched v (blocks s) (maps s) (stack_mem s) (runnable_tasks s) (io_waits s) (runtime_init_called s) (runtime_init_ok s) (shutdown_requested s) (poller_waiter_active s) (idle_workers s) (cond_waiting s) (cond_woken s) (main_finished s) (scheduler_main_finished s) (main_spawned s) (main_exit_code s) (configured_stack_size s) (poller s).
Definition set_blocks (v : gmap Z (list byte)) (s : sched P) : sched P :=
  mkSched (heap s) v (maps s) (stack_mem s) (runnable_tasks s) (io_waits s) (runtime_init_called s) (runtime_init_ok s) (shutdown_requested s) (poller_waiter_active s) (idle_workers s) (cond_waiting s) (cond_woken s) (main_finished s) (scheduler_main_finished s) (main_spawned s) (main_exit_code s) (configured_stack_size s) (poller s).
Definition set_maps (v : gmap Z Z) (s : sched P) : sched P :=
  mkSched (heap s) (blocks s) v (stack_mem s) (runnable_tasks s) (io_waits s) (runtime_init_called s) (runtime_init_ok s) (shutdown_requested s) (poller_waiter_active s) (idle_workers s) (cond_waiting s) (cond_woken s) (main_finished s) (scheduler_main_finished s) (main_spawned s) (main_exit_code s) (configured_stack_size s) (poller s).
Definition set_stack_mem (v : memory) (s : sched P) : sched P :=
  mkSched (heap s) (blocks s) (maps s) v (runnable_tasks s) (io_waits s) (runtime_init_called s) (runtime_init_ok s) (shutdown_requested s) (poller_waiter_active s) (idle_workers s) (cond_waiting s) (cond_woken s) (main_finished s) (scheduler_main_finished s) (main_spawned s) (main_exit_code s) (configured_stack_size s) (poller s).
Definition set_runnable_tasks (v : TaskQueue) (s : sched P) : sched P :=
  mkSched (heap s) (blocks s) (maps s) (stack_mem s) v (io_waits s) (runtime_init_called s) (runtime_init_ok s) (shutdown_requested s) (poller_waiter_active s) (idle_workers s) (cond_waiting s) (cond_woken s) (main_finished s) (scheduler_main_finished s) (main_spawned s) (main_exit_code s) (configured_stack_size s) (poller s).
Definition set_io_waits (v : IoWaitTable) (s : sched P) : sched P :=
  mkSched (heap s) (blocks s) (maps s) (stack_mem s) (runnable_tasks s) v (runtime_init_called s) (runtime_init_ok s) (shutdown_requested s) (poller_waiter_active s) (idle_workers s) (cond_waiting s) (cond_woken s) (main_finished s) (scheduler_main_finished s) (main_spawned s) (main_exit_code s) (configured_stack_size s) (poller s).
Definition set_runtime_init_called (v : bool) (s : sched P) : sched P :=
  mkSched (heap s) (blocks s) (maps s) (stack_mem s) (runnable_tasks s) (io_waits s) v (runtime_init_ok s) (shutdown_requested s) (poller_waiter_active s) (idle_workers s) (cond_waiting s) (cond_woken s) (main_finished s) (scheduler_main_finished s) (main_spawned s) (main_exit_code s) (configured_stack_size s) (poller s).
Definition set_runtime_init_ok (v : bool) (s : sched P) : sched P :=
  mkSched (heap s) (blocks s) (maps s) (stack_mem s) (runnable_tasks s) (io_waits s) (runtime_init_called s) v (shutdown_requested s) (poller_waiter_active s) (idle_workers s) (cond_waiting s) (cond_woken s) (main_finished s) (scheduler_main_finished s) (main_spawned s) (main_exit_code s) (configured_stack_size s) (poller s).
Definition set_shutdown_requested (v : bool) (s : sched P) : sched P :=
  mkSched (heap s) (blocks s) (maps s) (stack_mem s) (runnable_tasks s) (io_waits s) (runtime_init_called s) (runtime_init_ok s) v (poller_waiter_active s) (idle_workers s) (cond_waiting s) (cond_woken s) (main_finished s) (scheduler_main_finished s) (main_spawned s) (main_exit_code s) (configured_stack_size s) (poller s).
Definition set_poller_waiter_active (v : bool) (s : sched P) : sched P :=
  mkSched (heap s) (blocks s) (maps s) (stack_mem s) (runnable_tasks s) (io_waits s) (runtime_init_called s) (runtime_init_ok s) (shutdown_requested s) v (idle_workers s) (cond_waiting s) (cond_woken s) (main_finished s) (scheduler_main_finished s) (main_spawned s) (main_exit_code s) (configured_stack_size s) (poller s).
Definition set_idle_workers (v : Z) (s : sched P) : sched P :=
  mkSched (heap s) (blocks s) (maps s) (stack_mem s) (runnable_tasks s) (io_waits s) (runtime_init_called s) (runtime_init_ok s) (shutdown_requested s) (poller_waiter_active s) v (cond_waiting s) (cond_woken s) (main_finished s) (scheduler_main_finished s) (main_spawned s) (main_exit_code s) (configured_stack_size s) (poller s).
Definition set_cond_waiting (v : Z) (s : sched P) : sched P :=
  mkSched (heap s) (blocks s) (maps s) (stack_mem s) (runnable_tasks s) (io_waits s) (runtime_init_called s) (runtime_init_ok s) (shutdown_requested s) (poller_waiter_active s) (idle_workers s) v (cond_woken s) (main_finished s) (scheduler_main_finished s) (main_spawned s) (main_exit_code s) (configured_stack_size s) (poller s).
Definition set_cond_woken (v : Z) (s : sched P) : sched P :=
  mkSched (heap s) (blocks s) (maps s) (stack_mem s) (runnable_tasks s) (io_waits s) (runtime_init_called s) (runtime_init_ok s) (shutdown_requested s) (poller_waiter_active s) (idle_workers s) (cond_waiting s) v (main_finished s) (scheduler_main_finished s) (main_spawned s) (main_exit_code s) (configured_stack_size s) (poller s).
Definition set_main_finished (v : bool) (s : sched P) : sched P :=
  mkSched (heap s) (blocks s) (maps s) (stack_mem s) (runnable_tasks s) (io_waits s) (runtime_init_called s) (runtime_init_ok s) (shutdown_requested s) (poller_waiter_active s) (idle_workers s) (cond_waiting s) (cond_woken s) v (scheduler_main_finished s) (main_spawned s) (main_exit_code s) (configured_stack_size s) (poller s).
Definition set_scheduler_main_finished (v : bool) (s : sched P) : sched P :=
  mkSched (heap s) (blocks s) (maps s) (stack_mem s) (runnable_tasks s) (io_waits s) (runtime_init_called s) (runtime_init_ok s) (shutdown_requested s) (poller_waiter_active s) (idle_workers s) (cond_waiting s) (cond_woken s) (main_finished s) v (main_spawned s) (main_exit_code s) (configured_stack_size s) (poller s).
Definition set_main_spawned (v : bool) (s : sched P) : sched P :=
  mkSched (heap s) (blocks s) (maps s) (stack_mem s) (runnable_tasks s) (io_waits s) (runtime_init_called s) (runtime_init_ok s) (shutdown_requested s) (poller_waiter_active s) (idle_workers s) (cond_waiting s) (cond_woken s) (main_finished s) (scheduler_main_finished s) v (main_exit_code s) (configured_stack_size s) (poller s).
Definition set_main_exit_code (v : Z) (s : sched P) : sched P :=
  mkSched (heap s) (blocks s) (maps s) (stack_mem s) (runnable_tasks s) (io_waits s) (runtime_init_called s) (runtime_init_ok s) (shutdown_requested s) (poller_waiter_active s) (idle_workers s) (cond_waiting s) (cond_woken s) (main_finished s) (scheduler_main_finished s) (main_spawned s) v (configured_stack_size s) (poller s).
Definition set_configured_stack_size (v : Z) (s : sched P) : sched P :=
  mkSched (heap s) (blocks s) (maps s) (stack_mem s) (runnable_tasks s) (io_waits s) (runtime_init_called s) (runtime_init_ok s) (shutdown_requested s) (poller_waiter_active s) (idle_workers s) (cond_waiting s) (cond_woken s) (main_finished s) (scheduler_main_finished s) (main_spawned s) (main_exit_code s) v (poller s).
Definition set_poller (v : P) (s : sched P) : sched P :=
  mkSched (heap s) (blocks s) (maps s) (stack_mem s) (runnable_tasks s) (io_waits s) (runtime_init_called s) (runtime_init_ok s) (shutdown_requested s) (poller_waiter_active s) (idle_workers s) (cond_waiting s) (cond_woken s) (main_finished s) (scheduler_main_finished s) (main_spawned s) (main_exit_code s) (configured_stack_size s) v.
End setters.

(** The linker's address of [task_entrypoint]. *)
Class Entry := task_entrypoint : Z.

(** [croutine_io_wait_result] (croutine/runtime.h) *)
Inductive croutine_io_wait_result :=
| CROUTINE_IO_WAIT_FAILED
| CROUTINE_IO_WAIT_READY
| CROUTINE_IO_WAIT_CLOSED.

Section worker.
Context `{Alloc, Os, Entry} {P : Type} `{Poller P}.
Abbreviation St := (sched P).

Definition lift {A} (o : outcome A) : M St A := λ s, a ← o; Ok (a, s).

(** [worker_fail] prints its message and aborts the process. *)
Definition worker_fail {A} (message : string) : M St A := abort message.

(** ** Task records *)

Definition get_task (t : tid) : M St Task := deref (λ s, heap s !! t).
Definition modify_task (t : tid) (f : Task → Task) : M St unit :=
  obj ← get_task t; modify (λ s, set_heap (<[t := f obj]> (heap s)) s).

(** [pthread_cond_signal] and [pthread_cond_broadcast] on [scheduler_cond] *)
Definition cond_signal : M St unit := modify (λ s,
  if 0 <? cond_waiting s
  then set_cond_waiting (cond_waiting s - 1) (set_cond_woken (cond_woken s + 1) s) else s).
Definition cond_broadcast : M St unit := modify (λ s,
  set_cond_waiting 0 (set_cond_woken (cond_woken s + cond_waiting s) s)).

(** A call of the poller. *)
Definition on_poller {A} (m : M P A) : M St A := λ s,
  '(a, p) ← m (poller s); Ok (a, set_poller p s).
Definition croutine_poller_wake : M St bool := on_poller poller_wake.

(** [cleanup_task] (the sanitizer calls are not modelled). *)
Definition cleanup_task (task : option tid) : M St unit :=
  match task with
  | None => mret tt
  | Some t =>
      modify_task t (set_state TASK_FINISHED);;
      obj ← get_task t;
      s ← get;
      '(_, maps', blocks') ← lift (task_cleanup obj (maps s) (blocks s));
      modify (λ s, set_heap (delete t (heap s)) (set_maps maps' (set_blocks blocks' s)))
  end.

(** [update_poller_interest_locked] *)
Definition update_poller_interest_locked (fd old_events new_events : Z) : M St bool :=
  on_poller (poller_set fd old_events new_events).

(** [task_queue_push(&runnable_tasks, task)] and the pop *)
Definition push_runnable (t : tid) : M St bool := λ s,
  '(ok, q, h) ← task_queue_push (Some (runnable_tasks s)) (Some t) (heap s);
  match q with
  | Some q => Ok (ok, set_runnable_tasks q (set_heap h s))
  | None => Stuck
  end.
Definition pop_runnable : M St (option tid) := λ s,
  '(ok, t, q, h) ← task_queue_pop (Some (runnable_tasks s)) true (heap s);
  match q with
  | Some q => Ok (if (ok : bool) then t else None, set_runnable_tasks q (set_heap h s))
  | None => Stuck
  end.

Definition enqueue_runnable_task_locked (t : tid) : M St bool :=
  modify_task t (set_state TASK_RUNNABLE);;
  modify_task t (set_io_wait (λ w, mkTaskIoWaitState (-1) (io_events w) (io_wake_success w)));;
  modify_task t (set_io_wait (λ w,
    mkTaskIoWaitState (io_fd w) CROUTINE_IO_EVENT_NONE (io_wake_success w)));;
  push_runnable t.

(** ** Waking tasks parked on a descriptor *)

(** Lines 316-332: the tasks to wake and the entry without them. *)
Definition take_ready (ready_events : Z) (entry : IoWaitEntry) : IoWaitEntry * list tid :=
  let '(entry, wake) :=
    match read_task entry with
    | Some task =>
        if negb (Z.land ready_events CROUTINE_IO_EVENT_READ =? 0)
        then (io_wait_entry_clear_task entry task, [task]) else (entry, [])
    | None => (entry, [])
    end in
  match write_task entry with
  | Some task =>
      if negb (Z.land ready_events CROUTINE_IO_EVENT_WRITE =? 0)
      then (io_wait_entry_clear_task entry task,
            if decide (wake = [] ∨ wake !! 0%nat ≠ Some task) then wake ++ [task] else wake)
      else (entry, wake)
  | None => (entry, wake)
  end.

(** Lines 342-347: the wake loop. *)
Fixpoint wake_io_tasks (ts : list tid) (wake_success : bool) : M St unit :=
  match ts with
  | [] => mret tt
  | t :: ts' =>
      modify_task t (set_io_wait (λ w, mkTaskIoWaitState (io_fd w) (io_events w) wake_success));;
      ok ← enqueue_runnable_task_locked t;
      if (ok : bool) then wake_io_tasks ts' wake_success
      else worker_fail "Failed to enqueue runnable task"
  end.

Definition wake_waiting_tasks_locked (fd ready_events : Z) (wake_success : bool) : M St Z :=
  table ← gets io_waits;
  found ← lift (io_wait_table_find table fd);
  match found with
  | None => mret 0
  | Some i =>
      entry ← lift (entry_get (entries table) i);
      let old_events := io_wait_entry_events entry in
      let '(entry', wake) := take_ready ready_events entry in
      table ← lift (io_wait_entry_update table i (λ _, entry'));
      modify (set_io_waits table);;
      let new_events := io_wait_entry_events entry' in
      ok ← update_poller_interest_locked fd old_events new_events;
      if negb ok then worker_fail "Failed to update poller interest while waking task" else
      (if new_events =? CROUTINE_IO_EVENT_NONE then
         table ← lift (io_wait_table_remove_entry table (Some i));
         modify (set_io_waits table)
       else mret tt);;
      wake_io_tasks wake wake_success;;
      (if (0 <? length wake)%nat then cond_broadcast else mret tt);;
      mret (Z.of_nat (length wake))
  end.

Definition worker_forget_fd (fd : Z) : M St unit :=
  if fd <? 0 then mret tt else
  woken ← wake_waiting_tasks_locked fd
            (Z.lor CROUTINE_IO_EVENT_READ CROUTINE_IO_EVENT_WRITE) false;
  active ← gets poller_waiter_active;
  if (0 <? woken) && active then croutine_poller_wake;; mret tt else mret tt.

(** ** Start-up *)

Definition runtime_init_impl : M St unit :=
  s ← get;
  match task_queue_init (Some (runnable_tasks s)) INITIAL_RUN_QUEUE_CAPACITY with
  | (false, q) =>
      modify (λ s, set_runnable_tasks (default (runnable_tasks s) q) s);;
      modify (set_runtime_init_ok false)
  | (true, q) =>
      modify (λ s, set_runnable_tasks (default (runnable_tasks s) q) s);;
      let '(ok, table) := io_wait_table_init INITIAL_IO_WAIT_CAPACITY in
      modify (set_io_waits table);;
      if negb ok then
        modify (λ s, set_runnable_tasks
          (default (runnable_tasks s) (task_queue_deinit (Some (runnable_tasks s)))) s);;
        modify (set_runtime_init_ok false)
      else
        ok ← on_poller poller_init;
        if negb ok then
          modify (λ s, set_io_waits
            (default (io_waits s) (io_wait_table_deinit (Some (io_waits s)))) s);;
          modify (λ s, set_runnable_tasks
            (default (runnable_tasks s) (task_queue_deinit (Some (runnable_tasks s)))) s);;
          modify (set_runtime_init_ok false)
        else modify (set_runtime_init_ok true)
  end.

(** [pthread_once]: the initialiser runs on the first call only. *)
Definition worker_init : M St bool :=
  called ← gets runtime_init_called;
  (if (called : bool) then mret tt
   else modify (set_runtime_init_called true);; runtime_init_impl);;
  gets runtime_init_ok.

Definition worker_configure_stack_size (stack_size : Z) : M St unit :=
  modify (set_configured_stack_size
    (if stack_size =? 0 then CROUTINE_DEFAULT_STACK_SIZE else stack_size)).

Definition worker_reset_main_state : M St unit :=
  modify (set_main_finished false);;
  modify (set_main_spawned false);;
  modify (set_main_exit_code 0);;
  modify (set_shutdown_requested false);;
  modify (set_scheduler_main_finished false);;
  modify (set_poller_waiter_active false).

Definition croutine_runtime_set_exit_code (code : Z) : M St unit :=
  modify (set_main_exit_code code).

(** [task_finished], up to the switch back to the scheduler; the task has
    returned from its body and reports [TASK_FINISHED]. *)
Definition task_finished (croutine_current_task : option tid) : M St unit :=
  match croutine_current_task with
  | None => mret tt
  | Some t =>
      modify_task t (set_state TASK_FINISHED);;
      obj ← get_task t;
      if is_main (scheduler obj) then
        modify (set_main_finished true);;
        modify (set_scheduler_main_finished true);;
        cond_broadcast;;
        croutine_poller_wake;;
        mret tt
      else mret tt
  end.

(** ** Parking and waking *)

Definition worker_shutdown_requested_locked : M St bool := gets shutdown_requested.

(** [worker_park_current_on_io] up to the context switch.  [true]: the task
    is parked and the worker returns to its loop with the lock held;
    [false]: the call returns [CROUTINE_IO_WAIT_FAILED]. *)
Definition worker_park_current_on_io (current : option tid) (fd events : Z) : M St bool :=
  match current with
  | None => mret false
  | Some task =>
      if events =? CROUTINE_IO_EVENT_NONE then mret false else
      shutdown ← gets shutdown_requested;
      if (shutdown : bool) then mret false else
      table ← gets io_waits;
      '(found, table) ← lift (io_wait_table_get_or_insert table fd);
      modify (set_io_waits table);;
      match found with
      | None => mret false
      | Some i =>
          entry ← lift (entry_get (entries table) i);
          if (negb (Z.land events CROUTINE_IO_EVENT_READ =? 0) &&
              bool_decide (is_Some (read_task entry)))
             || (negb (Z.land events CROUTINE_IO_EVENT_WRITE =? 0) &&
                 bool_decide (is_Some (write_task entry)))
          then mret false else
          let old_events := io_wait_entry_events entry in
          let new_events := Z.lor old_events events in
          ok ← update_poller_interest_locked fd old_events new_events;
          if negb ok then
            (if (old_events =? CROUTINE_IO_EVENT_NONE) &&
                (io_wait_entry_events entry =? CROUTINE_IO_EVENT_NONE)
             then table ← lift (io_wait_table_remove_entry table (Some i));
                  modify (set_io_waits table)
             else mret tt);;
            mret false
          else
            let entry := if negb (Z.land events CROUTINE_IO_EVENT_READ =? 0)
              then mkIoWaitEntry (IoWait.fd entry) (Some task) (write_task entry) (in_use entry)
              else entry in
            let entry := if negb (Z.land events CROUTINE_IO_EVENT_WRITE =? 0)
              then mkIoWaitEntry (IoWait.fd entry) (read_task entry) (Some task) (in_use entry)
              else entry in
            table ← lift (io_wait_entry_update table i (λ _, entry));
            modify (set_io_waits table);;
            modify_task task (set_state TASK_WAITING_IO);;
            modify_task task (set_io_wait (λ _, mkTaskIoWaitState fd events false));;
            mret true
      end
  end.

(** ... and after the task has been switched back in. *)
Definition worker_resume_from_io (task : tid) : M St croutine_io_wait_result :=
  obj ← get_task task;
  mret (if io_wake_success (io_wait obj) then CROUTINE_IO_WAIT_READY
        else CROUTINE_IO_WAIT_CLOSED).

(** [worker_park_current_on_channel_locked] up to the switch, likewise. *)
Definition worker_park_current_on_channel_locked (current : option tid) : M St bool :=
  match current with
  | None => mret false
  | Some task =>
      shutdown ← gets shutdown_requested;
      if (shutdown : bool) then mret false else
      modify_task task (set_state TASK_WAITING_CHANNEL);;
      modify_task task (set_channel_wake false);;
      mret true
  end.
Definition worker_resume_from_channel (task : tid) : M St bool :=
  obj ← get_task task; mret (channel_wake_success obj).

Definition worker_wake_task_locked (task : option tid) (success : bool) : M St bool :=
  match task with
  | None => mret false
  | Some t =>
      obj ← get_task t;
      if decide (state (scheduler obj) = TASK_WAITING_CHANNEL) then
        modify_task t (set_channel_wake success);;
        ok ← enqueue_runnable_task_locked t;
        if negb ok then mret false else
        cond_signal;;
        s ← get;
        (if (idle_workers s =? 0) && poller_waiter_active s
         then croutine_poller_wake;; mret tt else mret tt);;
        mret true
      else mret false
  end.

(** ** Spawning *)

(** The creating thread's machine state: its floating-point control words
    and the memory the new stack lies in. *)
Definition creator (fpenv : Z * Z) (m : memory) : X86.cpu :=
  X86.mkCpu (λ _, 0) fpenv.1 fpenv.2 0 m.

Definition fresh_block (b : gmap Z (list byte)) : Z :=
  1 + foldr Z.max 0 (map_to_list b).*1.

(** Lines 743-751: the argument the task gets, [None] when the copy cannot be
    allocated.  [arg_bytes] is what [arg] points to when it is to be copied. *)
Definition spawn_arg (stack arg : Z) (arg_bytes : list byte) (arg_size : Z) (own : bool)
    : M St (option Z) :=
  if own then
    match malloc arg_size with
    | None =>
        modify (λ s, set_maps (destroy_stack stack (configured_stack_size s) (maps s)) s);;
        mret None
    | Some _ =>
        if (length arg_bytes <? Z.to_nat arg_size)%nat then stuck else
        p ← gets (λ s, fresh_block (blocks s));
        modify (λ s, set_blocks (<[p := take (Z.to_nat arg_size) arg_bytes]> (blocks s)) s);;
        mret (Some p)
    end
  else mret (Some arg).

(** Lines 776-819: the finished record enters the run queue. *)
Definition spawn_submit (t : tid) (is_main : bool) : M St bool :=
  spawned ← gets main_spawned;
  if is_main && spawned then cleanup_task (Some t);; mret false else
  (if is_main then modify (set_main_spawned true) else mret tt);;
  shutdown ← gets shutdown_requested;
  if (shutdown : bool) then
    (if is_main then modify (set_main_spawned false) else mret tt);;
    cleanup_task (Some t);; mret false
  else
    should_wake_poller ← gets poller_waiter_active;
    ok ← push_runnable t;
    (if (ok : bool) then cond_signal else mret tt);;
    if negb ok then
      (if is_main then modify (set_main_spawned false) else mret tt);;
      cleanup_task (Some t);; mret false
    else
      (if (should_wake_poller : bool) then croutine_poller_wake;; mret tt else mret tt);;
      mret true.

Definition worker_spawn (fpenv : Z * Z) (fn arg : Z) (arg_bytes : list byte)
    (arg_size : Z) (copy_arg is_main : bool) : M St bool :=
  ok ← worker_init;
  if negb ok then mret false else
  if negb (calloc_ok 1 SIZEOF_TASK) then mret false else
  s ← get;
  let '(stack, maps') := create_stack (configured_stack_size s) (maps s) in
  modify (set_maps maps');;
  if stack =? 0 then mret false else
  let stack_top := u64 (stack + configured_stack_size s) in
  let own := copy_arg && (0 <? arg_size) in
  task_arg ← spawn_arg stack arg arg_bytes arg_size own;
  match task_arg with
  | None => mret false
  | Some task_arg =>
      let '(ctx, m) := X86.create_context (creator fpenv (stack_mem s)) task_entrypoint
                         fn task_arg stack_top in
      let t := fresh (dom (heap s)) in
      modify (λ s, set_stack_mem m (set_heap (<[t := mkTask ctx fn task_arg arg_size own stack
        (configured_stack_size s) (mkTaskSchedulerState TASK_RUNNABLE false is_main)
        (mkTaskIoWaitState (-1) CROUTINE_IO_EVENT_NONE false) false]> (heap s)) s));;
      spawn_submit t is_main
  end.

Definition croutine_spawn (fpenv : Z * Z) (fn arg : Z) : M St bool :=
  if fn =? 0 then mret false else worker_spawn fpenv fn arg [] 0 false false.

Definition croutine_spawn_copy (fpenv : Z * Z) (fn arg : Z) (arg_bytes : list byte)
    (arg_size : Z) : M St bool :=
  if (fn =? 0) || ((0 <? arg_size) && (arg =? 0)) then mret false
  else worker_spawn fpenv fn arg arg_bytes arg_size true false.

(** ** Clean-up *)

Fixpoint deinit_queue (fuel : nat) : M St unit :=
  match fuel with
  | O => λ _, OutOfFuel
  | S fuel =>
      t ← pop_runnable;
      match t with
      | None => mret tt
      | Some t => cleanup_task (Some t);; deinit_queue fuel
      end
  end.

Fixpoint deinit_waits (n : nat) (i : Z) : M St unit :=
  match n with
  | O => mret tt
  | S n =>
      table ← gets io_waits;
      entry ← lift (entry_get (entries table) i);
      (if negb (in_use entry) then mret tt else
       table ← lift (io_wait_table_remove_entry table (Some i));
       modify (set_io_waits table);;
       cleanup_task (read_task entry);;
       (if decide (write_task entry = read_task entry) then mret tt
        else cleanup_task (write_task entry)));;
      deinit_waits n (i + 1)
  end.

(** The pop loop runs at most once per queued task. *)
Definition worker_deinit : M St unit :=
  ok ← gets runtime_init_ok;
  if negb ok then mret tt else
  s ← get;
  deinit_queue (S (Z.to_nat (tq_count (runnable_tasks s))));;
  deinit_waits (Z.to_nat (it_capacity (io_waits s))) 0;;
  on_poller poller_deinit;;
  modify (λ s, set_io_waits (default (io_waits s) (io_wait_table_deinit (Some (io_waits s)))) s);;
  modify (λ s, set_runnable_tasks
    (default (runnable_tasks s) (task_queue_deinit (Some (runnable_tasks s)))) s);;
  modify (set_runtime_init_ok false).
End worker.
