(* ===== verification/WorkerInv.v ===== *)
(** * The scheduler's invariant (src/worker.c)

    [winv] is what holds whenever [scheduler_mutex] is free: the run queue
    and the wait table are well formed, each task is where its state says
    (queued tasks are runnable, tasks waiting for a descriptor are in the
    table under it), and the poller watches exactly the events somebody
    waits for. *)

From S2P Require Import Prelude Memory ArchX86 Task IoWait PollerApi Worker.

Section inv.
Context `{Alloc, Os, Entry} {P : Type} `{PollerLaws P}.
Implicit Types (s : sched P) (t u : tid) (obj : Task) (l : list tid)
  (m : gmap Z (option tid * option tid)).

(** The events a pair of parked tasks waits for. *)
Definition mask (v : option (option tid * option tid)) : Z :=
  match v with
  | Some (r, w) => Z.lor (if r is Some _ then CROUTINE_IO_EVENT_READ else 0)
                         (if w is Some _ then CROUTINE_IO_EVENT_WRITE else 0)
  | None => CROUTINE_IO_EVENT_NONE
  end.

(** [t] waits for descriptor [d]. *)
Definition waits_on (h : gmap tid Task) t (d : Z) : Prop :=
  ∃ obj, h !! t = Some obj ∧ state (scheduler obj) = TASK_WAITING_IO ∧ io_fd (io_wait obj) = d.

Record winv s l m : Prop := {
  wi_queue : tq_inv (runnable_tasks s) (heap s) l;
  wi_room : Z.of_nat (size (heap s)) < 2 ^ 60;
  wi_runnable : ∀ t obj, heap s !! t = Some obj → t ∈ l → state (scheduler obj) = TASK_RUNNABLE;
  wi_table : it_rep (io_waits s) m;
  wi_poller : poller_ready (poller s);
  wi_interest : ∀ d, interest (poller s) d = mask (m !! d);
  wi_entry : ∀ d r w, m !! d = Some (r, w) → fd_valid (poller s) d ∧ (r, w) ≠ (None, None) ∧
    (∀ t, r = Some t ∨ w = Some t → waits_on (heap s) t d);
  wi_waiting : ∀ t d, waits_on (heap s) t d →
    ∃ r w, m !! d = Some (r, w) ∧ (r = Some t ∨ w = Some t)
}.

(** The parts of the state that waking and parking leave alone, and the
    condition variable: who is blocked on it and who was signalled. *)
Definition rest s :=
  (blocks s, maps s, stack_mem s, (runtime_init_called s, runtime_init_ok s, shutdown_requested s),
   (poller_waiter_active s, idle_workers s),
   (main_finished s, scheduler_main_finished s, main_spawned s, main_exit_code s, configured_stack_size s)).
Definition cv s : Z * Z := (cond_waiting s, cond_woken s).
Definition signalled (c : Z * Z) : Z * Z := if 0 <? c.1 then (c.1 - 1, c.2 + 1) else c.

(** The kernel never refuses a wake-up (a full counter or pipe counts as
    success). *)
Definition wake_reliable : Prop :=
  ∀ p : P, poller_ready p → ∃ p', poller_wake p = Ok (true, p').

(** ** Running pieces of code *)

Lemma get_task_run s t obj : heap s !! t = Some obj → get_task t s = Ok (obj, s).
Proof. intros Ht. unfold get_task, deref. by rewrite Ht. Qed.
Lemma modify_task_run s t obj f :
  heap s !! t = Some obj → modify_task t f s = Ok (tt, set_heap (<[t := f obj]> (heap s)) s).
Proof. intros Ht. unfold modify_task. by rewrite (bind_ok _ _ _ _ _ (get_task_run _ _ _ Ht)). Qed.

Lemma set_heap_twice h h' s : set_heap h' (set_heap h s) = set_heap h' s.
Proof. done. Qed.

(** A task record changes, but not its [queued] flag. *)
Lemma tq_inv_update q h l t obj obj' :
  tq_inv q h l → h !! t = Some obj → queued (scheduler obj') = queued (scheduler obj) →
  tq_inv q (<[t := obj']> h) l.
Proof.
  intros [I1 I2 I3 I4] Ht Hq. split; try done.
  - intros u Hu. apply lookup_insert_is_Some'. right. by apply I3.
  - intros u o. rewrite lookup_insert_Some. intros [[<- <-]|[_ Ho]]; [|by apply I4].
    rewrite Hq. by apply I4.
Qed.

(** What [enqueue_runnable_task_locked] makes of the task. *)
Definition requeued obj : Task :=
  set_queued true (set_io_wait (λ w, mkTaskIoWaitState (-1) CROUTINE_IO_EVENT_NONE (io_wake_success w))
    (set_state TASK_RUNNABLE obj)).

Lemma enqueue_run s l t obj :
  tq_inv (runnable_tasks s) (heap s) l → heap s !! t = Some obj → t ∉ l →
  calloc_grants → Z.of_nat (size (heap s)) < 2 ^ 60 →
  ∃ q', let h' := <[t := requeued obj]> (heap s) in
    enqueue_runnable_task_locked t s = Ok (true, set_runnable_tasks q' (set_heap h' s)) ∧
    tq_inv q' h' (l ++ [t]).
Proof.
  intros Hinv Ht Hl Hg Hsz. unfold enqueue_runnable_task_locked.
  rewrite (bind_ok _ _ _ _ _ (modify_task_run _ _ _ _ Ht)).
  erewrite bind_ok by (apply modify_task_run; apply lookup_insert_eq).
  erewrite bind_ok by (apply modify_task_run; apply lookup_insert_eq).
  cbn [heap set_heap]. rewrite !insert_insert_eq, !set_heap_twice.
  set (obj1 := set_io_wait _ (set_io_wait _ _)).
  assert (tq_inv (runnable_tasks s) (<[t := obj1]> (heap s)) l) as Hinv1 by (by eapply tq_inv_update).
  pose proof (push_spec _ _ _ t obj1 Hinv1 (lookup_insert_eq _ _ _) Hl) as Hp.
  rewrite (room_granted _ _ _ Hinv1 Hg) in Hp.
  2: { rewrite map_size_insert_Some by eauto. done. }
  destruct Hp as (q' & Hrun & Hinv'). rewrite insert_insert_eq in Hrun, Hinv'.
  exists q'. unfold push_runnable. cbn [runnable_tasks set_heap heap]. rewrite Hrun. done.
Qed.

(** The invariant mentions neither the condition variable nor main's state. *)
Lemma winv_ext s s' l m :
  heap s' = heap s → runnable_tasks s' = runnable_tasks s → io_waits s' = io_waits s →
  (poller_ready (poller s) → poller_ready (poller s')) →
  (∀ d, fd_valid (poller s') d ↔ fd_valid (poller s) d) →
  (∀ d, interest (poller s') d = interest (poller s) d) →
  winv s l m → winv s' l m.
Proof.
  intros E1 E2 E3 E4 E5 E6 [I1 I2 I3 I4 I5 I6 I7 I8].
  split; rewrite ?E1, ?E2, ?E3; auto; intros d; [by rewrite E6|]. intros r w. rewrite E5. by apply I7.
Qed.

Lemma cond_signal_run s : ∃ s', cond_signal s = Ok (tt, s') ∧ heap s' = heap s ∧
  runnable_tasks s' = runnable_tasks s ∧ io_waits s' = io_waits s ∧ poller s' = poller s ∧
  rest s' = rest s ∧ cv s' = signalled (cv s).
Proof. unfold cond_signal, modify. eexists. split; [done|]. unfold cv, signalled. by destruct (0 <? cond_waiting s) eqn:E; simpl; rewrite E. Qed.

Lemma rest_active s s' : rest s' = rest s →
  poller_waiter_active s' = poller_waiter_active s ∧ idle_workers s' = idle_workers s.
Proof. by intros [=]. Qed.
Lemma rest_init s s' : rest s' = rest s →
  runtime_init_called s' = runtime_init_called s ∧ runtime_init_ok s' = runtime_init_ok s.
Proof. by intros [=]. Qed.
Lemma rest_stop s s' : rest s' = rest s →
  shutdown_requested s' = shutdown_requested s ∧ scheduler_main_finished s' = scheduler_main_finished s.
Proof. by intros [=]. Qed.

(** The poller operations under the scheduler. *)
Lemma on_poller_run {A} (m : M P A) s a p' :
  m (poller s) = Ok (a, p') → on_poller m s = Ok (a, set_poller p' s).
Proof. intros E. unfold on_poller. by rewrite E. Qed.

Lemma poller_wake_run s : poller_ready (poller s) →
  ∃ b p', croutine_poller_wake s = Ok (b, set_poller p' s) ∧ poller_ready p' ∧
    (∀ d, fd_valid p' d ↔ fd_valid (poller s) d) ∧ (∀ d, interest p' d = interest (poller s) d) ∧
    (wake_pending (poller s) → wake_pending p') ∧ (b = true → wake_pending p').
Proof.
  intros Hp. destruct (poller_wake_law (poller s) Hp) as (b & p' & E & Hp').
  exists b, p'. split; [by apply on_poller_run|done].
Qed.

Lemma wake_reliable_run s b p' : wake_reliable → poller_ready (poller s) →
  croutine_poller_wake s = Ok (b, set_poller p' s) → (b = true → wake_pending p') → wake_pending p'.
Proof.
  intros Hrel Hr Hw Hb. apply Hb. destruct (Hrel _ Hr) as [p'' Hp''].
  unfold croutine_poller_wake, on_poller in Hw. rewrite Hp'' in Hw. by injection Hw as <- _.
Qed.

(** A task that waits for no descriptor starts and stops waiting elsewhere. *)
Lemma waits_on_insert h t u obj obj' d :
  h !! t = Some obj → state (scheduler obj) ≠ TASK_WAITING_IO →
  state (scheduler obj') ≠ TASK_WAITING_IO →
  waits_on (<[t := obj']> h) u d ↔ waits_on h u d.
Proof.
  intros Ht Hs Hs'. unfold waits_on. destruct (decide (u = t)) as [->|Hne].
  - rewrite lookup_insert_eq, Ht. naive_solver.
  - by rewrite lookup_insert_ne.
Qed.

Lemma winv_task s l l' m t obj obj' q' :
  winv s l m → heap s !! t = Some obj → state (scheduler obj) ≠ TASK_WAITING_IO →
  state (scheduler obj') ≠ TASK_WAITING_IO →
  tq_inv q' (<[t := obj']> (heap s)) l' →
  (∀ u, u ∈ l' → u ≠ t → u ∈ l) → (t ∈ l' → state (scheduler obj') = TASK_RUNNABLE) →
  winv (set_runnable_tasks q' (set_heap (<[t := obj']> (heap s)) s)) l' m.
Proof.
  intros [I1 I2 I3 I4 I5 I6 I7 I8] Ht Hs Hs' Hq Hl Hrun. split; simpl; try done.
  - by rewrite map_size_insert_Some by eauto.
  - intros u o. rewrite lookup_insert_Some. intros [[<- <-]|[Hne Ho]] Hu; [auto|].
    eapply I3; [done|]. apply Hl; [done|congruence].
  - intros d r w Hd. destruct (I7 d r w Hd) as (J1 & J2 & J3). split_and!; try done.
    intros u Hu. eapply waits_on_insert; [done..|]. by apply J3.
  - intros u d Hu. apply (waits_on_insert _ _ _ _ _ _ Ht Hs Hs') in Hu. by apply I8.
Qed.

(** ** Waking and parking on channels *)

(** What [worker_wake_task_locked] makes of the task. *)
Definition awake (b : bool) obj : Task := requeued (set_channel_wake b obj).

Lemma wake_task_run s l m t obj b :
  winv s l m → calloc_grants → heap s !! t = Some obj →
  state (scheduler obj) = TASK_WAITING_CHANNEL →
  ∃ s', worker_wake_task_locked (Some t) b s = Ok (true, s') ∧ winv s' (l ++ [t]) m ∧
    heap s' = <[t := awake b obj]> (heap s) ∧ rest s' = rest s ∧ cv s' = signalled (cv s) ∧
    (wake_pending (poller s) → wake_pending (poller s')) ∧
    (wake_reliable → idle_workers s = 0 → poller_waiter_active s = true → wake_pending (poller s')) ∧
    (idle_workers s ≠ 0 → poller s' = poller s).
Proof.
  intros HI Hg Ht Hs. unfold worker_wake_task_locked.
  rewrite (bind_ok _ _ _ _ _ (get_task_run _ _ _ Ht)), decide_True by done.
  rewrite (bind_ok _ _ _ _ _ (modify_task_run _ _ _ _ Ht)).
  assert (t ∉ l) as Hl.
  { intros Hin. rewrite (wi_runnable _ _ _ HI t obj Ht Hin) in Hs. done. }
  set (s1 := set_heap _ s).
  destruct (enqueue_run s1 l t (set_channel_wake b obj)) as (q' & Hrun & Hq'); try done.
  { eapply tq_inv_update; [apply HI|done..]. }
  { apply lookup_insert_eq. }
  { unfold s1. simpl. rewrite map_size_insert_Some by eauto. apply HI. }
  rewrite (bind_ok _ _ _ _ _ Hrun). cbn [negb].
  unfold s1 in *. cbn [heap set_heap] in *. rewrite insert_insert_eq in *.
  fold (awake b obj) in *. rewrite set_heap_twice in *.
  set (s2 := set_runnable_tasks q' (set_heap (<[t := awake b obj]> (heap s)) s)).
  assert (winv s2 (l ++ [t]) m) as HI2.
  { eapply winv_task; try done; [by rewrite Hs|set_solver]. }
  destruct (cond_signal_run s2) as (s3 & Hrun3 & E1 & E2 & E3 & E4 & E5 & E6).
  rewrite (bind_ok _ _ _ _ _ Hrun3), (bind_ok _ _ s3 s3 s3) by done.
  assert (winv s3 (l ++ [t]) m) as HI3 by (eapply winv_ext; [..|exact HI2]; by rewrite ?E4).
  destruct (rest_active _ _ E5) as [Ea Ei].
  destruct ((idle_workers s3 =? 0) && poller_waiter_active s3) eqn:Ew.
  - destruct (poller_wake_run s3 (wi_poller _ _ _ HI3)) as (b' & p' & Hw & Hp1 & Hp2 & Hp3 & Hp4 & Hp5).
    rewrite (bind_ok _ _ _ _ _ (bind_ok _ _ _ _ _ Hw)).
    eexists. split; [done|]. split_and!; [|done..| | |].
    + eapply winv_ext; [..|exact HI3]; done.
    + intros Hpend. apply Hp4. by rewrite E4.
    + intros Hrel _ _. eapply wake_reliable_run; [done|apply HI3|done..].
    + intros Hne. apply andb_true_iff in Ew as [Ew%Z.eqb_eq _]. by rewrite Ei in Ew.
  - rewrite (bind_ok _ _ s3 tt s3) by done. exists s3. split_and!; try done; [by rewrite E4|].
    intros _ Hidle Hact. rewrite Ei, Ea in Ew. simpl in Ew. by rewrite Hidle, Hact in Ew.
Qed.

Lemma park_channel_run s l m t obj :
  winv s l m → heap s !! t = Some obj → state (scheduler obj) = TASK_RUNNABLE →
  queued (scheduler obj) = false → shutdown_requested s = false →
  let obj' := set_channel_wake false (set_state TASK_WAITING_CHANNEL obj) in
  let s' := set_heap (<[t := obj']> (heap s)) s in
  worker_park_current_on_channel_locked (Some t) s = Ok (true, s') ∧ winv s' l m.
Proof.
  intros HI Ht Hs Hq Hsd obj' s'. split.
  - unfold worker_park_current_on_channel_locked. rewrite (bind_ok _ _ s false s) by (by rewrite <-Hsd).
    rewrite (bind_ok _ _ _ _ _ (modify_task_run _ _ _ _ Ht)).
    erewrite bind_ok by (apply modify_task_run; apply lookup_insert_eq).
    cbn [heap set_heap]. by rewrite insert_insert_eq, set_heap_twice.
  - assert (t ∉ l) as Hl.
    { intros Hin. apply (inv_flag _ _ _ (wi_queue _ _ _ HI) t obj Ht) in Hin. congruence. }
    assert (winv (set_runnable_tasks (runnable_tasks s) s') l m) as HI'.
    { eapply winv_task; try done; [by rewrite Hs|]. eapply tq_inv_update; [apply HI|done..]. }
    eapply winv_ext; [..|exact HI']; done.
Qed.
End inv.
