(* ===== verification/Resources.v ===== *)
(** * What the tasks own (src/worker.c, src/task.c)

    Every task record owns one stack mapping and, when its argument was
    copied, one heap block; there are no others.  [rinv] says so; clean-up
    releases exactly what a task owns, and a failed spawn leaves nothing
    behind.  Since the mappings are disjoint pages, there are never more
    tasks than pages. *)

From S2P Require Import Prelude Posix Memory ArchX86 Task IoWait PollerApi Worker WorkerInv.

Section res.
Context `{Alloc, Os, Entry} {P : Type} `{PollerLaws P}.
Implicit Types (s : sched P) (t u : tid) (obj : Task) (h : gmap tid Task).
Implicit Types (mp : gmap Z Z) (bl : gmap Z (list byte)).

Definition mapping_of obj : Z := u64 (stack obj - get_page_size).
(** The fields that say what a task owns. *)
Definition owned obj := (stack obj, stack_size obj, owns_arg obj, arg obj).

Record rinv h mp bl : Prop := {
  ri_stack : ∀ t obj, h !! t = Some obj → stack obj ≠ 0 ∧ 0 < mapping_of obj < 2 ^ 64 ∧
    mapping_of obj mod get_page_size = 0 ∧
    mp !! mapping_of obj = Some (get_stack_mapping_size (stack_size obj));
  ri_stacks : ∀ t u obj obj', h !! t = Some obj → h !! u = Some obj' →
    mapping_of obj = mapping_of obj' → t = u;
  ri_maps : ∀ a n, mp !! a = Some n → ∃ t obj, h !! t = Some obj ∧ mapping_of obj = a;
  ri_arg : ∀ t obj, h !! t = Some obj → owns_arg obj = true → arg obj ≠ 0 ∧ is_Some (bl !! arg obj);
  ri_args : ∀ t u obj obj', h !! t = Some obj → h !! u = Some obj' → owns_arg obj = true →
    owns_arg obj' = true → arg obj = arg obj' → t = u;
  ri_blocks : ∀ p bs, bl !! p = Some bs → ∃ t obj, h !! t = Some obj ∧ owns_arg obj = true ∧ arg obj = p
}.

Lemma rinv_empty h mp bl : rinv h mp bl → h = ∅ → mp = ∅ ∧ bl = ∅.
Proof.
  intros HR ->. split; apply map_eq; intros a; rewrite lookup_empty.
  - destruct (mp !! a) as [n|] eqn:E; [|done]. by destruct (ri_maps _ _ _ HR a n E) as (t & obj & Ht & _).
  - destruct (bl !! a) as [n|] eqn:E; [|done]. by destruct (ri_blocks _ _ _ HR a n E) as (t & obj & Ht & _).
Qed.
Lemma rinv_none : rinv ∅ ∅ ∅.
Proof. by split. Qed.

(** Only ownership matters. *)
Lemma rinv_same h h' mp bl : owned <$> h' = owned <$> h → rinv h mp bl → rinv h' mp bl.
Proof.
  intros E HR.
  assert (∀ (g g' : gmap tid Task) t obj, owned <$> g' = owned <$> g → g !! t = Some obj →
    ∃ obj', g' !! t = Some obj' ∧ owned obj = owned obj') as Hto.
  { intros g g' t obj Eg Ht. apply (f_equal (lookup t)) in Eg. rewrite !lookup_fmap, Ht in Eg.
    destruct (g' !! t) as [obj'|]; [|done]. exists obj'. split; [done|]. cbn in Eg. congruence. }
  pose proof (λ t obj, Hto h' h t obj (eq_sym E)) as Hback. pose proof (λ t obj, Hto h h' t obj E) as Hfwd.
  destruct HR as [R1 R2 R3 R4 R5 R6]. split.
  - intros t obj Ht. destruct (Hback t obj Ht) as (o & Ho & [= E1 E2 E3 E4]). unfold mapping_of.
    rewrite E1, E2. by apply (R1 t).
  - intros t u obj obj' Ht Hu. destruct (Hback t obj Ht) as (o & Ho & [= E1 E2 E3 E4]).
    destruct (Hback u obj' Hu) as (o' & Ho' & [= F1 F2 F3 F4]). unfold mapping_of. rewrite E1, F1. by apply R2.
  - intros a n Ha. destruct (R3 a n Ha) as (t & obj & Ht & <-).
    destruct (Hfwd t obj Ht) as (o & Ho & [= E1 E2 E3 E4]). exists t, o. unfold mapping_of. by rewrite E1.
  - intros t obj Ht. destruct (Hback t obj Ht) as (o & Ho & [= E1 E2 E3 E4]). rewrite E3, E4. by apply (R4 t).
  - intros t u obj obj' Ht Hu. destruct (Hback t obj Ht) as (o & Ho & [= E1 E2 E3 E4]).
    destruct (Hback u obj' Hu) as (o' & Ho' & [= F1 F2 F3 F4]). rewrite E3, F3, E4, F4. by apply R5.
  - intros p bs Hp. destruct (R6 p bs Hp) as (t & obj & Ht & Ho & <-).
    destruct (Hfwd t obj Ht) as (o & Ho' & [= E1 E2 E3 E4]). exists t, o. rewrite <-E3, <-E4. done.
Qed.
Lemma owned_insert h t obj obj' :
  h !! t = Some obj → owned obj' = owned obj → owned <$> <[t := obj']> h = owned <$> h.
Proof. intros Ht E. rewrite fmap_insert, E. apply insert_id. by rewrite lookup_fmap, Ht. Qed.

(** ** The number of tasks *)

Lemma bounded_length (l : list Z) (n : Z) :
  NoDup l → 0 ≤ n → (∀ x, x ∈ l → 0 ≤ x < n) → Z.of_nat (length l) ≤ n.
Proof.
  intros Hnd Hn Hl. rewrite <-(Z2Nat.id n), <-(length_seqZ 0 n) by done. apply inj_le.
  apply submseteq_length, NoDup_submseteq; [done|]. intros x Hx%Hl. apply elem_of_seqZ. lia.
Qed.

Lemma tasks_bounded h mp bl : page_size_ok → rinv h mp bl → Z.of_nat (size h) ≤ 2 ^ 52.
Proof.
  intros (k & Hk & Hp) [R1 R2 _ _ _ _].
  assert (2 ^ 12 ≤ 2 ^ k) by (apply Z.pow_le_mono_r; lia).
  rewrite <-(length_map_to_list h), <-(length_fmap (λ p, mapping_of p.2 / 2 ^ k)).
  apply bounded_length; [|lia|].
  - apply NoDup_fmap_2_strong; [|apply NoDup_map_to_list].
    intros [t obj] [u obj'] Ht%elem_of_map_to_list Hu%elem_of_map_to_list E. cbn in E.
    destruct (R1 t obj Ht) as (_ & B1 & M1 & _), (R1 u obj' Hu) as (_ & B2 & M2 & _).
    assert (mapping_of obj = mapping_of obj') as Em.
    { rewrite Hp in M1, M2. rewrite (Z.div_mod (mapping_of obj) (2 ^ k)), (Z.div_mod (mapping_of obj') (2 ^ k)) by lia.
      by rewrite E, M1, M2. }
    assert (t = u) as -> by (by eapply R2). by simplify_eq.
  - intros x ([t obj] & -> & Ht%elem_of_map_to_list)%list_elem_of_fmap. cbn.
    destruct (R1 t obj Ht) as (_ & B1 & M1 & _). split; [apply Z.div_pos; lia|].
    apply Z.div_lt_upper_bound; [lia|]. nia.
Qed.

(** ** Clean-up *)

Lemma rinv_delete h mp bl t obj :
  rinv h mp bl → h !! t = Some obj →
  rinv (delete t h) (delete (mapping_of obj) mp) (if owns_arg obj then delete (arg obj) bl else bl).
Proof.
  intros [R1 R2 R3 R4 R5 R6] Ht. split.
  - intros u o [Hne Hu]%lookup_delete_Some. destruct (R1 u o Hu) as (? & ? & ? & Hm). split_and!; try done; try lia.
    rewrite lookup_delete_ne; [done|]. intros E. by apply Hne, (R2 t u obj o).
  - intros u v o o' [_ Hu]%lookup_delete_Some [_ Hv]%lookup_delete_Some. by apply R2.
  - intros a n [Hne Ha]%lookup_delete_Some. destruct (R3 a n Ha) as (u & o & Hu & <-).
    exists u, o. split; [|done]. rewrite lookup_delete_ne; [done|]. intros <-. by simplify_eq.
  - intros u o [Hne Hu]%lookup_delete_Some Ho. destruct (R4 u o Hu Ho) as [Hz Hb]. split; [done|].
    destruct (owns_arg obj) eqn:E; [|done]. rewrite lookup_delete_ne; [done|].
    intros E'. by apply Hne, (R5 t u obj o).
  - intros u v o o' [_ Hu]%lookup_delete_Some [_ Hv]%lookup_delete_Some. by apply R5.
  - intros p bs Hp. assert (bl !! p = Some bs ∧ (owns_arg obj = true → arg obj ≠ p)) as [Hb Hn].
    { destruct (owns_arg obj); [apply lookup_delete_Some in Hp; tauto|done]. }
    destruct (R6 p bs Hb) as (u & o & Hu & Ho & Hq). exists u, o. split; [|done].
    rewrite lookup_delete_ne; [done|]. intros <-. simplify_eq. by destruct Hn.
Qed.

(** [cleanup_task] releases what the task owns and removes its record. *)
Lemma cleanup_run s t obj :
  rinv (heap s) (maps s) (blocks s) → heap s !! t = Some obj →
  ∃ mp bl, cleanup_task (Some t) s =
      Ok (tt, set_heap (delete t (heap s)) (set_maps mp (set_blocks bl s))) ∧
    mp = delete (mapping_of obj) (maps s) ∧
    bl = (if owns_arg obj then delete (arg obj) (blocks s) else blocks s) ∧
    rinv (delete t (heap s)) mp bl.
Proof.
  intros HR Ht. destruct (ri_stack _ _ _ HR t obj Ht) as (Hz & _ & _ & Hm).
  assert (task_cleanup (set_state TASK_FINISHED obj) (maps s) (blocks s) =
    Ok (mkTask (context obj) (fn obj) 0 0 false 0 0 (mkTaskSchedulerState TASK_RUNNABLE false false)
          (mkTaskIoWaitState (-1) CROUTINE_IO_EVENT_NONE false) false,
        delete (mapping_of obj) (maps s),
        if owns_arg obj then delete (arg obj) (blocks s) else blocks s)) as Hc.
  { unfold task_cleanup, destroy_stack, free_block. cbn -[get_page_size get_stack_mapping_size u64].
    destruct (Z.eqb_spec (stack obj) 0); [done|]. fold (mapping_of obj).
    rewrite bool_decide_eq_true_2 by done. destruct (owns_arg obj) eqn:Eo; [|done].
    destruct (ri_arg _ _ _ HR t obj Ht Eo) as [Ha [bs Hbs]]. destruct (Z.eqb_spec (arg obj) 0); [done|].
    by rewrite Hbs. }
  unfold cleanup_task. rewrite (bind_ok _ _ _ _ _ (modify_task_run _ _ _ _ Ht)).
  erewrite bind_ok by (apply get_task_run; apply lookup_insert_eq).
  set (s1 := set_heap _ s). rewrite (bind_ok _ _ s1 s1 s1) by done.
  eexists _, _. split; [|split_and!; [done..|by apply rinv_delete]].
  erewrite bind_ok; [|unfold lift; change (maps s1) with (maps s); change (blocks s1) with (blocks s);
    rewrite Hc; reflexivity].
  unfold modify, s1. cbn. by rewrite delete_insert_eq.
Qed.

(** ** Spawning *)

Lemma fresh_block_new bl : 0 < fresh_block bl ∧ bl !! fresh_block bl = None.
Proof.
  unfold fresh_block.
  assert (∀ l : list Z, 0 ≤ foldr Z.max 0 l ∧ ∀ x, x ∈ l → x ≤ foldr Z.max 0 l) as Hl.
  { induction l as [|y l [IH1 IH2]]; cbn; [split; [done|set_solver]|]. split; [lia|].
    intros x [->|Hx]%elem_of_cons; [lia|]. specialize (IH2 x Hx). lia. }
  destruct (Hl (map_to_list bl).*1) as [H1' H2']. split; [lia|].
  destruct (bl !! _) as [bs|] eqn:E; [|done]. apply elem_of_map_to_list in E.
  specialize (H2' _ (list_elem_of_fmap_2 fst _ _ E)). cbn in H2'. lia.
Qed.

Lemma rinv_insert h mp bl t obj bs :
  rinv h mp bl → h !! t = None → stack obj ≠ 0 → 0 < mapping_of obj < 2 ^ 64 →
  mapping_of obj mod get_page_size = 0 → mp !! mapping_of obj = None →
  (owns_arg obj = true → arg obj ≠ 0 ∧ bl !! arg obj = None) →
  rinv (<[t := obj]> h) (<[mapping_of obj := get_stack_mapping_size (stack_size obj)]> mp)
    (if owns_arg obj then <[arg obj := bs]> bl else bl).
Proof.
  intros [R1 R2 R3 R4 R5 R6] Ht Hz Hb Hal Hm Ha.
  assert (∀ u o, h !! u = Some o → mapping_of o ≠ mapping_of obj) as Hdm.
  { intros u o Hu E. destruct (R1 u o Hu) as (_ & _ & _ & E'). congruence. }
  assert (∀ u o, h !! u = Some o → owns_arg o = true → owns_arg obj = true → arg o ≠ arg obj) as Hda.
  { intros u o Hu Ho Ho' E. destruct (R4 u o Hu Ho) as [_ [x Hx]]. destruct (Ha Ho'). congruence. }
  split.
  - intros u o [[<- <-]|[Hne Hu]]%lookup_insert_Some; [by rewrite lookup_insert_eq|].
    rewrite lookup_insert_ne; [by apply (R1 u)|]. intros E. by eapply Hdm.
  - intros u v o o' [[<- <-]|[_ Hu]]%lookup_insert_Some [[<- <-]|[_ Hv]]%lookup_insert_Some E; [done| | |by eapply R2].
    + by destruct (Hdm v o' Hv).
    + by destruct (Hdm u o Hu).
  - intros a n [[<- <-]|[_ Hn]]%lookup_insert_Some; [exists t, obj; by rewrite lookup_insert_eq|].
    destruct (R3 a n Hn) as (u & o & Hu & <-). exists u, o. split; [|done].
    rewrite lookup_insert_ne; [done|]. intros ->. congruence.
  - intros u o [[<- <-]|[Hne Hu]]%lookup_insert_Some Ho.
    + rewrite Ho. rewrite lookup_insert_eq. split; [by apply Ha|done].
    + destruct (R4 u o Hu Ho) as [Hx Hy]. split; [done|]. destruct (owns_arg obj); [|done].
      apply lookup_insert_is_Some'. by right.
  - intros u v o o' [[<- <-]|[_ Hu]]%lookup_insert_Some [[<- <-]|[_ Hv]]%lookup_insert_Some Ho Ho' E;
      [done| | |by eapply R5].
    + by destruct (Hda v o' Hv Ho' Ho).
    + by destruct (Hda u o Hu Ho Ho').
  - intros p x Hp. destruct (owns_arg obj) eqn:Eo; [apply lookup_insert_Some in Hp as [[<- <-]|[_ Hp]]|].
    + exists t, obj. by rewrite lookup_insert_eq.
    + destruct (R6 p x Hp) as (u & o & Hu & ?). exists u, o. rewrite lookup_insert_ne; [done|]. intros ->. congruence.
    + destruct (R6 p x Hp) as (u & o & Hu & ?). exists u, o. rewrite lookup_insert_ne; [done|]. intros ->. congruence.
Qed.

(** The fields that spawning leaves alone. *)
Definition ctl s :=
  ((runtime_init_called s, runtime_init_ok s, shutdown_requested s), (poller_waiter_active s, idle_workers s),
   (main_finished s, scheduler_main_finished s, main_exit_code s, configured_stack_size s)).

(** The state after the new task [t] has entered the run queue. *)
Record joined s s' l m t obj : Prop := {
  jn_inv : winv s' (l ++ [t]) m;
  jn_heap : heap s' = <[t := set_queued true obj]> (heap s);
  jn_owned : maps s' = maps s ∧ blocks s' = blocks s;
  jn_ctl : ctl s' = ctl s;
  jn_cv : cv s' = signalled (cv s);
  jn_pending : wake_pending (poller s) → wake_pending (poller s');
  jn_wake : wake_reliable (P:=P) → poller_waiter_active s = true → wake_pending (poller s')
}.

Lemma push_refused s l m t obj :
  winv s l m → heap s !! t = Some obj → t ∉ l → tq_room (runnable_tasks s) = false →
  push_runnable t s = Ok (false, s).
Proof.
  intros HW Ht Hl Hr. pose proof (push_spec _ _ _ t obj (wi_queue _ _ _ HW) Ht Hl) as Hp.
  rewrite Hr in Hp. unfold push_runnable. rewrite Hp. by destruct s.
Qed.
Lemma push_run s l m t obj :
  winv s l m → heap s !! t = Some obj → t ∉ l → tq_room (runnable_tasks s) = true →
  state (scheduler obj) = TASK_RUNNABLE →
  ∃ s', push_runnable t s = Ok (true, s') ∧ winv s' (l ++ [t]) m ∧
    heap s' = <[t := set_queued true obj]> (heap s) ∧ poller s' = poller s ∧ rest s' = rest s ∧ cv s' = cv s.
Proof.
  intros HW Ht Hl Hr Hs. pose proof (push_spec _ _ _ t obj (wi_queue _ _ _ HW) Ht Hl) as Hp.
  rewrite Hr in Hp. destruct Hp as (q' & Hrun & Hq'). unfold push_runnable. rewrite Hrun.
  eexists. split; [done|]. split_and!; try done. eapply winv_task; try done; cbn; rewrite ?Hs; set_solver.
Qed.

Lemma rest_ctl s s' : rest s' = rest s →
  maps s' = maps s ∧ blocks s' = blocks s ∧ ctl s' = ctl s.
Proof. unfold ctl. intros [=]. split_and!; congruence. Qed.

(** Lines 799-819 when the push succeeds. *)
Lemma push_wake {A} s l m t obj (refuse : M (sched P) A) (a : A) :
  winv s l m → heap s !! t = Some obj → t ∉ l → tq_room (runnable_tasks s) = true →
  state (scheduler obj) = TASK_RUNNABLE →
  ∃ s', (ok ← push_runnable t; (if (ok : bool) then cond_signal else mret tt);; if negb ok then refuse else
     (if poller_waiter_active s then croutine_poller_wake;; mret tt else mret tt);; mret a) s = Ok (a, s') ∧
    joined s s' l m t obj ∧ main_spawned s' = main_spawned s.
Proof.
  intros HW Ht Hl Hr Hs. destruct (push_run s l m t obj HW Ht Hl Hr Hs) as (s1 & Hrun & HW1 & Hh & Hp & Er & Ec).
  rewrite (bind_ok _ _ _ _ _ Hrun). destruct (cond_signal_run s1) as (s2 & Hsig & F1 & F2 & F3 & F4 & F5 & F6).
  rewrite (bind_ok _ _ _ _ _ Hsig). cbn [negb].
  assert (winv s2 (l ++ [t]) m) as HW2 by (eapply winv_ext; [..|exact HW1]; by rewrite ?F4).
  destruct (rest_ctl _ _ (eq_trans F5 Er)) as (G1 & G2 & G3).
  assert (main_spawned s2 = main_spawned s) as G4 by (pose proof (eq_trans F5 Er) as [=]; congruence).
  destruct (poller_waiter_active s) eqn:Ea.
  - destruct (poller_wake_run s2 (wi_poller _ _ _ HW2)) as (b & p' & Hw & Hp1 & Hp2 & Hp3 & Hp4 & Hp5).
    rewrite (bind_ok _ _ _ _ _ (bind_ok _ _ _ _ _ Hw)). eexists. split; [done|]. split; [|done]. split; try done.
    + by eapply winv_ext; [..|exact HW2].
    + cbn. congruence.
    + change (cv s2 = signalled (cv s)). congruence.
    + intros Hpd. apply Hp4. congruence.
    + intros Hrel _. eapply wake_reliable_run; [done|apply HW2|done..].
  - rewrite (bind_ok _ _ s2 tt s2) by done. exists s2. split; [done|]. split; [|done]. split; try done; congruence.
Qed.

(** The record is cleaned up again when it cannot be queued. *)
Definition without s t obj : sched P :=
  set_heap (delete t (heap s)) (set_maps (delete (mapping_of obj) (maps s))
    (set_blocks (if owns_arg obj then delete (arg obj) (blocks s) else blocks s) s)).
Lemma without_run {A} s t obj (a : A) :
  rinv (heap s) (maps s) (blocks s) → heap s !! t = Some obj →
  (cleanup_task (Some t);; mret a) s = Ok (a, without s t obj).
Proof.
  intros HR Ht. destruct (cleanup_run s t obj HR Ht) as (mp & bl & Hrun & -> & -> & _).
  by rewrite (bind_ok _ _ _ _ _ Hrun).
Qed.

Lemma submit_run s l m t obj main :
  winv s l m → rinv (heap s) (maps s) (blocks s) → heap s !! t = Some obj →
  state (scheduler obj) = TASK_RUNNABLE → queued (scheduler obj) = false →
  (∃ s', spawn_submit t main s = Ok (true, s') ∧ joined s s' l m t obj ∧ shutdown_requested s = false ∧
     main && main_spawned s = false ∧ main_spawned s' = main || main_spawned s) ∨
  (spawn_submit t main s = Ok (false, without s t obj) ∧
   (main && main_spawned s = true ∨ shutdown_requested s = true ∨ tq_room (runnable_tasks s) = false)).
Proof.
  intros HW HR Ht Hs Hq. unfold spawn_submit. rewrite (bind_ok _ _ s (main_spawned s) s) by done.
  destruct (main && main_spawned s) eqn:Em; [right; split; [by apply without_run|by left]|].
  assert (t ∉ l) as Hl.
  { intros Hin. apply (inv_flag _ _ _ (wi_queue _ _ _ HW) t obj Ht) in Hin. congruence. }
  set (s0 := if main then set_main_spawned true s else s).
  rewrite (bind_ok _ _ s tt s0) by (unfold s0; by destruct main).
  assert (winv s0 l m) as HW0 by (unfold s0; destruct main; [by eapply winv_ext; [..|exact HW]|done]).
  assert (heap s0 = heap s ∧ runnable_tasks s0 = runnable_tasks s ∧ shutdown_requested s0 = shutdown_requested s ∧
    poller_waiter_active s0 = poller_waiter_active s ∧ main_spawned s0 = main || main_spawned s)
    as (E1 & E2 & E3 & E4 & E5) by (unfold s0; by destruct main).
  assert ((if main then modify (set_main_spawned false) else mret tt) s0 = Ok (tt, s)) as Hback.
  { unfold s0. destruct main; [|done]. cbn. f_equal. f_equal. destruct s. cbn in Em. by subst. }
  rewrite (bind_ok _ _ s0 (shutdown_requested s0) s0) by done. rewrite E3.
  destruct (shutdown_requested s) eqn:Esd.
  { right. rewrite (bind_ok _ _ _ _ _ Hback). split; [by apply without_run|by right; left]. }
  rewrite (bind_ok _ _ s0 (poller_waiter_active s0) s0) by done.
  destruct (tq_room (runnable_tasks s)) eqn:Er.
  - left. destruct (push_wake s0 l m t obj ((if main then modify (set_main_spawned false) else mret tt);;
      cleanup_task (Some t);; mret false) true HW0) as (s' & Hrun & Hj & Hm); rewrite ?E1, ?E2; try done.
    exists s'. split; [exact Hrun|]. split_and!; try done; [|congruence].
    destruct Hj as [J1 J2 J3 J4 J5 J6 J7]. unfold s0 in *. by destruct main.
  - right. rewrite (bind_ok _ _ s0 false s0) by (apply (push_refused s0 l m t obj); rewrite ?E1, ?E2; done).
    rewrite (bind_ok _ _ s0 tt s0) by done. cbn [negb]. rewrite (bind_ok _ _ _ _ _ Hback).
    split; [by apply without_run|by right; right].
Qed.

(** A record that nobody knows yet. *)
Lemma winv_fresh s s' l m t obj :
  winv s l m → heap s !! t = None → queued (scheduler obj) = false → state (scheduler obj) ≠ TASK_WAITING_IO →
  heap s' = <[t := obj]> (heap s) → Z.of_nat (size (heap s')) < 2 ^ 60 →
  runnable_tasks s' = runnable_tasks s → io_waits s' = io_waits s → poller s' = poller s → winv s' l m.
Proof.
  intros [[Q1 Q2 Q3 Q4] I2 I3 I4 I5 I6 I7 I8] Ht Hq Hs Hh Hsz E1 E2 E3.
  assert (t ∉ l) as Hl by (intros [? ?]%Q3; congruence).
  assert (∀ u d, waits_on (heap s') u d ↔ waits_on (heap s) u d) as Hw.
  { intros u d. unfold waits_on. rewrite Hh. destruct (decide (u = t)) as [->|Hne].
    - rewrite lookup_insert_eq, Ht. naive_solver.
    - by rewrite lookup_insert_ne. }
  split; rewrite ?E1, ?E2, ?E3; try done.
  - rewrite Hh. split; try done.
    + intros u Hu. apply lookup_insert_is_Some'. right. by apply Q3.
    + intros u o. rewrite lookup_insert_Some. intros [[<- <-]|[_ Ho]]; [|by apply Q4]. rewrite Hq. done.
  - intros u o. rewrite Hh, lookup_insert_Some. intros [[<- <-]|[_ Ho]] Hu; [done|by eapply I3].
  - intros d r w Hd. destruct (I7 d r w Hd) as (J1 & J2 & J3). split_and!; try done.
    intros u Hu. by apply Hw, J3.
  - intros u d Hu. by apply I8, Hw.
Qed.

(** The state after a successful spawn. *)
Record spawned s s' l m (f a : Z) (bytes : list byte) (asz : Z) (own main : bool) t obj : Prop := {
  sw_fresh : heap s !! t = None;
  sw_heap : heap s' = <[t := obj]> (heap s);
  sw_task : fn obj = f ∧ scheduler obj = mkTaskSchedulerState TASK_RUNNABLE true main ∧
    channel_wake_success obj = false ∧ owns_arg obj = own;
  sw_arg : if own then blocks s' = <[arg obj := take (Z.to_nat asz) bytes]> (blocks s)
           else blocks s' = blocks s ∧ arg obj = a;
  sw_inv : winv s' (l ++ [t]) m;
  sw_owned : rinv (heap s') (maps s') (blocks s');
  sw_ctl : ctl s' = ctl s;
  sw_cv : cv s' = signalled (cv s);
  sw_main : shutdown_requested s = false ∧ main && main_spawned s = false ∧
    main_spawned s' = main || main_spawned s;
  sw_pending : wake_pending (poller s) → wake_pending (poller s');
  sw_wake : wake_reliable (P:=P) → poller_waiter_active s = true → wake_pending (poller s')
}.

Lemma stack_made size mp :
  page_size_ok → mmap_fresh → 0 ≤ size < 2 ^ 62 →
  create_stack size mp = (0, mp) ∨
  ∃ a, create_stack size mp = (a + get_page_size, <[a := get_stack_mapping_size size]> mp) ∧
    u64 (a + get_page_size - get_page_size) = a ∧ 0 < a < 2 ^ 64 ∧ a + get_page_size ≠ 0 ∧
    a mod get_page_size = 0 ∧ mp !! a = None.
Proof.
  intros Hp Hf Hs. destruct (stack_mapping_size_eq size Hp Hs) as [Hms Hus].
  destruct Hp as (k & Hk & Hp). assert (0 < 2 ^ k) by lia. unfold create_stack.
  destruct (mmap _ _) as [a|] eqn:Ea; [|by left]. destruct (Hf _ _ _ Ea) as (F1 & F2 & F3 & F4).
  destruct (mprotect_ok a get_page_size); [|left; by rewrite delete_insert_id].
  right. exists a. rewrite u64_small by lia. replace (a + get_page_size - get_page_size) with a by lia.
  rewrite u64_small by lia. split_and!; try done; lia.
Qed.

(** The argument: a refused copy undoes the stack. *)
Lemma spawn_arg_run s stk n a x bytes asz own :
  maps s !! a = None → u64 (stk - get_page_size) = a → stk ≠ 0 → n = configured_stack_size s →
  (own = true → asz ≤ Z.of_nat (length bytes)) →
  let s1 := set_maps (<[a := get_stack_mapping_size n]> (maps s)) s in
  spawn_arg stk x bytes asz own s1 = Ok (None, s) ∨
  ∃ p bl, spawn_arg stk x bytes asz own s1 = Ok (Some p, set_blocks bl s1) ∧
    (own = true → p ≠ 0 ∧ blocks s !! p = None) ∧
    bl = (if own then <[p := take (Z.to_nat asz) bytes]> (blocks s) else blocks s) ∧
    (own = false → p = x).
Proof.
  intros Ha Hstk Hz -> Hlen s1. unfold spawn_arg. destruct own.
  - destruct (malloc asz).
    + right. destruct (Nat.ltb_spec (length bytes) (Z.to_nat asz)); [specialize (Hlen eq_refl); lia|].
      destruct (fresh_block_new (blocks s)) as [Hf1 Hf2].
      exists (fresh_block (blocks s)), (<[fresh_block (blocks s) := take (Z.to_nat asz) bytes]> (blocks s)).
      split_and!; try done. intros _. split; [lia|done].
    + left. assert (destroy_stack stk (configured_stack_size s1) (maps s1) = maps s) as Hd.
      { unfold destroy_stack, s1. cbn [configured_stack_size maps set_maps].
        destruct (Z.eqb_spec stk 0); [done|]. rewrite Hstk, lookup_insert_eq, bool_decide_eq_true_2 by done.
        by rewrite delete_insert_id. }
      rewrite (bind_ok _ _ s1 tt s); [done|]. unfold modify. rewrite Hd. by destruct s.
  - right. exists x, (blocks s). split_and!; try done.
Qed.

Section spawn.
Context (fpenv : Z * Z) (f x : Z) (bytes : list byte) (asz : Z) (copy main : bool).
Context (s : sched P) (l : list tid) (m : gmap Z (option tid * option tid)).
Hypothesis HW : winv s l m.
Hypothesis HR : rinv (heap s) (maps s) (blocks s).
Hypothesis Hinit : runtime_init_called s = true ∧ runtime_init_ok s = true.
Hypothesis Hpage : page_size_ok.
Hypothesis Hfresh : mmap_fresh.
Hypothesis Hsize : 0 ≤ configured_stack_size s < 2 ^ 62.
Abbreviation own := (copy && (0 <? asz)).
Hypothesis Hbytes : own = true → asz ≤ Z.of_nat (length bytes).

Lemma init_done : worker_init s = Ok (true, s).
Proof.
  destruct Hinit as [E1 E2]. unfold worker_init. rewrite (bind_ok _ _ s true s) by (by rewrite <-E1).
  rewrite (bind_ok _ _ s tt s) by done. by rewrite <-E2.
Qed.

Lemma spawn_run :
  (∃ s' t obj, worker_spawn fpenv f x bytes asz copy main s = Ok (true, s') ∧
     spawned s s' l m f x bytes asz own main t obj) ∨
  (∃ mm, worker_spawn fpenv f x bytes asz copy main s = Ok (false, set_stack_mem mm s)).
Proof.
  unfold worker_spawn. rewrite (bind_ok _ _ _ _ _ init_done). cbn [negb].
  assert (set_stack_mem (stack_mem s) s = s) as Hid by (by destruct s).
  destruct (calloc_ok 1 SIZEOF_TASK); cbn [negb]; [|right; exists (stack_mem s); by rewrite Hid].
  rewrite (bind_ok _ _ s s s) by done.
  destruct (stack_made (configured_stack_size s) (maps s) Hpage Hfresh Hsize)
    as [-> | (a & -> & Ha1 & Ha2 & Ha3 & Ha4 & Ha5)].
  { right. exists (stack_mem s). rewrite Hid. cbn. by destruct s. }
  set (stk := a + get_page_size) in *. set (mp := <[a := _]> (maps s)).
  rewrite (bind_ok _ _ s tt (set_maps mp s)) by done. destruct (Z.eqb_spec stk 0); [done|].
  destruct (spawn_arg_run s stk (configured_stack_size s) a x bytes asz own Ha5 Ha1 Ha3 eq_refl Hbytes)
    as [Hrun|(p & bl & Hrun & Hp1 & Hbl & Hp2)]; fold mp in Hrun; rewrite (bind_ok _ _ _ _ _ Hrun).
  { right. exists (stack_mem s). by rewrite Hid. }
  cbn [set_maps configured_stack_size]. destruct (X86.create_context _ _ _ _ _) as [ctx mm].
  set (t := fresh (dom (heap s))).
  assert (heap s !! t = None) as Ht by (apply not_elem_of_dom, is_fresh).
  set (obj := mkTask ctx f p asz own stk (configured_stack_size s) (mkTaskSchedulerState TASK_RUNNABLE false main)
    (mkTaskIoWaitState (-1) CROUTINE_IO_EVENT_NONE false) false).
  set (s3 := set_stack_mem mm (set_heap (<[t := obj]> (heap s)) (set_blocks bl (set_maps mp s)))).
  rewrite (bind_ok _ _ _ tt s3) by done.
  assert (mapping_of obj = a) as Em by done.
  assert (rinv (heap s3) (maps s3) (blocks s3)) as HR3.
  { unfold s3. cbn [heap maps blocks set_heap set_blocks set_maps set_stack_mem]. rewrite Hbl. unfold mp.
    rewrite <-Em. change (configured_stack_size s) with (stack_size obj). change own with (owns_arg obj).
    apply (rinv_insert (heap s) (maps s) (blocks s) t obj); rewrite ?Em; try done. }
  assert (winv s3 l m) as HW3.
  { eapply (winv_fresh s s3 l m t obj); try done.
    pose proof (tasks_bounded _ _ _ Hpage HR3). cbn in *. lia. }
  destruct (submit_run s3 l m t obj main HW3 HR3 (lookup_insert_eq _ _ _) eq_refl eq_refl)
    as [(s' & Hsub & [J1 J2 J3 J4 J5 J6 J7] & S1 & S2 & S3)|[Hsub _]].
  - left. exists s', t, (set_queued true obj). split; [exact Hsub|]. destruct J3 as [J3 J3'].
    cbn [s3 heap maps blocks set_heap set_blocks set_maps set_stack_mem] in J2, J3, J3'.
    rewrite insert_insert_eq in J2. split; try done.
    + rewrite J3', Hbl. cbn. destruct own; [done|]. split; [done|by apply Hp2].
    + rewrite J2, J3, J3'. eapply rinv_same; [|exact HR3]. unfold s3. cbn. rewrite !fmap_insert. done.
  - right. exists mm. rewrite Hsub. f_equal. f_equal. unfold without, s3. cbn.
    fold (mapping_of obj). rewrite Em. unfold mp. rewrite !delete_insert_id by done. rewrite Hbl.
    destruct own; [rewrite delete_insert_id by (by apply Hp1)|]; by destruct s.
Qed.
End spawn.
End res.
