(* ===== verification/WorkerIo.v ===== *)
(** * Waiting for descriptors (src/worker.c)

    [worker_park_current_on_io], [wake_waiting_tasks_locked] and
    [worker_forget_fd] keep the scheduler's invariant: the table, the task
    states and the poller's registrations stay in agreement, on every
    branch. *)

From S2P Require Import Prelude Memory ArchX86 Task IoWait PollerApi Worker WorkerInv.

(** ** Which tasks an event wakes *)

Definition ready (ev bit : Z) : bool := negb (Z.land ev bit =? 0).

(** The specification: the reader if the descriptor is readable, the writer
    if it is writable, a task that is both once; who is not woken stays. *)
Definition woken (ev : Z) (v : option tid * option tid) : list tid :=
  remove_dups ((if ready ev CROUTINE_IO_EVENT_READ then option_list v.1 else []) ++
               (if ready ev CROUTINE_IO_EVENT_WRITE then option_list v.2 else [])).
Definition unless (ts : list tid) (o : option tid) : option tid :=
  match o with Some t => if decide (t ∈ ts) then None else Some t | None => None end.
Definition still (ts : list tid) (v : option tid * option tid) : option tid * option tid :=
  (unless ts v.1, unless ts v.2).

Lemma take_ready_spec ev e :
  take_ready ev e =
    let ts := woken ev (parked_of e) in
    (mkIoWaitEntry (fd e) (unless ts (read_task e)) (unless ts (write_task e)) (in_use e), ts).
Proof.
  destruct e as [d r w u]. unfold take_ready, io_wait_entry_clear_task, woken, unless.
  fold (ready ev CROUTINE_IO_EVENT_READ) (ready ev CROUTINE_IO_EVENT_WRITE).
  destruct r as [a|], w as [b|]; destruct (ready ev CROUTINE_IO_EVENT_READ),
    (ready ev CROUTINE_IO_EVENT_WRITE); cbn -[decide];
    repeat (case_decide; cbn -[decide]); set_solver.
Qed.

Lemma woken_in ev v t : t ∈ woken ev v → v.1 = Some t ∨ v.2 = Some t.
Proof.
  unfold woken. rewrite elem_of_remove_dups, elem_of_app.
  destruct (ready ev CROUTINE_IO_EVENT_READ), (ready ev CROUTINE_IO_EVENT_WRITE), v as [[] []];
    simpl; set_solver.
Qed.
Lemma unless_Some ts o t : unless ts o = Some t ↔ o = Some t ∧ t ∉ ts.
Proof. unfold unless. destruct o; [case_decide|]; naive_solver. Qed.

Section io.
Context `{Alloc, Os, Entry} {P : Type} `{PollerLaws P}.
Implicit Types (s : sched P) (t u : tid) (obj : Task) (l ts : list tid) (d ev : Z).
Implicit Types (m : gmap Z (option tid * option tid)) (h : gmap tid Task).

(** What waking makes of a task. *)
Definition io_awake (b : bool) obj : Task :=
  requeued (set_io_wait (λ w, mkTaskIoWaitState (io_fd w) (io_events w) b) obj).
Fixpoint wake_heap (b : bool) ts h : gmap tid Task :=
  match ts with [] => h | t :: ts => wake_heap b ts (alter (io_awake b) t h) end.

Lemma wake_heap_lookup b ts h u :
  NoDup ts → wake_heap b ts h !! u = (if decide (u ∈ ts) then io_awake b <$> h !! u else h !! u).
Proof.
  revert h. induction ts as [|t ts IH]; intros h Hnd; [done|]. apply NoDup_cons in Hnd as [Ht Hnd].
  simpl. rewrite IH by done. destruct (decide (u = t)) as [->|Hne].
  - rewrite (decide_False (P := t ∈ ts)) by done. by rewrite decide_True, lookup_alter_eq by set_solver.
  - rewrite lookup_alter_ne by done. repeat case_decide; set_solver.
Qed.
Lemma wake_heap_size b ts h : size (wake_heap b ts h) = size h.
Proof.
  revert h. induction ts as [|t ts IH]; intros h; [done|]. simpl. rewrite IH.
  by rewrite <-!size_dom, dom_alter_L.
Qed.

Lemma alter_insert_Some h t obj (f : Task → Task) : h !! t = Some obj → alter f t h = <[t := f obj]> h.
Proof.
  intros Ht. apply map_eq. intros u. destruct (decide (u = t)) as [->|].
  - by rewrite lookup_alter_eq, lookup_insert_eq, Ht.
  - by rewrite lookup_alter_ne, lookup_insert_ne.
Qed.

Lemma wake_io_tasks_run ts s l b :
  tq_inv (runnable_tasks s) (heap s) l → NoDup ts →
  (∀ t, t ∈ ts → is_Some (heap s !! t) ∧ t ∉ l) →
  calloc_grants → Z.of_nat (size (heap s)) < 2 ^ 60 →
  ∃ q', let h' := wake_heap b ts (heap s) in
    wake_io_tasks ts b s = Ok (tt, set_runnable_tasks q' (set_heap h' s)) ∧ tq_inv q' h' (l ++ ts).
Proof.
  revert s l. induction ts as [|t ts IH]; intros s l Hq Hnd Hts Hg Hsz.
  { exists (runnable_tasks s). rewrite app_nil_r. split; [by destruct s|done]. }
  apply NoDup_cons in Hnd as [Ht Hnd]. destruct (Hts t) as [[obj Hobj] Hl]; [by left|].
  simpl. rewrite (bind_ok _ _ _ _ _ (modify_task_run _ _ _ _ Hobj)). set (s1 := set_heap _ s).
  destruct (enqueue_run s1 l t (set_io_wait (λ w, mkTaskIoWaitState (io_fd w) (io_events w) b) obj))
    as (q1 & Hrun1 & Hq1); try done.
  { eapply tq_inv_update; done. }
  { apply lookup_insert_eq. }
  { unfold s1. simpl. rewrite map_size_insert_Some by eauto. done. }
  rewrite (bind_ok _ _ _ _ _ Hrun1). unfold s1 in *. cbn [heap set_heap] in *.
  rewrite insert_insert_eq in *. fold (io_awake b obj) in *. rewrite set_heap_twice in *.
  rewrite (alter_insert_Some _ _ obj) by done.
  destruct (IH (set_runnable_tasks q1 (set_heap (<[t := io_awake b obj]> (heap s)) s)) (l ++ [t]))
    as (q' & Hrun & Hq'); try done.
  { intros u Hu. destruct (Hts u) as [? ?]; [by right|]. split; [|set_solver].
    apply lookup_insert_is_Some'. by right. }
  { simpl. by rewrite map_size_insert_Some by eauto. }
  exists q'. rewrite <-app_assoc in Hq'. split; [exact Hrun|done].
Qed.

Lemma waits_on_wake b ts h t d :
  NoDup ts → waits_on (wake_heap b ts h) t d ↔ waits_on h t d ∧ t ∉ ts.
Proof.
  intros Hnd. unfold waits_on. rewrite wake_heap_lookup by done. case_decide as Ht.
  - split; [|naive_solver]. intros (obj & Ho & Hs & _).
    apply fmap_Some in Ho as (o & _ & ->). done.
  - naive_solver.
Qed.

(** The table without the woken tasks. *)
Definition rest_map m d (v : option tid * option tid) : gmap Z (option tid * option tid) :=
  match v with (None, None) => delete d m | _ => <[d := v]> m end.

Lemma rest_map_ne m d v d' : d' ≠ d → rest_map m d v !! d' = m !! d'.
Proof.
  intros Hne. destruct v as [[] []]; simpl; rewrite ?lookup_insert_ne, ?lookup_delete_ne; done.
Qed.
Lemma rest_map_eq m d v : rest_map m d v !! d = if decide (v = (None, None)) then None else Some v.
Proof.
  destruct v as [[] []]; unfold rest_map; rewrite ?lookup_insert_eq, ?lookup_delete_eq; by case_decide.
Qed.

Lemma winv_wake s s' l m d v ts b :
  winv s l m → m !! d = Some v → NoDup ts → (∀ t, t ∈ ts → v.1 = Some t ∨ v.2 = Some t) →
  heap s' = wake_heap b ts (heap s) → tq_inv (runnable_tasks s') (heap s') (l ++ ts) →
  it_rep (io_waits s') (rest_map m d (still ts v)) → poller_ready (poller s') →
  (∀ d', fd_valid (poller s') d' ↔ fd_valid (poller s) d') →
  interest (poller s') d = mask (Some (still ts v)) →
  (∀ d', d' ≠ d → interest (poller s') d' = interest (poller s) d') →
  winv s' (l ++ ts) (rest_map m d (still ts v)).
Proof.
  intros [I1 I2 I3 I4 I5 I6 I7 I8] Hd Hnd Hts Hh Hq Htb Hp Hv Hi Hi'.
  destruct v as [r w]. destruct (I7 d r w Hd) as (F1 & F2 & F3). simpl in Hts.
  assert (∀ t, t ∈ ts → waits_on (heap s) t d) as Hw by naive_solver.
  assert (∀ t d', waits_on (heap s) t d' → d' ≠ d → t ∉ ts) as Hother.
  { intros t d' (o & Ho & _ & E) Hne Ht. destruct (Hw t Ht) as (o' & Ho' & _ & E'). congruence. }
  split; try done; rewrite ?Hh.
  - by rewrite wake_heap_size.
  - intros u obj. rewrite wake_heap_lookup by done. case_decide as Hu.
    + intros (o & _ & ->)%fmap_Some _. done.
    + intros Ho [Hl|Hl]%elem_of_app; [by eapply I3|done].
  - intros d'. destruct (decide (d' = d)) as [->|Hne].
    + rewrite Hi, rest_map_eq. case_decide as E; [by rewrite E|done].
    + by rewrite Hi', rest_map_ne, I6.
  - intros d' r' w'. destruct (decide (d' = d)) as [->|Hne].
    + rewrite rest_map_eq. case_decide as E; [done|]. intros E'. apply (inj Some) in E'.
      rewrite E' in E. split_and!; [by apply Hv|done|]. injection E' as <- <-.
      intros t. rewrite !unless_Some. intros Ht. apply waits_on_wake; [done|]. naive_solver.
    + rewrite rest_map_ne by done. intros Hd'. destruct (I7 d' r' w' Hd') as (J1 & J2 & J3).
      split_and!; [by apply Hv|done|]. intros t Ht. apply waits_on_wake; [done|]. split; [by apply J3|].
      eapply Hother; [by apply J3|done].
  - intros t d'. rewrite waits_on_wake by done. intros [Ht Hn].
    destruct (I8 t d' Ht) as (r' & w' & Hm & Hrw). destruct (decide (d' = d)) as [->|Hne].
    + rewrite Hd in Hm. injection Hm as <- <-. rewrite rest_map_eq.
      assert (unless ts r = Some t ∨ unless ts w = Some t) as Hor by (rewrite !unless_Some; naive_solver).
      exists (unless ts r), (unless ts w). split; [|done].
      rewrite decide_False; [done|]. unfold still. simpl. intros [= E1 E2]. rewrite E1, E2 in Hor. naive_solver.
    + exists r', w'. by rewrite rest_map_ne.
Qed.

Lemma lift_ok {A} (o : outcome A) (a : A) s : o = Ok a → lift o s = Ok (a, s).
Proof. intros ->. done. Qed.

Lemma entry_events_mask e : io_wait_entry_events e = mask (Some (parked_of e)).
Proof. destruct e as [d [r|] [w|] u]; done. Qed.
Lemma mask_ok v : events_ok (mask v).
Proof. destruct v as [[[r|] [w|]]|]; vm_compute; by split. Qed.
Lemma mask_none v : mask (Some v) = CROUTINE_IO_EVENT_NONE ↔ v = (None, None).
Proof. destruct v as [[r|] [w|]]; done. Qed.

Definition broadcast (c : Z * Z) : Z * Z := (0, c.2 + c.1).
Lemma cond_broadcast_run s : ∃ s', cond_broadcast s = Ok (tt, s') ∧ heap s' = heap s ∧
  runnable_tasks s' = runnable_tasks s ∧ io_waits s' = io_waits s ∧ poller s' = poller s ∧
  rest s' = rest s ∧ cv s' = broadcast (cv s).
Proof. by eexists. Qed.

(** The entry of [d] is replaced by the one without the woken tasks. *)
Lemma table_rest tb m d i e e' :
  it_rep tb m → entries tb !! Z.to_nat i = Some e → in_use e = true → fd e = d →
  in_use e' = true → fd e' = d →
  ∃ tb1 tb2, io_wait_entry_update tb i (λ _, e') = Ok tb1 ∧
    (if io_wait_entry_events e' =? CROUTINE_IO_EVENT_NONE
     then io_wait_table_remove_entry tb1 (Some i) else Ok tb1) = Ok tb2 ∧
    it_rep tb2 (rest_map m d (parked_of e')).
Proof.
  intros Hrep He Hu Hd Hu' Hd'.
  pose proof (update_rep _ _ _ _ e' Hrep He Hu Hu' (eq_trans Hd' (eq_sym Hd))) as Hrep1.
  unfold io_wait_entry_update. rewrite (entry_get_ok _ _ _ He). cbn [mbind outcome_bind].
  rewrite entry_set_ok by (by eapply lookup_lt_Some). cbn [mbind outcome_bind].
  eexists. rewrite entry_events_mask, Hd in *.
  destruct (Z.eqb_spec (mask (Some (parked_of e'))) CROUTINE_IO_EVENT_NONE) as [E|E].
  - edestruct (remove_spec _ _ i e' Hrep1) as (tb2 & Hrm & Hrep2 & _); [|done|].
    { simpl. apply list_lookup_insert_eq. by eapply lookup_lt_Some. }
    exists tb2. split; [done|]. split; [done|]. apply mask_none in E. rewrite E in *. simpl.
    rewrite Hd', delete_insert_eq in Hrep2. done.
  - eexists. split; [done|]. split; [done|]. rewrite mask_none in E.
    by destruct (parked_of e') as [[r|] [w|]].
Qed.

Lemma set_poller_fields p s : heap (set_poller p s) = heap s ∧
  runnable_tasks (set_poller p s) = runnable_tasks s ∧ io_waits (set_poller p s) = io_waits s.
Proof. done. Qed.

(** What [wake_waiting_tasks_locked] leaves alone. *)
Definition io_frame s s' : Prop := rest s' = rest s.

Lemma wake_waiting_none s l m d ev b :
  winv s l m → m !! d = None → wake_waiting_tasks_locked d ev b s = Ok (0, s).
Proof.
  intros HI Hd. unfold wake_waiting_tasks_locked.
  rewrite (bind_ok _ _ s (io_waits s) s) by done.
  destruct (find_spec (io_waits s) m d (wi_table _ _ _ HI)) as (r & Hf & Hr).
  rewrite (bind_ok _ _ _ _ _ (lift_ok _ _ _ Hf)). destruct r as [i|]; [|done].
  destruct Hr as (_ & e & _ & _ & _ & E). congruence.
Qed.

Lemma wake_waiting_run s l m d ev b v :
  winv s l m → calloc_grants → m !! d = Some v →
  let ts := woken ev v in
  ∃ ok p', poller_set d (mask (Some v)) (mask (Some (still ts v))) (poller s) = Ok (ok, p') ∧
  if ok then ∃ s', wake_waiting_tasks_locked d ev b s = Ok (Z.of_nat (length ts), s') ∧
      winv s' (l ++ ts) (rest_map m d (still ts v)) ∧ heap s' = wake_heap b ts (heap s) ∧
      io_frame s s' ∧ (wake_pending (poller s) → wake_pending (poller s')) ∧
      cv s' = (if decide (ts = []) then cv s else broadcast (cv s))
  else wake_waiting_tasks_locked d ev b s = Abort "Failed to update poller interest while waking task".
Proof.
  intros HI Hg Hd ts. pose proof HI as [I1 I2 I3 I4 I5 I6 I7 I8].
  destruct v as [r w]. destruct (I7 d r w Hd) as (F1 & F2 & F3).
  unfold wake_waiting_tasks_locked. rewrite (bind_ok _ _ s (io_waits s) s) by done.
  destruct (find_spec (io_waits s) m d I4) as (i & Hf & Hi).
  rewrite (bind_ok _ _ _ _ _ (lift_ok _ _ _ Hf)). destruct i as [i|]; [|congruence].
  destruct Hi as (Hi & e & He & Hu & Hfd & Hm). rewrite Hd in Hm. apply (inj Some) in Hm.
  rewrite (bind_ok _ _ _ _ _ (lift_ok _ _ _ (entry_get_ok _ _ _ He))).
  rewrite take_ready_spec, <-Hm. cbn zeta. fold ts. set (e' := mkIoWaitEntry _ _ _ _).
  assert (parked_of e' = still ts (r, w)) as Hp by (rewrite Hm; done).
  destruct (table_rest (io_waits s) m d i e e') as (tb1 & tb2 & Htb1 & Htb2 & Hrep); try done.
  rewrite (bind_ok _ _ _ _ _ (lift_ok _ _ _ Htb1)), (bind_ok _ _ s tt (set_io_waits tb1 s)) by done.
  unfold update_poller_interest_locked.
  rewrite !(entry_events_mask e), (entry_events_mask e'), Hp, <-Hm.
  set (s1 := set_io_waits tb1 s).
  destruct (poller_set_law d (mask (Some (r, w))) (mask (Some (still ts (r, w)))) _ I5 F1
    (mask_ok _) (mask_ok _) (eq_trans (I6 d) (f_equal mask Hd))) as (ok & p' & Eset & Hp1 & Hpv & Hp3 & Hp4 & Hp2).
  exists ok, p'. split; [done|].
  rewrite (bind_ok _ _ s1 _ _ (on_poller_run _ s1 _ _ Eset)). destruct ok; [|done].
  rewrite entry_events_mask, Hp in Htb2. cbn [negb].
  rewrite (bind_ok _ _ _ tt (set_io_waits tb2 (set_poller p' s1))).
  2: { case_bool; [|by injection Htb2 as ->]. by rewrite (bind_ok _ _ _ _ _ (lift_ok _ _ _ Htb2)). }
  set (s2 := set_io_waits tb2 (set_poller p' s1)).
  assert (∀ t, t ∈ ts → r = Some t ∨ w = Some t) as Hts by (intros t; apply (woken_in ev (r, w))).
  assert (NoDup ts) as Hnd by apply NoDup_remove_dups.
  destruct (wake_io_tasks_run ts s2 l b) as (q' & Hwake & Hq'); try done.
  { intros t Ht. destruct (F3 t (Hts t Ht)) as (o & Ho & Hs & _). split; [by eauto|].
    intros Hin. specialize (I3 t o Ho Hin). congruence. }
  rewrite (bind_ok _ _ _ _ _ Hwake). set (s3 := set_runnable_tasks q' _).
  assert (winv s3 (l ++ ts) (rest_map m d (still ts (r, w)))) as HI3.
  { eapply (winv_wake s s3 l m d (r, w)); try done. by rewrite <-Hp. }
  destruct (Nat.ltb_spec 0 (length ts)) as [Hlt|Hge].
  - destruct (cond_broadcast_run s3) as (s4 & Hs4 & E1 & E2 & E3 & E4 & E5 & E6).
    rewrite (bind_ok _ _ _ _ _ Hs4). exists s4. split; [done|]. split_and!; try done.
    + eapply winv_ext; [..|exact HI3]; by rewrite ?E4.
    + rewrite E4. exact Hp4.
    + rewrite decide_False; [by rewrite E6|]. intros ->. simpl in Hlt. lia.
  - rewrite (bind_ok _ _ s3 tt s3) by done. exists s3. split_and!; try done.
    rewrite decide_True; [done|]. destruct ts; [done|simpl in *; lia].
Qed.

(** ** Parking *)

(** The events of the public calls: [croutine_io_wait_readable] and
    [croutine_io_wait_writable]. *)
Definition one_event ev : Prop := ev = CROUTINE_IO_EVENT_READ ∨ ev = CROUTINE_IO_EVENT_WRITE.
(** The slot of an entry that belongs to the event, and the pair with the
    task entered there. *)
Definition taken ev (v : option tid * option tid) : bool :=
  bool_decide (is_Some (if ready ev CROUTINE_IO_EVENT_READ then v.1 else v.2)).
Definition joins ev t (v : option tid * option tid) : option tid * option tid :=
  if ready ev CROUTINE_IO_EVENT_READ then (Some t, v.2) else (v.1, Some t).

Definition parked_io d ev obj : Task :=
  set_io_wait (λ _, mkTaskIoWaitState d ev false) (set_state TASK_WAITING_IO obj).

Lemma waits_on_park h t obj obj' u d d' :
  h !! t = Some obj → state (scheduler obj) ≠ TASK_WAITING_IO →
  state (scheduler obj') = TASK_WAITING_IO → io_fd (io_wait obj') = d →
  waits_on (<[t := obj']> h) u d' ↔ waits_on h u d' ∨ (u = t ∧ d' = d).
Proof.
  intros Ht Hs Hs' Hd. unfold waits_on. destruct (decide (u = t)) as [->|Hne].
  - rewrite lookup_insert_eq, Ht. naive_solver.
  - rewrite lookup_insert_ne by done. naive_solver.
Qed.

Lemma joins_in ev t v u : (joins ev t v).1 = Some u ∨ (joins ev t v).2 = Some u →
  v.1 = Some u ∨ v.2 = Some u ∨ u = t.
Proof. unfold joins. destruct (ready ev CROUTINE_IO_EVENT_READ); naive_solver. Qed.
Lemma joins_old ev t v u : taken ev v = false → v.1 = Some u ∨ v.2 = Some u →
  (joins ev t v).1 = Some u ∨ (joins ev t v).2 = Some u.
Proof.
  unfold taken, joins. rewrite bool_decide_eq_false.
  destruct (ready ev CROUTINE_IO_EVENT_READ); simpl; intros Hn [E|E]; auto; by rewrite E in Hn; destruct Hn.
Qed.
Lemma joins_new ev t v : (joins ev t v).1 = Some t ∨ (joins ev t v).2 = Some t.
Proof. unfold joins. destruct (ready ev CROUTINE_IO_EVENT_READ); auto. Qed.

(** The mask grows by exactly the event. *)
Lemma joins_mask ev t v : one_event ev → taken ev v = false →
  mask (Some (joins ev t v)) = Z.lor (mask (Some v)) ev ∧ adds_one (mask (Some v)) (Z.lor (mask (Some v)) ev).
Proof.
  intros Hev Ht. split.
  - destruct Hev as [-> | ->], v as [[r|] [w|]]; done.
  - exists ev. split; [done|]. split; [|done]. destruct Hev as [-> | ->], v as [[r|] [w|]]; done.
Qed.

Lemma winv_park s s' l m d ev t obj :
  winv s l m → heap s !! t = Some obj → state (scheduler obj) = TASK_RUNNABLE →
  queued (scheduler obj) = false → fd_valid (poller s) d → one_event ev →
  let v := default (None, None) (m !! d) in
  taken ev v = false →
  heap s' = <[t := parked_io d ev obj]> (heap s) → runnable_tasks s' = runnable_tasks s →
  it_rep (io_waits s') (<[d := joins ev t v]> m) → poller_ready (poller s') →
  (∀ d', fd_valid (poller s') d' ↔ fd_valid (poller s) d') →
  interest (poller s') d = mask (Some (joins ev t v)) →
  (∀ d', d' ≠ d → interest (poller s') d' = interest (poller s) d') →
  winv s' l (<[d := joins ev t v]> m).
Proof.
  intros [I1 I2 I3 I4 I5 I6 I7 I8] Ht Hs Hq Hd Hev v Htk Hh Hr Htb Hp Hval Hi Hi'.
  assert (∀ u, v.1 = Some u ∨ v.2 = Some u → waits_on (heap s) u d) as Hv.
  { unfold v. destruct (m !! d) as [[r w]|] eqn:E; [apply (I7 d r w E)|naive_solver]. }
  assert (t ∉ l) as Hl by (intros Hin; apply (inv_flag _ _ _ I1 t obj Ht) in Hin; congruence).
  assert (∀ u d', waits_on (heap s') u d' ↔ waits_on (heap s) u d' ∨ (u = t ∧ d' = d)) as Hw.
  { intros u d'. rewrite Hh. apply waits_on_park with obj; try done. by rewrite Hs. }
  split; try done; rewrite ?Hh, ?Hr.
  - by eapply tq_inv_update.
  - by rewrite map_size_insert_Some by eauto.
  - intros u o. rewrite lookup_insert_Some. intros [[<- <-]|[_ Ho]]; [done|by apply I3].
  - intros d'. destruct (decide (d' = d)) as [->|Hne].
    + by rewrite lookup_insert_eq.
    + by rewrite lookup_insert_ne, Hi'.
  - rewrite <-Hh. intros d' r w. destruct (decide (d' = d)) as [->|Hne].
    + rewrite lookup_insert_eq. intros E. apply (inj Some) in E. split; [by apply Hval|]. split.
      * rewrite <-E. intros E'. destruct (joins_new ev t v) as [E1|E1]; rewrite E' in E1; done.
      * intros u Hu. apply Hw. change r with (r, w).1 in Hu. change w with (r, w).2 in Hu at 2.
        rewrite <-E in Hu. destruct (joins_in ev t v u Hu) as [?|[?| ->]]; naive_solver.
    + rewrite lookup_insert_ne by done. intros Hm. destruct (I7 d' r w Hm) as (J1 & J2 & J3).
      split_and!; [by apply Hval|done|]. intros u Hu. apply Hw. left. by apply J3.
  - rewrite <-Hh. intros u d'. rewrite Hw. intros [Hu|[-> ->]].
    + destruct (I8 u d' Hu) as (r & w & Hm & Hrw). destruct (decide (d' = d)) as [->|Hne].
      * exists (joins ev t v).1, (joins ev t v).2. rewrite lookup_insert_eq. split; [by destruct (joins ev t v)|].
        apply joins_old; [done|]. unfold v. by rewrite Hm.
      * exists r, w. by rewrite lookup_insert_ne.
    + exists (joins ev t v).1, (joins ev t v).2. rewrite lookup_insert_eq.
      split; [by destruct (joins ev t v)|apply joins_new].
Qed.

(** The two slot tests of [worker_park_current_on_io], for a single event. *)
Lemma taken_tests ev e : one_event ev →
  (negb (Z.land ev CROUTINE_IO_EVENT_READ =? 0) && bool_decide (is_Some (read_task e)))
  || (negb (Z.land ev CROUTINE_IO_EVENT_WRITE =? 0) && bool_decide (is_Some (write_task e)))
  = taken ev (parked_of e).
Proof. intros [-> | ->]; unfold taken; simpl; by rewrite ?orb_false_r. Qed.

Lemma joined_entry ev t e : one_event ev →
  let e1 := if negb (Z.land ev CROUTINE_IO_EVENT_READ =? 0)
            then mkIoWaitEntry (fd e) (Some t) (write_task e) (in_use e) else e in
  let e2 := if negb (Z.land ev CROUTINE_IO_EVENT_WRITE =? 0)
            then mkIoWaitEntry (fd e1) (read_task e1) (Some t) (in_use e1) else e1 in
  parked_of e2 = joins ev t (parked_of e) ∧ fd e2 = fd e ∧ in_use e2 = in_use e.
Proof. by intros [-> | ->]. Qed.

(** The entry for [d] in the table after [io_wait_table_get_or_insert]: an
    existing one, or a fresh empty one. *)
Lemma found_parked m d e v :
  v = default (None, None) (m !! d) →
  m !! d = Some (parked_of e) ∨ (m !! d = None ∧ parked_of e = (None, None)) → parked_of e = v.
Proof. intros -> [E|[E ->]]; by rewrite E. Qed.

Lemma set_io_waits_id s : set_io_waits (io_waits s) s = s.
Proof. by destruct s. Qed.

Definition io_table_full s : Prop :=
  calloc_ok (if it_capacity (io_waits s) =? 0 then 1 else 2 * it_capacity (io_waits s)) 32 = false.

(** A refused park leaves the table as a map unchanged. *)
Lemma table_unpark tb m d i e :
  it_rep tb (<[d := parked_of e]> m) → entries tb !! Z.to_nat i = Some e → in_use e = true → fd e = d →
  m !! d = Some (parked_of e) ∨ (m !! d = None ∧ parked_of e = (None, None)) →
  (∀ v, m !! d = Some v → v ≠ (None, None)) →
  ∃ tb', (if (mask (Some (parked_of e)) =? CROUTINE_IO_EVENT_NONE) &&
             (mask (Some (parked_of e)) =? CROUTINE_IO_EVENT_NONE)
          then io_wait_table_remove_entry tb (Some i) else Ok tb) = Ok tb' ∧ it_rep tb' m.
Proof.
  intros Hrep He Hu Hd Hor Hne. rewrite andb_diag.
  destruct (Z.eqb_spec (mask (Some (parked_of e))) CROUTINE_IO_EVENT_NONE) as [E|E]; rewrite mask_none in E.
  - destruct (remove_spec _ _ i e Hrep He Hu) as (tb' & Hrm & Hrep' & _). exists tb'. split; [done|].
    rewrite Hd, delete_insert_eq in Hrep'. destruct Hor as [Em|[Em _]]; [by destruct (Hne _ Em)|].
    by rewrite delete_id in Hrep'.
  - exists tb. split; [done|]. destruct Hor as [Em|[_ Em]]; [|done]. by rewrite insert_id in Hrep.
Qed.

Lemma park_io_run s l m t obj d ev :
  winv s l m → heap s !! t = Some obj → state (scheduler obj) = TASK_RUNNABLE →
  queued (scheduler obj) = false → shutdown_requested s = false → fd_valid (poller s) d → one_event ev →
  let v := default (None, None) (m !! d) in
  let park := worker_park_current_on_io (Some t) d ev s in
  (m !! d = None ∧ io_table_full s ∧ park = Ok (false, s)) ∨
  if taken ev v then park = Ok (false, s) else
  ∃ ok p', poller_set d (mask (Some v)) (mask (Some (joins ev t v))) (poller s) = Ok (ok, p') ∧
  if ok then ∃ s', park = Ok (true, s') ∧ winv s' l (<[d := joins ev t v]> m) ∧
      heap s' = <[t := parked_io d ev obj]> (heap s) ∧ io_frame s s' ∧ cv s' = cv s ∧
      (wake_pending (poller s) → wake_pending (poller s'))
  else ∃ s', park = Ok (false, s') ∧ winv s' l m ∧ heap s' = heap s ∧ io_frame s s' ∧ cv s' = cv s ∧
      (wake_pending (poller s) → wake_pending (poller s')).
Proof.
  intros HI Ht Hs Hq Hsd Hd Hev v park. pose proof HI as [I1 I2 I3 I4 I5 I6 I7 I8].
  unfold park, worker_park_current_on_io.
  destruct (Z.eqb_spec ev CROUTINE_IO_EVENT_NONE) as [E|_]; [by destruct Hev; simplify_eq|].
  rewrite (bind_ok _ _ s false s) by (unfold gets; by rewrite Hsd). cbn iota.
  rewrite (bind_ok _ _ s (io_waits s) s) by done.
  destruct (get_or_insert_spec (io_waits s) m d I4) as (r & tb & Hgi & Hr).
  rewrite (bind_ok _ _ _ _ _ (lift_ok _ _ _ Hgi)). cbn iota beta.
  rewrite (bind_ok _ _ s tt (set_io_waits tb s)) by done.
  destruct r as [i|]; [|destruct Hr as (-> & Hm & Hc); left; by rewrite set_io_waits_id].
  destruct Hr as (Hi & e & He & Hu & Hfd & Hrep & Hor). right.
  rewrite (bind_ok _ _ _ _ _ (lift_ok _ _ _ (entry_get_ok _ _ _ He))).
  assert (parked_of e = v) as Ev by (by eapply found_parked).
  rewrite taken_tests, Ev by done. destruct (taken ev v) eqn:Etk.
  { destruct Hor as [Em|[_ Em]]; [|by rewrite <-Ev, Em in Etk; destruct Hev as [-> | ->]].
    destruct (find_spec (io_waits s) m d I4) as (j & Hf & Hj).
    revert Hgi. unfold io_wait_table_get_or_insert. rewrite Hf. cbn [mbind outcome_bind].
    destruct j as [j|]; [|congruence]. intros [= _ <-]. by rewrite set_io_waits_id. }
  rewrite !(entry_events_mask e), Ev. destruct (joins_mask ev t v Hev Etk) as [Ej Hadd]. rewrite <-Ej.
  unfold update_poller_interest_locked. set (s1 := set_io_waits tb s).
  assert (interest (poller s) d = mask (Some v)) as Hint.
  { rewrite I6. unfold v. by destruct (m !! d). }
  destruct (poller_set_law d _ (mask (Some (joins ev t v))) _ I5 Hd (mask_ok _) (mask_ok _) Hint)
    as (ok & p' & Eset & Hp1 & Hpv & Hp3 & Hp4 & Hp2).
  exists ok, p'. split; [done|].
  rewrite (bind_ok _ _ s1 _ _ (on_poller_run _ s1 _ _ Eset)). destruct ok; cbn [negb].
  - pose proof (joined_entry ev t e Hev) as Hje. cbn zeta in *.
    set (e1 := if negb (Z.land ev CROUTINE_IO_EVENT_READ =? 0)
               then mkIoWaitEntry (fd e) (Some t) (write_task e) (in_use e) else e) in *.
    set (e2 := if negb (Z.land ev CROUTINE_IO_EVENT_WRITE =? 0)
               then mkIoWaitEntry (fd e1) (read_task e1) (Some t) (in_use e1) else e1) in *.
    destruct Hje as (Ee & Ef & Eu).
    assert (io_wait_entry_update tb i (λ _, e2) =
      Ok (mkIoWaitTable (<[Z.to_nat i := e2]> (entries tb)) (it_capacity tb) (it_count tb))) as Hupd.
    { unfold io_wait_entry_update. rewrite (entry_get_ok _ _ _ He). cbn [mbind outcome_bind].
      by rewrite entry_set_ok by (by eapply lookup_lt_Some). }
    pose proof (update_rep _ _ _ _ e2 Hrep He Hu (eq_trans Eu Hu) Ef) as Hrep2.
    rewrite Ee, Ev, Hfd, insert_insert_eq in Hrep2.
    rewrite (bind_ok _ _ _ _ _ (lift_ok _ _ _ Hupd)). cbv beta.
    erewrite bind_ok by done. erewrite bind_ok by (by apply modify_task_run).
    erewrite bind_ok by (apply modify_task_run, lookup_insert_eq).
    cbn [heap set_heap]. rewrite insert_insert_eq. eexists. split; [done|]. split; [|done].
    by eapply winv_park.
  - rewrite <-Ej in Hadd. specialize (Hp2 Hadd).
    destruct (table_unpark tb m d i e) as (tb' & Htb' & Hrep'); try done.
    { intros [r w] Em. apply (I7 d r w Em). }
    rewrite Ev in Htb'. exists (set_io_waits tb' (set_poller p' s1)). split.
    + erewrite bind_ok; [done|]. destruct (_ && _); [|by injection Htb' as ->].
      by rewrite (bind_ok _ _ _ _ _ (lift_ok _ _ _ Htb')).
    + split; [|done]. split; try done.
      * intros d'. simpl. rewrite <-I6. destruct (decide (d' = d)) as [->|Hne]; [congruence|by apply Hp3].
      * intros d' r w Em. simpl. rewrite Hpv. by apply I7.
Qed.

(** ** Forgetting a descriptor *)

Definition RW : Z := Z.lor CROUTINE_IO_EVENT_READ CROUTINE_IO_EVENT_WRITE.
Lemma forget_all v : still (woken RW v) v = (None, None).
Proof.
  assert (∀ o t, v.1 = o ∨ v.2 = o → o = Some t → t ∈ woken RW v) as Hin.
  { intros o t Ho ->. unfold woken. rewrite elem_of_remove_dups, elem_of_app. simpl.
    destruct v as [r w]; simpl in *; destruct Ho as [-> | ->]; set_solver. }
  unfold still, unless. destruct v as [[r|] [w|]]; cbn [fst snd];
    cbn match; repeat (rewrite decide_True by (eapply Hin; [|done]; auto)); done.
Qed.

Lemma forget_run s l m d :
  winv s l m → calloc_grants → 0 ≤ d →
  let ts := woken RW (default (None, None) (m !! d)) in
  (∃ s', worker_forget_fd d s = Ok (tt, s') ∧ winv s' (l ++ ts) (delete d m) ∧
     heap s' = wake_heap false ts (heap s) ∧ io_frame s s' ∧
     cv s' = (if decide (ts = []) then cv s else broadcast (cv s)) ∧
     (wake_pending (poller s) → wake_pending (poller s')) ∧
     (wake_reliable → ts ≠ [] → poller_waiter_active s = true → wake_pending (poller s'))) ∨
  worker_forget_fd d s = Abort "Failed to update poller interest while waking task" ∧
  ∃ v p', m !! d = Some v ∧
    poller_set d (mask (Some v)) CROUTINE_IO_EVENT_NONE (poller s) = Ok (false, p').
Proof.
  intros HI Hg Hd ts. unfold worker_forget_fd. destruct (Z.ltb_spec d 0); [lia|]. fold RW.
  destruct (m !! d) as [v|] eqn:Em; simpl in ts.
  - destruct (wake_waiting_run s l m d RW false v HI Hg Em) as (ok & p' & Eset & Hrun).
    rewrite forget_all in Eset, Hrun. destruct ok.
    + left. destruct Hrun as (s1 & Hs1 & HI1 & Hh & Hf & Hpend & Hcv). rewrite (bind_ok _ _ _ _ _ Hs1).
      rewrite (bind_ok _ _ s1 (poller_waiter_active s1) s1) by done.
      destruct (rest_active _ _ Hf) as [Ea _]. destruct (_ && _) eqn:Ew.
      * destruct (poller_wake_run s1 (wi_poller _ _ _ HI1)) as (b & p1 & Hw & Hp1 & Hp2 & Hp3 & Hp4 & Hp5).
        rewrite (bind_ok _ _ _ _ _ Hw). eexists. split; [done|]. split_and!; try done.
        -- eapply winv_ext; [..|exact HI1]; done.
        -- intros Hpe. by apply Hp4, Hpend.
        -- intros Hrel _ _. eapply wake_reliable_run; [done|apply HI1|done..].
      * exists s1. split_and!; try done. intros _ Hne Hact. exfalso. revert Ew. rewrite Ea, Hact, andb_true_r.
        fold ts. case_bool; [done|]. intros _. apply Hne, nil_length_inv. lia.
    + right. split; [|by exists v, p']. unfold mbind, M_bind. by rewrite Hrun.
  - left. exists s. rewrite (bind_ok _ _ _ _ _ (wake_waiting_none s l m d RW false HI Em)).
    split; [done|]. rewrite app_nil_r, delete_id by done. by split_and!.
Qed.
End io.
