(* ===== verification/Io.v ===== *)
(** * Blocking-style I/O for tasks (src/io.c, the wrappers of src/runtime.c)

    [croutine_read], [croutine_write] and [croutine_accept] repeat a
    non-blocking call: an interruption is repeated at once, and a call that
    would block parks the task until the descriptor is ready.  The world [W]
    holds the kernel and the other tasks, which run while this one is parked;
    parking is [wait_io], whose two halves, before and after the switch, are
    [worker_park_current_on_io] and [worker_resume_from_io] of Worker.v. *)

From S2P Require Import Prelude Posix Task Worker.

Definition O_NONBLOCK : Z := 0x800.

(** [patience] bounds how often [fcntl] is interrupted from now on. *)
Class IoWorld (W : Type) := {
  read : Z → Z → syscall W Z;
  write : Z → Z → syscall W Z;
  accept : Z → syscall W Z;
  fcntl_getfl : Z → syscall W Z;
  fcntl_setfl : Z → Z → syscall W Z;
  close : Z → W → W;
  wait_io : Z → Z → W → croutine_io_wait_result * W;
  patience : W → nat
}.

Definition wait_errno (wait : croutine_io_wait_result) : errno :=
  match wait with CROUTINE_IO_WAIT_CLOSED => ECANCELED | _ => ENOTSUP end.

(** ** The loop *)

Section loop.
Context {W A : Type} (call : syscall W A) (wait : W → croutine_io_wait_result * W).

(** One iteration: the loop goes on ([inl]) or the function returns. *)
Definition attempt (w : W) : W + sysres A * W :=
  let '(r, w) := call w in
  match r with
  | Done a => inr (Done a, w)
  | Fails EINTR => inl w
  | Fails EAGAIN | Fails EWOULDBLOCK =>
      let '(x, w) := wait w in
      match x with
      | CROUTINE_IO_WAIT_READY => inl w
      | x => inr (Fails (wait_errno x), w)
      end
  | Fails e => inr (Fails e, w)
  end.
Fixpoint io_loop (fuel : nat) (w : W) : outcome (sysres A * W) :=
  match fuel with
  | O => OutOfFuel
  | S fuel => match attempt w with inl w => io_loop fuel w | inr r => Ok r end
  end.
End loop.

(** ** The functions *)

Section io.
Context {W : Type} `{IoWorld W}.

Definition croutine_io_wait_readable (fd : Z) : W → croutine_io_wait_result * W :=
  wait_io fd CROUTINE_IO_EVENT_READ.
Definition croutine_io_wait_writable (fd : Z) : W → croutine_io_wait_result * W :=
  wait_io fd CROUTINE_IO_EVENT_WRITE.

Definition croutine_fd_set_nonblocking (fd : Z) (w : W) : outcome (sysres Z * W) :=
  '(flags, w) ← retry_call (S (patience w)) (fcntl_getfl fd) w;
  match flags with
  | Fails e => Ok (Fails e, w)
  | Done flags =>
      if negb (Z.land flags O_NONBLOCK =? 0) then Ok (Done 0, w)
      else retry_call (S (patience w)) (fcntl_setfl fd (Z.lor flags O_NONBLOCK)) w
  end.

Definition croutine_read (fuel : nat) (fd count : Z) : W → outcome (sysres Z * W) :=
  io_loop (read fd count) (croutine_io_wait_readable fd) fuel.
Definition croutine_write (fuel : nat) (fd count : Z) : W → outcome (sysres Z * W) :=
  io_loop (write fd count) (croutine_io_wait_writable fd) fuel.

(** The peer's address is stored by [accept] itself.  A descriptor whose
    F_SETFL succeeded with anything but 0 would be closed with an [errno]
    that was not set. *)
Definition croutine_accept (fuel : nat) (fd : Z) (w : W) : outcome (sysres Z * W) :=
  '(accepted, w) ← io_loop (accept fd) (croutine_io_wait_readable fd) fuel w;
  match accepted with
  | Fails e => Ok (Fails e, w)
  | Done accepted =>
      '(ok, w) ← croutine_fd_set_nonblocking accepted w;
      match ok with
      | Done 0 => Ok (Done accepted, w)
      | Done _ => Stuck
      | Fails error => Ok (Fails error, close accepted w)
      end
  end.
End io.

(** ** What the loop computes *)

Section spec.
Context {W A : Type} (call : syscall W A) (wait : W → croutine_io_wait_result * W).

Definition would_block (e : errno) : Prop := e = EAGAIN ∨ e = EWOULDBLOCK.

(** The result of a call that is repeated over interruptions and waits. *)
Inductive io_run : W → sysres A → W → Prop :=
| io_done w a w' : call w = (Done a, w') → io_run w (Done a) w'
| io_fails w e w' : call w = (Fails e, w') → e ≠ EINTR → ¬ would_block e → io_run w (Fails e) w'
| io_interrupted w w1 r w' : call w = (Fails EINTR, w1) → io_run w1 r w' → io_run w r w'
| io_ready w e w1 w2 r w' : call w = (Fails e, w1) → would_block e →
    wait w1 = (CROUTINE_IO_WAIT_READY, w2) → io_run w2 r w' → io_run w r w'
| io_refused w e w1 x w' : call w = (Fails e, w1) → would_block e →
    wait w1 = (x, w') → x ≠ CROUTINE_IO_WAIT_READY → io_run w (Fails (wait_errno x)) w'.

Lemma attempt_run w :
  match attempt call wait w with
  | inl w1 => ∀ r w', io_run w1 r w' → io_run w r w'
  | inr (r, w') => io_run w r w'
  end.
Proof.
  unfold attempt. destruct (call w) as [[a|e] w1] eqn:Ec; [by eapply io_done|].
  destruct (decide (would_block e)) as [Hb|Hb].
  - destruct (wait w1) as [x w2] eqn:Ew.
    destruct Hb as [-> | ->]; destruct x; try (by eapply io_refused; [done|red; auto|done|done]);
      intros r w' Hr; (eapply io_ready; [done|red; auto|done|done]).
  - unfold would_block in Hb. destruct e; try (by eapply io_fails); [|naive_solver..].
    intros r w' Hr. by eapply io_interrupted.
Qed.

(** The loop returns exactly the results of [io_run]. *)
Lemma io_loop_run w r w' : io_run w r w' ↔ ∃ fuel, io_loop call wait fuel w = Ok (r, w').
Proof.
  split.
  - induction 1 as [w a w' E|w e w' E Hi Hb|w w1 r w' E Hr [n IH]|w e w1 w2 r w' E Hb Ew Hr [n IH]|w e w1 x w' E Hb Ew Hx].
    + exists 1%nat. cbn. unfold attempt. by rewrite E.
    + exists 1%nat. cbn. unfold attempt. rewrite E. unfold would_block in Hb. destruct e; naive_solver.
    + exists (S n). cbn. unfold attempt. by rewrite E.
    + exists (S n). cbn. unfold attempt. rewrite E, Ew. by destruct Hb as [-> | ->].
    + exists 1%nat. cbn. unfold attempt. rewrite E, Ew. by destruct Hb as [-> | ->], x.
  - intros [fuel E]. revert w E. induction fuel as [|fuel IH]; intros w E; [done|]. cbn in E.
    pose proof (attempt_run w) as Ha. destruct (attempt call wait w) as [w1|[r1 w1]]; [by apply Ha, IH|].
    by injection E as -> ->.
Qed.

(** The kernel does not go on for ever: whenever it interrupts the call, and
    whenever it says that the call would block and a wait then reports that
    the descriptor is ready, something of which there is only so much in the
    world is used up.  Nothing is said of the other answers. *)
Record settles (left_over : W → nat) : Prop := {
  settles_interrupted : ∀ v v', call v = (Fails EINTR, v') → (left_over v' < left_over v)%nat;
  settles_ready : ∀ v e v1 v', call v = (Fails e, v1) → would_block e →
    wait v1 = (CROUTINE_IO_WAIT_READY, v') → (left_over v' < left_over v)%nat
}.

Lemma attempt_uses left_over v v' : settles left_over →
  attempt call wait v = inl v' → (left_over v' < left_over v)%nat.
Proof.
  intros [Hi Hr]. unfold attempt. destruct (call v) as [[a|e] v1] eqn:Ec; [done|].
  destruct (wait v1) as [x v2] eqn:Ew.
  destruct e; try done; [intros [= <-]; by apply Hi|..];
    destruct x; try done; intros [= <-]; (eapply Hr; [done|by (left + right)|done]).
Qed.
Lemma io_loop_ends left_over fuel w : settles left_over →
  (left_over w < fuel)%nat → ∃ r w', io_loop call wait fuel w = Ok (r, w') ∧ io_run w r w'.
Proof.
  intros Hs Hf. cut (∃ r w', io_loop call wait fuel w = Ok (r, w')).
  { intros (r & w' & E). exists r, w'. split; [done|]. apply io_loop_run. by exists fuel. }
  revert w Hf. induction fuel as [|fuel IH]; intros w Hf; [lia|]. cbn.
  destruct (attempt call wait w) as [w1|[r w1]] eqn:Ea; [|by eexists _, _].
  apply IH. pose proof (attempt_uses _ _ _ Hs Ea). lia.
Qed.

(** An error is a refusal of the kernel or of the runtime. *)
Lemma io_run_error w e w' :
  io_run w (Fails e) w' → e ≠ EINTR ∧ ¬ would_block e.
Proof.
  remember (Fails e) as r eqn:Er. intros Hr. revert e Er. unfold would_block.
  induction Hr as [w a w' E|w e0 w' E Hi Hb|w w1 r w' E Hr IH|w e0 w1 w2 r w' E Hb Ew Hr IH|w e0 w1 x w' E Hb Ew Hx];
    intros e Er; try done; [by injection Er as <-|by apply IH..|].
  injection Er as <-. by destruct x; naive_solver.
Qed.
End spec.

(** ** Accepted descriptors *)

(** The documented behaviour of the kernel: [fl_word w d] holds the status
    flags of [d], [open_fds w] the open descriptors. *)
Class IoLaws (W : Type) `{IoWorld W} := {
  fl_word : W → Z → Z;
  open_fds : W → gset Z;
  accept_spec : ∀ fd w r w', accept fd w = (r, w') →
    match r with
    | Done d => (d ∉ open_fds w) ∧ open_fds w' = {[d]} ∪ open_fds w
    | Fails _ => open_fds w' = open_fds w
    end;
  close_spec : ∀ d w, open_fds (close d w) = open_fds w ∖ {[d]};
  getfl_spec : ∀ d w r w', fcntl_getfl d w = (r, w') →
    open_fds w' = open_fds w ∧ (interrupted r = true → (patience w' < patience w)%nat) ∧
    fl_word w' d = fl_word w d ∧ ∀ v, r = Done v → v = fl_word w d;
  setfl_spec : ∀ d arg w r w', fcntl_setfl d arg w = (r, w') →
    open_fds w' = open_fds w ∧ (interrupted r = true → (patience w' < patience w)%nat) ∧
    ∀ v, r = Done v → v = 0 ∧ fl_word w' d = arg
}.

Section accept.
Context {W : Type} `{IoLaws W}.
Definition nonblocking (w : W) (d : Z) : Prop := Z.land (fl_word w d) O_NONBLOCK ≠ 0.
Definition same_open (w w' : W) : Prop := open_fds w' = open_fds w.
#[local] Instance same_open_preorder : PreOrder same_open.
Proof. split; [done|]. unfold same_open. intros w1 w2 w3. congruence. Qed.

Lemma set_nonblocking_run d w :
  ∃ r w', croutine_fd_set_nonblocking d w = Ok (r, w') ∧ same_open w w' ∧
    match r with Done v => v = 0 ∧ nonblocking w' d | Fails e => e ≠ EINTR end.
Proof.
  unfold croutine_fd_set_nonblocking.
  destruct (retry_call_ends patience (fcntl_getfl d) same_open
    ltac:(intros k r k' E; by apply getfl_spec in E as (_ & E & _))
    ltac:(intros k r k' E _; by apply getfl_spec in E as (E & _))
    (S (patience w)) w) as (w1 & r & w2 & S1 & E1 & Hi & ->); [lia|]. cbn -[retry_call].
  destruct (getfl_spec _ _ _ _ E1) as (S2 & _ & Hw & Hv).
  destruct r as [flags|e].
  2: { exists (Fails e), w2. split; [done|]. split; [by trans w1|]. by intros ->. }
  case_bool; cbn [negb].
  - destruct (retry_call_ends patience (fcntl_setfl d (Z.lor flags O_NONBLOCK)) same_open
      ltac:(intros k r k' E; by apply setfl_spec in E as (_ & E & _))
      ltac:(intros k r k' E _; by apply setfl_spec in E as (E & _))
      (S (patience w2)) w2) as (w3 & r & w4 & S3 & E2 & Hi2 & ->); [lia|].
    destruct (setfl_spec _ _ _ _ _ E2) as (S4 & _ & Hr). exists r, w4. split; [done|].
    split; [by trans w1; [|trans w2; [|trans w3]]|]. destruct r as [v|e2]; [|by intros ->].
    destruct (Hr v eq_refl) as [-> E]. split; [done|]. unfold nonblocking. rewrite E.
    rewrite Z.land_comm, Z.land_lor_distr_r, Z.land_diag, Z.lor_comm.
    intros Hz. by apply Z.lor_eq_0_iff in Hz as [? _].
  - exists (Done 0), w2. split; [done|]. split; [by trans w1|]. split; [done|].
    unfold nonblocking. rewrite Hw, <-(Hv _ eq_refl). done.
Qed.

(** [croutine_fd_set_nonblocking] in terms of the calls it makes. *)
Inductive nonblock_run (d : Z) (w : W) : sysres Z → W → Prop :=
| nonblock_unknown e w' : repeated (fcntl_getfl d) w (Fails e) w' → nonblock_run d w (Fails e) w'
| nonblock_already v w' : repeated (fcntl_getfl d) w (Done v) w' → Z.land v O_NONBLOCK ≠ 0 →
    nonblock_run d w (Done 0) w'
| nonblock_set v w1 r w' : repeated (fcntl_getfl d) w (Done v) w1 → Z.land v O_NONBLOCK = 0 →
    repeated (fcntl_setfl d (Z.lor v O_NONBLOCK)) w1 r w' → nonblock_run d w r w'.

Lemma nonblock_run_iff d w r w' :
  croutine_fd_set_nonblocking d w = Ok (r, w') ↔ nonblock_run d w r w'.
Proof.
  unfold croutine_fd_set_nonblocking.
  assert (∀ v r v', repeated (fcntl_getfl d) v r v' → retry_call (S (patience v)) (fcntl_getfl d) v = Ok (r, v')) as Hget.
  { intros v r0 v' Hr. eapply (repeated_retry_call patience); [|lia|done].
    intros k r1 k' E. by apply getfl_spec in E as (_ & E & _). }
  assert (∀ a v r v', repeated (fcntl_setfl d a) v r v' →
    retry_call (S (patience v)) (fcntl_setfl d a) v = Ok (r, v')) as Hset.
  { intros a v r0 v' Hr. eapply (repeated_retry_call patience); [|lia|done].
    intros k r1 k' E. by apply setfl_spec in E as (_ & E & _). }
  split.
  - intros (([v|e] & w1) & E & Hrest)%outcome_bind_inv.
    + apply retry_call_repeated in E. revert Hrest. case_bool; cbn [negb]; intros Hrest.
      * eapply nonblock_set; [done|done|by eapply retry_call_repeated].
      * injection Hrest as <- <-. by eapply nonblock_already.
    + injection Hrest as <- <-. by eapply nonblock_unknown, retry_call_repeated.
  - intros [e w1 E|v w1 E Hv|v w1 r1 w2 E Hv E2]; rewrite (Hget _ _ _ E); cbn -[retry_call]; [done|..].
    + by destruct (Z.eqb_spec (Z.land v O_NONBLOCK) 0).
    + rewrite Hv. cbn -[retry_call]. by apply Hset.
Qed.

(** [croutine_accept] in terms of the calls it makes: the error of the loop is
    returned, the accepted descriptor is made non-blocking and returned, or it
    is closed and the error of [fcntl] is returned. *)
Inductive accept_run (fd : Z) (w : W) : sysres Z → W → Prop :=
| accept_refused e w' :
    io_run (accept fd) (wait_io fd CROUTINE_IO_EVENT_READ) w (Fails e) w' → accept_run fd w (Fails e) w'
| accept_returned d w1 w' :
    io_run (accept fd) (wait_io fd CROUTINE_IO_EVENT_READ) w (Done d) w1 →
    nonblock_run d w1 (Done 0) w' → accept_run fd w (Done d) w'
| accept_closed d w1 e w2 :
    io_run (accept fd) (wait_io fd CROUTINE_IO_EVENT_READ) w (Done d) w1 →
    nonblock_run d w1 (Fails e) w2 → accept_run fd w (Fails e) (close d w2).

(** Once the loop has ended, so does the function. *)
Lemma accept_ends fuel fd w r1 w1 :
  io_loop (accept fd) (croutine_io_wait_readable fd) fuel w = Ok (r1, w1) →
  ∃ r w', croutine_accept fuel fd w = Ok (r, w') ∧ accept_run fd w r w'.
Proof.
  intros El. unfold croutine_accept. rewrite El. cbn -[croutine_fd_set_nonblocking].
  assert (io_run (accept fd) (wait_io fd CROUTINE_IO_EVENT_READ) w r1 w1) as Hr by (apply io_loop_run; by exists fuel).
  destruct r1 as [d|e]; [|by eexists _, _; split; [done|]; apply accept_refused].
  destruct (set_nonblocking_run d w1) as (r2 & w2 & E2 & _ & H2). rewrite E2. cbn. apply nonblock_run_iff in E2.
  destruct r2 as [v|e]; eexists _, _; [|by split; [|eapply accept_closed]].
  destruct H2 as [-> _]. split; [done|]. by eapply accept_returned.
Qed.
Lemma accept_run_iff fd w r w' : (∃ fuel, croutine_accept fuel fd w = Ok (r, w')) ↔ accept_run fd w r w'.
Proof.
  split.
  - intros [fuel E]. pose proof E as E'.
    apply outcome_bind_inv in E' as ((r1 & w1) & El & _).
    destruct (accept_ends fuel fd w r1 w1 El) as (r2 & w2 & E2 & Hr). rewrite E in E2. by apply ok_inj in E2 as [<- <-].
  - intros [e w1 Hr|d w1 w2 Hr Hn|d w1 e w2 Hr Hn]; apply io_loop_run in Hr as [fuel El]; exists fuel;
      unfold croutine_accept, croutine_io_wait_readable; rewrite El; cbn -[croutine_fd_set_nonblocking]; [done|..];
      apply nonblock_run_iff in Hn; by rewrite Hn.
Qed.

(** ** Which descriptors are open

    Other tasks run while this one waits, and may open and close descriptors.
    [R] is what they may do to the set of open ones. *)
Section ledger.
Context (R : relation (gset Z)) `{!PreOrder R} (fd : Z).
Hypothesis others : ∀ v x v', wait_io fd CROUTINE_IO_EVENT_READ v = (x, v') → R (open_fds v) (open_fds v').

Lemma accept_loop_open w r w' :
  io_run (accept fd) (wait_io fd CROUTINE_IO_EVENT_READ) w r w' →
  ∃ S, R (open_fds w) S ∧
    match r with Done d => (d ∉ S) ∧ open_fds w' = {[d]} ∪ S | Fails _ => open_fds w' = S end.
Proof.
  assert (∀ v e v', accept fd v = (Fails e, v') → open_fds v' = open_fds v) as Hsame.
  { intros v e v' E. apply (accept_spec _ _ _ _ E). }
  induction 1 as [w d w' E|w e w' E _ _|w w1 r w' E _ (S & HR & HS)|w e w1 w2 r w' E _ Ew _ (S & HR & HS)|w e w1 x w' E _ Ew _].
  - exists (open_fds w). split; [done|]. apply (accept_spec _ _ _ _ E).
  - exists (open_fds w'). by rewrite (Hsame _ _ _ E).
  - exists S. split; [|done]. by rewrite <-(Hsame _ _ _ E).
  - exists S. split; [|done]. etrans; [|done]. rewrite <-(Hsame _ _ _ E). by eapply others.
  - exists (open_fds w'). split; [|done]. rewrite <-(Hsame _ _ _ E). by eapply others.
Qed.

(** At the end one new descriptor is open in addition to what the other tasks
    left, or none. *)
Lemma accept_run_open w r w' : accept_run fd w r w' →
  ∃ S, R (open_fds w) S ∧
    match r with
    | Done d => (d ∉ S) ∧ open_fds w' = {[d]} ∪ S ∧ nonblocking w' d
    | Fails e => open_fds w' = S ∧ e ≠ EINTR
    end.
Proof.
  intros [e w1 Hr|d w1 w2 Hr Hn|d w1 e w2 Hr Hn]; destruct (accept_loop_open _ _ _ Hr) as (S & HR & HS);
    exists S; (split; [done|]).
  - split; [done|]. by apply io_run_error in Hr as [? _].
  - destruct HS as [Hd HS], (set_nonblocking_run d w1) as (r2 & w3 & E & So & Hb).
    apply nonblock_run_iff in Hn. rewrite Hn in E. apply ok_inj in E as [<- <-].
    split_and!; [done|by rewrite So|apply Hb].
  - destruct HS as [Hd HS], (set_nonblocking_run d w1) as (r2 & w3 & E & So & Hb).
    apply nonblock_run_iff in Hn. rewrite Hn in E. apply ok_inj in E as [<- <-].
    split; [|done]. rewrite close_spec, So, HS. set_solver.
Qed.
End ledger.
End accept.

(** ** Properties *)

(** C38: [croutine_read], [croutine_write] and [croutine_accept] compute the
    result of their call after any number of interruptions and waits.  They
    return exactly when some sequence of interrupted calls, and of calls that
    would block followed by a wait reporting readiness of that descriptor
    (for writing in [croutine_write], for reading in the others), ends in a
    call that succeeds or fails otherwise, or in a wait that is refused; and
    they return that result.  An accepted descriptor is then made
    non-blocking and returned, or closed, with the error of [fcntl] as the
    result. *)
Theorem io_calls_retry {W : Type} `{IoLaws W} fd count (w : W) r w' :
  ((∃ fuel, croutine_read fuel fd count w = Ok (r, w')) ↔
     io_run (read fd count) (wait_io fd CROUTINE_IO_EVENT_READ) w r w') ∧
  ((∃ fuel, croutine_write fuel fd count w = Ok (r, w')) ↔
     io_run (write fd count) (wait_io fd CROUTINE_IO_EVENT_WRITE) w r w') ∧
  ((∃ fuel, croutine_accept fuel fd w = Ok (r, w')) ↔ accept_run fd w r w').
Proof. split_and!; [symmetry; apply io_loop_run..|apply accept_run_iff]. Qed.

(** C39: [croutine_read] and [croutine_write] return if the kernel interrupts
    the call, and says that it would block only for the wait to report
    readiness, finitely often; an error other than EINTR, EAGAIN and
    EWOULDBLOCK ends them at once, whatever the kernel would answer next.
    What they return is the result C38 speaks of, and if it is an error it is
    none of these three. *)
Theorem io_calls_return {W : Type} `{IoWorld W} (left_over : W → nat) fd count (w : W) :
  settles (read fd count) (wait_io fd CROUTINE_IO_EVENT_READ) left_over →
  settles (write fd count) (wait_io fd CROUTINE_IO_EVENT_WRITE) left_over →
  let plain r := ∀ e : errno, r = Fails (A:=Z) e → e ≠ EINTR ∧ ¬ would_block e in
  (∃ r w', croutine_read (S (left_over w)) fd count w = Ok (r, w') ∧ plain r ∧
     io_run (read fd count) (wait_io fd CROUTINE_IO_EVENT_READ) w r w') ∧
  (∃ r w', croutine_write (S (left_over w)) fd count w = Ok (r, w') ∧ plain r ∧
     io_run (write fd count) (wait_io fd CROUTINE_IO_EVENT_WRITE) w r w').
Proof.
  intros Hr Hw plain. split.
  - destruct (io_loop_ends _ _ left_over (S (left_over w)) w Hr) as (r & w' & E & HR); [lia|].
    exists r, w'. split_and!; [exact E| |done]. intros e ->. by eapply io_run_error.
  - destruct (io_loop_ends _ _ left_over (S (left_over w)) w Hw) as (r & w' & E & HR); [lia|].
    exists r, w'. split_and!; [exact E| |done]. intros e ->. by eapply io_run_error.
Qed.

(** C40: [croutine_accept] returns if the kernel interrupts and defers it
    finitely often, and it never leaks a descriptor.  Let [R] be what other
    tasks may do to the set of open descriptors while this one waits, and [S]
    the set they leave.  When the call returns a descriptor, that one is not
    in [S], it is non-blocking, and the open ones are it and [S]; when it
    fails, also after having accepted a connection, the open ones are exactly
    [S], and the error is not EINTR.  With equality for [R]: a call that fails
    leaves open what was open before. *)
Theorem accept_keeps_or_closes {W : Type} `{IoLaws W} (left_over : W → nat)
    (R : relation (gset Z)) `{!PreOrder R} fd (w : W) :
  settles (accept fd) (wait_io fd CROUTINE_IO_EVENT_READ) left_over →
  (∀ v x v', wait_io fd CROUTINE_IO_EVENT_READ v = (x, v') → R (open_fds v) (open_fds v')) →
  ∃ r w' S, croutine_accept (1 + left_over w) fd w = Ok (r, w') ∧ R (open_fds w) S ∧
    match r with
    | Done d => (d ∉ S) ∧ open_fds w' = {[d]} ∪ S ∧ nonblocking w' d
    | Fails e => open_fds w' = S ∧ e ≠ EINTR
    end.
Proof.
  intros Hs HR. destruct (io_loop_ends _ _ left_over (1 + left_over w) w Hs) as (r1 & w1 & E1 & _); [lia|].
  destruct (accept_ends _ _ _ _ _ E1) as (r & w' & E & Hr).
  destruct (accept_run_open R fd HR w r w' Hr) as (S & HS). by exists r, w', S.
Qed.

(** ** A world that follows a script *)

Module Script.
(** The answers of [read], [write] and [accept], of the waits, the number of
    interruptions of [fcntl], and whether it refuses to set flags. *)
Record script := mkScript {
  calls : list (sysres Z);
  waits : list croutine_io_wait_result;
  signals : nat;
  flags : gmap Z Z;
  opened : gset Z;
  refusing : bool
}.
Definition next_call : syscall script Z := λ w,
  match calls w with
  | [] => (Fails (EOTHER 5), w)
  | r :: l => (r, mkScript l (waits w) (signals w) (flags w) (opened w) (refusing w))
  end.
Definition interruptible (f : syscall script Z) : syscall script Z := λ w,
  match signals w with
  | O => f w
  | S n => (Fails EINTR, mkScript (calls w) (waits w) n (flags w) (opened w) (refusing w))
  end.
#[global] Instance script_world : IoWorld script := {|
  read _ _ := next_call;
  write _ _ := next_call;
  accept _ w :=
    match next_call w with
    | (Done _, w) =>
        let d := fresh_fd (opened w) in
        (Done d, mkScript (calls w) (waits w) (signals w) (flags w) ({[d]} ∪ opened w) (refusing w))
    | r => r
    end;
  fcntl_getfl d := interruptible (λ w, (Done (default 0 (flags w !! d)), w));
  fcntl_setfl d v := interruptible (λ w,
    if refusing w then (Fails EINVAL, w)
    else (Done 0, mkScript (calls w) (waits w) (signals w) (<[d := v]> (flags w)) (opened w) (refusing w)));
  close d w := mkScript (calls w) (waits w) (signals w) (flags w) (opened w ∖ {[d]}) (refusing w);
  wait_io _ _ w :=
    match waits w with
    | [] => (CROUTINE_IO_WAIT_CLOSED, w)
    | x :: l => (x, mkScript (calls w) l (signals w) (flags w) (opened w) (refusing w))
    end;
  patience := signals
|}.
#[global] Instance script_laws : IoLaws script.
Proof.
  refine {| fl_word w d := default 0 (flags w !! d); open_fds := opened |}.
  - intros fd w r w' E. cbn in E. unfold next_call in E. destruct (calls w) as [|[a|e] l]; injection E as <- <-;
      cbn; try done. split; [apply fresh_fd_new|done].
  - done.
  - intros d w r w'. cbn. unfold interruptible. destruct (signals w) eqn:Es; intros [= <- <-]; cbn.
    + split_and!; [done..|]. by intros v [= <-].
    + split_and!; [done|lia|done|done].
  - intros d arg w r w'. cbn. unfold interruptible.
    destruct (signals w) eqn:Es; [destruct (refusing w)|]; intros [= <- <-]; cbn.
    + by split_and!.
    + split_and!; [done..|]. intros v [= <-]. by rewrite lookup_insert_eq.
    + split_and!; [done|lia|done].
Defined.

(** An interruption, a call that would block, then three bytes, or a
    connection. *)
Definition three_bytes : script :=
  mkScript [Fails EINTR; Fails EAGAIN; Done 3] [CROUTINE_IO_WAIT_READY] 1 ∅ {[0; 4]} false.
(** The same with a kernel that does not let flags be set. *)
Definition rigid : script :=
  mkScript [Fails EINTR; Fails EAGAIN; Done 3] [CROUTINE_IO_WAIT_READY] 1 ∅ {[0; 4]} true.

(** Every failed call with an answer in the script uses one up. *)
Definition answers_left (w : script) : nat := length (calls w).
Lemma script_settles (call : syscall script Z) fd ev :
  (∀ u e v, call u = (Fails e, v) → e = EOTHER 5 ∨ (answers_left v < answers_left u)%nat) →
  settles call (wait_io fd ev) answers_left.
Proof.
  intros Hc. split.
  - intros v v' E. by destruct (Hc _ _ _ E).
  - intros v e v1 v' E Hb Ew. destruct (Hc _ _ _ E) as [->|Hlt]; [by destruct Hb|].
    cbn in Ew. destruct (waits v1); [done|]. by injection Ew as _ <-.
Qed.
Lemma next_call_uses u e v :
  next_call u = (Fails e, v) → e = EOTHER 5 ∨ (answers_left v < answers_left u)%nat.
Proof.
  unfold next_call, answers_left. destruct (calls u) as [|r l]; [intros [= <- <-]; by left|].
  intros [= -> <-]. right. cbn. lia.
Qed.
Lemma accept_settles fd : settles (accept fd) (wait_io fd CROUTINE_IO_EVENT_READ) answers_left.
Proof.
  apply script_settles. intros u e v. cbn. destruct (next_call u) as [[a|e'] w1] eqn:E; [done|].
  intros [= -> ->]. by eapply next_call_uses.
Qed.
End Script.
Import Script.

(** Two runs of [croutine_accept], one that succeeds and one that fails. *)
Lemma io_calls_retry_witness :
  (∃ w', accept_run 4 three_bytes (Done 5) w') ∧ (∃ w', accept_run 4 rigid (Fails EINVAL) w').
Proof.
  split.
  - destruct (croutine_accept 4 4 three_bytes) as [[r w']| | |] eqn:E; try (vm_compute in E; discriminate E).
    assert (r = Done 5) as -> by (vm_compute in E; by injection E as <- _).
    exists w'. apply (io_calls_retry 4 0 three_bytes). exists 4%nat. exact E.
  - destruct (croutine_accept 4 4 rigid) as [[r w']| | |] eqn:E; try (vm_compute in E; discriminate E).
    assert (r = Fails EINVAL) as -> by (vm_compute in E; by injection E as <- _).
    exists w'. apply (io_calls_retry 4 0 rigid). exists 4%nat. exact E.
Defined.

Lemma io_calls_return_witness :
  ∃ r w', croutine_read 4 4 10 three_bytes = Ok (r, w') ∧ r = Done 3.
Proof.
  destruct (io_calls_return answers_left 4 10 three_bytes) as [(r & w' & E & _) _].
  - apply script_settles, next_call_uses.
  - apply script_settles, next_call_uses.
  - exists r, w'. split; [exact E|]. vm_compute in E. by injection E as <- <-.
Defined.

(** The connection is accepted, its flags cannot be set, and it is closed:
    the open descriptors are those of the start. *)
Lemma accept_keeps_or_closes_witness :
  ∃ w', croutine_accept 4 4 rigid = Ok (Fails EINVAL, w') ∧ open_fds w' = {[0; 4]}.
Proof.
  destruct (accept_keeps_or_closes answers_left eq 4 rigid) as (r & w' & S & E & HS & Hr).
  - apply accept_settles.
  - intros v x v'. cbn. by destruct (waits v); intros [= _ <-].
  - assert (r = Fails EINVAL) as -> by (vm_compute in E; by injection E as <- _).
    destruct Hr as [Ho _]. exists w'. split; [exact E|]. rewrite Ho, <-HS. reflexivity.
Defined.
