(* ===== verification/WorkerLoop.v ===== *)
(** * The worker loop (src/worker.c, lines 31-41, 494-606, 667-672, 842-850, 870-874)

    [worker_loop_impl] cut where the thread gives up the lock: a pass of the
    inner loop under the lock ends by polling, by running a task, by waiting
    on the condition variable or by leaving the loop; what follows each of
    these is a definition of its own. *)

From S2P Require Import Prelude Posix Memory ArchX86 Task IoWait PollerApi Worker.

(** [struct Worker], the thread-local record a task fills in before it
    switches back to the scheduler (the context and the sanitizer members are
    left out). *)
Record Worker := mkWorker {
  yielded_state : TaskState;
  returned_with_scheduler_lock : bool
}.

(** [worker_yield], up to the switch, and [croutine_yield], which does nothing
    outside a task. *)
Definition worker_yield : Worker := mkWorker TASK_RUNNABLE false.
Definition croutine_yield (current : option tid) : option Worker :=
  match current with Some _ => Some worker_yield | None => None end.

(** How a pass of the inner loop ends. *)
Inductive loop_action :=
| LoopReturn
| LoopPoll (timeout_ms : Z)
| LoopRun (task : tid)
| LoopWait.

Section loop.
Context `{Alloc, Os, Entry} {P : Type} `{Poller P}.
Abbreviation St := (sched P).

(** Lines 503-517 and 542-547: one pass of the inner loop, the lock held. *)
Definition loop_pass (checked_ready_io : bool) : M St loop_action :=
  s ← get;
  if shutdown_requested s || scheduler_main_finished s then mret LoopReturn else
  let have_runnable := negb (task_queue_is_empty (Some (runnable_tasks s))) in
  if negb (poller_waiter_active s) && (negb have_runnable || negb checked_ready_io) then
    modify (set_poller_waiter_active true);;
    mret (LoopPoll (if have_runnable then 0 else -1))
  else
    t ← pop_runnable;
    match t with
    | Some t => mret (LoopRun t)
    | None =>
        modify (λ s, set_idle_workers (u64 (idle_workers s + 1)) s);;
        modify (λ s, set_cond_waiting (cond_waiting s + 1) s);;
        mret LoopWait
    end.

(** Line 548: after [pthread_cond_wait] has returned. *)
Definition loop_woken (checked_ready_io : bool) : M St loop_action :=
  modify (λ s, set_cond_woken (cond_woken s - 1) s);;
  modify (λ s, set_idle_workers (u64 (idle_workers s - 1)) s);;
  loop_pass checked_ready_io.

(** Lines 535-538: the events of the poller. *)
Fixpoint wake_events (events : list CroutinePollEvent) : M St unit :=
  match events with
  | [] => mret tt
  | e :: events => wake_waiting_tasks_locked (pe_fd e) (pe_events e) true;; wake_events events
  end.

(** Lines 521-540: after [croutine_poller_wait] has returned. *)
Definition loop_polled (ready : option (list CroutinePollEvent)) : M St loop_action :=
  modify (set_poller_waiter_active false);;
  cond_broadcast;;
  s ← get;
  if shutdown_requested s || scheduler_main_finished s then mret LoopReturn else
  match ready with
  | None => worker_fail "Poller wait failed"
  | Some events => wake_events events;; loop_pass true
  end.

(** Lines 569-571: the check after a task has switched back. *)
Definition loop_should_shutdown : M St bool := gets shutdown_requested.

(** Lines 573-596: what becomes of the task. *)
Definition loop_dispatch (task : tid) (yielded : TaskState) (should_shutdown : bool) : M St unit :=
  if should_shutdown && bool_decide (yielded = TASK_RUNNABLE) then cleanup_task (Some task) else
  match yielded with
  | TASK_RUNNABLE =>
      ok ← push_runnable task;
      if negb ok then worker_fail "Failed to requeue task" else cond_signal
  | TASK_WAITING_IO | TASK_WAITING_CHANNEL => mret tt
  | TASK_FINISHED => cleanup_task (Some task)
  end.

(** [worker_wait_for_main]: [None] while the caller is blocked. *)
Definition worker_wait_for_main : M St (option Z) :=
  s ← get; mret (if main_finished s then Some (main_exit_code s) else None).
End loop.
