(* ===== verification/SchedInv.v ===== *)
(** * Workers and the scheduler's invariant

    A worker thread is somewhere in [worker_loop_impl]; [sinv] relates where
    the workers are to the state of the scheduler: every task is in one
    place, the counters count what they say, and a runnable task never waits
    while every worker sleeps. *)

From S2P Require Import Prelude Posix Memory ArchX86 Task IoWait PollerApi Worker WorkerInv.
From S2P Require Import Resources WorkerIo WorkerLoop.

(** ** Where a worker is *)

Inductive pc :=
| AtTop
| InPoll (timeout_ms : Z)
| Polled (ready : option (list CroutinePollEvent))
| InWait (checked_ready_io : bool)
| Running (t : tid)
| Back (t : tid) (yielded : TaskState)
| Dispatching (t : tid) (yielded : TaskState) (should_shutdown : bool)
| Exited.

Definition after (a : loop_action) (checked_ready_io : bool) : pc :=
  match a with
  | LoopReturn => Exited
  | LoopPoll ms => InPoll ms
  | LoopRun t => Running t
  | LoopWait => InWait checked_ready_io
  end.

Definition waiting (x : pc) : bool := match x with InWait _ => true | _ => false end.
Definition polling (x : pc) : bool := match x with InPoll _ | Polled _ => true | _ => false end.
(** A worker that is going to look at the run queue without being woken; a
    poll with timeout 0 does not block. *)
Definition awake_pc (x : pc) : bool :=
  match x with
  | AtTop | Polled _ | Running _ | Back _ _ | Dispatching _ _ _ => true
  | InPoll ms => ms =? 0
  | InWait _ | Exited => false
  end.

(** The task a worker is responsible for: one that is neither queued nor
    parked. *)
Definition held_if (t : tid) (y : TaskState) : option tid :=
  match y with TASK_RUNNABLE | TASK_FINISHED => Some t | _ => None end.
Definition holds (x : pc) : option tid :=
  match x with
  | Running t => Some t
  | Back t y | Dispatching t y _ => held_if t y
  | _ => None
  end.

(** ** Counting workers *)

Definition count (f : pc → bool) (pcs : list pc) : Z := foldr (λ x n, Z.b2z (f x) + n) 0 pcs.

Lemma count_cons f x pcs : count f (x :: pcs) = Z.b2z (f x) + count f pcs.
Proof. done. Qed.
#[local] Arguments count : simpl never.

Lemma count_nonneg f pcs : 0 ≤ count f pcs ≤ Z.of_nat (length pcs).
Proof.
  induction pcs as [|x pcs IH]; [by cbn|]. rewrite count_cons, length_cons. destruct (f x); cbn [Z.b2z]; lia.
Qed.
Lemma count_insert f pcs i x y :
  pcs !! i = Some x → count f (<[i := y]> pcs) = count f pcs - Z.b2z (f x) + Z.b2z (f y).
Proof.
  revert i. induction pcs as [|z pcs IH]; intros [|i] Hi; [done..| |].
  - injection Hi as ->. change (<[0%nat := y]> (x :: pcs)) with (y :: pcs). rewrite !count_cons. lia.
  - change (<[S i := y]> (z :: pcs)) with (z :: <[i := y]> pcs). rewrite !count_cons, (IH i Hi). lia.
Qed.
Lemma count_app f pcs pcs' : count f (pcs ++ pcs') = count f pcs + count f pcs'.
Proof. induction pcs as [|x pcs IH]; [done|]. cbn [app]. rewrite !count_cons, IH. lia. Qed.
Lemma count_pos f pcs : 0 < count f pcs → ∃ i x, pcs !! i = Some x ∧ f x = true.
Proof.
  induction pcs as [|x pcs IH]; [by cbn|]. rewrite count_cons. destruct (f x) eqn:E.
  - intros _. by exists 0%nat, x.
  - intros Hp. destruct IH as (i & y & Hi & Hy); [cbn in Hp; lia|]. by exists (S i), y.
Qed.
Lemma count_elem f pcs i x : pcs !! i = Some x → f x = true → 0 < count f pcs.
Proof.
  revert i. induction pcs as [|z pcs IH]; intros [|i] Hi Hf; [done..| |]; rewrite count_cons.
  - injection Hi as ->. rewrite Hf. pose proof (count_nonneg f pcs). cbn. lia.
  - specialize (IH i Hi Hf). destruct (f z); cbn; lia.
Qed.

(** ** The invariant *)

Section sched.
Context `{Alloc, Os, Entry} {P : Type} `{PollerLaws P}.
Implicit Types (s : sched P) (t u : tid) (obj : Task) (pcs : list pc) (x y : pc).

Definition stopping s : Prop := shutdown_requested s = true ∨ scheduler_main_finished s = true.
(** Neither queued nor parked. *)
Definition loose obj : Prop :=
  queued (scheduler obj) = false ∧
  (state (scheduler obj) = TASK_RUNNABLE ∨ state (scheduler obj) = TASK_FINISHED).
(** What the worker that has switched back from [t] knows of it. *)
Definition holdable x (o : option Task) : Prop :=
  match x with
  | Back _ y | Dispatching _ y _ =>
      ∃ obj, o = Some obj ∧ queued (scheduler obj) = false ∧ state (scheduler obj) = y
  | _ => True
  end.
(** Somebody is going to look at the run queue. *)
Definition served pcs s : Prop :=
  stopping s ∨ pcs = [] ∨ 0 < count awake_pc pcs ∨ 0 < cond_woken s ∨
  (wake_pending (poller s) ∧ 0 < count polling pcs).

(** Once main has ended or shutdown was requested, nobody sleeps: the workers
    on the condition variable have been woken, and so has the one in the
    poller. *)
Definition calm pcs s : Prop := main_finished s = true →
  stopping s ∧ cond_waiting s = 0 ∧ ∀ i ms, pcs !! i = Some (InPoll ms) → wake_pending (poller s).

Record sinv pcs s : Prop := {
  si_sched : ∃ l m, winv s l m ∧ (l ≠ [] → served pcs s);
  si_init : runtime_init_called s = true ∧ runtime_init_ok s = true;
  si_holds : ∀ i x t, pcs !! i = Some x → holds x = Some t → holdable x (heap s !! t);
  si_once : ∀ i j x y t, pcs !! i = Some x → pcs !! j = Some y → holds x = Some t →
    holds y = Some t → i = j;
  si_loose : ∀ t obj, heap s !! t = Some obj → loose obj →
    ∃ i x, pcs !! i = Some x ∧ holds x = Some t;
  si_few : Z.of_nat (length pcs) < 2 ^ 32;
  si_idle : idle_workers s = count waiting pcs;
  si_cond : cond_waiting s + cond_woken s = count waiting pcs ∧ 0 ≤ cond_waiting s ∧ 0 ≤ cond_woken s;
  si_poll : count polling pcs = Z.b2z (poller_waiter_active s);
  si_asleep : 0 < cond_waiting s → poller_waiter_active s = true;
  si_exited : ∀ i, pcs !! i = Some Exited → stopping s;
  si_owned : rinv (heap s) (maps s) (blocks s);
  si_stack : 0 ≤ configured_stack_size s < 2 ^ 62;
  si_calm : calm pcs s
}.

(** If nobody sleeps, somebody is awake. *)
Lemma nobody_sleeps pcs s :
  (∀ i, pcs !! i = Some Exited → stopping s) →
  count waiting pcs = 0 → count polling pcs = 0 → stopping s ∨ pcs = [] ∨ 0 < count awake_pc pcs.
Proof.
  intros He Hw Hp. destruct pcs as [|x pcs]; [auto|].
  assert (waiting x = false ∧ polling x = false) as [Ew Ep].
  { rewrite count_cons in Hw, Hp. pose proof (count_nonneg waiting pcs). pose proof (count_nonneg polling pcs).
    destruct (waiting x), (polling x); cbn in Hw, Hp; split; try done; lia. }
  destruct (awake_pc x) eqn:Ea; [right; right; by eapply (count_elem _ _ 0%nat)|left].
  apply (He 0%nat). by destruct x.
Qed.

Lemma stopping_rest s s' : rest s' = rest s → stopping s' ↔ stopping s.
Proof. intros E. unfold stopping. by destruct (rest_stop _ _ E) as [-> ->]. Qed.

(** After a signal on the condition variable, together with the wake-up of the
    poller when no worker is idle, the run queue is served. *)
Lemma served_signal pcs s s' :
  sinv pcs s → (stopping s' ↔ stopping s) → cv s' = signalled (cv s) →
  (idle_workers s = 0 → poller_waiter_active s = true → wake_pending (poller s')) →
  served pcs s'.
Proof.
  intros HI Er Ec Hp. unfold served. rewrite Er.
  destruct (si_cond _ _ HI) as (C1 & C2 & C3). pose proof (si_idle _ _ HI) as Hi. pose proof (si_poll _ _ HI) as Hl.
  unfold cv, signalled in Ec. cbn in Ec. destruct (Z.ltb_spec 0 (cond_waiting s)).
  { injection Ec as _ ->. right. right. right. left. lia. }
  injection Ec as _ ->. destruct (Z.ltb_spec 0 (cond_woken s)); [auto|].
  destruct (poller_waiter_active s) eqn:Ea; cbn in Hl.
  - right. right. right. right. split; [apply Hp; [lia|done]|lia].
  - destruct (nobody_sleeps pcs s) as [?|[?|?]]; auto; [apply HI|lia].
Qed.
Lemma served_broadcast pcs s s' :
  sinv pcs s → rest s' = rest s → cv s' = broadcast (cv s) →
  (poller_waiter_active s = true → wake_pending (poller s')) → served pcs s'.
Proof.
  intros HI Er Ec Hp. unfold served. rewrite (stopping_rest _ _ Er).
  destruct (si_cond _ _ HI) as (C1 & C2 & C3). pose proof (si_poll _ _ HI) as Hl.
  unfold cv, broadcast in Ec. injection Ec as _ E2. cbn in E2.
  destruct (Z.ltb_spec 0 (cond_woken s')); [auto|].
  destruct (poller_waiter_active s) eqn:Ea; cbn in Hl.
  - right. right. right. right. split; [by apply Hp|lia].
  - destruct (nobody_sleeps pcs s) as [?|[?|?]]; auto; [apply HI|lia].
Qed.
(** Nothing about sleeping changes. *)
Lemma served_same pcs s s' :
  rest s' = rest s → cv s' = cv s → (wake_pending (poller s) → wake_pending (poller s')) →
  served pcs s → served pcs s'.
Proof. intros Er [= _ Ew] Hp. unfold served. rewrite (stopping_rest _ _ Er), Ew. naive_solver. Qed.

Lemma calm_same pcs s s' : calm pcs s → main_finished s' = main_finished s → (stopping s → stopping s') →
  (cond_waiting s = 0 → cond_waiting s' = 0) → (wake_pending (poller s) → wake_pending (poller s')) → calm pcs s'.
Proof. intros HC Em Hst Hc Hp Hm. rewrite Em in Hm. destruct (HC Hm) as (? & ? & ?). naive_solver. Qed.
Lemma cv_less s s' : 0 ≤ cond_waiting s ∧ 0 ≤ cond_woken s →
  cv s' = cv s ∨ cv s' = signalled (cv s) ∨ cv s' = broadcast (cv s) →
  cond_waiting s' + cond_woken s' = cond_waiting s + cond_woken s ∧
  0 ≤ cond_waiting s' ≤ cond_waiting s ∧ 0 ≤ cond_woken s'.
Proof.
  unfold cv, signalled, broadcast. cbn. intros [C1 C2] [[= -> ->]|[Ec|[= -> ->]]]; [lia| |lia].
  destruct (Z.ltb_spec 0 (cond_waiting s)); injection Ec as -> ->; lia.
Qed.

(** ** The invariant over a change of tasks

    The workers stay where they are, the counters count them, and the tasks
    that change are neither loose before nor after, or held. *)
Lemma sinv_step pcs s s' l' m' :
  sinv pcs s → winv s' l' m' → (l' ≠ [] → served pcs s') → rest s' = rest s →
  (cv s' = cv s ∨ cv s' = signalled (cv s) ∨ cv s' = broadcast (cv s)) →
  (wake_pending (poller s) → wake_pending (poller s')) → owned <$> heap s' = owned <$> heap s →
  (∀ i x t, pcs !! i = Some x → holds x = Some t → holdable x (heap s !! t) → holdable x (heap s' !! t)) →
  (∀ t obj', heap s' !! t = Some obj' → loose obj' →
     (∃ obj, heap s !! t = Some obj ∧ loose obj) ∨ ∃ i x, pcs !! i = Some x ∧ holds x = Some t) →
  sinv pcs s'.
Proof.
  intros [I1 I2 I3 I4 I5 I6 I7 I8 I9 I10 I11 I12 I13 I14] HW Hs Er Ec Hp Ho Hh Hl.
  destruct (rest_active _ _ Er) as [Ea Ei].
  split; rewrite ?Ea, ?Ei; try done.
  - by exists l', m'.
  - by destruct (rest_init _ _ Er) as [-> ->].
  - intros i x t Hx Ht. eapply Hh; [done..|]. by eapply I3.
  - intros t obj' Ht Hlo. destruct (Hl t obj' Ht Hlo) as [(obj & Hobj & Hlo')|?]; [by eapply I5|done].
  - destruct I8 as [C1 C2]. destruct (cv_less _ _ C2 Ec). lia.
  - intros Hw. apply I10. destruct (cv_less _ _ (proj2 I8) Ec). lia.
  - intros i Hi. apply (stopping_rest _ _ Er). by eapply I11.
  - destruct (rest_ctl _ _ Er) as (-> & -> & _). by eapply rinv_same.
  - destruct (rest_ctl _ _ Er) as (_ & _ & [=]). congruence.
  - eapply calm_same; [done|by destruct (rest_ctl _ _ Er) as (_ & _ & [=])|by apply (stopping_rest _ _ Er)| |done].
    intros E. destruct (cv_less _ _ (proj2 I8) Ec) as (_ & ? & _). lia.
Qed.
End sched.
