(* ===== verification/SchedSteps.v ===== *)
(** * The worker loop keeps the scheduler's invariant

    [worker_loop_impl] of src/worker.c step by step: wherever a worker is in
    the loop, its next step runs to an end and keeps [sinv] with the worker in
    its new place. *)

From S2P Require Import Prelude Posix Memory ArchX86 Task IoWait PollerApi Worker WorkerInv.
From S2P Require Import Resources WorkerIo WorkerLoop SchedInv.

Section steps.
Context `{Alloc, Os, Entry} {P : Type} `{PollerLaws P}.
Implicit Types (s : sched P) (t u : tid) (obj : Task) (pcs : list pc) (x y : pc) (l : list tid).

(** The task a worker runs is neither queued nor parked. *)
Definition running_ok pcs s : Prop := ∀ i t, pcs !! i = Some (Running t) →
  ∃ obj, heap s !! t = Some obj ∧ state (scheduler obj) = TASK_RUNNABLE ∧ queued (scheduler obj) = false.

(** ** One worker moves *)
Lemma sinv_move pcs s s' i x y l' m' :
  sinv pcs s → pcs !! i = Some x → winv s' l' m' → (l' ≠ [] → served (<[i := y]> pcs) s') →
  runtime_init_called s' = true ∧ runtime_init_ok s' = true →
  (stopping s → stopping s') → (y = Exited → stopping s') →
  idle_workers s' = idle_workers s - Z.b2z (waiting x) + Z.b2z (waiting y) →
  cond_waiting s' + cond_woken s' =
    cond_waiting s + cond_woken s - Z.b2z (waiting x) + Z.b2z (waiting y) →
  0 ≤ cond_waiting s' → 0 ≤ cond_woken s' →
  Z.b2z (poller_waiter_active s') =
    Z.b2z (poller_waiter_active s) - Z.b2z (polling x) + Z.b2z (polling y) →
  (0 < cond_waiting s' → poller_waiter_active s' = true) →
  (∀ j z t, j ≠ i → pcs !! j = Some z → holds z = Some t →
     holdable z (heap s !! t) → holdable z (heap s' !! t)) →
  (∀ t, holds y = Some t → holdable y (heap s' !! t) ∧
     ∀ j z, j ≠ i → pcs !! j = Some z → holds z ≠ Some t) →
  (∀ t obj', heap s' !! t = Some obj' → loose obj' →
     holds y = Some t ∨ ∃ obj, heap s !! t = Some obj ∧ loose obj ∧ holds x ≠ Some t) →
  rinv (heap s') (maps s') (blocks s') → configured_stack_size s' = configured_stack_size s →
  calm (<[i := y]> pcs) s' → sinv (<[i := y]> pcs) s'.
Proof.
  intros [I1 I2 I3 I4 I5 I6 I7 I8 I9 I10 I11 I12 I13 _] Hi HW Hsv Hin Hst Hex Hid Hc C2 C3 Hp Hsl Hh Hy Hlo Hr Hss Hca.
  assert (∀ j z, <[i := y]> pcs !! j = Some z → (j = i ∧ z = y) ∨ (j ≠ i ∧ pcs !! j = Some z)) as Hl.
  { intros j z. rewrite list_lookup_insert_Some. naive_solver. }
  assert (<[i := y]> pcs !! i = Some y) as Hiy by (apply list_lookup_insert_eq; by eapply lookup_lt_Some).
  split; try done.
  - by exists l', m'.
  - intros j z t Hj Ht. destruct (Hl j z Hj) as [[-> ->]|[Hne Hz]]; [by apply Hy|].
    eapply Hh; [done..|]. by eapply I3.
  - intros j k z z' t Hj Hk Hz Hz'.
    destruct (Hl j z Hj) as [[-> ->]|[Hj1 Hj2]], (Hl k z' Hk) as [[-> ->]|[Hk1 Hk2]]; [done| | |by eapply I4].
    + by destruct (Hy t Hz) as [_ []%(λ f, f k z' Hk1 Hk2)].
    + by destruct (Hy t Hz') as [_ []%(λ f, f j z Hj1 Hj2)].
  - intros t obj' Ho Hl'. destruct (Hlo t obj' Ho Hl') as [Hyt|(obj & Hobj & Hlo' & Hx)]; [by exists i, y|].
    destruct (I5 t obj Hobj Hlo') as (j & z & Hj & Hz). exists j, z. split; [|done].
    rewrite list_lookup_insert_ne; [done|]. intros ->. congruence.
  - by rewrite length_insert.
  - rewrite (count_insert _ _ _ _ _ Hi). lia.
  - rewrite (count_insert _ _ _ _ _ Hi). lia.
  - rewrite (count_insert _ _ _ _ _ Hi). lia.
  - intros j Hj. destruct (Hl j Exited Hj) as [[-> E]|[_ Hz]]; [by apply Hex|]. by eapply Hst, I11.
  - by rewrite Hss.
Qed.

(** A worker that does not begin to poll leaves the others as calm as they
    were; before main has ended there is nothing to show. *)
Lemma calm_move pcs s s' i y : calm pcs s → main_finished s' = main_finished s → (stopping s → stopping s') →
  (cond_waiting s = 0 → cond_waiting s' = 0) → (wake_pending (poller s) → wake_pending (poller s')) →
  (∀ ms, y ≠ InPoll ms) → calm (<[i := y]> pcs) s'.
Proof.
  intros HC Em Hst Hc Hp Hy Hm. rewrite Em in Hm. destruct (HC Hm) as (? & ? & Hpoll). split_and!; [auto..|].
  intros j ms. rewrite list_lookup_insert_Some. intros [(_ & E & _)|[_ Hj]]; [by destruct (Hy ms)|eauto].
Qed.
Lemma calm_running pcs pcs' s s' : calm pcs s → main_finished s' = main_finished s → ¬ stopping s → calm pcs' s'.
Proof. intros HC Em Hst Hm. rewrite Em in Hm. by destruct (HC Hm). Qed.

(** What the channels see of the tasks: who waits on a channel, and the
    recorded wake outcomes. *)
Definition chan_view obj : bool * bool :=
  (bool_decide (state (scheduler obj) = TASK_WAITING_CHANNEL), channel_wake_success obj).
Definition chans s : gmap tid (bool * bool) := chan_view <$> heap s.

Lemma chans_insert s s' t obj obj' :
  heap s !! t = Some obj → heap s' = <[t := obj']> (heap s) → chan_view obj' = chan_view obj →
  chans s' = chans s.
Proof.
  intros Ht Hh Hv. unfold chans. rewrite Hh, fmap_insert, Hv. apply insert_id. by rewrite lookup_fmap, Ht.
Qed.

(** ** The run queue *)

Lemma is_empty_run s l m : winv s l m → task_queue_is_empty (Some (runnable_tasks s)) = bool_decide (l = []).
Proof. intros HW. apply is_empty_spec. apply (wi_queue _ _ _ HW). Qed.

Lemma pop_empty s m : winv s [] m → pop_runnable s = Ok (None, s).
Proof.
  intros HW. unfold pop_runnable, task_queue_pop. rewrite (is_empty_run _ _ _ HW). simpl. by destruct s.
Qed.

Lemma pop_run s t l m : winv s (t :: l) m →
  ∃ obj s', pop_runnable s = Ok (Some t, s') ∧ heap s !! t = Some obj ∧ winv s' l m ∧
    state (scheduler obj) = TASK_RUNNABLE ∧ queued (scheduler obj) = true ∧
    heap s' = <[t := set_queued false obj]> (heap s) ∧ poller s' = poller s ∧
    rest s' = rest s ∧ cv s' = cv s.
Proof.
  intros HW. destruct (pop_spec _ _ _ _ (wi_queue _ _ _ HW)) as (q' & obj & Ht & Hrun & Hq').
  exists obj. unfold pop_runnable. rewrite Hrun. eexists. split; [done|].
  pose proof (inv_nodup _ _ _ (wi_queue _ _ _ HW)) as [Hn _]%NoDup_cons.
  assert (state (scheduler obj) = TASK_RUNNABLE) as Hs by (eapply (wi_runnable _ _ _ HW); [done|left]).
  split_and!; try done.
  - eapply winv_task; try done; cbn; rewrite ?Hs; set_solver.
  - apply (inv_flag _ _ _ (wi_queue _ _ _ HW) t obj Ht). left.
Qed.

(** ** The inner loop *)

Lemma running_move pcs s s' i y :
  running_ok pcs s → (∀ j t, j ≠ i → pcs !! j = Some (Running t) → heap s' !! t = heap s !! t) →
  (∀ t, y = Running t → ∃ obj, heap s' !! t = Some obj ∧ state (scheduler obj) = TASK_RUNNABLE ∧
     queued (scheduler obj) = false) →
  running_ok (<[i := y]> pcs) s'.
Proof.
  intros HR Hsame Hy j t. rewrite list_lookup_insert_Some. intros [(<- & E & _)|[Hne Hj]]; [by apply Hy|].
  rewrite (Hsame j t); [by eapply HR|done..].
Qed.

(** Nobody else holds a queued task. *)
Lemma queued_unheld pcs s j z t obj :
  sinv pcs s → running_ok pcs s → heap s !! t = Some obj → queued (scheduler obj) = true →
  pcs !! j = Some z → holds z ≠ Some t.
Proof.
  intros HI HR Ht Hq Hj Hz. destruct z as [|ms|r|b|u|u v|u v b|]; try done.
  - injection Hz as ->. destruct (HR j t Hj) as (o & Ho & _ & Hq'). congruence.
  - destruct (si_holds _ _ HI j _ t Hj Hz) as (o & Ho & Hq' & _). congruence.
  - destruct (si_holds _ _ HI j _ t Hj Hz) as (o & Ho & Hq' & _). congruence.
Qed.

(** The outcome of a step of worker [i]. *)
Record moved pcs s i y s' : Prop := {
  mv_inv : sinv (<[i := y]> pcs) s';
  mv_running : running_ok (<[i := y]> pcs) s';
  mv_chans : chans s' = chans s;
  mv_shutdown : shutdown_requested s' = shutdown_requested s;
  mv_main : main_finished s = true → main_finished s' = true
}.

Lemma idle_u64 pcs s : sinv pcs s →
  u64 (idle_workers s + 1) = idle_workers s + 1 ∧ (0 < idle_workers s → u64 (idle_workers s - 1) = idle_workers s - 1).
Proof.
  intros HI. pose proof (si_idle _ _ HI) as E. pose proof (count_nonneg waiting pcs). pose proof (si_few _ _ HI).
  rewrite E. split; [|intros ?]; apply u64_small; lia.
Qed.

Lemma served_awake pcs s i x y : pcs !! i = Some x → awake_pc y = true → served (<[i := y]> pcs) s.
Proof.
  intros Hi Hy. right. right. left. eapply count_elem; [|exact Hy].
  apply list_lookup_insert_eq. by eapply lookup_lt_Some.
Qed.

Lemma pass_run pcs s i checked :
  sinv pcs s → running_ok pcs s → pcs !! i = Some AtTop →
  ∃ a s', loop_pass checked s = Ok (a, s') ∧ moved pcs s i (after a checked) s'.
Proof.
  intros HI HR Hi. pose proof (si_cond _ _ HI) as (C1 & C2 & C3).
  destruct (si_sched _ _ HI) as (l & m & HW & Hsv). unfold loop_pass.
  rewrite (bind_ok _ _ s s s) by done. destruct (shutdown_requested s || scheduler_main_finished s) eqn:Est.
  { assert (stopping s) as Hst by (unfold stopping; by apply orb_true_iff).
    exists LoopReturn, s. split; [done|]. split; [|by eapply running_move|done..].
    eapply (sinv_move pcs s s i AtTop Exited l m); try done; try apply HI; cbn; try lia.
    - intros _. by left.
    - intros t obj Ho Hl. right. by exists obj.
    - by eapply calm_move; [apply HI|..]. }
  assert (¬ stopping s) as Hns by (by intros [E|E]; rewrite E, ?orb_true_r in Est).
  rewrite (is_empty_run _ _ _ HW). set (have := negb (bool_decide (l = []))).
  destruct (negb (poller_waiter_active s) && (negb have || negb checked)) eqn:Epoll.
  { apply andb_true_iff in Epoll as [Ea%negb_true_iff _].
    eexists (LoopPoll _), (set_poller_waiter_active true s). split; [done|]. split; [|by eapply running_move|done..].
    eapply (sinv_move pcs s _ i AtTop _ l m); try done; try apply HI; cbn; rewrite ?Ea; try done; try lia.
    - by eapply winv_ext; [..|exact HW].
    - intros Hl. eapply served_awake; [done|]. unfold have. by rewrite bool_decide_eq_false_2.
    - intros t obj Ho Hl. right. by exists obj.
    - by eapply calm_running; [apply HI|..]. }
  destruct l as [|t l].
  - rewrite (bind_ok _ _ _ _ _ (pop_empty _ _ HW)). cbn in Epoll. apply andb_false_iff in Epoll as [Ea%negb_false_iff|?]; [|done].
    eexists LoopWait, _. split; [done|]. split; [|by eapply running_move|done..].
    eapply (sinv_move pcs s _ i AtTop _ [] m); try done; try apply HI; cbn; rewrite ?Ea; try done; try lia.
    + by eapply winv_ext; [..|exact HW].
    + rewrite (proj1 (idle_u64 _ _ HI)). lia.
    + intros t obj Ho Hl. right. by exists obj.
    + by eapply calm_running; [apply HI|..].
  - destruct (pop_run _ _ _ _ HW) as (obj & s' & Hrun & Ht & HW' & Hs & Hq & Hh & Hp & Er & Ec).
    rewrite (bind_ok _ _ _ _ _ Hrun). exists (LoopRun t), s'. split; [done|].
    pose proof (λ j z, queued_unheld pcs s j z t obj HI HR Ht Hq) as Hun.
    assert (∀ j z u, pcs !! j = Some z → holds z = Some u → heap s' !! u = heap s !! u) as Hsame.
    { intros j z u Hj Hz. rewrite Hh, lookup_insert_ne; [done|]. intros <-. by eapply Hun. }
    destruct (rest_active _ _ Er) as [Ea Ei], (rest_ctl _ _ Er) as (Em & Eb & _).
    split; [| | |by destruct (rest_stop _ _ Er)|by destruct (rest_ctl _ _ Er) as (_ & _ & [=]); congruence].
    + injection Ec as Ec1 Ec2.
      eapply (sinv_move pcs s s' i AtTop _ l m); try done; cbn; rewrite ?Ea, ?Ei, ?Ec1, ?Ec2; try lia; try apply HI.
      * intros _. by eapply served_awake.
      * destruct (rest_init _ _ Er) as [-> ->]. apply HI.
      * intros j z u Hne Hj Hz. by rewrite (Hsame j z u).
      * intros u [= <-]. split; [done|]. intros j z _ Hj. by eapply Hun.
      * intros u o. rewrite Hh, lookup_insert_Some. intros [[<- <-]|[_ Ho]] Hl; [by left|right; by exists o].
      * rewrite Em, Eb, Hh. eapply rinv_same; [|apply HI]. by eapply owned_insert.
      * by destruct (rest_ctl _ _ Er) as (_ & _ & [=]).
      * eapply calm_running; [apply HI| |done]. by destruct (rest_ctl _ _ Er) as (_ & _ & [=]).
    + eapply running_move; [done| |].
      * intros j u Hne Hj. by eapply Hsame.
      * intros u [= <-]. exists (set_queued false obj). rewrite Hh, lookup_insert_eq. done.
    + by eapply chans_insert.
Qed.

Lemma moved_trans pcs s i x s1 y s' :
  moved pcs s i x s1 → moved (<[i := x]> pcs) s1 i y s' → moved pcs s i y s'.
Proof.
  intros [M1 M2 M3 M4 M5] [N1 N2 N3 N4 N5]. rewrite list_insert_insert_eq in N1, N2.
  split; [done..|congruence|congruence|auto].
Qed.
Lemma inserted_top pcs i x : pcs !! i = Some x → <[i := AtTop]> pcs !! i = Some AtTop.
Proof. intros Hi. apply list_lookup_insert_eq. by eapply lookup_lt_Some. Qed.

(** [pthread_cond_wait] returns. *)
Lemma woken_run pcs s i checked :
  sinv pcs s → running_ok pcs s → pcs !! i = Some (InWait checked) → 0 < cond_woken s →
  ∃ a s', loop_woken checked s = Ok (a, s') ∧ moved pcs s i (after a checked) s'.
Proof.
  intros HI HR Hi Hw. pose proof (si_cond _ _ HI) as (C1 & C2 & C3).
  destruct (si_sched _ _ HI) as (l & m & HW & Hsv). unfold loop_woken.
  set (s0 := set_cond_woken (cond_woken s - 1) s). rewrite (bind_ok _ _ s tt s0) by done.
  set (s1 := set_idle_workers (u64 (idle_workers s0 - 1)) s0). rewrite (bind_ok _ _ s0 tt s1) by done.
  assert (0 < count waiting pcs) as Hc by (by eapply count_elem).
  assert (moved pcs s i AtTop s1) as M1.
  { split; [|by eapply running_move|done..].
    eapply (sinv_move pcs s s1 i (InWait checked) AtTop l m); try done; try apply HI; cbn; try lia.
    - by eapply winv_ext; [..|exact HW].
    - intros _. by eapply served_awake.
    - rewrite (proj2 (idle_u64 _ _ HI)) by (rewrite (si_idle _ _ HI); lia). lia.
    - intros t obj Ho Hl. right. by exists obj.
    - by eapply calm_move; [apply HI|..]. }
  destruct (pass_run _ s1 i checked (mv_inv _ _ _ _ _ M1) (mv_running _ _ _ _ _ M1) (inserted_top _ _ _ Hi))
    as (a & s' & Hrun & M2).
  exists a, s'. split; [exact Hrun|]. by eapply moved_trans.
Qed.

(** A wake-up without a signal, which POSIX allows. *)
Lemma spurious_run pcs s : sinv pcs s → 0 < cond_waiting s →
  let s' := set_cond_waiting (cond_waiting s - 1) (set_cond_woken (cond_woken s + 1) s) in sinv pcs s'.
Proof.
  intros [I1 I2 I3 I4 I5 I6 I7 I8 I9 I10 I11 I12 I13 I14] Hw s'. split; try done; try (cbn; lia).
  - destruct I1 as (l & m & HW & Hs). exists l, m. split; [by eapply winv_ext; [..|exact HW]|].
    intros _. right. right. right. left. cbn. lia.
  - intros _. by apply I10.
  - intros Hm. destruct (I14 Hm) as (_ & E & _). lia.
Qed.

(** ** Waking the tasks that wait for a descriptor *)

Lemma wake_heap_fmap {A} (f : Task → A) b ts (h : gmap tid Task) :
  NoDup ts → (∀ t obj, t ∈ ts → h !! t = Some obj → f (io_awake b obj) = f obj) →
  f <$> wake_heap b ts h = f <$> h.
Proof.
  intros Hnd Hf. apply map_eq. intros u. rewrite !lookup_fmap, wake_heap_lookup by done.
  case_decide as Hu; [|done]. destruct (h !! u) as [obj|] eqn:E; [|done]. cbn. f_equal. by eapply Hf.
Qed.

Lemma sinv_io_wake pcs s s' l m m' d ev b v :
  let ts := woken ev v in
  sinv pcs s → running_ok pcs s → winv s l m → (l ≠ [] → served pcs s) → m !! d = Some v →
  heap s' = wake_heap b ts (heap s) →
  winv s' (l ++ ts) m' → rest s' = rest s → cv s' = (if decide (ts = []) then cv s else broadcast (cv s)) →
  (wake_pending (poller s) → wake_pending (poller s')) →
  (ts ≠ [] → poller_waiter_active s = true → wake_pending (poller s')) →
  sinv pcs s' ∧ running_ok pcs s' ∧ chans s' = chans s.
Proof.
  intros ts HI HR HW Hsv Hd Hh HW' Er Ec Hp1 Hp2. destruct v as [r w].
  assert (NoDup ts) as Hnd by apply NoDup_remove_dups.
  assert (∀ t, t ∈ ts → ∃ obj, heap s !! t = Some obj ∧ state (scheduler obj) = TASK_WAITING_IO) as Hts.
  { intros t Ht%woken_in. destruct (wi_entry _ _ _ HW d r w Hd) as (_ & _ & Hw).
    destruct (Hw t Ht) as (obj & Ho & Hs & _). eauto. }
  assert (∀ t obj, heap s !! t = Some obj → state (scheduler obj) ≠ TASK_WAITING_IO → heap s' !! t = Some obj) as Hkeep.
  { intros t obj Ht Hs. rewrite Hh, wake_heap_lookup by done. rewrite decide_False; [done|].
    intros Hin. destruct (Hts t Hin) as (o & Ho & Hs'). congruence. }
  split_and!.
  - eapply sinv_step; [done..| |done| |done| | |].
    + intros Hl. destruct (decide (ts = [])) as [E|E].
      * eapply served_same; [done..|]. apply Hsv. by rewrite E, app_nil_r in Hl.
      * eapply served_broadcast; [done..|]. auto.
    + rewrite Ec. case_decide; auto.
    + rewrite Hh. by apply wake_heap_fmap.
    + intros i x t Hx Ht. destruct x as [|ms|rd|c|u|u y|u y sd|]; try done; cbn; intros (obj & Ho & Hq & Hs);
        exists obj; (split; [apply Hkeep; [done|]; rewrite Hs; by destruct y|done]).
    + intros t obj'. rewrite Hh, wake_heap_lookup by done. destruct (decide (t ∈ ts)) as [Ht|Ht].
      * destruct (Hts t Ht) as (obj & -> & _). intros [= <-] [Hq _]. done.
      * intros Ho Hl. left. eauto.
  - intros i t Hi. destruct (HR i t Hi) as (obj & Ho & Hs & Hq). exists obj. split; [|done].
    apply Hkeep; [done|]. by rewrite Hs.
  - unfold chans. rewrite Hh. apply wake_heap_fmap; [done|]. intros t obj Ht Ho.
    destruct (Hts t Ht) as (o & Ho' & Hs). simplify_eq. unfold chan_view, io_awake. cbn. by rewrite Hs.
Qed.

(** The answer of the kernel to a change of interest decides between the
    result and the end of the process. *)
Definition interest_refused : string := "Failed to update poller interest while waking task".

Lemma wake_fd_run pcs s d ev b :
  calloc_grants → sinv pcs s → running_ok pcs s → poller_waiter_active s = false →
  wake_waiting_tasks_locked d ev b s = Abort interest_refused ∨
  ∃ n s', wake_waiting_tasks_locked d ev b s = Ok (n, s') ∧ sinv pcs s' ∧ running_ok pcs s' ∧
    chans s' = chans s ∧ rest s' = rest s.
Proof.
  intros Hg HI HR Ha. destruct (si_sched _ _ HI) as (l & m & HW & Hsv).
  destruct (m !! d) as [v|] eqn:Hd.
  - destruct (wake_waiting_run s l m d ev b v HW Hg Hd) as (ok & p' & _ & Hok).
    destruct ok; [|by left]. right. destruct Hok as (s' & Hrun & HW' & Hh & Er & Hp & Ec).
    eexists _, s'. split; [exact Hrun|].
    destruct (sinv_io_wake pcs s s' l m _ d ev b v HI HR HW Hsv Hd Hh HW' Er Ec Hp) as (J1 & J2 & J3); [by rewrite Ha|].
    done.
  - right. exists 0, s. split; [by eapply wake_waiting_none|done].
Qed.

Lemma wake_events_run pcs s es :
  calloc_grants → sinv pcs s → running_ok pcs s → poller_waiter_active s = false →
  wake_events es s = Abort interest_refused ∨
  ∃ s', wake_events es s = Ok (tt, s') ∧ sinv pcs s' ∧ running_ok pcs s' ∧
    chans s' = chans s ∧ rest s' = rest s.
Proof.
  intros Hg. revert s. induction es as [|e es IH]; intros s HI HR Ha; [right; by exists s|]. cbn [wake_events].
  destruct (wake_fd_run pcs s (pe_fd e) (pe_events e) true Hg HI HR Ha) as [Hab|(n & s1 & Hrun & HI1 & HR1 & Hc1 & Er1)].
  - left. unfold mbind, M_bind. by rewrite Hab.
  - rewrite (bind_ok _ _ _ _ _ Hrun). destruct (rest_active _ _ Er1) as [Ea _].
    destruct (IH s1 HI1 HR1) as [Hab|(s2 & Hrun2 & HI2 & HR2 & Hc2 & Er2)]; [congruence|by left|right].
    exists s2. split_and!; try done; congruence.
Qed.

Definition wait_failed : string := "Poller wait failed".

(** [croutine_poller_wait] has returned. *)
Lemma polled_run pcs s i ready :
  calloc_grants → sinv pcs s → running_ok pcs s → pcs !! i = Some (Polled ready) →
  (loop_polled ready s = Abort wait_failed ∧ ready = None) ∨
  (loop_polled ready s = Abort interest_refused) ∨
  ∃ a s', loop_polled ready s = Ok (a, s') ∧ moved pcs s i (after a true) s'.
Proof.
  intros Hg HI HR Hi. pose proof (si_cond _ _ HI) as (C1 & C2 & C3).
  destruct (si_sched _ _ HI) as (l & m & HW & Hsv). unfold loop_polled.
  set (s0 := set_poller_waiter_active false s). rewrite (bind_ok _ _ s tt s0) by done.
  destruct (cond_broadcast_run s0) as (s1 & Hb & E1 & E2 & E3 & E4 & E5 & E6).
  rewrite (bind_ok _ _ _ _ _ Hb), (bind_ok _ _ s1 s1 s1) by done.
  destruct (rest_active _ _ E5) as [Ea Ei], (rest_ctl _ _ E5) as (Em & Ebl & _), (rest_stop _ _ E5) as [Es1 Es2].
  assert (poller_waiter_active s = true) as Hact.
  { pose proof (si_poll _ _ HI). assert (0 < count polling pcs) by (by eapply count_elem).
    destruct (poller_waiter_active s); [done|cbn in *; lia]. }
  assert (∀ y, holds y = None → waiting y = false → polling y = false → (y = Exited → stopping s) →
    (l ≠ [] → served (<[i := y]> pcs) s1) → moved pcs s i y s1) as M1.
  { intros y Hy1 Hy2 Hy3 Hy4 Hy5. injection E6 as Ec1 Ec2. cbn in Ec1, Ec2.
    split; [|eapply running_move; [done|by rewrite E1|by intros t ->]|unfold chans; by rewrite E1|done|by destruct (rest_ctl _ _ E5) as (_ & _ & [=]); congruence].
    eapply (sinv_move pcs s s1 i (Polled ready) y l m); try done; cbn;
      rewrite ?Ea, ?Ei, ?Ec1, ?Ec2, ?E1, ?Em, ?Ebl, ?Hy1, ?Hy2, ?Hy3; cbn; try done; try lia; try apply HI.
    - eapply winv_ext; [..|exact HW]; by rewrite ?E4.
    - destruct (rest_init _ _ E5) as [-> ->]. apply HI.
    - unfold stopping. by rewrite Es1, Es2.
    - intros Hex. unfold stopping. rewrite Es1, Es2. by apply Hy4.
    - by rewrite Hact.
    - intros t obj Ho Hl. right. by exists obj.
    - by destruct (rest_ctl _ _ E5) as (_ & _ & [=]).
    - eapply (calm_move pcs s); [apply HI|by destruct (rest_ctl _ _ E5) as (_ & _ & [=])| | | |by intros ms ->];
        [unfold stopping; by rewrite Es1, Es2|lia|by rewrite E4]. }
  rewrite Es1, Es2. cbn [s0 shutdown_requested scheduler_main_finished set_poller_waiter_active].
  destruct (shutdown_requested s || scheduler_main_finished s) eqn:Est.
  { assert (stopping s) as Hst by (unfold stopping; by apply orb_true_iff).
    right. right. exists LoopReturn, s1. split; [done|]. apply M1; try done.
    intros _. left. unfold stopping. rewrite Es1, Es2. exact Hst. }
  destruct ready as [es|]; [right|by left].
  assert (moved pcs s i AtTop s1) as M2 by (apply M1; try done; intros _; by eapply served_awake).
  pose proof M2 as [HI1 HR1 _ _ _].
  destruct (wake_events_run _ s1 es Hg HI1 HR1) as [Hab|(s2 & Hrun2 & HI2 & HR2 & Hc2 & Er2)]; [by rewrite Ea| |].
  { left. unfold mbind, M_bind. by rewrite Hab. }
  right. rewrite (bind_ok _ _ _ _ _ Hrun2).
  destruct (pass_run _ s2 i true HI2 HR2 (inserted_top _ _ _ Hi)) as (a & s3 & Hrun3 & M3).
  exists a, s3. split; [exact Hrun3|]. eapply moved_trans; [exact M2|]. destruct M3 as [N1 N2 N3 N4 N5].
  destruct (rest_stop _ _ Er2) as [Es _]. split; [done..|congruence|congruence|].
  intros Hm. apply N5. destruct (rest_ctl _ _ Er2) as (_ & _ & [=]). congruence.
Qed.

(** The call of [croutine_poller_wait] itself; it may consume a wake-up, but
    then the worker is awake. *)
Lemma poll_run pcs s i ms answers :
  sinv pcs s → running_ok pcs s → pcs !! i = Some (InPoll ms) →
  answered answers → fits_in MAX_POLLER_EVENTS answers →
  (∀ evs, Done evs ∈ answers → Forall event_ok evs) →
  ∃ r s', on_poller (poller_wait MAX_POLLER_EVENTS answers) s = Ok (r, s') ∧ moved pcs s i (Polled r) s'.
Proof.
  intros HI HR Hi Ha Hf He. destruct (si_sched _ _ HI) as (l & m & HW & Hsv).
  destruct (poller_wait_law MAX_POLLER_EVENTS answers (poller s) (wi_poller _ _ _ HW)) as (r & p' & Hrun & W1 & W2 & W3 & _);
    [by unfold MAX_POLLER_EVENTS|done..|].
  exists r, (set_poller p' s). split; [by apply on_poller_run|]. split; [|by eapply running_move|done..].
  pose proof (si_cond _ _ HI) as (C1 & C2 & C3).
  eapply (sinv_move pcs s _ i (InPoll ms) (Polled r) l m); try done; try apply HI; cbn; try lia.
  - by eapply winv_ext; [..|exact HW].
  - intros _. by eapply served_awake.
  - intros t obj Ho Hl. right. by exists obj.
  - intros Hm. destruct (si_calm _ _ HI Hm) as (? & ? & _). split_and!; [done..|]. intros j ms' Hj.
    pose proof (si_poll _ _ HI) as Hl. pose proof (count_insert polling pcs i _ AtTop Hi) as Hci. cbn in Hci.
    apply list_lookup_insert_Some in Hj as [(_ & ? & _)|[Hne Hj]]; [done|].
    assert (0 < count polling (<[i := AtTop]> pcs)).
    { eapply (count_elem _ _ j (InPoll ms')); [by rewrite list_lookup_insert_ne|done]. }
    destruct (poller_waiter_active s); cbn in Hl; lia.
Qed.

(** A new worker thread. *)
Lemma start_run pcs s :
  sinv pcs s → running_ok pcs s → Z.of_nat (length pcs) + 1 < 2 ^ 32 →
  sinv (pcs ++ [AtTop]) s ∧ running_ok (pcs ++ [AtTop]) s.
Proof.
  intros [I1 I2 I3 I4 I5 I6 I7 I8 I9 I10 I11 I12 I13 I14] HR Hn.
  assert (∀ j z, (pcs ++ [AtTop]) !! j = Some z → pcs !! j = Some z ∨ z = AtTop) as Hl.
  { intros j z. rewrite lookup_app_Some, list_lookup_singleton_Some. naive_solver. }
  split; [split; rewrite ?count_app, ?length_app; cbn; rewrite ?Z.add_0_r; try done; try lia|].
  - destruct I1 as (l & m & HW & Hs). exists l, m. split; [done|]. intros _. right. right. left.
    rewrite count_app. cbn. pose proof (count_nonneg awake_pc pcs). lia.
  - intros j z t Hj Hz. destruct (Hl j z Hj) as [?| ->]; [by eapply I3|done].
  - intros j k z z' t Hj Hk Hz Hz'. destruct (Hl j z Hj) as [Hj'| ->]; [|done].
    destruct (Hl k z' Hk) as [Hk'| ->]; [by eapply I4|done].
  - intros t obj Ht Hlo. destruct (I5 t obj Ht Hlo) as (j & z & Hj & Hz). exists j, z. split; [|done].
    by apply lookup_app_l_Some.
  - intros j Hj. destruct (Hl j Exited Hj) as [?|?]; [by eapply I11|done].
  - intros Hm. destruct (I14 Hm) as (? & ? & ?). split_and!; [done..|].
    intros j ms Hj. destruct (Hl j _ Hj) as [?|?]; [eauto|done].
  - intros j t Hj. destruct (Hl j _ Hj) as [?|?]; [by eapply HR|done].
Qed.

(** ** The task switches back *)

(** Everything but the record of [t], the flags of main and the condition
    variable stays; worker [i] ran [t]. *)
Lemma sinv_back pcs s s' i t (y : TaskState) obj obj' l m :
  sinv pcs s → running_ok pcs s → pcs !! i = Some (Running t) → heap s !! t = Some obj →
  heap s' = <[t := obj']> (heap s) → owned obj' = owned obj → queued (scheduler obj') = false →
  state (scheduler obj') = y → winv s' l m → maps s' = maps s → blocks s' = blocks s →
  runtime_init_called s' = runtime_init_called s ∧ runtime_init_ok s' = runtime_init_ok s ∧
  configured_stack_size s' = configured_stack_size s →
  poller_waiter_active s' = poller_waiter_active s ∧ idle_workers s' = idle_workers s →
  (stopping s → stopping s') → (cv s' = cv s ∨ cv s' = broadcast (cv s)) → calm pcs s' →
  sinv (<[i := Back t y]> pcs) s' ∧ running_ok (<[i := Back t y]> pcs) s'.
Proof.
  intros HI HR Hi Ht Hh Hown Hq Hy HW Em Eb (Ei1 & Ei2 & Ess) [Ea Ei] Hst Ec Hca.
  pose proof (si_cond _ _ HI) as (C1 & C2 & C3).
  assert (∀ j z u, j ≠ i → pcs !! j = Some z → holds z = Some u → heap s' !! u = heap s !! u) as Hsame.
  { intros j z u Hne Hj Hz. rewrite Hh, lookup_insert_ne; [done|]. intros <-. by apply Hne, (si_once _ _ HI j i z (Running t) t). }
  destruct (cv_less s s') as (D1 & D2 & D3); [done|tauto|].
  split.
  - eapply (sinv_move pcs s s' i (Running t) (Back t y) l m); try done; cbn; rewrite ?Ea, ?Ei; try lia.
    + intros _. by eapply served_awake.
    + rewrite Ei1, Ei2. apply HI.
    + intros Hw. apply (si_asleep _ _ HI). lia.
    + intros j z u Hne Hj Hz. by rewrite (Hsame j z u).
    + intros u Hu. assert (u = t) as -> by (destruct y; by simplify_eq/=). rewrite Hh, lookup_insert_eq.
      split; [by exists obj'|]. intros j z Hne Hj Hz. by apply Hne, (si_once _ _ HI j i z (Running t) t).
    + intros u o. rewrite Hh, lookup_insert_Some. intros [[<- <-]|[Hne Ho]] Hl.
      * left. destruct Hl as [_ [E|E]]; rewrite <-Hy, E; done.
      * right. exists o. split_and!; [done..|]. congruence.
    + rewrite Em, Eb, Hh. eapply rinv_same; [|apply HI]. by eapply owned_insert.
    + by eapply calm_move.
  - eapply running_move; [done| |done]. intros j u Hne Hj. by eapply Hsame.
Qed.
End steps.
