(* ===== verification/SchedCalls.v ===== *)
(** * What tasks and other threads do keeps the scheduler's invariant

    Yielding, finishing, waiting for a descriptor, forgetting one and
    spawning (src/worker.c), and what the worker does with a task that has
    switched back to it. *)

From S2P Require Import Prelude Posix Memory ArchX86 Task IoWait PollerApi Worker WorkerInv.
From S2P Require Import Resources WorkerIo WorkerLoop SchedInv SchedSteps.

Section calls.
Context `{Alloc, Os, Entry} {P : Type} `{PollerLaws P}.
Implicit Types (s : sched P) (t u : tid) (obj : Task) (pcs : list pc) (x : pc) (l : list tid) (y : TaskState).

(** ** Switching back *)

Lemma yield_run pcs s i t :
  sinv pcs s → running_ok pcs s → pcs !! i = Some (Running t) →
  croutine_yield (Some t) = Some (mkWorker TASK_RUNNABLE false) ∧ moved pcs s i (Back t TASK_RUNNABLE) s.
Proof.
  intros HI HR Hi. split; [done|]. destruct (HR i t Hi) as (obj & Ht & Hs & Hq).
  destruct (si_sched _ _ HI) as (l & m & HW & _).
  destruct (sinv_back pcs s s i t TASK_RUNNABLE obj obj l m) as [J1 J2]; try done; [by rewrite insert_id|by left|apply HI].
Qed.

Lemma winv_finish s l m t obj :
  winv s l m → heap s !! t = Some obj → state (scheduler obj) = TASK_RUNNABLE → queued (scheduler obj) = false →
  winv (set_heap (<[t := set_state TASK_FINISHED obj]> (heap s)) s) l m.
Proof.
  intros HW Ht Hs Hq. assert (t ∉ l) as Hl.
  { intros Hin. apply (inv_flag _ _ _ (wi_queue _ _ _ HW) t obj Ht) in Hin. congruence. }
  assert (winv (set_runnable_tasks (runnable_tasks s) (set_heap (<[t := set_state TASK_FINISHED obj]> (heap s)) s)) l m)
    as HW'.
  { eapply winv_task; try done; [by rewrite Hs|]. eapply tq_inv_update; [apply HW|done..]. }
  eapply winv_ext; [..|exact HW']; done.
Qed.

(** A task returns from its body.  When it is the main task, the scheduler
    stops, every waiting worker is woken, and so is the poller. *)
Lemma finish_run pcs s i t :
  wake_reliable (P:=P) → sinv pcs s → running_ok pcs s → pcs !! i = Some (Running t) →
  ∃ s' obj, task_finished (Some t) s = Ok (tt, s') ∧ moved pcs s i (Back t TASK_FINISHED) s' ∧
    heap s !! t = Some obj ∧
    (is_main (scheduler obj) = true → scheduler_main_finished s' = true ∧ main_finished s' = true ∧
       cond_waiting s' = 0 ∧ wake_pending (poller s')) ∧
    (is_main (scheduler obj) = false → rest s' = rest s).
Proof.
  intros Hrel HI HR Hi. destruct (HR i t Hi) as (obj & Ht & Hs & Hq).
  destruct (si_sched _ _ HI) as (l & m & HW & _). unfold task_finished.
  rewrite (bind_ok _ _ _ _ _ (modify_task_run _ _ _ _ Ht)).
  erewrite bind_ok by (apply get_task_run; apply lookup_insert_eq).
  pose proof (winv_finish s l m t obj HW Ht Hs Hq) as HW1. set (obj' := set_state TASK_FINISHED obj) in *.
  set (s1 := set_heap (<[t := obj']> (heap s)) s) in *.
  assert (∀ s', heap s' = heap s1 → winv s' l m → maps s' = maps s → blocks s' = blocks s →
    runtime_init_called s' = runtime_init_called s ∧ runtime_init_ok s' = runtime_init_ok s ∧
    configured_stack_size s' = configured_stack_size s →
    poller_waiter_active s' = poller_waiter_active s ∧ idle_workers s' = idle_workers s →
    shutdown_requested s' = shutdown_requested s → (main_finished s = true → main_finished s' = true) →
    (stopping s → stopping s') → (cv s' = cv s ∨ cv s' = broadcast (cv s)) → calm pcs s' →
    moved pcs s i (Back t TASK_FINISHED) s') as Hmv.
  { intros s' E1 E2 E3 E4 E5 E6 E7 E8 E9 E10 E11.
    destruct (sinv_back pcs s s' i t TASK_FINISHED obj obj' l m) as [J1 J2]; try done.
    split; try done. apply (chans_insert s s' t obj obj' Ht E1). unfold chan_view, obj'. cbn. by rewrite Hs. }
  change (is_main (scheduler obj')) with (is_main (scheduler obj)).
  destruct (is_main (scheduler obj)) eqn:Em.
  - set (s2 := set_scheduler_main_finished true (set_main_finished true s1)).
    rewrite (bind_ok _ _ s1 tt (set_main_finished true s1)) by done. rewrite (bind_ok _ _ _ tt s2) by done.
    destruct (cond_broadcast_run s2) as (s3 & Hb & E1 & E2 & E3 & E4 & E5 & E6).
    rewrite (bind_ok _ _ _ _ _ Hb).
    assert (winv s3 l m) as HW3 by (eapply winv_ext; [..|exact HW1]; by rewrite ?E1, ?E2, ?E3, ?E4).
    destruct (poller_wake_run s3 (wi_poller _ _ _ HW3)) as (b & p' & Hw & Hp1 & Hp2 & Hp3 & Hp4 & Hp5).
    rewrite (bind_ok _ _ _ _ _ Hw). eexists _, obj. split; [done|].
    destruct (rest_ctl _ _ E5) as (G1 & G2 & G3). injection G3 as G4 G5 G6 G7 G8 G9 G10 G11 G12.
    injection E6 as Ec1 Ec2. pose proof (wake_reliable_run s3 b p' Hrel (wi_poller _ _ _ HW3) Hw Hp5) as Hpend.
    split_and!; try done.
    + apply Hmv; try done.
      * by eapply winv_ext; [..|exact HW3].
      * intros _. right. exact G10.
      * right. unfold cv, broadcast. cbn. by rewrite Ec1, Ec2.
      * intros _. split_and!; [by right|done..].
    + by rewrite Em.
  - exists s1, obj. split; [done|]. split_and!; [|done|by rewrite Em|done]. apply Hmv; try done; [by left|].
    by eapply calm_same; [apply HI|..].
Qed.

(** ** What becomes of a task that has switched back *)

Lemma back_run pcs s i t y :
  sinv pcs s → running_ok pcs s → pcs !! i = Some (Back t y) →
  loop_should_shutdown s = Ok (shutdown_requested s, s) ∧
  moved pcs s i (Dispatching t y (shutdown_requested s)) s.
Proof.
  intros HI HR Hi. split; [done|]. split; [|by eapply running_move|done..].
  destruct (si_sched _ _ HI) as (l & m & HW & Hsv). pose proof (si_cond _ _ HI) as (C1 & C2 & C3).
  eapply (sinv_move pcs s s i (Back t y) _ l m); try done; try apply HI; cbn; try lia.
  - intros _. by eapply served_awake.
  - intros u Hu. split; [by apply (si_holds _ _ HI i (Back t y))|].
    intros j z Hne Hj Hz. by apply Hne, (si_once _ _ HI j i z (Back t y) u).
  - intros u obj Ho Hl. destruct (decide (held_if t y = Some u)); [by left|right; by exists obj].
  - by eapply calm_move; [apply HI|..].
Qed.

Lemma winv_delete s l m t obj mp bl :
  winv s l m → heap s !! t = Some obj → queued (scheduler obj) = false → state (scheduler obj) ≠ TASK_WAITING_IO →
  winv (set_heap (delete t (heap s)) (set_maps mp (set_blocks bl s))) l m.
Proof.
  intros [[Q1 Q2 Q3 Q4] I2 I3 I4 I5 I6 I7 I8] Ht Hq Hs.
  assert (t ∉ l) as Hl by (intros Hin; apply (Q4 t obj Ht) in Hin; congruence).
  assert (∀ u d, waits_on (delete t (heap s)) u d ↔ waits_on (heap s) u d) as Hw.
  { intros u d. unfold waits_on. destruct (decide (u = t)) as [->|Hne].
    - rewrite lookup_delete_eq, Ht. naive_solver.
    - by rewrite lookup_delete_ne. }
  split; try done; cbn.
  - split; try done.
    + intros u Hu. rewrite lookup_delete_ne by (by intros <-). by apply Q3.
    + intros u o [_ Ho]%lookup_delete_Some. by apply Q4.
  - rewrite map_size_delete_Some by eauto. lia.
  - intros u o [_ Ho]%lookup_delete_Some. by apply I3.
  - intros d r w Hd. destruct (I7 d r w Hd) as (J1 & J2 & J3). split_and!; try done. intros u Hu. by apply Hw, J3.
  - intros u d Hu. by apply I8, Hw.
Qed.

(** The step of [loop_dispatch]: a task that is not needed any more is freed,
    one that yielded is queued again, one that is parked is left alone. *)
Definition frees (y : TaskState) (sd : bool) : bool :=
  match y with TASK_FINISHED => true | TASK_RUNNABLE => sd | _ => false end.

(** The outcome of [loop_dispatch]. *)
Record dispatched pcs s i t (free : bool) s' : Prop := {
  dp_inv : sinv (<[i := AtTop]> pcs) s';
  dp_running : running_ok (<[i := AtTop]> pcs) s';
  dp_shutdown : shutdown_requested s' = shutdown_requested s;
  dp_main : main_finished s = true → main_finished s' = true;
  dp_chans : chans s' = (if free then delete t (chans s) else chans s)
}.

Section dispatch.
Context (pcs : list pc) (s : sched P) (i : nat) (t : tid) (y : TaskState) (sd : bool).
Context (l : list tid) (m : gmap Z (option tid * option tid)) (obj : Task).
Hypothesis HI : sinv pcs s.
Hypothesis HR : running_ok pcs s.
Hypothesis Hi : pcs !! i = Some (Dispatching t y sd).
Hypothesis HW : winv s l m.

Lemma dispatch_parked : held_if t y = None → dispatched pcs s i t false s.
Proof.
  intros Hy. pose proof (si_cond _ _ HI) as (C1 & C2 & C3). destruct (si_sched _ _ HI) as (l0 & m0 & HW0 & Hsv).
  split; [|by eapply running_move|done..].
  eapply (sinv_move pcs s s i (Dispatching t y sd) _ l0 m0); try done; try apply HI; cbn; try lia.
  - intros _. by eapply served_awake.
  - intros u o Ho Hl. right. exists o. split_and!; [done..|]. by rewrite Hy.
  - by eapply calm_move; [apply HI|..].
Qed.

Hypothesis Hh : held_if t y = Some t.
Hypothesis Ht : heap s !! t = Some obj.
Hypothesis Hq : queued (scheduler obj) = false.
Hypothesis Hs : state (scheduler obj) = y.

Lemma dispatch_other j z u : j ≠ i → pcs !! j = Some z → holds z = Some u → u ≠ t.
Proof. intros Hne Hj Hz ->. by apply Hne, (si_once _ _ HI j i z _ t Hj Hi). Qed.

Lemma dispatch_free : ∃ s', cleanup_task (Some t) s = Ok (tt, s') ∧ dispatched pcs s i t true s'.
Proof.
  destruct (cleanup_run s t obj (si_owned _ _ HI) Ht) as (mp & bl & Hrun & _ & _ & HR').
  eexists. split; [exact Hrun|]. pose proof (si_cond _ _ HI) as (C1 & C2 & C3). split.
  - eapply (sinv_move pcs s _ i (Dispatching t y sd) _ l m); try done; try apply HI; cbn; try lia.
    + eapply winv_delete; [done..|]. rewrite Hs. by destruct y.
    + intros _. by eapply served_awake.
    + intros j z u Hne Hj Hz. rewrite lookup_delete_ne; [done|]. intros <-. by eapply dispatch_other.
    + intros u o [Hne Ho]%lookup_delete_Some Hl. right. exists o. split_and!; [done..|].
      rewrite Hh. congruence.
    + by eapply calm_move; [apply HI|..].
  - eapply running_move; [done| |done]. intros j u Hne Hj. cbn. rewrite lookup_delete_ne; [done|].
    intros <-. by eapply dispatch_other.
  - done.
  - done.
  - apply fmap_delete.
Qed.

Lemma dispatch_requeue : calloc_grants → y = TASK_RUNNABLE →
  ∃ s1 s', push_runnable t s = Ok (true, s1) ∧ cond_signal s1 = Ok (tt, s') ∧ dispatched pcs s i t false s'.
Proof.
  intros Hg Hy. assert (t ∉ l) as Hl.
  { intros Hin. apply (inv_flag _ _ _ (wi_queue _ _ _ HW) t obj Ht) in Hin. congruence. }
  destruct (push_run s l m t obj HW Ht Hl) as (s1 & Hrun & HW1 & Hh1 & Hp1 & Er1 & Ec1); [|by rewrite Hs|].
  { eapply room_granted; [apply HW|done|apply HW]. }
  destruct (cond_signal_run s1) as (s2 & Hsig & F1 & F2 & F3 & F4 & F5 & F6).
  exists s1, s2. split; [done|]. split; [done|]. pose proof (si_cond _ _ HI) as (C1 & C2 & C3).
  assert (heap s2 = <[t := set_queued true obj]> (heap s)) as Hh2 by congruence.
  assert (rest s2 = rest s) as Er by congruence.
  destruct (rest_active _ _ Er) as [Ea Ei], (rest_ctl _ _ Er) as (Em & Eb & _).
  assert (cond_waiting s2 + cond_woken s2 = cond_waiting s + cond_woken s ∧
    0 ≤ cond_waiting s2 ≤ cond_waiting s ∧ 0 ≤ cond_woken s2) as (D1 & D2 & D3).
  { rewrite Ec1 in F6. apply cv_less; [done|auto]. }
  split; [| |by destruct (rest_stop _ _ Er)|by destruct (rest_ctl _ _ Er) as (_ & _ & [=]); congruence|by eapply chans_insert].
  - eapply (sinv_move pcs s s2 i (Dispatching t _ _) _ (l ++ [t]) m); try done; cbn; rewrite ?Ea, ?Ei; try lia.
    + eapply winv_ext; [..|exact HW1]; by rewrite ?F4.
    + intros _. by eapply served_awake.
    + destruct (rest_init _ _ Er) as [-> ->]. apply HI.
    + by apply (stopping_rest _ _ Er).
    + intros Hw. apply (si_asleep _ _ HI). lia.
    + intros j z u Hne Hj Hz. rewrite Hh2, lookup_insert_ne; [done|]. intros <-. by eapply dispatch_other.
    + intros u o. rewrite Hh2, lookup_insert_Some. intros [[<- <-]|[Hne Ho]] Hlo; [by destruct Hlo|].
      right. exists o. split_and!; [done..|]. congruence.
    + rewrite Em, Eb, Hh2. eapply rinv_same; [|apply HI]. by eapply owned_insert.
    + by destruct (rest_ctl _ _ Er) as (_ & _ & [=]).
    + eapply (calm_move pcs s); [apply HI|by destruct (rest_ctl _ _ Er) as (_ & _ & [=])|by apply (stopping_rest _ _ Er)|lia| |done].
      rewrite F4, Hp1. done.
  - eapply running_move; [done| |done]. intros j u Hne Hj. rewrite Hh2, lookup_insert_ne; [done|].
    intros <-. by eapply dispatch_other.
Qed.
End dispatch.

Lemma dispatch_run pcs s i t y sd :
  calloc_grants → sinv pcs s → running_ok pcs s → pcs !! i = Some (Dispatching t y sd) →
  ∃ s', loop_dispatch t y sd s = Ok (tt, s') ∧ dispatched pcs s i t (frees y sd) s'.
Proof.
  intros Hg HI HR Hi. destruct (si_sched _ _ HI) as (l & m & HW & _).
  destruct (held_if t y) as [u|] eqn:Hy.
  - assert (u = t) as -> by (destruct y; by simplify_eq/=).
    destruct (si_holds _ _ HI i _ t Hi Hy) as (obj & Ht & Hq & Hs). destruct (frees y sd) eqn:Ef.
    + destruct (dispatch_free pcs s i t y sd l m obj HI HR Hi HW Hy Ht Hq Hs) as (s' & Hrun & Hd).
      exists s'. split; [|done]. unfold loop_dispatch. by destruct y, sd.
    + assert (y = TASK_RUNNABLE ∧ sd = false) as [Ey ->] by (by destruct y, sd).
      destruct (dispatch_requeue pcs s i t y false l m obj HI HR Hi HW Hy Ht Hq Hs Hg Ey) as (s1 & s' & H1' & H2' & Hd).
      exists s'. split; [|done]. unfold loop_dispatch. rewrite Ey. cbn [andb]. by rewrite (bind_ok _ _ _ _ _ H1').
  - exists s. assert (frees y sd = false) as -> by (by destruct y). split.
    + unfold loop_dispatch. destruct y, sd; done.
    + by eapply dispatch_parked.
Qed.

(** ** Waiting for a descriptor *)

Lemma same_heap_step pcs s s' l m :
  sinv pcs s → running_ok pcs s → winv s' l m → (l ≠ [] → served pcs s) → heap s' = heap s → rest s' = rest s →
  cv s' = cv s → (wake_pending (poller s) → wake_pending (poller s')) →
  sinv pcs s' ∧ running_ok pcs s' ∧ chans s' = chans s ∧ shutdown_requested s' = shutdown_requested s ∧
  main_finished s' = main_finished s.
Proof.
  intros HI HR HW Hsv Hh Er Ec Hp. split_and!.
  - eapply sinv_step; [done..| |done|by left|done| | |]; rewrite ?Hh; try done.
    + intros Hl. eapply served_same; [done..|]. by apply Hsv.
    + intros t obj Ho Hl. left. by exists obj.
  - unfold running_ok. by rewrite Hh.
  - unfold chans. by rewrite Hh.
  - by destruct (rest_stop _ _ Er).
  - by destruct (rest_ctl _ _ Er) as (_ & _ & [=]).
Qed.

Lemma io_park_step pcs s i t d ev :
  sinv pcs s → running_ok pcs s → pcs !! i = Some (Running t) → fd_valid (poller s) d → one_event ev →
  ∃ b s', worker_park_current_on_io (Some t) d ev s = Ok (b, s') ∧
    moved pcs s i (if b then Back t TASK_WAITING_IO else Running t) s' ∧ (shutdown_requested s = true → b = false).
Proof.
  intros HI HR Hi Hd Hev. destruct (HR i t Hi) as (obj & Ht & Hs & Hq).
  destruct (si_sched _ _ HI) as (l & m & HW & Hsv).
  assert (<[i := Running t]> pcs = pcs) as Hid by (by apply list_insert_id).
  assert (moved pcs s i (Running t) s) as Hstay by (split; by rewrite ?Hid).
  destruct (shutdown_requested s) eqn:Esd.
  { exists false, s. split; [|done]. unfold worker_park_current_on_io.
    destruct (ev =? CROUTINE_IO_EVENT_NONE); [done|]. by rewrite (bind_ok _ _ s true s) by (by rewrite <-Esd). }
  destruct (park_io_run s l m t obj d ev HW Ht Hs Hq Esd Hd Hev) as [(_ & _ & Hrun)|Hrun]; [by exists false, s|].
  destruct (taken ev _); [by exists false, s|]. destruct Hrun as (ok & p' & _ & Hok). destruct ok.
  - destruct Hok as (s' & Hrun & HW' & Hh & Er & Ec & Hp). exists true, s'. split; [done|]. split; [|done].
    destruct (rest_active _ _ Er) as [Ea Ei], (rest_ctl _ _ Er) as (Em & Eb & _), (rest_init _ _ Er) as [En Eo].
    destruct (sinv_back pcs s s' i t TASK_WAITING_IO obj (parked_io d ev obj) l (<[d := joins ev t (default (None, None) (m !! d))]> m))
      as [J1 J2]; try done.
    + split_and!; try done. by destruct (rest_ctl _ _ Er) as (_ & _ & [=]).
    + by apply (stopping_rest _ _ Er).
    + by left.
    + eapply calm_same; [apply HI|by destruct (rest_ctl _ _ Er) as (_ & _ & [=])|by apply (stopping_rest _ _ Er)| |done].
      by injection Ec as -> _.
    + split; try done; [|by destruct (rest_stop _ _ Er)|by destruct (rest_ctl _ _ Er) as (_ & _ & [=]); congruence].
      apply (chans_insert s s' t obj _ Ht Hh). unfold chan_view. cbn. by rewrite Hs.
  - destruct Hok as (s' & Hrun & HW' & Hh & Er & Ec & Hp). exists false, s'. split; [done|]. split; [|done].
    destruct (same_heap_step pcs s s' l m) as (J1 & J2 & J3 & J4 & J5); try done.
    split; rewrite ?Hid; try done. congruence.
Qed.

Lemma forget_step pcs s d :
  calloc_grants → wake_reliable (P:=P) → sinv pcs s → running_ok pcs s →
  worker_forget_fd d s = Abort interest_refused ∨
  ∃ s', worker_forget_fd d s = Ok (tt, s') ∧ sinv pcs s' ∧ running_ok pcs s' ∧ chans s' = chans s ∧
    shutdown_requested s' = shutdown_requested s ∧ main_finished s' = main_finished s.
Proof.
  intros Hg Hrel HI HR. destruct (si_sched _ _ HI) as (l & m & HW & Hsv).
  destruct (Z.ltb_spec d 0).
  { right. exists s. split; [|done]. unfold worker_forget_fd. by destruct (Z.ltb_spec d 0); [|lia]. }
  destruct (forget_run s l m d HW Hg ltac:(done)) as [(s' & Hrun & HW' & Hh & Er & Ec & Hp & Hw)|[Hab _]]; [right|by left].
  exists s'. split; [done|]. destruct (rest_stop _ _ Er) as [Es _].
  assert (main_finished s' = main_finished s) as Em by (by destruct (rest_ctl _ _ Er) as (_ & _ & [=])).
  destruct (m !! d) as [v|] eqn:Ed; cbn in *.
  - destruct (sinv_io_wake pcs s s' l m (delete d m) d RW false v HI HR HW Hsv Ed Hh HW' Er Ec Hp) as (J1 & J2 & J3); [|done].
    intros Hne Ha. by apply Hw.
  - destruct (same_heap_step pcs s s' l (delete d m)) as (J1 & J2 & J3 & J4 & _); try done. by rewrite app_nil_r in HW'.
Qed.

(** ** Spawning *)

Lemma ctl_stop s s' : ctl s' = ctl s → (stopping s' ↔ stopping s) ∧
  runtime_init_called s' = runtime_init_called s ∧ runtime_init_ok s' = runtime_init_ok s ∧
  poller_waiter_active s' = poller_waiter_active s ∧ idle_workers s' = idle_workers s ∧
  configured_stack_size s' = configured_stack_size s ∧ shutdown_requested s' = shutdown_requested s.
Proof. unfold stopping. intros [=]. split_and!; try done. naive_solver congruence. Qed.

Lemma sinv_spawned pcs s s' l m f a bytes asz own main t obj :
  wake_reliable (P:=P) → sinv pcs s → running_ok pcs s →
  spawned s s' l m f a bytes asz own main t obj → sinv pcs s' ∧ running_ok pcs s'.
Proof.
  intros Hrel HI HR [S1 S2 S3 S4 S5 S6 S7 S8 S9 S10 S11].
  destruct (ctl_stop _ _ S7) as (E1 & E2 & E3 & E4 & E5 & E6 & E7).
  assert (∀ u o, heap s !! u = Some o → heap s' !! u = Some o) as Hkeep.
  { intros u o Hu. rewrite S2, lookup_insert_ne; [done|]. congruence. }
  pose proof HI as [I1 I2 I3 I4 I5 I6 I7 I8 I9 I10 I11 I12 I13 I14]. destruct S3 as (_ & S3 & _).
  destruct (cv_less s s') as (D1 & D2 & D3); [by apply I8|auto|].
  split; [split; rewrite ?E2, ?E3, ?E4, ?E5, ?E6; try done; try lia|].
  - exists (l ++ [t]), m. split; [done|]. intros _. eapply served_signal; [done..|]. intros _. by apply S11.
  - intros i x u Hx Hu. specialize (I3 i x u Hx Hu). destruct x as [|ms|r|c|v|v y|v y sd|]; try done; cbn in *;
      destruct I3 as (o & Ho & ?); exists o; eauto.
  - intros u o. rewrite S2, lookup_insert_Some. intros [[<- <-]|[_ Ho]] Hl; [|by eapply I5].
    destruct Hl as [Hq _]. by rewrite S3 in Hq.
  - intros Hw. apply I10. lia.
  - intros i Hi. apply E1. by eapply I11.
  - eapply calm_same; [done|by injection S7|by apply E1|lia|auto].
  - intros i u Hi. destruct (HR i u Hi) as (o & Ho & ?). exists o. eauto.
Qed.

Lemma spawn_step pcs s fpenv f a bytes asz copy main :
  page_size_ok → mmap_fresh → wake_reliable (P:=P) → sinv pcs s → running_ok pcs s →
  (copy && (0 <? asz) = true → asz ≤ Z.of_nat (length bytes)) →
  ∃ b s', worker_spawn fpenv f a bytes asz copy main s = Ok (b, s') ∧ sinv pcs s' ∧ running_ok pcs s' ∧
    shutdown_requested s' = shutdown_requested s ∧ main_finished s' = main_finished s ∧
    (chans s' = chans s ∨ ∃ t, chans s !! t = None ∧ chans s' = <[t := (false, false)]> (chans s)).
Proof.
  intros Hpage Hfresh Hrel HI HR Hb. destruct (si_sched _ _ HI) as (l & m & HW & Hsv).
  destruct (spawn_run fpenv f a bytes asz copy main s l m HW (si_owned _ _ HI) (si_init _ _ HI) Hpage Hfresh
    (si_stack _ _ HI) Hb) as [(s' & t & obj & Hrun & Hsp)|(mm & Hrun)].
  - exists true, s'. destruct (sinv_spawned _ _ _ _ _ _ _ _ _ _ _ _ _ Hrel HI HR Hsp) as [J1 J2].
    destruct Hsp as [S1 S2 (_ & S3 & S4 & _) _ _ _ S7 _ _ _ _]. split_and!; try done.
    + by destruct (ctl_stop _ _ S7) as (_ & _ & _ & _ & _ & _ & ->).
    + by injection S7.
    + right. exists t. unfold chans. rewrite S2, lookup_fmap, S1, fmap_insert. split; [done|].
      unfold chan_view. rewrite S3, S4. done.
  - eexists false, _. split; [done|]. split_and!; try done; [|by left].
    destruct HI as [I1 I2 I3 I4 I5 I6 I7 I8 I9 I10 I11 I12 I13 I14]. split; try done.
    destruct I1 as (l0 & m0 & HW0 & Hs0). exists l0, m0. split; [by eapply winv_ext; [..|exact HW0]|done].
Qed.
End calls.
