(* ===== verification/WorkerStop.v ===== *)
(** * Clean-up at the end ([worker_deinit], src/worker.c)

    With the workers gone, every task is queued or parked on a descriptor;
    [worker_deinit] frees all of them, with their stacks and their copied
    arguments, and takes the poller down. *)

From S2P Require Import Prelude Posix Memory ArchX86 Task IoWait PollerApi Worker WorkerInv.
From S2P Require Import Resources WorkerIo WorkerLoop SchedInv SchedSteps SchedCalls.

Section stop.
Context `{Alloc, Os, Entry} {P : Type} `{PollerLaws P}.
Implicit Types (s : sched P) (t u : tid) (obj : Task) (l : list tid) (h : gmap tid Task).
Implicit Types (m : gmap Z (option tid * option tid)) (r w : option tid).

(** Every task is queued or waits for a descriptor. *)
Definition idle_tasks h l : Prop :=
  ∀ t obj, h !! t = Some obj → t ∈ l ∨ state (scheduler obj) = TASK_WAITING_IO.

Lemma pop_waits s o s' : pop_runnable s = Ok (o, s') → io_waits s' = io_waits s ∧ ctl s' = ctl s.
Proof.
  unfold pop_runnable. destruct (task_queue_pop _ _ _) as [[[[ok t] [q|]] h]| | |]; try done.
  by intros [= <- <-].
Qed.

(** ** The run queue *)

Lemma deinit_queue_run l : ∀ n s m, (length l < n)%nat →
  winv s l m → rinv (heap s) (maps s) (blocks s) → idle_tasks (heap s) l →
  ∃ s', deinit_queue n s = Ok (tt, s') ∧ winv s' [] m ∧ rinv (heap s') (maps s') (blocks s') ∧
    idle_tasks (heap s') [] ∧ io_waits s' = io_waits s ∧ ctl s' = ctl s.
Proof.
  induction l as [|t l IH]; intros [|n] s m Hn HW HR Hi; cbn in Hn; try lia; cbn [deinit_queue].
  - rewrite (bind_ok _ _ _ _ _ (pop_empty _ _ HW)). by exists s.
  - destruct (pop_run _ _ _ _ HW) as (obj & s1 & Hp & Ht & HW1 & Hs & _ & Hh & _ & Hrest & _).
    destruct (pop_waits _ _ _ Hp) as [Hwt Hctl]. rewrite (bind_ok _ _ _ _ _ Hp).
    injection Hrest as Eb Em _ _.
    assert (rinv (heap s1) (maps s1) (blocks s1)) as HR1.
    { rewrite Eb, Em, Hh. by eapply rinv_same; [eapply owned_insert|]. }
    assert (heap s1 !! t = Some (set_queued false obj)) as Ht1 by (by rewrite Hh, lookup_insert_eq).
    destruct (cleanup_run s1 t _ HR1 Ht1) as (mp & bl & Hc & _ & _ & HR2).
    rewrite (bind_ok _ _ _ _ _ Hc).
    assert (state (scheduler (set_queued false obj)) ≠ TASK_WAITING_IO) as Hns by (cbn; congruence).
    pose proof (winv_delete _ _ _ _ _ mp bl HW1 Ht1 eq_refl Hns) as HW2.
    edestruct (IH n _ m ltac:(lia) HW2 HR2) as (s' & Hrun & HW' & HR' & Hi' & Hw' & Hc').
    { cbn. intros u o [Hne Hu]%lookup_delete_Some. rewrite Hh, lookup_insert_ne in Hu by done.
      destruct (Hi u o Hu) as [[->|Hin]%elem_of_cons|Hst]; [done|by left|by right]. }
    exists s'. rewrite Hw', Hc'. split_and!; try done.
Qed.

(** ** The parked tasks *)

(** The tasks that are left, and the table that leads to them. *)
Record parked_only s m : Prop := {
  po_table : it_rep (io_waits s) m;
  po_owned : rinv (heap s) (maps s) (blocks s);
  po_waits : ∀ d r w t, m !! d = Some (r, w) → r = Some t ∨ w = Some t → waits_on (heap s) t d;
  po_all : ∀ t obj, heap s !! t = Some obj → ∃ d r w, m !! d = Some (r, w) ∧ (r = Some t ∨ w = Some t)
}.

Lemma parked_only_init s m :
  winv s [] m → rinv (heap s) (maps s) (blocks s) → idle_tasks (heap s) [] → parked_only s m.
Proof.
  intros HW HR Hi. split; [apply HW|done| |].
  - intros d r w t Hd Ht. by apply (wi_entry _ _ _ HW d r w Hd).
  - intros t obj Ht. destruct (Hi t obj Ht) as [Hin|Hs]; [by apply elem_of_nil in Hin|].
    destruct (wi_waiting _ _ _ HW t (io_fd (io_wait obj))) as (r & w & Hm & Hrw); [by exists obj|]. eauto.
Qed.

Lemma rep_lookup tb m i e :
  it_rep tb m → entries tb !! i = Some e → in_use e = true → m !! fd e = Some (parked_of e).
Proof.
  intros [_ _ _ Hnd ->] He Hu. rewrite (used_split _ _ _ He), Hu in Hnd |- *. cbn [app] in Hnd |- *.
  destruct (bindings_middle _ _ _ Hnd) as (-> & _). apply lookup_insert_eq.
Qed.
Lemma rep_none tb m : it_rep tb m → (∀ i e, entries tb !! i = Some e → in_use e = false) → m = ∅.
Proof.
  intros [_ _ _ _ ->] Hno. destruct (used (entries tb)) as [|e es] eqn:E; [done|].
  assert (e ∈ used (entries tb)) as [Hu [i Hi]]%elem_of_used by (rewrite E; left).
  rewrite (Hno i e Hi) in Hu. done.
Qed.

(** Freeing the reader and the writer of one entry. *)
Lemma cleanup_opt s r :
  rinv (heap s) (maps s) (blocks s) → (∀ t, r = Some t → is_Some (heap s !! t)) →
  ∃ h mp bl, cleanup_task r s = Ok (tt, set_heap h (set_maps mp (set_blocks bl s))) ∧ rinv h mp bl ∧
    ∀ t obj, h !! t = Some obj ↔ heap s !! t = Some obj ∧ r ≠ Some t.
Proof.
  intros HR Hr. destruct r as [t|].
  - destruct (Hr t eq_refl) as [obj Ht]. destruct (cleanup_run s t obj HR Ht) as (mp & bl & Hc & _ & _ & HR').
    eexists _, mp, bl. split; [exact Hc|split; [done|]].
    intros u o. rewrite lookup_delete_Some. naive_solver.
  - exists (heap s), (maps s), (blocks s). split; [by destruct s|split; [done|]]. naive_solver.
Qed.
Lemma cleanup_pair s r w :
  rinv (heap s) (maps s) (blocks s) → (∀ t, r = Some t ∨ w = Some t → is_Some (heap s !! t)) →
  ∃ h mp bl, (cleanup_task r;; if decide (w = r) then mret tt else cleanup_task w) s =
      Ok (tt, set_heap h (set_maps mp (set_blocks bl s))) ∧ rinv h mp bl ∧
    ∀ t obj, h !! t = Some obj ↔ heap s !! t = Some obj ∧ r ≠ Some t ∧ w ≠ Some t.
Proof.
  intros HR Hrw. destruct (cleanup_opt s r HR) as (h & mp & bl & Hc & HR' & Hh); [naive_solver|].
  rewrite (bind_ok _ _ _ _ _ Hc). destruct (decide (w = r)) as [->|Hne].
  - exists h, mp, bl. split_and!; [done..|]. naive_solver.
  - destruct (cleanup_opt (set_heap h (set_maps mp (set_blocks bl s))) w HR') as (h' & mp' & bl' & Hc' & HR'' & Hh').
    { intros t ->. destruct (Hrw t (or_intror eq_refl)) as [obj Ht]. exists obj. apply Hh. naive_solver. }
    exists h', mp', bl'. split; [exact Hc'|split; [done|]]. intros t obj. rewrite Hh'. cbn. rewrite Hh. tauto.
Qed.

Lemma deinit_entry s m i e :
  parked_only s m → entries (io_waits s) !! Z.to_nat i = Some e → in_use e = true →
  ∃ tb s', io_wait_table_remove_entry (io_waits s) (Some i) = Ok tb ∧
    (cleanup_task (read_task e);;
     if decide (write_task e = read_task e) then mret tt else cleanup_task (write_task e))
      (set_io_waits tb s) = Ok (tt, s') ∧
    parked_only s' (delete (fd e) m) ∧ it_capacity (io_waits s') = it_capacity (io_waits s) ∧
    entries (io_waits s') = <[Z.to_nat i := io_wait_entry_reset]> (entries (io_waits s)) ∧
    poller s' = poller s ∧ ctl s' = ctl s.
Proof.
  intros [T1 T2 T3 T4] He Hu. pose proof (rep_lookup _ _ _ _ T1 He Hu) as Hm.
  destruct (remove_spec _ _ _ _ T1 He Hu) as (tb & Hrm & Hrep & Hcap & Hes).
  destruct (cleanup_pair (set_io_waits tb s) (read_task e) (write_task e) T2) as (h & mp & bl & Hc & HR & Hh).
  { intros t Ht. destruct (T3 _ _ _ t Hm Ht) as (obj & Ho & _). by exists obj. }
  exists tb. eexists. split; [done|]. split; [exact Hc|]. split_and!; try done. split; cbn; [done..| |].
  - intros d r w t [Hne Hd]%lookup_delete_Some Ht. destruct (T3 d r w t Hd Ht) as (obj & Ho & Hs & Hf).
    exists obj. split; [|done]. apply Hh. split; [done|].
    split; intros E; (destruct (T3 _ _ _ t Hm) as (obj' & Ho' & _ & Hf'); [auto|cbn in Ho; congruence]).
  - intros t obj (Ho & Hr & Hw)%Hh. destruct (T4 t obj Ho) as (d & r & w & Hd & Ht). exists d, r, w. split; [|done].
    rewrite lookup_delete_ne; [done|]. intros E. rewrite E, Hd in Hm. injection Hm as -> ->. tauto.
Qed.

Lemma deinit_waits_run n : ∀ i s m, parked_only s m → 0 ≤ i → i + Z.of_nat n = it_capacity (io_waits s) →
  (∀ j e, (j < Z.to_nat i)%nat → entries (io_waits s) !! j = Some e → in_use e = false) →
  ∃ s', deinit_waits n i s = Ok (tt, s') ∧ parked_only s' ∅ ∧ poller s' = poller s ∧ ctl s' = ctl s.
Proof.
  induction n as [|n IH]; intros i s m HP Hi Hn Hdone; cbn [deinit_waits].
  - assert (m = ∅) as ->; [|by exists s]. eapply rep_none; [apply HP|].
    intros j e Hj. eapply Hdone, Hj. apply lookup_lt_Some in Hj. pose proof (it_len _ _ (po_table _ _ HP)). lia.
  - pose proof (it_len _ _ (po_table _ _ HP)) as Hlen.
    destruct (lookup_lt_is_Some_2 (entries (io_waits s)) (Z.to_nat i)) as [e He]; [lia|].
    rewrite (bind_ok _ _ s (io_waits s) s) by done.
    rewrite (bind_ok _ _ s e s) by (unfold lift; by rewrite (entry_get_ok _ _ _ He)).
    destruct (in_use e) eqn:Hu; cbn [negb].
    + destruct (deinit_entry _ _ _ _ HP He Hu) as (tb & s1 & Hrm & Hc & HP1 & Hcap & Hes & Hpo & Hctl).
      erewrite bind_ok; cycle 1.
      { rewrite (bind_ok _ _ s tb s) by (unfold lift; by rewrite Hrm).
        rewrite (bind_ok _ _ s tt (set_io_waits tb s)) by done. exact Hc. }
      destruct (IH (i + 1) s1 _ HP1) as (s' & Hrun & HP' & Hpo' & Hctl'); [lia..| |].
      * intros j e' Hj. rewrite Hes, list_lookup_insert_Some.
        intros [(_ & <- & _)|[Hne He']]; [done|]. eapply Hdone, He'. lia.
      * exists s'. by rewrite Hpo', Hctl'.
    + rewrite (bind_ok _ _ s tt s) by done.
      apply (IH _ _ m HP); [lia..|]. intros j e' Hj He'.
      destruct (decide (j = Z.to_nat i)) as [->|]; [congruence|]. eapply Hdone, He'. lia.
Qed.

(** ** All of it *)

(** What is left after [worker_deinit]. *)
Record shut_down s s' : Prop := {
  sd_heap : heap s' = ∅;
  sd_maps : maps s' = ∅;
  sd_blocks : blocks s' = ∅;
  sd_queue : runnable_tasks s' = mkTaskQueue None 0 0 0 0;
  sd_table : io_waits s' = mkIoWaitTable [] 0 0;
  sd_poller : poller_down (poller s');
  sd_init : runtime_init_called s' = runtime_init_called s ∧ runtime_init_ok s' = false;
  sd_exit : shutdown_requested s' = shutdown_requested s ∧ main_exit_code s' = main_exit_code s
}.

Lemma deinit_run s l m :
  winv s l m → rinv (heap s) (maps s) (blocks s) → idle_tasks (heap s) l → runtime_init_ok s = true →
  ∃ s', worker_deinit s = Ok (tt, s') ∧ shut_down s s'.
Proof.
  intros HW HR Hi Hok. unfold worker_deinit. rewrite (bind_ok _ _ s true s) by (by rewrite <-Hok).
  cbn [negb]. rewrite (bind_ok _ _ s s s) by done.
  destruct (deinit_queue_run l (S (Z.to_nat (tq_count (runnable_tasks s)))) s m) as
    (s1 & H1' & HW1 & HR1 & Hi1 & Ht1 & Hc1); [|done..|].
  { pose proof (rep_count _ _ (inv_rep _ _ _ (wi_queue _ _ _ HW))). lia. }
  rewrite (bind_ok _ _ _ _ _ H1').
  pose proof (parked_only_init _ _ HW1 HR1 Hi1) as HP.
  pose proof (it_len _ _ (po_table _ _ HP)) as Hlen.
  destruct (deinit_waits_run (Z.to_nat (it_capacity (io_waits s))) 0 s1 m HP) as (s2 & H2' & HP2 & Hpo2 & Hc2);
    [lia|rewrite <-Ht1; lia|intros j e Hj; lia|].
  rewrite (bind_ok _ _ _ _ _ H2').
  destruct (poller_deinit_law (poller s2)) as (p & Hp & Hdown); [rewrite Hpo2; apply HW1|].
  rewrite (bind_ok _ _ _ _ _ (on_poller_run _ _ _ _ Hp)).
  assert (heap s2 = ∅) as Hh.
  { apply map_empty. intros t. destruct (heap s2 !! t) as [obj|] eqn:E; [|done].
    destruct (po_all _ _ HP2 t obj E) as (d & r & w & Hd & _). by rewrite lookup_empty in Hd. }
  destruct (rinv_empty _ _ _ (po_owned _ _ HP2) Hh) as [Hmp Hbl].
  rewrite Hc1 in Hc2. injection Hc2 as E1 _ E2 _ _ _ _ E3 _.
  eexists. split; [reflexivity|]. by split.
Qed.
End stop.
