(* ===== verification/WaitQueue.v ===== *)
(** * Channel waiters and their queues (src/channel.c, lines 10-123)

    A waiter lives on the stack of the task that parks; a channel links the
    waiters of its senders and of its receivers into two doubly linked lists.
    The lists are intrusive: linking, popping and unlinking rewrite pointers
    inside the waiters.  [wq_rep] relates a queue to the list of its waiters,
    and the three operations are shown to append, to remove the first and to
    remove an arbitrary element. *)

From S2P Require Import Prelude Task.

Inductive ChannelWaiterKind := CW_REGULAR | CW_SELECT.
(** [croutine_select_op] *)
Inductive croutine_select_op := CROUTINE_SELECT_OP_SEND | CROUTINE_SELECT_OP_RECV.
#[global] Instance ChannelWaiterKind_eq_dec : EqDecision ChannelWaiterKind.
Proof. solve_decision. Defined.
#[global] Instance select_op_eq_dec : EqDecision croutine_select_op.
Proof. solve_decision. Defined.

(** [void *] to a value: an object of the caller, or a slot of a channel's
    buffer. *)
Inductive vptr := UserPtr (p : positive) | BufPtr (c : positive) (offset : Z).

Record ChannelWaiter := mkWaiter {
  w_kind : ChannelWaiterKind;
  w_op : croutine_select_op;
  w_prev : option positive;
  w_next : option positive;
  w_channel : option positive;
  w_task : option tid;
  w_value_slot : option vptr;
  w_state : option positive;
  w_case_index : Z
}.

Record ChannelWaitQueue := mkWaitQueue {
  wq_head : option positive;
  wq_tail : option positive
}.

Definition set_prev (v : option positive) (w : ChannelWaiter) : ChannelWaiter :=
  mkWaiter (w_kind w) (w_op w) v (w_next w) (w_channel w) (w_task w) (w_value_slot w)
    (w_state w) (w_case_index w).
Definition set_next (v : option positive) (w : ChannelWaiter) : ChannelWaiter :=
  mkWaiter (w_kind w) (w_op w) (w_prev w) v (w_channel w) (w_task w) (w_value_slot w)
    (w_state w) (w_case_index w).
Definition set_channel (v : option positive) (w : ChannelWaiter) : ChannelWaiter :=
  mkWaiter (w_kind w) (w_op w) (w_prev w) (w_next w) v (w_task w) (w_value_slot w)
    (w_state w) (w_case_index w).

(** The live waiters, and one queue. *)
Record wq_state := mkWq { wq_heap : gmap positive ChannelWaiter; wq_q : ChannelWaitQueue }.

Definition get_w (w : positive) : M wq_state ChannelWaiter := deref (λ s, wq_heap s !! w).
Definition upd_w (w : positive) (f : ChannelWaiter → ChannelWaiter) : M wq_state unit :=
  x ← get_w w; modify (λ s, mkWq (<[w := f x]> (wq_heap s)) (wq_q s)).
Definition set_q_head (v : option positive) : M wq_state unit :=
  modify (λ s, mkWq (wq_heap s) (mkWaitQueue v (wq_tail (wq_q s)))).
Definition set_q_tail (v : option positive) : M wq_state unit :=
  modify (λ s, mkWq (wq_heap s) (mkWaitQueue (wq_head (wq_q s)) v)).

Definition wait_queue_push_tail (w channel : positive) : M wq_state unit :=
  q ← gets wq_q;
  upd_w w (set_prev (wq_tail q));;
  upd_w w (set_next None);;
  upd_w w (set_channel (Some channel));;
  (match wq_tail q with
   | Some t => upd_w t (set_next (Some w))
   | None => set_q_head (Some w)
   end);;
  set_q_tail (Some w).

Definition wait_queue_pop_head : M wq_state (option positive) :=
  q ← gets wq_q;
  match wq_head q with
  | None => mret None
  | Some w =>
      x ← get_w w;
      set_q_head (w_next x);;
      (match w_next x with
       | Some h => upd_w h (set_prev None)
       | None => set_q_tail None
       end);;
      upd_w w (set_prev None);;
      upd_w w (set_next None);;
      upd_w w (set_channel None);;
      mret (Some w)
  end.

Definition wait_queue_unlink (w : positive) : M wq_state unit :=
  x ← get_w w;
  (match w_prev x with
   | Some p => upd_w p (set_next (w_next x))
   | None => q ← gets wq_q;
             if decide (wq_head q = Some w) then set_q_head (w_next x) else mret tt
   end);;
  x ← get_w w;
  (match w_next x with
   | Some n => upd_w n (set_prev (w_prev x))
   | None => q ← gets wq_q;
             if decide (wq_tail q = Some w) then set_q_tail (w_prev x) else mret tt
   end);;
  upd_w w (set_prev None);;
  upd_w w (set_next None);;
  upd_w w (set_channel None).

(** ** Doubly linked segments *)

(** [dseg h ch p l n]: the waiters [l] are linked in order, the first has
    predecessor [p], the last successor [n], and all are parked on [ch]. *)
Fixpoint dseg (h : gmap positive ChannelWaiter) (ch : positive)
    (p : option positive) (l : list positive) (n : option positive) : Prop :=
  match l with
  | [] => True
  | w :: l' =>
      (∃ x, h !! w = Some x ∧ w_prev x = p ∧ w_channel x = Some ch ∧
            w_next x = match l' with [] => n | w' :: _ => Some w' end) ∧
      dseg h ch (Some w) l' n
  end.

Definition first (l : list positive) (d : option positive) : option positive :=
  match l with [] => d | w :: _ => Some w end.
Definition final (l : list positive) (d : option positive) : option positive :=
  match last l with None => d | Some w => Some w end.

(** The queue [q] of channel [ch] links the waiters [l], in order. *)
Record wq_rep (h : gmap positive ChannelWaiter) (ch : positive) (q : ChannelWaitQueue)
    (l : list positive) : Prop := {
  wq_nodup : NoDup l;
  wq_head_eq : wq_head q = first l None;
  wq_tail_eq : wq_tail q = final l None;
  wq_seg : dseg h ch None l None
}.

(** What linking does not touch. *)
Definition payload (x : ChannelWaiter) :=
  (w_kind x, w_op x, w_task x, w_value_slot x, w_state x, w_case_index x).

Record wq_frame (h h' : gmap positive ChannelWaiter) (l : list positive) : Prop := {
  frame_out : ∀ u, u ∉ l → h' !! u = h !! u;
  frame_dom : dom h' = dom h;
  frame_payload : ∀ u x, h !! u = Some x → ∃ x', h' !! u = Some x' ∧ payload x' = payload x
}.

Lemma wq_frame_refl h l : wq_frame h h l.
Proof. split; eauto. Qed.

Lemma wq_frame_trans h1 h2 h3 l l' :
  wq_frame h1 h2 l → wq_frame h2 h3 l' → wq_frame h1 h3 (l ++ l').
Proof.
  intros [A1 A2 A3] [B1 B2 B3]. split.
  - intros u Hu. rewrite B1, A1; set_solver.
  - by rewrite B2.
  - intros u x Hx. destruct (A3 _ _ Hx) as (y & Hy & <-). by apply B3.
Qed.

Lemma wq_frame_mono h h' l l' : l ⊆ l' → wq_frame h h' l → wq_frame h h' l'.
Proof. intros Hl [A1 A2 A3]. split; [|done..]. intros u Hu. apply A1. set_solver. Qed.

Lemma wq_frame_upd h w x x' :
  h !! w = Some x → payload x' = payload x → wq_frame h (<[w := x']> h) [w].
Proof.
  intros Hx Hp. split.
  - intros u Hu. apply lookup_insert_ne. set_solver.
  - apply dom_insert_lookup_L. eauto.
  - intros u y Hy. destruct (decide (u = w)) as [->|Hne].
    + rewrite lookup_insert_eq. exists x'. split; [done|]. congruence.
    + rewrite lookup_insert_ne by done. eauto.
Qed.

Lemma dseg_ext h h' ch p l n :
  (∀ u, u ∈ l → h' !! u = h !! u) → dseg h ch p l n → dseg h' ch p l n.
Proof.
  revert p. induction l as [|w l IH]; intros p Hu; [done|]. simpl.
  intros [(x & Hx & Hr) Hl]. split.
  - exists x. rewrite Hu by left. done.
  - apply IH; [|done]. intros u Hin. apply Hu. by right.
Qed.

Lemma dseg_live h ch p l n u : dseg h ch p l n → u ∈ l → ∃ x, h !! u = Some x ∧ w_channel x = Some ch.
Proof.
  revert p. induction l as [|w l IH]; intros p Hl Hu; [set_solver|].
  destruct Hl as [(x & Hx & _ & Hc & _) Hl].
  apply elem_of_cons in Hu as [->|Hu]; eauto.
Qed.

Lemma dseg_app h ch p l1 l2 n :
  dseg h ch p (l1 ++ l2) n ↔ dseg h ch p l1 (first l2 n) ∧ dseg h ch (final l1 p) l2 n.
Proof.
  revert p. induction l1 as [|w l1 IH]; intros p; [simpl; tauto|].
  cbn [app dseg]. rewrite IH.
  assert (final (w :: l1) p = final l1 (Some w)) as ->.
  { unfold final. rewrite last_cons. by destruct (last l1). }
  destruct l1 as [|w' l1]; simpl; tauto.
Qed.

Lemma final_snoc l w d : final (l ++ [w]) d = Some w.
Proof. unfold final. by rewrite last_snoc. Qed.

Lemma final_app_cons l1 w l2 d : final (l1 ++ w :: l2) d = final l2 (Some w).
Proof. unfold final. rewrite last_app, last_cons. by destruct (last l2). Qed.

Lemma final_elem l d w : final l d = Some w → d = None → w ∈ l.
Proof. unfold final. destruct (last l) eqn:E; intros [= ->] ?; [by apply last_Some_elem_of|done]. Qed.

(** A segment whose two outer links are redirected. *)
Lemma dseg_next h h' ch p l w n n' x :
  dseg h ch p (l ++ [w]) n → NoDup (l ++ [w]) →
  h !! w = Some x → h' !! w = Some (set_next n' x) →
  (∀ u, u ∈ l → h' !! u = h !! u) →
  dseg h' ch p (l ++ [w]) n'.
Proof.
  intros Hs Hnd Hx Hx' Hu. apply dseg_app in Hs as [H1 H2].
  apply dseg_app. split; [by eapply dseg_ext|].
  destruct H2 as [(y & Hy & Hp & Hc & Hn) _]. simplify_eq.
  simpl. split; [|done]. eauto 10.
Qed.

Lemma dseg_prev h h' ch p p' w l n x :
  dseg h ch p (w :: l) n → w ∉ l →
  h !! w = Some x → h' !! w = Some (set_prev p' x) →
  (∀ u, u ∈ l → h' !! u = h !! u) →
  dseg h' ch p' (w :: l) n.
Proof.
  intros [(y & Hy & Hp & Hc & Hn) Hl] Hnot Hx Hx' Hu. simplify_eq. simpl. split.
  - eauto 10.
  - by eapply dseg_ext.
Qed.

Lemma upd_w_run h q w x f :
  h !! w = Some x → upd_w w f (mkWq h q) = Ok (tt, mkWq (<[w := f x]> h) q).
Proof. intros Hx. unfold upd_w, get_w, deref, mbind, M_bind. simpl. by rewrite Hx. Qed.

Lemma get_w_run h q w x : h !! w = Some x → get_w w (mkWq h q) = Ok (x, mkWq h q).
Proof. intros Hx. unfold get_w, deref. simpl. by rewrite Hx. Qed.

Lemma gets_run {St A} (f : St → A) s : gets f s = Ok (f s, s).
Proof. reflexivity. Qed.

(** Run the next heap access, whose lookup the hypotheses determine. *)
Ltac wq_step :=
  first
    [ rewrite (bind_ok _ _ _ _ _ (gets_run _ _)); cbn [wq_q wq_heap wq_head wq_tail]
    | erewrite bind_ok by (apply upd_w_run; simplify_map_eq; done)
    | erewrite bind_ok by (apply get_w_run; simplify_map_eq; done)
    | erewrite bind_ok by (unfold set_q_head, set_q_tail, modify; reflexivity);
      cbn [wq_q wq_heap wq_head wq_tail] ].

(** The waiter [w] is taken out of all links. *)
Definition unlinked (x : ChannelWaiter) : ChannelWaiter :=
  set_channel None (set_next None (set_prev None x)).

Lemma push_tail_spec h ch q l w x :
  wq_rep h ch q l → w ∉ l → h !! w = Some x →
  ∃ h' q', wait_queue_push_tail w ch (mkWq h q) = Ok (tt, mkWq h' q') ∧
           wq_rep h' ch q' (l ++ [w]) ∧ wq_frame h h' (l ++ [w]).
Proof.
  intros [Hnd Hh Ht Hs] Hw Hx.
  assert (NoDup (l ++ [w])) as Hnd'.
  { apply NoDup_app. split; [done|]. split; [set_solver|apply NoDup_singleton]. }
  set (x' := set_channel (Some ch) (set_next None (set_prev (wq_tail q) x))).
  assert (payload x' = payload x) as Hp by done.
  unfold wait_queue_push_tail. do 4 wq_step. rewrite !insert_insert_eq. fold x'.
  destruct l as [|t l _] using rev_ind.
  - simpl in Ht, Hh. rewrite Ht. do 1 wq_step.
    eexists _, _. split; [reflexivity|]. split.
    + split; simpl; try done. split; [|done]. exists x'. rewrite lookup_insert_eq.
      subst x'; simpl. by rewrite Ht.
    + by eapply wq_frame_upd.
  - rewrite final_snoc in Ht. rewrite Ht.
    assert (t ≠ w) as Htw by set_solver.
    apply dseg_app in Hs as [Hs1 Hs2]. pose proof Hs2 as [(xt & Hxt & Htp & Htc & Htn) _].
    erewrite bind_ok by (apply upd_w_run; rewrite lookup_insert_ne by done; exact Hxt).
    eexists _, _. split; [reflexivity|]. split.
    + split; simpl; [done| | |].
      * rewrite Hh. by destruct l.
      * by rewrite final_snoc.
      * apply dseg_app. split.
        -- eapply (dseg_next h _ ch None l t None); [by apply dseg_app|..].
           ++ by apply NoDup_app in Hnd' as [? _].
           ++ done.
           ++ by rewrite lookup_insert_eq.
           ++ intros u Hu. rewrite !lookup_insert_ne; [done|set_solver|].
              apply NoDup_app in Hnd as (_ & Hnt & _). intros <-. by apply (Hnt t Hu), list_elem_of_singleton.
        -- rewrite final_snoc. simpl. split; [|done]. exists x'.
           rewrite lookup_insert_ne, lookup_insert_eq by done. subst x'; simpl. by rewrite Ht.
    + apply (wq_frame_mono _ _ ([w] ++ [t])); [set_solver|].
      apply (wq_frame_trans _ (<[w := x']> h)).
      * by eapply wq_frame_upd.
      * eapply (wq_frame_upd _ t xt); [by rewrite lookup_insert_ne|done].
Qed.

Lemma pop_head_nil h ch q : wq_rep h ch q [] → wait_queue_pop_head (mkWq h q) = Ok (None, mkWq h q).
Proof. intros [_ Hh _ _]. unfold wait_queue_pop_head. wq_step. by rewrite Hh. Qed.

Lemma pop_head_spec h ch q w l :
  wq_rep h ch q (w :: l) →
  ∃ h' q' x, h !! w = Some x ∧
    wait_queue_pop_head (mkWq h q) = Ok (Some w, mkWq h' q') ∧
    wq_rep h' ch q' l ∧ wq_frame h h' (w :: l) ∧ h' !! w = Some (unlinked x).
Proof.
  intros [Hnd Hh Ht Hs]. apply NoDup_cons in Hnd as [Hw Hnd].
  destruct Hs as [(x & Hx & Hp & Hc & Hn) Hs]. simpl in Hh.
  unfold wait_queue_pop_head. wq_step. rewrite Hh. wq_step. wq_step. rewrite Hn.
  destruct l as [|w' l].
  - wq_step. do 3 wq_step. rewrite !insert_insert_eq.
    eexists _, _, x. split; [done|]. split; [reflexivity|]. split; [by split|].
    split; [by eapply wq_frame_upd|]. by rewrite lookup_insert_eq.
  - destruct Hs as [(x' & Hx' & Hp' & Hc' & Hn') Hs].
    assert (w' ≠ w) by set_solver. wq_step. do 3 wq_step. rewrite !insert_insert_eq.
    eexists _, _, x. split; [done|]. split; [reflexivity|]. split; [|split].
    + apply NoDup_cons in Hnd as [Hw' Hnd].
      split; simpl; [by apply NoDup_cons|done| |].
      * rewrite Ht. unfold final. rewrite !last_cons. by destruct (last l).
      * apply (dseg_prev h _ ch (Some w) None w' l None x'); simpl; try done.
        -- split; [|done]. eauto 10.
        -- rewrite lookup_insert_ne, lookup_insert_eq by done. done.
        -- intros u Hu. rewrite !lookup_insert_ne; [done|set_solver|set_solver].
    + apply (wq_frame_mono _ _ ([w'] ++ [w])); [set_solver|].
      apply (wq_frame_trans _ (<[w' := set_prev None x']> h)).
      * by eapply wq_frame_upd.
      * eapply (wq_frame_upd _ w x); [by rewrite lookup_insert_ne|done].
    + by rewrite lookup_insert_eq.
Qed.

(** The two halves of [wait_queue_unlink]: closing the gap on the left ... *)
Lemma unlink_left h ch q l1 w l2 x :
  dseg h ch None l1 (Some w) → NoDup l1 → w ∉ l1 →
  w_prev x = final l1 None → w_next x = first l2 None →
  wq_head q = first (l1 ++ [w]) None →
  ∃ h' q',
    (match w_prev x with
     | Some p => upd_w p (set_next (w_next x))
     | None => q ← gets wq_q;
               if decide (wq_head q = Some w) then set_q_head (w_next x) else mret tt
     end) (mkWq h q) = Ok (tt, mkWq h' q') ∧
    wq_head q' = first (l1 ++ l2) None ∧ wq_tail q' = wq_tail q ∧
    dseg h' ch None l1 (first l2 None) ∧ wq_frame h h' l1.
Proof.
  intros Hs Hnd Hw Hp Hn Hh. destruct l1 as [|p l1 _] using rev_ind.
  - rewrite Hp. simpl. wq_step. simpl in Hh. rewrite Hh, decide_True by done.
    eexists _, _. split; [reflexivity|]. simpl. split_and!; try done. apply wq_frame_refl.
  - rewrite Hp, final_snoc.
    destruct (dseg_live _ _ _ _ _ p Hs) as (xp & Hxp & _); [set_solver|].
    rewrite (upd_w_run _ _ _ _ _ Hxp). eexists _, _. split; [reflexivity|]. simpl.
    split_and!; [rewrite Hh; by destruct l1|done| |].
    + rewrite Hn. eapply (dseg_next h _ ch None l1 p (Some w)); try done.
      * by rewrite lookup_insert_eq.
      * intros u Hu. apply lookup_insert_ne. apply NoDup_app in Hnd as (_ & Hd & _).
        intros <-. by apply (Hd p Hu), list_elem_of_singleton.
    + eapply wq_frame_mono; [|by eapply wq_frame_upd]. set_solver.
Qed.

(** ... and on the right. *)
Lemma unlink_right h ch q l1 w l2 x :
  dseg h ch (Some w) l2 None → NoDup l2 → w ∉ l2 →
  w_prev x = final l1 None → w_next x = first l2 None →
  wq_tail q = final l2 (Some w) →
  ∃ h' q',
    (match w_next x with
     | Some n => upd_w n (set_prev (w_prev x))
     | None => q ← gets wq_q;
               if decide (wq_tail q = Some w) then set_q_tail (w_prev x) else mret tt
     end) (mkWq h q) = Ok (tt, mkWq h' q') ∧
    wq_tail q' = final (l1 ++ l2) None ∧ wq_head q' = wq_head q ∧
    dseg h' ch (final l1 None) l2 None ∧ wq_frame h h' l2.
Proof.
  intros Hs Hnd Hw Hp Hn Ht. destruct l2 as [|n l2].
  - rewrite Hn. simpl. wq_step. simpl in Ht. rewrite Ht, decide_True by done.
    eexists _, _. split; [reflexivity|]. simpl. rewrite app_nil_r.
    split_and!; try done. apply wq_frame_refl.
  - rewrite Hn. simpl. apply NoDup_cons in Hnd as [Hnn Hnd].
    destruct (dseg_live _ _ _ _ _ n Hs) as (xn & Hxn & _); [set_solver|].
    rewrite (upd_w_run _ _ _ _ _ Hxn). eexists _, _. split; [reflexivity|].
    cbn [wq_head wq_tail]. split; [|split; [done|split]].
    + rewrite Ht, final_app_cons. unfold final. rewrite last_cons. by destruct (last l2).
    + rewrite Hp. eapply (dseg_prev h _ ch (Some w)); try done.
      * by rewrite lookup_insert_eq.
      * intros u Hu. apply lookup_insert_ne. set_solver.
    + eapply wq_frame_mono; [|by eapply wq_frame_upd]. set_solver.
Qed.

Lemma unlink_spec h ch q l1 w l2 :
  wq_rep h ch q (l1 ++ w :: l2) →
  ∃ h' q' x, h !! w = Some x ∧
    wait_queue_unlink w (mkWq h q) = Ok (tt, mkWq h' q') ∧
    wq_rep h' ch q' (l1 ++ l2) ∧ wq_frame h h' (l1 ++ w :: l2) ∧
    h' !! w = Some (unlinked x).
Proof.
  intros [Hnd Hh Ht Hs]. apply dseg_app in Hs as [Hs1 [(x & Hx & Hp & Hc & Hn) Hs2]].
  rewrite <-Permutation_middle in Hnd. apply NoDup_cons in Hnd as [Hw Hnd].
  pose proof (NoDup_app l1 l2) as Happ. apply Happ in Hnd as (Hnd1 & Hdis & Hnd2).
  assert ((w ∉ l1) ∧ w ∉ l2) as [Hw1 Hw2] by set_solver.
  assert (w_next x = first l2 None) as Hnx by (rewrite Hn; by destruct l2).
  unfold wait_queue_unlink. wq_step.
  destruct (unlink_left h ch q l1 w l2 x) as (h1 & q1 & H1 & Hh1 & Ht1 & Hl1 & F1); try done.
  { rewrite Hh. by destruct l1. }
  rewrite (bind_ok _ _ _ _ _ H1).
  erewrite bind_ok by (apply get_w_run; rewrite (frame_out _ _ _ F1) by done; exact Hx).
  destruct (unlink_right h1 ch q1 l1 w l2 x) as (h2 & q2 & H2 & Ht2 & Hh2 & Hl2 & F2); try done.
  { eapply dseg_ext; [|exact Hs2]. intros u Hu. apply (frame_out _ _ _ F1). set_solver. }
  { rewrite Ht1, Ht. by rewrite final_app_cons. }
  rewrite (bind_ok _ _ _ _ _ H2).
  assert (h2 !! w = Some x) as Hx2.
  { rewrite (frame_out _ _ _ F2), (frame_out _ _ _ F1); done. }
  do 2 wq_step.
  erewrite upd_w_run by (rewrite lookup_insert_eq; done). rewrite !insert_insert_eq.
  eexists _, _, x. split; [done|]. split; [reflexivity|]. split; [|split].
  - split; [by apply Happ|by rewrite Hh2|by rewrite Ht2|]. apply dseg_app. split.
    + eapply dseg_ext; [|exact Hl1]. intros u Hu. rewrite lookup_insert_ne by set_solver.
      apply (frame_out _ _ _ F2). set_solver.
    + eapply dseg_ext; [|exact Hl2]. intros u Hu. apply lookup_insert_ne. set_solver.
  - apply (wq_frame_mono _ _ ((l1 ++ l2) ++ [w])); [set_solver|].
    apply (wq_frame_trans _ h2); [by eapply wq_frame_trans|].
    by eapply wq_frame_upd.
  - by rewrite lookup_insert_eq.
Qed.
