(* ===== verification/Channel.v ===== *)
(** * Channels (src/channel.c, lines 40-511, and croutine/channel.h)

    Buffered and unbuffered channels of fixed-size values.  The buffer is the
    byte array of the C code, indexed by slot; a sender or receiver that
    cannot proceed parks in one of the two wait queues.  The scheduler is
    used through the interface [Scheduler], which src/worker.c implements. *)

From S2P Require Import Prelude Task WaitQueue.

(** ** What the channels need of the scheduler (internal/worker.h) *)

Class Scheduler (W : Type) := {
  (** [worker_wake_task_locked(task, success)] *)
  sched_wake : option tid → bool → W → outcome (bool * W);
  (** [worker_shutdown_requested_locked()] *)
  sched_shutdown : W → bool;
  (** [worker_park_current_on_channel_locked()], before the switch: [true]
      when the current task is parked *)
  sched_park : option tid → W → outcome (bool * W);
  (** ... and after it: the recorded wake outcome *)
  sched_resume : tid → W → outcome (bool * W)
}.

(** ** Data *)

Inductive croutine_channel_send_result := CROUTINE_CHANNEL_SEND_OK | CROUTINE_CHANNEL_SEND_CLOSED.
Inductive croutine_channel_recv_result :=
| CROUTINE_CHANNEL_RECV_VALUE | CROUTINE_CHANNEL_RECV_EMPTY | CROUTINE_CHANNEL_RECV_CLOSED.
Inductive croutine_select_status :=
| CROUTINE_SELECT_STATUS_VALUE | CROUTINE_SELECT_STATUS_CLOSED | CROUTINE_SELECT_STATUS_SENT.

Record croutine_channel := mkChannel {
  elem_size : Z;
  capacity : Z;
  closed : bool;
  buffer : option (list byte);
  len : Z;
  head : Z;
  tail : Z;
  send_waiters : ChannelWaitQueue;
  recv_waiters : ChannelWaitQueue;
  registry_prev : option positive;
  registry_next : option positive
}.

Record CroutineSelectState := mkSelectState {
  done : bool;
  chosen_index : Z;
  chosen_status : croutine_select_status
}.

(** The channel runtime: the live channels, waiters and select states, the
    registry of all channels, the values the callers point to, and the
    scheduler. *)
Record cstate (W : Type) := mkCstate {
  channels : gmap positive croutine_channel;
  waiters : gmap positive ChannelWaiter;
  selects : gmap positive CroutineSelectState;
  channel_registry : option positive;
  values : gmap positive (list byte);
  worker : W
}.
Arguments channels {W}.
Arguments waiters {W}.
Arguments selects {W}.
Arguments channel_registry {W}.
Arguments values {W}.
Arguments worker {W}.
Arguments mkCstate {W}.

Section setters.
Context {W : Type}.
Implicit Types s : cstate W.
Definition set_channels v s : cstate W :=
  mkCstate v (waiters s) (selects s) (channel_registry s) (values s) (worker s).
Definition set_waiters v s : cstate W :=
  mkCstate (channels s) v (selects s) (channel_registry s) (values s) (worker s).
Definition set_selects v s : cstate W :=
  mkCstate (channels s) (waiters s) v (channel_registry s) (values s) (worker s).
Definition set_channel_registry v s : cstate W :=
  mkCstate (channels s) (waiters s) (selects s) v (values s) (worker s).
Definition set_values v s : cstate W :=
  mkCstate (channels s) (waiters s) (selects s) (channel_registry s) v (worker s).
Definition set_worker v s : cstate W :=
  mkCstate (channels s) (waiters s) (selects s) (channel_registry s) (values s) v.
End setters.

Definition set_ring (buf : option (list byte)) (l h t : Z) (c : croutine_channel) : croutine_channel :=
  mkChannel (elem_size c) (capacity c) (closed c) buf l h t (send_waiters c) (recv_waiters c)
    (registry_prev c) (registry_next c).
Definition set_closed (b : bool) (c : croutine_channel) : croutine_channel :=
  mkChannel (elem_size c) (capacity c) b (buffer c) (len c) (head c) (tail c)
    (send_waiters c) (recv_waiters c) (registry_prev c) (registry_next c).
Definition queue_of (op : croutine_select_op) (c : croutine_channel) : ChannelWaitQueue :=
  match op with
  | CROUTINE_SELECT_OP_SEND => send_waiters c
  | CROUTINE_SELECT_OP_RECV => recv_waiters c
  end.
Definition set_queue_of (op : croutine_select_op) (q : ChannelWaitQueue) (c : croutine_channel)
  : croutine_channel :=
  match op with
  | CROUTINE_SELECT_OP_SEND =>
      mkChannel (elem_size c) (capacity c) (closed c) (buffer c) (len c) (head c) (tail c)
        q (recv_waiters c) (registry_prev c) (registry_next c)
  | CROUTINE_SELECT_OP_RECV =>
      mkChannel (elem_size c) (capacity c) (closed c) (buffer c) (len c) (head c) (tail c)
        (send_waiters c) q (registry_prev c) (registry_next c)
  end.
Definition set_registry_prev (v : option positive) (c : croutine_channel) : croutine_channel :=
  mkChannel (elem_size c) (capacity c) (closed c) (buffer c) (len c) (head c) (tail c)
    (send_waiters c) (recv_waiters c) v (registry_next c).
Definition set_registry_next (v : option positive) (c : croutine_channel) : croutine_channel :=
  mkChannel (elem_size c) (capacity c) (closed c) (buffer c) (len c) (head c) (tail c)
    (send_waiters c) (recv_waiters c) (registry_prev c) v.

Section channel.
Context `{Alloc} {W : Type} `{Scheduler W}.
Abbreviation St := (cstate W).

Definition get_chan (c : positive) : M St croutine_channel := deref (λ s, channels s !! c).
Definition upd_chan (c : positive) (f : croutine_channel → croutine_channel) : M St unit :=
  x ← get_chan c; modify (λ s, set_channels (<[c := f x]> (channels s)) s).
Definition get_waiter (w : positive) : M St ChannelWaiter := deref (λ s, waiters s !! w).

Definition on_worker {A} (m : W → outcome (A * W)) : M St A := λ s,
  '(a, w) ← m (worker s); Ok (a, set_worker w s).

(** A queue operation on the [op] queue of channel [c]. *)
Definition on_queue {A} (c : positive) (op : croutine_select_op) (m : M wq_state A) : M St A :=
  λ s,
  match channels s !! c with
  | None => Stuck
  | Some ch =>
      '(a, q) ← m (mkWq (waiters s) (queue_of op ch));
      Ok (a, set_waiters (wq_heap q)
               (set_channels (<[c := set_queue_of op (wq_q q) ch]> (channels s)) s))
  end.

(** ** Memory *)

(** The bytes behind a value pointer; [n] bytes must be there. *)
Definition read_bytes (p : option vptr) (n : Z) : M St (list byte) := λ s,
  match p with
  | Some (UserPtr o) =>
      match values s !! o with
      | Some bs => if Z.of_nat (length bs) <? n then Stuck else Ok (take (Z.to_nat n) bs, s)
      | None => Stuck
      end
  | Some (BufPtr c off) =>
      match channels s !! c ≫= buffer with
      | Some bs => if Z.of_nat (length bs) <? off + n then Stuck
                   else Ok (take (Z.to_nat n) (drop (Z.to_nat off) bs), s)
      | None => Stuck
      end
  | None => Stuck
  end.

(** [new] written over [old] at offset [off] *)
Definition overwrite (old : list byte) (off : Z) (new : list byte) : list byte :=
  take (Z.to_nat off) old ++ new ++ drop (Z.to_nat off + length new) old.

Definition write_bytes (p : option vptr) (new : list byte) : M St unit := λ s,
  match p with
  | Some (UserPtr o) =>
      match values s !! o with
      | Some bs => if (length bs <? length new)%nat then Stuck
                   else Ok (tt, set_values (<[o := overwrite bs 0 new]> (values s)) s)
      | None => Stuck
      end
  | Some (BufPtr c off) =>
      match channels s !! c with
      | Some ch =>
          match buffer ch with
          | Some bs =>
              if Z.of_nat (length bs) <? off + Z.of_nat (length new) then Stuck
              else Ok (tt, set_channels
                     (<[c := set_ring (Some (overwrite bs off new)) (len ch) (head ch) (tail ch) ch]>
                        (channels s)) s)
          | None => Stuck
          end
      | None => Stuck
      end
  | None => Stuck
  end.

Definition copy_value (dst src : option vptr) (n : Z) : M St unit :=
  if n =? 0 then mret tt else bs ← read_bytes src n; write_bytes dst bs.

(** ** The ring buffer *)

Definition buffer_slot (c : positive) (index : Z) : M St (option vptr) :=
  ch ← get_chan c;
  mret (match buffer ch with
        | None => None
        | Some _ => if elem_size ch =? 0 then Some (BufPtr c 0)
                    else Some (BufPtr c (u64 (index * elem_size ch)))
        end).

Definition buffer_push (c : positive) (value : option vptr) : M St unit :=
  ch ← get_chan c;
  slot ← buffer_slot c (tail ch);
  copy_value slot value (elem_size ch);;
  ch ← get_chan c;
  t ← (λ s, i ← umod (u64 (tail ch + 1)) (capacity ch); Ok (i, s));
  upd_chan c (set_ring (buffer ch) (u64 (len ch + 1)) (head ch) t).

Definition buffer_pop (c : positive) (out : option vptr) : M St unit :=
  ch ← get_chan c;
  slot ← buffer_slot c (head ch);
  copy_value out slot (elem_size ch);;
  ch ← get_chan c;
  h ← (λ s, i ← umod (u64 (head ch + 1)) (capacity ch); Ok (i, s));
  upd_chan c (set_ring (buffer ch) (u64 (len ch - 1)) h (tail ch)).

(** ** Waking waiters *)

Definition waiter_dead (x : ChannelWaiter) : M St bool :=
  match w_kind x, w_state x with
  | CW_SELECT, Some st => ss ← deref (λ s, selects s !! st); mret (done ss)
  | _, _ => mret false
  end.

(** The loop pops at most every waiter once: there are no more iterations
    than live waiters. *)
Fixpoint pop_live (fuel : nat) (c : positive) (op : croutine_select_op)
  : M St (option positive) :=
  match fuel with
  | O => λ _, OutOfFuel
  | S fuel =>
      w ← on_queue c op wait_queue_pop_head;
      match w with
      | None => mret None
      | Some w =>
          x ← get_waiter w;
          dead ← waiter_dead x;
          if (dead : bool) then pop_live fuel c op else mret (Some w)
      end
  end.
Definition pop_live_waiter_locked (c : positive) (op : croutine_select_op)
  : M St (option positive) :=
  n ← gets (λ s, size (waiters s)); pop_live (S n) c op.

Definition complete_waiter_locked (w : positive) (status : croutine_select_status) : M St unit :=
  x ← get_waiter w;
  (match w_kind x with
   | CW_SELECT =>
       match w_state x with
       | None => stuck
       | Some st =>
           _ ← deref (λ s, selects s !! st);
           modify (λ s, set_selects
             (<[st := mkSelectState true (i32 (w_case_index x)) status]> (selects s)) s)
       end
   | CW_REGULAR => mret tt
   end);;
  ok ← on_worker (sched_wake (w_task x) true);
  if negb ok then abort "channel: could not schedule a woken task" else mret tt.

Definition wake_waiting_receiver_locked (c : positive) (value : option vptr) : M St bool :=
  receiver ← pop_live_waiter_locked c CROUTINE_SELECT_OP_RECV;
  match receiver with
  | None => mret false
  | Some w =>
      x ← get_waiter w;
      ch ← get_chan c;
      copy_value (w_value_slot x) value (elem_size ch);;
      complete_waiter_locked w CROUTINE_SELECT_STATUS_VALUE;;
      mret true
  end.

Definition wake_waiting_sender_direct_locked (c : positive) (out : option vptr) : M St bool :=
  sender ← pop_live_waiter_locked c CROUTINE_SELECT_OP_SEND;
  match sender with
  | None => mret false
  | Some w =>
      x ← get_waiter w;
      ch ← get_chan c;
      copy_value out (w_value_slot x) (elem_size ch);;
      complete_waiter_locked w CROUTINE_SELECT_STATUS_SENT;;
      mret true
  end.

Definition buffer_one_waiting_sender_locked (c : positive) : M St bool :=
  ch ← get_chan c;
  if (capacity ch =? 0) || (capacity ch <=? len ch) then mret false else
  sender ← pop_live_waiter_locked c CROUTINE_SELECT_OP_SEND;
  match sender with
  | None => mret false
  | Some w =>
      x ← get_waiter w;
      buffer_push c (w_value_slot x);;
      complete_waiter_locked w CROUTINE_SELECT_STATUS_SENT;;
      mret true
  end.

(** The body of the loop below, for the waiter [w] just popped. *)
Definition close_waiter (w : positive) : M St unit :=
  x ← get_waiter w;
  match w_kind x with
  | CW_SELECT =>
      match w_state x with
      | Some st =>
          ss ← deref (λ s, selects s !! st);
          if done ss then mret tt
          else complete_waiter_locked w CROUTINE_SELECT_STATUS_CLOSED
      | None => mret tt
      end
  | CW_REGULAR =>
      ok ← on_worker (sched_wake (w_task x) false);
      if negb ok then abort "channel: could not schedule a task woken by close"
      else mret tt
  end.

Fixpoint wake_all (fuel : nat) (c : positive) (op : croutine_select_op) : M St unit :=
  match fuel with
  | O => λ _, OutOfFuel
  | S fuel =>
      w ← on_queue c op wait_queue_pop_head;
      match w with
      | None => mret tt
      | Some w => close_waiter w;; wake_all fuel c op
      end
  end.
Definition wake_all_as_closed_locked (c : positive) (op : croutine_select_op) : M St unit :=
  n ← gets (λ s, size (waiters s)); wake_all (S n) c op.

(** ** Non-blocking attempts *)

Inductive try_send_result := TRY_SEND (r : croutine_channel_send_result) | TRY_SEND_WOULD_BLOCK.

Definition try_send_locked (c : positive) (value : option vptr) : M St try_send_result :=
  ch ← get_chan c;
  shutdown ← gets (λ s, sched_shutdown (worker s));
  if closed ch || shutdown then mret (TRY_SEND CROUTINE_CHANNEL_SEND_CLOSED) else
  handed ← wake_waiting_receiver_locked c value;
  if (handed : bool) then mret (TRY_SEND CROUTINE_CHANNEL_SEND_OK) else
  ch ← get_chan c;
  if (0 <? capacity ch) && (len ch <? capacity ch) then
    buffer_push c value;; mret (TRY_SEND CROUTINE_CHANNEL_SEND_OK)
  else mret TRY_SEND_WOULD_BLOCK.

Definition try_recv_locked (c : positive) (out : option vptr) : M St croutine_channel_recv_result :=
  ch ← get_chan c;
  if 0 <? len ch then
    buffer_pop c out;;
    ch ← get_chan c;
    (if negb (closed ch) then buffer_one_waiting_sender_locked c;; mret tt else mret tt);;
    mret CROUTINE_CHANNEL_RECV_VALUE
  else
    taken ← wake_waiting_sender_direct_locked c out;
    if (taken : bool) then mret CROUTINE_CHANNEL_RECV_VALUE else
    ch ← get_chan c;
    shutdown ← gets (λ s, sched_shutdown (worker s));
    if closed ch || shutdown then mret CROUTINE_CHANNEL_RECV_CLOSED
    else mret CROUTINE_CHANNEL_RECV_EMPTY.

(** ** The public operations *)

(** [sizeof(struct croutine_channel)] is 104. *)
Definition croutine_channel_create (esz cap : Z) : M St (option positive) :=
  if negb (cap =? 0) && (SIZE_MAX / cap <? esz) then mret None else
  if negb (calloc_ok 1 104) then mret None else
  let empty := mkWaitQueue None None in
  match (if cap =? 0 then Some None
         else Some <$> malloc (if u64 (esz * cap) =? 0 then 1 else u64 (esz * cap))) with
  | None => mret None
  | Some buf =>
      s ← get;
      let c := fresh (dom (channels s)) in
      modify (set_channels (<[c := mkChannel esz cap false buf 0 0 0 empty empty
                                    None (channel_registry s)]> (channels s)));;
      (match channel_registry s with
       | Some r => upd_chan r (set_registry_prev (Some c))
       | None => mret tt
       end);;
      modify (set_channel_registry (Some c));;
      mret (Some c)
  end.

(** A call that parks leaves a waiter on the caller's stack: the function
    is cut at the context switch.  [SendPark ok w]: [worker_park...]
    switched away ([ok]) or gave up; [resume] is the rest of the function. *)
Inductive send_step := SendReturn (r : croutine_channel_send_result)
                     | SendPark (parked : bool) (w : positive).
Inductive recv_step := RecvReturn (r : croutine_channel_recv_result)
                     | RecvPark (parked : bool) (w : positive).

Definition new_waiter (x : ChannelWaiter) : M St positive :=
  w ← gets (λ s, fresh (dom (waiters s)));
  modify (λ s, set_waiters (<[w := x]> (waiters s)) s);;
  mret w.
(** The function that declared the waiter returns. *)
Definition drop_waiter (w : positive) : M St unit :=
  modify (λ s, set_waiters (delete w (waiters s)) s).

Definition croutine_channel_send (current : option tid) (channel : option positive)
    (value : option vptr) : M St send_step :=
  match channel, value with
  | Some c, Some _ =>
      r ← try_send_locked c value;
      match r with
      | TRY_SEND r => mret (SendReturn r)
      | TRY_SEND_WOULD_BLOCK =>
          match current with
          | None => mret (SendReturn CROUTINE_CHANNEL_SEND_CLOSED)
          | Some task =>
              w ← new_waiter (mkWaiter CW_REGULAR CROUTINE_SELECT_OP_SEND None None None
                                (Some task) value None 0);
              on_queue c CROUTINE_SELECT_OP_SEND (wait_queue_push_tail w c);;
              parked ← on_worker (sched_park current);
              mret (SendPark parked w)
          end
      end
  | _, _ => mret (SendReturn CROUTINE_CHANNEL_SEND_CLOSED)
  end.

(** After the switch, or at once when parking was refused. *)
Definition channel_resume (op : croutine_select_op) (task : tid) (parked : bool)
    (c w : positive) : M St bool :=
  woken ← (if parked then on_worker (sched_resume task) else mret false);
  if (woken : bool) then
    success ← on_worker (sched_resume task);
    drop_waiter w;; mret success
  else
    x ← get_waiter w;
    (match w_channel x with
     | Some _ => on_queue c op (wait_queue_unlink w)
     | None => mret tt
     end);;
    drop_waiter w;; mret false.

Definition croutine_channel_send_resume (task : tid) (parked : bool) (c w : positive)
  : M St croutine_channel_send_result :=
  ok ← channel_resume CROUTINE_SELECT_OP_SEND task parked c w;
  mret (if (ok : bool) then CROUTINE_CHANNEL_SEND_OK else CROUTINE_CHANNEL_SEND_CLOSED).

Definition croutine_channel_try_send (channel : option positive) (value : option vptr) : M St bool :=
  match channel, value with
  | Some c, Some _ =>
      r ← try_send_locked c value;
      mret (match r with TRY_SEND CROUTINE_CHANNEL_SEND_OK => true | _ => false end)
  | _, _ => mret false
  end.

Definition croutine_channel_recv (current : option tid) (channel : option positive)
    (out : option vptr) : M St recv_step :=
  match channel, out with
  | Some c, Some _ =>
      r ← try_recv_locked c out;
      match r with
      | CROUTINE_CHANNEL_RECV_EMPTY =>
          match current with
          | None => mret (RecvReturn CROUTINE_CHANNEL_RECV_EMPTY)
          | Some task =>
              w ← new_waiter (mkWaiter CW_REGULAR CROUTINE_SELECT_OP_RECV None None None
                                (Some task) out None 0);
              on_queue c CROUTINE_SELECT_OP_RECV (wait_queue_push_tail w c);;
              parked ← on_worker (sched_park current);
              mret (RecvPark parked w)
          end
      | r => mret (RecvReturn r)
      end
  | _, _ => mret (RecvReturn CROUTINE_CHANNEL_RECV_CLOSED)
  end.

Definition croutine_channel_recv_resume (task : tid) (parked : bool) (c w : positive)
  : M St croutine_channel_recv_result :=
  ok ← channel_resume CROUTINE_SELECT_OP_RECV task parked c w;
  mret (if (ok : bool) then CROUTINE_CHANNEL_RECV_VALUE else CROUTINE_CHANNEL_RECV_CLOSED).

Definition croutine_channel_try_recv (channel : option positive) (out : option vptr) : M St bool :=
  match channel, out with
  | Some c, Some _ =>
      r ← try_recv_locked c out;
      mret (match r with CROUTINE_CHANNEL_RECV_VALUE => true | _ => false end)
  | _, _ => mret false
  end.

Definition channel_close_locked (c : positive) : M St unit :=
  ch ← get_chan c;
  if closed ch then mret tt else
  upd_chan c (set_closed true);;
  wake_all_as_closed_locked c CROUTINE_SELECT_OP_SEND;;
  wake_all_as_closed_locked c CROUTINE_SELECT_OP_RECV.

Definition croutine_channel_close (channel : option positive) : M St unit :=
  match channel with None => mret tt | Some c => channel_close_locked c end.

(** The registry is walked at most once per live channel. *)
Fixpoint shutdown_all (fuel : nat) (channel : option positive) : M St unit :=
  match channel with
  | None => mret tt
  | Some c =>
      match fuel with
      | O => λ _, OutOfFuel
      | S fuel =>
          channel_close_locked c;;
          ch ← get_chan c;
          shutdown_all fuel (registry_next ch)
      end
  end.
Definition croutine_channel_shutdown_all_locked : M St unit :=
  s ← get; shutdown_all (size (channels s)) (channel_registry s).

Definition croutine_channel_is_closed (channel : option positive) : M St bool :=
  match channel with
  | None => mret true
  | Some c => ch ← get_chan c; mret (closed ch)
  end.

Definition croutine_channel_destroy (channel : option positive) : M St bool :=
  match channel with
  | None => mret true
  | Some c =>
      ch ← get_chan c;
      let safe := closed ch && bool_decide (wq_head (send_waiters ch) = None) &&
                  bool_decide (wq_head (recv_waiters ch) = None) in
      if negb safe then mret false else
      (match registry_prev ch with
       | Some p => upd_chan p (set_registry_next (registry_next ch))
       | None => modify (set_channel_registry (registry_next ch))
       end);;
      (match registry_next ch with
       | Some n => upd_chan n (set_registry_prev (registry_prev ch))
       | None => mret tt
       end);;
      modify (λ s, set_channels (delete c (channels s)) s);;
      mret true
  end.
End channel.
