(* ===== verification/ChannelBuffer.v ===== *)
(** * The byte buffer of a channel as a queue of values

    [buffer_push] and [buffer_pop] of src/channel.c copy [elem_size] bytes to
    and from slot [tail] or [head] of a byte array.  Here the array is read
    as a ring of slots, and the two functions as [snoc] and [uncons] on the
    list of stored values. *)

From S2P Require Import Prelude Task WaitQueue Channel.

(** The contents of slot [j]. *)
Definition slot (esz : Z) (bs : list byte) (j : Z) : list byte :=
  take (Z.to_nat esz) (drop (Z.to_nat (j * esz)) bs).

Lemma overwrite_length bs off new :
  0 ≤ off → off + Z.of_nat (length new) ≤ Z.of_nat (length bs) →
  length (overwrite bs off new) = length bs.
Proof.
  intros Ho Hl. unfold overwrite. rewrite !length_app, length_take, length_drop. lia.
Qed.

Lemma overwrite_lookup bs off new k :
  0 ≤ off → off + Z.of_nat (length new) ≤ Z.of_nat (length bs) →
  overwrite bs off new !! k =
    if decide (Z.to_nat off ≤ k < Z.to_nat off + length new)%nat
    then new !! (k - Z.to_nat off)%nat else bs !! k.
Proof.
  intros Ho Hl. unfold overwrite.
  assert (length (take (Z.to_nat off) bs) = Z.to_nat off) as Ht by (rewrite length_take; lia).
  destruct (decide (k < Z.to_nat off)%nat) as [Hk|Hk].
  { rewrite lookup_app_l by lia. rewrite lookup_take_lt by lia. by rewrite decide_False by lia. }
  rewrite lookup_app_r, Ht by lia.
  destruct (decide (k < Z.to_nat off + length new)%nat) as [Hk'|Hk'].
  - rewrite lookup_app_l by lia. by rewrite decide_True by lia.
  - rewrite lookup_app_r by lia. rewrite lookup_drop, decide_False by lia.
    f_equal. lia.
Qed.

Lemma slot_lookup esz bs j k :
  slot esz bs j !! k =
    if decide (k < Z.to_nat esz)%nat then bs !! (Z.to_nat (j * esz) + k)%nat else None.
Proof.
  unfold slot. case_decide.
  - rewrite lookup_take_lt by lia. apply lookup_drop.
  - apply lookup_take_ge. lia.
Qed.

Lemma slot_length esz bs j :
  0 ≤ esz → 0 ≤ j → (j + 1) * esz ≤ Z.of_nat (length bs) →
  length (slot esz bs j) = Z.to_nat esz.
Proof. intros. unfold slot. rewrite length_take, length_drop. nia. Qed.

Lemma slot_overwrite esz bs i j new :
  0 ≤ esz → 0 ≤ i → 0 ≤ j → (i + 1) * esz ≤ Z.of_nat (length bs) →
  Z.of_nat (length new) = esz →
  slot esz (overwrite bs (i * esz) new) j = if decide (j = i) then new else slot esz bs j.
Proof.
  intros He Hi Hj Hb Hn. apply list_eq. intros k. rewrite slot_lookup.
  destruct (decide (k < Z.to_nat esz)%nat) as [Hk|Hk].
  - rewrite overwrite_lookup by nia. destruct (decide (j = i)) as [->|Hne].
    + rewrite decide_True by lia. f_equal. lia.
    + rewrite slot_lookup. rewrite (decide_True (P:=(k < _)%nat)) by done.
      rewrite decide_False; [done|]. nia.
  - destruct (decide (j = i)).
    + symmetry. apply lookup_ge_None. lia.
    + rewrite slot_lookup. by rewrite decide_False.
Qed.

(** The ring of channel [ch] holds the values [l], oldest first. *)
Record buf_rep (ch : croutine_channel) (l : list (list byte)) : Prop := {
  buf_elem : 0 ≤ elem_size ch;
  buf_cap : 0 ≤ capacity ch < 2 ^ 64;
  buf_bytes : elem_size ch * capacity ch ≤ SIZE_MAX;
  buf_len : len ch = Z.of_nat (length l);
  buf_bound : Z.of_nat (length l) ≤ capacity ch;
  buf_vals : Forall (λ v, Z.of_nat (length v) = elem_size ch) l;
  buf_head : 0 ≤ head ch ∧ (capacity ch = 0 → head ch = 0) ∧ (0 < capacity ch → head ch < capacity ch);
  buf_tail : 0 < capacity ch → tail ch = (head ch + Z.of_nat (length l)) mod capacity ch;
  buf_ring : 0 < capacity ch → ∃ bs, buffer ch = Some bs ∧
      elem_size ch * capacity ch ≤ Z.of_nat (length bs) ∧
      ring (λ j, Some (slot (elem_size ch) bs j)) (head ch) (capacity ch) l
}.

Lemma capacity_slot ch i : 0 ≤ i < capacity ch → 0 ≤ elem_size ch →
  elem_size ch * capacity ch ≤ SIZE_MAX → u64 (i * elem_size ch) = i * elem_size ch.
Proof. intros. apply u64_small. unfold SIZE_MAX in *. nia. Qed.

(** Storing a value in the free slot at [tail], as a change of the record. *)
Lemma buf_rep_push ch l v bs :
  buf_rep ch l → Z.of_nat (length l) < capacity ch → Z.of_nat (length v) = elem_size ch →
  buffer ch = Some bs →
  buf_rep (set_ring (Some (overwrite bs (tail ch * elem_size ch) v)) (u64 (len ch + 1)) (head ch)
             ((tail ch + 1) mod capacity ch) ch) (l ++ [v]).
Proof.
  intros [He Hc Hb Hlen Hbd Hv Hh Ht Hr] Hroom Hvl Hbuf.
  destruct Hr as (bs' & Hbuf' & Hbl & Hring); [lia|]. simplify_eq.
  specialize (Ht ltac:(lia)).
  assert (0 ≤ tail ch < capacity ch) as Htb by (rewrite Ht; apply Z.mod_pos_bound; lia).
  assert ((tail ch + 1) * elem_size ch ≤ Z.of_nat (length bs)) as Hin by nia.
  split; simpl; rewrite ?length_app; simpl; try done; try lia.
  - rewrite u64_small by lia. lia.
  - apply Forall_app. split; [done|]. by constructor.
  - intros _. rewrite Ht, ring_next by lia. f_equal. lia.
  - intros _. eexists. split; [done|]. split; [rewrite overwrite_length by nia; lia|].
    eapply ring_push; [done|exact Hring| |]; simpl; rewrite <-Ht.
    + intros j Hj Hne. by rewrite slot_overwrite, decide_False by lia.
    + by rewrite slot_overwrite, decide_True by lia.
Qed.

Lemma buf_rep_pop ch v l :
  buf_rep ch (v :: l) →
  (∃ bs, buffer ch = Some bs ∧ slot (elem_size ch) bs (head ch) = v ∧
         head ch * elem_size ch + elem_size ch ≤ Z.of_nat (length bs)) ∧
  buf_rep (set_ring (buffer ch) (u64 (len ch - 1)) ((head ch + 1) mod capacity ch) (tail ch) ch) l.
Proof.
  intros [He Hc Hb Hlen Hbd Hv Hh Ht Hr]. simpl in Hlen, Hbd.
  destruct Hr as (bs & Hbuf & Hbl & Hring); [lia|].
  apply Forall_cons in Hv as [Hvl Hv]. split.
  - exists bs. split; [done|]. split.
    + apply ring_head in Hring; [by simplify_eq|lia].
    + nia.
  - split; simpl; try done; try lia.
    + rewrite u64_small by lia. lia.
    + pose proof (Z.mod_pos_bound (head ch + 1) (capacity ch)). lia.
    + intros _. rewrite Ht by lia. rewrite Zplus_mod_idemp_l. f_equal. simpl. lia.
    + intros _. exists bs. split; [done|]. split; [done|].
      apply ring_tail in Hring; [done|lia].
Qed.

(** Other fields do not matter. *)
Lemma buf_rep_ext ch ch' l :
  elem_size ch' = elem_size ch → capacity ch' = capacity ch → buffer ch' = buffer ch →
  len ch' = len ch → head ch' = head ch → tail ch' = tail ch →
  buf_rep ch l → buf_rep ch' l.
Proof.
  intros E1 E2 E3 E4 E5 E6 [H1 H2 H3 H4 H5 H6 H7 H8 H9].
  split; rewrite ?E1, ?E2, ?E3, ?E4, ?E5, ?E6; done.
Qed.
