(* ===== verification/ChannelInv.v ===== *)
(** * The channel invariant and the queue operations that keep it

    [cinv] is what the channel runtime maintains between critical sections:
    the rings and wait queues are well formed, every queued waiter belongs to
    one task that is parked and can be woken through it, and no task is
    parked without such a waiter.  The operations of src/channel.c are taken
    apart into the moves that change this picture (taking a waiter out of a
    queue, completing it, copying a value), each with its lemma. *)

From S2P Require Import Prelude Task WaitQueue Channel ChannelBuffer.

(** ** What the scheduler promises *)

Class SchedulerLaws (W : Type) `{Scheduler W} := {
  (** the scheduler's own invariant *)
  sch_ok : W → Prop;
  (** tasks waiting on a channel *)
  sch_parked : W → tid → Prop;
  (** tasks that are being executed *)
  sch_running : W → tid → Prop;
  (** the wake outcome recorded in a live task *)
  sch_flag : W → tid → option bool;
  sch_running_parked : ∀ w t, sch_running w t → ¬ sch_parked w t;
  sch_wake_spec : ∀ w t b, sch_ok w → sch_parked w t →
    ∃ w', sched_wake (Some t) b w = Ok (true, w') ∧ sch_ok w' ∧
      (∀ u, sch_parked w' u ↔ sch_parked w u ∧ u ≠ t) ∧
      sch_flag w' t = Some b ∧ (∀ u, u ≠ t → sch_flag w' u = sch_flag w u) ∧
      sched_shutdown w' = sched_shutdown w ∧ (∀ u, sch_running w u → sch_running w' u);
  (** unless the runtime shuts down, a running task can park ... *)
  sch_park_spec : ∀ w t, sch_ok w → sch_running w t → sched_shutdown w = false →
    ∃ w', sched_park (Some t) w = Ok (true, w') ∧ sch_ok w' ∧
      (∀ u, sch_parked w' u ↔ sch_parked w u ∨ u = t) ∧
      sch_flag w' t = Some false ∧ (∀ u, u ≠ t → sch_flag w' u = sch_flag w u) ∧
      (∀ u, u ≠ t → sch_running w u → sch_running w' u) ∧
      sched_shutdown w' = false;
  (** ... and reads the outcome when it runs again *)
  sch_resume_spec : ∀ w t b, sch_flag w t = Some b → sched_resume t w = Ok (b, w)
}.

(** ** The invariant *)

Section invariant.
Context {W : Type} `{SchedulerLaws W}.
Implicit Types (s : cstate W) (x : ChannelWaiter) (w c : positive) (op : croutine_select_op).

(** A waiter that may still be completed: regular, or of a select that has
    not fired yet. *)
Definition wlive s x : bool :=
  match w_kind x, w_state x with
  | CW_SELECT, Some st =>
      match selects s !! st with Some ss => negb (done ss) | None => true end
  | _, _ => true
  end.

Definition slot_ok s (ch : croutine_channel) (p : option vptr) : Prop :=
  elem_size ch = 0 ∨
  ∃ o bs, p = Some (UserPtr o) ∧ values s !! o = Some bs ∧
          elem_size ch ≤ Z.of_nat (length bs).

Record waiter_ok s (ch : croutine_channel) op x : Prop := {
  wo_op : w_op x = op;
  wo_task : ∃ t, w_task x = Some t ∧ (wlive s x = true → sch_parked (worker s) t);
  wo_slot : slot_ok s ch (w_value_slot x);
  wo_state : w_kind x = CW_SELECT → ∃ st ss, w_state x = Some st ∧ selects s !! st = Some ss
}.

(** Some queued waiter can wake [t]. *)
Definition covered s (Q : positive → croutine_select_op → list positive) (t : tid) : Prop :=
  ∃ c op w x, w ∈ Q c op ∧ waiters s !! w = Some x ∧ wlive s x = true ∧ w_task x = Some t.

(** Two waiters of one task belong to one select, and conversely. *)
Definition one_wait (h : gmap positive ChannelWaiter) : Prop :=
  ∀ w1 w2 x1 x2, h !! w1 = Some x1 → h !! w2 = Some x2 →
    (w_task x1 = w_task x2 → w1 = w2 ∨
       (w_kind x1 = CW_SELECT ∧ w_kind x2 = CW_SELECT ∧ w_state x1 = w_state x2)) ∧
    (w_kind x1 = CW_SELECT → w_kind x2 = CW_SELECT → w_state x1 = w_state x2 →
       w_task x1 = w_task x2).

(** [B] gives the buffered values and [Q] the queued waiters of every
    channel; [E] are the parked tasks whose wake-up is in progress. *)
Record cinv (s : cstate W) (B : positive → list (list byte))
    (Q : positive → croutine_select_op → list positive) (E : tid → Prop) : Prop := {
  ci_sched : sch_ok (worker s);
  ci_buf : ∀ c ch, channels s !! c = Some ch → buf_rep ch (B c);
  ci_queue : ∀ c ch op, channels s !! c = Some ch →
    wq_rep (waiters s) c (queue_of op ch) (Q c op);
  ci_none : ∀ c op, channels s !! c = None → Q c op = [];
  ci_waiter : ∀ c ch op w, channels s !! c = Some ch → w ∈ Q c op →
    ∃ x, waiters s !! w = Some x ∧ waiter_ok s ch op x;
  ci_linked : ∀ w x c, waiters s !! w = Some x → w_channel x = Some c → w ∈ Q c (w_op x);
  ci_one : one_wait (waiters s);
  ci_covered : ∀ t, sch_parked (worker s) t → E t ∨ covered s Q t;
  ci_state : ∀ w x, waiters s !! w = Some x → w_kind x = CW_SELECT →
    ∃ st ss, w_state x = Some st ∧ selects s !! st = Some ss
}.

(** Nobody waits on a closed channel. *)
Definition drained s (Q : positive → croutine_select_op → list positive) : Prop :=
  ∀ c ch op, channels s !! c = Some ch → closed ch = true → Q c op = [].

Definition updQ (Q : positive → croutine_select_op → list positive) c op l :=
  λ c' op', if decide (c' = c ∧ op' = op) then l else Q c' op'.

Lemma updQ_eq Q c op l : updQ Q c op l c op = l.
Proof. unfold updQ. by rewrite decide_True. Qed.
Lemma updQ_ne Q c op l c' op' : (c' = c ∧ op' = op → False) → updQ Q c op l c' op' = Q c' op'.
Proof. unfold updQ. intros Hne. by rewrite decide_False. Qed.

Lemma updQ_elem Q c op l c' op' w :
  l ⊆ Q c op → w ∈ updQ Q c op l c' op' → w ∈ Q c' op'.
Proof. unfold updQ. intros Hl. case_decide as E; [|done]. destruct E as [-> ->]. set_solver. Qed.

Lemma updQ_sub Q c op l c' op' : l ⊆ Q c op → updQ Q c op l c' op' ⊆ Q c' op'.
Proof. intros Hl w. by apply updQ_elem. Qed.

(** The queue a waiter is in is determined by its own fields. *)
Lemma queued_unique s B Q E c1 op1 c2 op2 w :
  cinv s B Q E → w ∈ Q c1 op1 → w ∈ Q c2 op2 → c1 = c2 ∧ op1 = op2.
Proof.
  intros HI H1 H2.
  assert (∀ c op, w ∈ Q c op → ∃ x, waiters s !! w = Some x ∧ w_channel x = Some c ∧ w_op x = op)
    as Hq.
  { intros c op Hw. destruct (channels s !! c) as [ch|] eqn:Ech.
    - destruct (ci_waiter _ _ _ _ HI c ch op w Ech Hw) as (x & Hx & Hok).
      destruct (dseg_live _ _ _ _ _ w (wq_seg _ _ _ _ (ci_queue _ _ _ _ HI c ch op Ech)) Hw)
        as (x' & Hx' & Hc). simplify_eq. exists x. split_and!; [done|done|apply Hok].
    - rewrite (ci_none _ _ _ _ HI c op Ech) in Hw. set_solver. }
  destruct (Hq _ _ H1) as (x & Hx & Hc & Ho), (Hq _ _ H2) as (x' & Hx' & Hc' & Ho').
  simplify_eq. done.
Qed.

(** Liveness of a waiter depends on its payload only. *)
Lemma wlive_payload s s' x x' :
  selects s' = selects s → payload x' = payload x → wlive s' x' = wlive s x.
Proof. intros Hs [= E1 E2 E3 E4 E5 E6]. unfold wlive. by rewrite E1, E5, Hs. Qed.

Lemma one_wait_payload h h' :
  (∀ w x', h' !! w = Some x' → ∃ x, h !! w = Some x ∧ payload x' = payload x) →
  one_wait h → one_wait h'.
Proof.
  intros Hp H1 w1 w2 x1 x2 Hx1 Hx2.
  destruct (Hp _ _ Hx1) as (y1 & Hy1 & [= A1 A2 A3 A4 A5 A6]).
  destruct (Hp _ _ Hx2) as (y2 & Hy2 & [= C1 C2 C3 C4 C5 C6]).
  rewrite A1, A3, A5, C1, C3, C5. by apply H1.
Qed.

Lemma frame_back h h' l w x' :
  wq_frame h h' l → h' !! w = Some x' → ∃ x, h !! w = Some x ∧ payload x' = payload x.
Proof.
  intros F Hx'.
  assert (is_Some (h !! w)) as [x Hx].
  { apply elem_of_dom. rewrite <-(frame_dom _ _ _ F). apply elem_of_dom. eauto. }
  exists x. split; [done|]. destruct (frame_payload _ _ _ F w x Hx) as (y & Hy & Hp). congruence.
Qed.

Lemma state_payload s B Q E h l : cinv s B Q E → wq_frame (waiters s) h l →
  ∀ w x, h !! w = Some x → w_kind x = CW_SELECT →
    ∃ st ss, w_state x = Some st ∧ selects s !! st = Some ss.
Proof.
  intros HI F w x Hx Hk. destruct (frame_back _ _ _ _ _ F Hx) as (y & Hy & Hp).
  injection Hp as E1 E2 E3 E4 E5 E6. rewrite E5. eapply ci_state; [done..|congruence].
Qed.

(** ** Moves *)

(** The state after an operation on the [op] queue of channel [c]. *)
Definition with_queue s c (ch : croutine_channel) op h (q : ChannelWaitQueue) : cstate W :=
  set_waiters h (set_channels (<[c := set_queue_of op q ch]> (channels s)) s).

Lemma on_queue_run {A} s c ch op (m : M wq_state A) a h q :
  channels s !! c = Some ch →
  m (mkWq (waiters s) (queue_of op ch)) = Ok (a, mkWq h q) →
  on_queue c op m s = Ok (a, with_queue s c ch op h q).
Proof. intros Hc Hm. unfold on_queue. rewrite Hc, Hm. done. Qed.

Lemma queue_of_set op op' q ch :
  queue_of op (set_queue_of op' q ch) = if decide (op = op') then q else queue_of op ch.
Proof. by destruct op, op'. Qed.

Lemma set_queue_of_fields op q ch :
  elem_size (set_queue_of op q ch) = elem_size ch ∧ capacity (set_queue_of op q ch) = capacity ch ∧
  closed (set_queue_of op q ch) = closed ch ∧ buffer (set_queue_of op q ch) = buffer ch ∧
  len (set_queue_of op q ch) = len ch ∧ head (set_queue_of op q ch) = head ch ∧
  tail (set_queue_of op q ch) = tail ch.
Proof. by destruct op. Qed.

Lemma buf_rep_queue op q ch l : buf_rep (set_queue_of op q ch) l ↔ buf_rep ch l.
Proof. by destruct op; split; apply buf_rep_ext. Qed.

Lemma waiter_ok_ext s s' ch ch' op x x' :
  selects s' = selects s → worker s' = worker s → values s' = values s →
  elem_size ch' = elem_size ch → payload x' = payload x →
  waiter_ok s ch op x → waiter_ok s' ch' op x'.
Proof.
  intros E1 E2 E3 E4 Hp [Ho (t & Ht & Hl) Hs Hst].
  pose proof (wlive_payload s s' x x' E1 Hp) as Hw.
  destruct x, x'; unfold payload in Hp; simpl in *; simplify_eq. split; simpl.
  - done.
  - exists t. by rewrite Hw, E2.
  - unfold slot_ok in *. by rewrite E3, E4.
  - by rewrite E1.
Qed.

(** The channels of [with_queue], one field at a time. *)
Record same_but_queues (ch ch' : croutine_channel) : Prop := {
  sb_elem : elem_size ch' = elem_size ch;
  sb_closed : closed ch' = closed ch;
  sb_cap : capacity ch' = capacity ch;
  sb_buf : ∀ l, buf_rep ch' l ↔ buf_rep ch l
}.

Lemma with_queue_lookup s c ch op h q c' ch' :
  channels s !! c = Some ch →
  channels (with_queue s c ch op h q) !! c' = Some ch' →
  ∃ ch0, channels s !! c' = Some ch0 ∧ same_but_queues ch0 ch' ∧
    (∀ op', (c' = c ∧ op' = op → False) → queue_of op' ch' = queue_of op' ch0) ∧
    (c' = c → queue_of op ch' = q).
Proof.
  intros Hch. simpl. destruct (decide (c' = c)) as [->|Hne].
  - rewrite lookup_insert_eq. intros [= <-]. exists ch. split; [done|].
    pose proof (set_queue_of_fields op q ch) as (? & ? & ? & _). split; [split; try done|split].
    + intros l. apply buf_rep_queue.
    + intros op' Hop. rewrite queue_of_set, decide_False; [done|naive_solver].
    + intros _. by rewrite queue_of_set, decide_True.
  - rewrite lookup_insert_ne by done. intros Hc'. exists ch'. by split_and!.
Qed.

Lemma with_queue_none s c ch op h q c' :
  channels (with_queue s c ch op h q) !! c' = None → channels s !! c' = None ∧ c' ≠ c.
Proof. simpl. rewrite lookup_insert_None. naive_solver. Qed.

Section shrink.
Context (s : cstate W) (B : positive → list (list byte))
  (Q : positive → croutine_select_op → list positive) (E E' : tid → Prop).
Context (c : positive) (ch : croutine_channel) (op : croutine_select_op).
Context (h : gmap positive ChannelWaiter) (q : ChannelWaitQueue) (l : list positive).
Hypothesis HI : cinv s B Q E.
Hypothesis Hch : channels s !! c = Some ch.
Hypothesis F : wq_frame (waiters s) h (Q c op).
Hypothesis Hrep : wq_rep h c q l.
Hypothesis Hsub : l ⊆ Q c op.
Hypothesis Hout : ∀ w x, w ∈ Q c op → w ∉ l → h !! w = Some x → w_channel x = None.
Hypothesis HE : ∀ t, E t → E' t.
Hypothesis Hcov : ∀ w x t, w ∈ Q c op → w ∉ l → waiters s !! w = Some x →
  wlive s x = true → w_task x = Some t → E' t.

Lemma shrink_apart c' op' w :
  (c' = c ∧ op' = op → False) → w ∈ Q c' op' → h !! w = waiters s !! w.
Proof.
  intros Hne Hw. apply (frame_out _ _ _ F). intros Hw'. apply Hne.
  by eapply queued_unique.
Qed.

Lemma shrink_queue c' ch' op' :
  channels (with_queue s c ch op h q) !! c' = Some ch' →
  wq_rep h c' (queue_of op' ch') (updQ Q c op l c' op').
Proof.
  intros Hc'. destruct (with_queue_lookup _ _ _ _ _ _ _ _ Hch Hc') as (ch0 & Hch0 & _ & Hq & Hq').
  destruct (decide (c' = c ∧ op' = op)) as [[-> ->]|Hne].
  - by rewrite updQ_eq, Hq'.
  - rewrite updQ_ne, Hq by done.
    destruct (ci_queue _ _ _ _ HI c' ch0 op' Hch0) as [A1 A2 A3 A4].
    split; [done..|]. eapply dseg_ext; [|exact A4].
    intros u Hu. by eapply shrink_apart.
Qed.

Lemma shrink_linked w x' c' :
  h !! w = Some x' → w_channel x' = Some c' → w ∈ updQ Q c op l c' (w_op x').
Proof.
  intros Hx' Hc'. destruct (frame_back _ _ _ _ _ F Hx') as (x & Hx & Hp).
  assert (w_op x' = w_op x) as Ho by (by injection Hp).
  destruct (decide (w ∈ l)) as [Hl|Hl].
  { destruct (dseg_live _ _ _ _ _ w (wq_seg _ _ _ _ Hrep) Hl) as (y & Hy & Hyc).
    assert (w ∈ Q c op) as HwQ by set_solver.
    destruct (ci_waiter _ _ _ _ HI c ch op w Hch HwQ) as (x2 & Hx2 & Hok2). simplify_eq.
    rewrite Ho, (wo_op _ _ _ _ Hok2), updQ_eq. done. }
  destruct (decide (w ∈ Q c op)) as [HwQ|HwQ].
  { by rewrite (Hout w x' HwQ Hl Hx') in Hc'. }
  rewrite (frame_out _ _ _ F) in Hx' by done. simplify_eq.
  pose proof (ci_linked _ _ _ _ HI w x' c' Hx' Hc') as Hin.
  rewrite updQ_ne; [done|]. intros [-> E2]. by rewrite E2 in Hin.
Qed.

Lemma shrink_covered t :
  sch_parked (worker s) t →
  E' t ∨ covered (with_queue s c ch op h q) (updQ Q c op l) t.
Proof.
  intros Ht. destruct (ci_covered _ _ _ _ HI t Ht) as [He|(c' & op' & w & x & Hw & Hx & Hlv & Htk)].
  { left. by apply HE. }
  destruct (decide (c' = c ∧ op' = op)) as [[-> ->]|Hne].
  - destruct (decide (w ∈ l)) as [Hl|Hl]; [|left; by eapply Hcov]. right.
    destruct (frame_payload _ _ _ F w x Hx) as (x' & Hx' & Hp).
    exists c, op, w, x'. rewrite updQ_eq. split_and!; [done|done| |].
    + by rewrite (wlive_payload s _ x x').
    + assert (w_task x' = w_task x) as -> by (by injection Hp). done.
  - right. exists c', op', w, x. rewrite updQ_ne by done. split_and!; [done| |done|done].
    simpl. by rewrite (shrink_apart c' op' w).
Qed.

(** A queue loses some of its waiters. *)
Lemma cinv_shrink : cinv (with_queue s c ch op h q) B (updQ Q c op l) E'.
Proof.
  split.
  - apply HI.
  - intros c' ch' Hc'. destruct (with_queue_lookup _ _ _ _ _ _ _ _ Hch Hc') as (ch0 & Hch0 & Hs & _).
    apply (sb_buf _ _ Hs). by apply HI.
  - apply shrink_queue.
  - intros c' op' [Hc' Hne]%with_queue_none. rewrite updQ_ne by naive_solver. by apply HI.
  - intros c' ch' op' w Hc' Hw. pose proof (updQ_elem _ _ _ _ _ _ _ Hsub Hw) as HwQ.
    destruct (with_queue_lookup _ _ _ _ _ _ _ _ Hch Hc') as (ch0 & Hch0 & Hs & _).
    destruct (ci_waiter _ _ _ _ HI c' ch0 op' w Hch0 HwQ) as (x & Hx & Hok).
    destruct (frame_payload _ _ _ F w x Hx) as (x' & Hx' & Hp). exists x'. split; [done|].
    eapply waiter_ok_ext; [..|exact Hok]; try done. apply Hs.
  - apply shrink_linked.
  - eapply one_wait_payload; [|apply HI]. intros w x'. apply (frame_back _ _ _ _ _ F).
  - apply shrink_covered.
  - by apply (state_payload s B Q E _ (Q c op)).
Qed.
End shrink.

Lemma covered_ext s Q Q' t :
  (∀ c op, Q c op = Q' c op) → covered s Q t → covered s Q' t.
Proof.
  intros HQ (c & op & w & x & Hw & Hr). exists c, op, w, x. by rewrite <-HQ.
Qed.

Lemma cinv_ext s B Q Q' E :
  (∀ c op, Q c op = Q' c op) → cinv s B Q E → cinv s B Q' E.
Proof.
  intros HQ [H1 H2 H3 H4 H5 H6 H7 H8 H9]. split; try done; intros; rewrite <-?HQ; eauto.
  - apply (H5 c ch op w); [done|]. by rewrite HQ.
  - destruct (H8 t) as [?|Hc]; [done|by left|]. right. by eapply covered_ext.
Qed.

Lemma cinv_weaken s B Q (E E' : tid → Prop) :
  (∀ t, E t → E' t) → cinv s B Q E → cinv s B Q E'.
Proof.
  intros HE [H1 H2 H3 H4 H5 H6 H7 H8 H9]. split; try done.
  intros t Ht. destruct (H8 t Ht); auto.
Qed.

(** What an operation on the [op] queue of [c] leaves alone. *)
Record popped (s s1 : cstate W) (c : positive) (op : croutine_select_op) (l : list positive)
  : Prop := {
  po_channels : ∃ ch q, channels s !! c = Some ch ∧
    channels s1 = <[c := set_queue_of op q ch]> (channels s);
  po_values : values s1 = values s;
  po_selects : selects s1 = selects s;
  po_worker : worker s1 = worker s;
  po_registry : channel_registry s1 = channel_registry s;
  po_waiters : wq_frame (waiters s) (waiters s1) l
}.

Lemma set_queue_of_twice op q q' ch : set_queue_of op q (set_queue_of op q' ch) = set_queue_of op q ch.
Proof. by destruct op. Qed.

Lemma popped_trans s s1 s2 c op l l' :
  l' ⊆ l → popped s s1 c op l → popped s1 s2 c op l' → popped s s2 c op l.
Proof.
  intros Hl [(ch & q & Hc & Hs1) A2 A3 A4 A5 A6] [(ch1 & q1 & Hc1 & Hs2) B2 B3 B4 B5 B6].
  split; try congruence.
  - rewrite Hs1, lookup_insert_eq in Hc1. simplify_eq. exists ch, q1. split; [done|].
    rewrite Hs2, Hs1, insert_insert_eq. by rewrite set_queue_of_twice.
  - apply (wq_frame_mono _ _ (l ++ l')); [set_solver|]. by eapply wq_frame_trans.
Qed.

Lemma with_queue_popped s c ch op h q l :
  channels s !! c = Some ch → wq_frame (waiters s) h l →
  popped s (with_queue s c ch op h q) c op l.
Proof. intros Hc F. split; try done. simpl. eauto. Qed.

Definition dead_in s w : Prop := ∀ x, waiters s !! w = Some x → wlive s x = false.

(** One pop. *)
Lemma pop_one s B Q E c ch op w l :
  cinv s B Q E → channels s !! c = Some ch → Q c op = w :: l →
  ∃ s1 x, on_queue c op wait_queue_pop_head s = Ok (Some w, s1) ∧
    popped s s1 c op (w :: l) ∧ waiters s !! w = Some x ∧ waiter_ok s ch op x ∧
    waiters s1 !! w = Some (unlinked x) ∧
    cinv s1 B (updQ Q c op l) (λ u, E u ∨ (wlive s x = true ∧ w_task x = Some u)).
Proof.
  intros HI Hch HQ. pose proof (ci_queue _ _ _ _ HI c ch op Hch) as Hrep.
  rewrite HQ in Hrep. pose proof (wq_nodup _ _ _ _ Hrep) as [Hwl _]%NoDup_cons.
  destruct (pop_head_spec _ _ _ _ _ Hrep) as (h & q & x & Hx & Hpop & Hrep' & F & Hxu).
  destruct (ci_waiter _ _ _ _ HI c ch op w Hch) as (x' & Hx' & Hok); [rewrite HQ; by left|].
  simplify_eq. exists (with_queue s c ch op h q), x.
  split; [by apply on_queue_run|]. split; [by apply with_queue_popped|].
  split_and!; try done.
  apply (cinv_shrink s B Q E); try done; rewrite ?HQ; try done.
  - set_solver.
  - intros u y Hu Hul Hy. assert (u = w) as -> by set_solver. by simplify_eq.
  - tauto.
  - intros u y t Hu Hul Hy Hlv Ht. assert (u = w) as -> by set_solver. simplify_eq. tauto.
Qed.

(** The queue is empty. *)
Lemma pop_none s B Q E c ch op :
  cinv s B Q E → channels s !! c = Some ch → Q c op = [] →
  ∃ s1, on_queue c op wait_queue_pop_head s = Ok (None, s1) ∧ popped s s1 c op [] ∧
    cinv s1 B (updQ Q c op []) E.
Proof.
  intros HI Hch HQ. pose proof (ci_queue _ _ _ _ HI c ch op Hch) as Hrep. rewrite HQ in Hrep.
  exists (with_queue s c ch op (waiters s) (queue_of op ch)).
  split; [apply on_queue_run; [done|by eapply pop_head_nil]|].
  split; [apply with_queue_popped; [done|apply wq_frame_refl]|].
  apply (cinv_shrink s B Q E E); rewrite ?HQ; try done; [apply wq_frame_refl|set_solver..].
Qed.

Lemma waiter_dead_run s ch op x :
  waiter_ok s ch op x → waiter_dead x s = Ok (negb (wlive s x), s).
Proof.
  intros [_ _ _ Hst]. unfold waiter_dead, wlive, deref, mbind, M_bind.
  destruct (w_kind x); [done|]. destruct (Hst eq_refl) as (st & ss & -> & Hss).
  rewrite Hss. simpl. by rewrite negb_involutive.
Qed.

Lemma waiter_dead_unlinked x : waiter_dead (unlinked x) =@{M (cstate W) bool} waiter_dead x.
Proof. done. Qed.

(** [pop_live_waiter_locked] takes out the first waiter that can still be
    completed, and drops the ones of fired selects before it. *)
Lemma pop_live_spec B E c op l : ∀ s Q ch fuel,
  cinv s B Q E → channels s !! c = Some ch → Q c op = l → (length l < fuel)%nat →
  ∃ r s1 l1, pop_live fuel c op s = Ok (r, s1) ∧ popped s s1 c op l ∧
  match r with
  | None => l1 = [] ∧ Forall (dead_in s) l ∧ cinv s1 B (updQ Q c op l1) E
  | Some w => ∃ pre x t, l = pre ++ w :: l1 ∧ Forall (dead_in s) pre ∧
      waiters s !! w = Some x ∧ waiter_ok s ch op x ∧ wlive s x = true ∧
      w_task x = Some t ∧ sch_parked (worker s) t ∧
      (∃ x1, waiters s1 !! w = Some x1 ∧ payload x1 = payload x ∧ w_channel x1 = None) ∧
      cinv s1 B (updQ Q c op l1) (λ u, E u ∨ u = t)
  end.
Proof.
  induction l as [|w l IH]; intros s Q ch [|fuel] HI Hch HQ Hf; simpl in Hf; try lia.
  { destruct (pop_none s B Q E c ch op HI Hch HQ) as (s1 & Hrun & Hpo & HI1).
    exists None, s1, []. cbn [pop_live]. rewrite (bind_ok _ _ _ _ _ Hrun).
    by split_and!. }
  destruct (pop_one s B Q E c ch op w l HI Hch HQ) as (s1 & x & Hrun & Hpo & Hx & Hok & Hxu & HI1).
  pose proof (po_selects _ _ _ _ _ Hpo) as Hsel.
  cbn [pop_live]. rewrite (bind_ok _ _ _ _ _ Hrun).
  assert (get_waiter w s1 = Ok (unlinked x, s1)) as Hget.
  { unfold get_waiter, deref. by rewrite Hxu. }
  rewrite (bind_ok _ _ _ _ _ Hget), waiter_dead_unlinked.
  assert (waiter_dead x s1 = Ok (negb (wlive s x), s1)) as Hdead.
  { erewrite (waiter_dead_run s1 ch op x); [by rewrite (wlive_payload s s1 x x)|].
    eapply waiter_ok_ext; [..|exact Hok]; try done; by destruct Hpo. }
  rewrite (bind_ok _ _ _ _ _ Hdead).
  destruct (wo_task _ _ _ _ Hok) as (t & Ht & Hpk).
  destruct (wlive s x) eqn:Elive; simpl.
  - exists (Some w), s1, l. split; [done|]. split; [done|].
    exists [], x, t. split_and!; try done; [by apply Hpk|by eauto|].
    eapply cinv_weaken; [|exact HI1]. intros u [?|[_ ?]]; [by left|]. right. congruence.
  - destruct (po_channels _ _ _ _ _ Hpo) as (ch0 & q0 & Hch0 & Hs1). simplify_eq.
    destruct (IH s1 (updQ Q c op l) (set_queue_of op q0 ch) fuel)
      as (r & s2 & l1 & Hrun2 & Hpo2 & Hr).
    { eapply cinv_weaken; [|exact HI1]. by intros u [?|[? _]]. }
    { by rewrite Hs1, lookup_insert_eq. }
    { apply updQ_eq. }
    { lia. }
    assert (∀ w', dead_in s1 w' → dead_in s w') as Hdd.
    { intros w' Hd y Hy. destruct (frame_payload _ _ _ (po_waiters _ _ _ _ _ Hpo) w' y Hy)
        as (y' & Hy' & Hp'). rewrite <-(wlive_payload s s1 y y') by done. by apply Hd. }
    assert (dead_in s w) as Hdw by (intros y Hy; by simplify_eq).
    assert (∀ c' op', updQ (updQ Q c op l) c op l1 c' op' = updQ Q c op l1 c' op') as HQQ.
    { intros c' op'. unfold updQ. by case_decide. }
    exists r, s2, l1. split; [done|]. split; [eapply popped_trans; [|done..]; set_solver|].
    destruct r as [w'|].
    + destruct Hr as (pre & y & u & -> & Hpre & Hy & Hyok & Hylv & Hyt & Hyp & Hy1 & HI2).
      destruct (frame_back _ _ _ _ _ (po_waiters _ _ _ _ _ Hpo) Hy) as (y0 & Hy0 & Hyp0).
      exists (w :: pre), y0, u. split_and!; try done.
      * constructor; [done|]. eapply Forall_impl; [exact Hpre|]. done.
      * eapply waiter_ok_ext; [..|exact Hyok]; try done; try (by destruct Hpo).
        by destruct (set_queue_of_fields op q0 ch).
      * by rewrite <-(wlive_payload s s1 y0 y).
      * assert (w_task y0 = w_task y) as -> by (by injection Hyp0). done.
      * by rewrite <-(po_worker _ _ _ _ _ Hpo).
      * destruct Hy1 as (x1 & ? & Hx1 & ?). exists x1. split_and!; [done|congruence|done].
      * by eapply cinv_ext.
    + destruct Hr as (-> & Hall & HI2). split; [done|]. split; [|by eapply cinv_ext].
      constructor; [done|]. eapply Forall_impl; [exact Hall|]. done.
Qed.

(** The loop bound of the code model is enough: a queue is never longer than
    the number of live waiters. *)
Lemma queue_size s B Q E c ch op :
  cinv s B Q E → channels s !! c = Some ch → (length (Q c op) ≤ size (waiters s))%nat.
Proof.
  intros HI Hch. pose proof (ci_queue _ _ _ _ HI c ch op Hch) as Hrep.
  rewrite <-size_dom, <-(size_list_to_set (C:=gset positive) (Q c op)) by apply Hrep.
  apply subseteq_size. intros w Hw%elem_of_list_to_set. apply elem_of_dom.
  destruct (ci_waiter _ _ _ _ HI c ch op w Hch Hw) as (x & -> & _). eauto.
Qed.

(** ** Completing a waiter *)

(** The select states after [x] was completed with [status]. *)
Definition fire s x (status : croutine_select_status) : gmap positive CroutineSelectState :=
  match w_kind x, w_state x with
  | CW_SELECT, Some st =>
      <[st := mkSelectState true (i32 (w_case_index x)) status]> (selects s)
  | _, _ => selects s
  end.

Lemma fire_live s s' x status y :
  selects s' = fire s x status → wlive s' y = true → wlive s y = true ∧
  (w_kind x = CW_SELECT → w_state x ≠ None → w_kind y = CW_SELECT → w_state y ≠ w_state x).
Proof.
  intros Hs. unfold wlive. rewrite Hs. unfold fire.
  destruct (w_kind x), (w_state x) as [st|], (w_kind y), (w_state y) as [st'|]; try done.
  destruct (decide (st' = st)) as [->|Hne].
  - by rewrite lookup_insert_eq.
  - rewrite lookup_insert_ne by done. intros Hl. split; [done|]. congruence.
Qed.

Lemma fire_live_other s s' x status y :
  selects s' = fire s x status → wlive s y = true →
  (w_kind x = CW_SELECT → w_kind y = CW_SELECT → w_state y ≠ w_state x) →
  wlive s' y = true.
Proof.
  intros Hs Hl Hne. unfold wlive in *. rewrite Hs. unfold fire.
  destruct (w_kind x), (w_state x) as [st|], (w_kind y), (w_state y) as [st'|]; try done.
  rewrite lookup_insert_ne; [done|]. intros ->. by apply Hne.
Qed.

Lemma fire_some s x status st : is_Some (selects s !! st) → is_Some (fire s x status !! st).
Proof.
  unfold fire. destruct (w_kind x), (w_state x) as [st'|]; try done.
  intros ?. apply lookup_insert_is_Some. destruct (decide (st' = st)); auto.
Qed.

(** The wake outcome a task is told: failure for a regular operation on a
    channel that was closed. *)
Definition told x (status : croutine_select_status) : bool :=
  match w_kind x, status with
  | CW_REGULAR, CROUTINE_SELECT_STATUS_CLOSED => false
  | _, _ => true
  end.

(** What completing [x], a waiter of [t], does to the state. *)
Record completed (s s1 : cstate W) x (t : tid) (status : croutine_select_status) : Prop := {
  co_channels : channels s1 = channels s;
  co_waiters : waiters s1 = waiters s;
  co_values : values s1 = values s;
  co_registry : channel_registry s1 = channel_registry s;
  co_selects : selects s1 = fire s x status;
  co_flag : sch_flag (worker s1) t = Some (told x status);
  co_flags : ∀ u, u ≠ t → sch_flag (worker s1) u = sch_flag (worker s) u;
  co_parked : ∀ u, sch_parked (worker s1) u ↔ sch_parked (worker s) u ∧ u ≠ t;
  co_shutdown : sched_shutdown (worker s1) = sched_shutdown (worker s);
  co_running : ∀ u, sch_running (worker s) u → sch_running (worker s1) u
}.

Lemma complete_run s x w t status :
  sch_ok (worker s) → sch_parked (worker s) t → waiters s !! w = Some x → w_task x = Some t →
  (w_kind x = CW_SELECT → ∃ st ss, w_state x = Some st ∧ selects s !! st = Some ss) →
  told x status = true →
  ∃ s1, complete_waiter_locked w status s = Ok (tt, s1) ∧ completed s s1 x t status ∧
        sch_ok (worker s1).
Proof.
  intros Hok Hpk Hx Ht Hst Htold.
  destruct (sch_wake_spec (worker s) t true Hok Hpk) as (w' & Hw & Hok' & Hp & Hf & Hfs & Hsh & Hrun).
  unfold complete_waiter_locked, get_waiter, deref, on_worker, fire, mbind, M_bind, mret, M_ret.
  rewrite Hx. destruct (w_kind x) eqn:Ek.
  - rewrite Ht. simpl. rewrite Hw. simpl. eexists. split; [done|]. split; [|done].
    split; rewrite ?Htold; try done. unfold fire. by rewrite Ek.
  - destruct (Hst eq_refl) as (st & ss & Est & Hss). rewrite Est, Hss, Ht. simpl. rewrite Hw. simpl.
    eexists. split; [done|]. split; [|done]. split; rewrite ?Htold; try done.
    unfold fire. by rewrite Ek, Est.
Qed.

(** The wake-up of a regular waiter by a close. *)
Lemma close_regular_run s x t :
  sch_ok (worker s) → sch_parked (worker s) t → w_task x = Some t → w_kind x = CW_REGULAR →
  ∃ s1, on_worker (sched_wake (w_task x) false) s = Ok (true, s1) ∧
        completed s s1 x t CROUTINE_SELECT_STATUS_CLOSED ∧ sch_ok (worker s1).
Proof.
  intros Hok Hpk Ht Hk.
  destruct (sch_wake_spec (worker s) t false Hok Hpk) as (w' & Hw & Hok' & Hp & Hf & Hfs & Hsh & Hrun).
  unfold on_worker. rewrite Ht, Hw. eexists. split; [done|]. split; [|done].
  split; try done; unfold told, fire; by rewrite Hk.
Qed.

Lemma cinv_completed s s1 B Q E x w t status :
  cinv s B Q (λ u, E u ∨ u = t) → waiters s !! w = Some x → (∀ c op, w ∉ Q c op) →
  w_task x = Some t → (w_kind x = CW_SELECT → w_state x ≠ None) →
  completed s s1 x t status → sch_ok (worker s1) → cinv s1 B Q E.
Proof.
  intros HI Hx Hnq Ht Hst [C1 C2 C3 C4 C5 C6 C7 C8 C9 _] Hok.
  split; rewrite ?C1, ?C2; try apply HI; [done| | |].
  3: { intros w' y Hy K. destruct (ci_state _ _ _ _ HI w' y Hy K) as (st & ss & E1 & E2).
       destruct (fire_some s x status st) as [ss' Hss']; [by eauto|]. exists st, ss'. by rewrite C5. }
  - intros c ch op w' Hch Hw'. destruct (ci_waiter _ _ _ _ HI c ch op w' Hch Hw') as (y & Hy & Hyo).
    exists y. split; [done|]. destruct Hyo as [O1 (u & Hu & Hul) O3 O4]. split; [done| | |].
    + exists u. split; [done|]. intros Hl.
      destruct (fire_live s s1 x status y C5 Hl) as [Hl0 Hne]. apply C8. split; [by apply Hul|].
      intros ->. destruct (ci_one _ _ _ _ HI w' w y x Hy Hx) as [H1 _].
      destruct H1 as [->|(K1 & K2 & K3)]; [congruence|by apply (Hnq c op)|].
      by apply Hne; [| |auto..]; auto.
    + unfold slot_ok in *. by rewrite C3.
    + intros K. destruct (O4 K) as (st & ss & E1 & E2).
      destruct (fire_some s x status st) as [ss' Hss']; [by eauto|].
      exists st, ss'. by rewrite C5.
  - intros u [Hu Hne]%C8. destruct (ci_covered _ _ _ _ HI u Hu) as [[?| ->]|Hc]; [by left|done|].
    right. destruct Hc as (c & op & w' & y & Hw' & Hy & Hl & Hyt).
    exists c, op, w', y. rewrite C2. split_and!; try done.
    eapply fire_live_other; [done..|]. intros K1 K2 K3.
    destruct (ci_one _ _ _ _ HI w' w y x Hy Hx) as [_ H2]. specialize (H2 K2 K1 K3). congruence.
Qed.
End invariant.
