(* ===== verification/ChannelSpec.v ===== *)
(** * What a channel promises: an abstract machine

    The reference against which src/channel.c is verified.  A channel is a
    list of buffered values and two lists of offers: the tasks that wait to
    send or to receive on it, each with the object it sends from or receives
    into.  Waking a task withdraws all its offers, on every channel: this is
    what a [select] needs, and there is no trace of waiters, links, ring
    positions or fired-but-linked cases at this level. *)

From S2P Require Import Prelude Task WaitQueue Channel.

Abbreviation SEND := CROUTINE_SELECT_OP_SEND.
Abbreviation RECV := CROUTINE_SELECT_OP_RECV.

(** A waiting task, its value slot and, for a case of a select, the select
    and the index of the case. *)
Record offer := mkOffer {
  o_task : tid;
  o_slot : option vptr;
  o_case : option (positive * Z)
}.

Record achan := mkAChan {
  a_elem : Z;
  a_cap : Z;
  a_closed : bool;
  a_buf : list (list byte);
  a_senders : list offer;
  a_receivers : list offer
}.
Definition a_offers (op : croutine_select_op) (ch : achan) : list offer :=
  match op with CROUTINE_SELECT_OP_SEND => a_senders ch | CROUTINE_SELECT_OP_RECV => a_receivers ch end.

Record astate := mkAState {
  a_chans : gmap positive achan;
  a_vals : gmap positive (list byte)
}.

Definition a_set_buf (l : list (list byte)) (ch : achan) : achan :=
  mkAChan (a_elem ch) (a_cap ch) (a_closed ch) l (a_senders ch) (a_receivers ch).
Definition a_set_closed (ch : achan) : achan :=
  mkAChan (a_elem ch) (a_cap ch) true (a_buf ch) (a_senders ch) (a_receivers ch).
Definition a_add_offer (op : croutine_select_op) (o : offer) (ch : achan) : achan :=
  mkAChan (a_elem ch) (a_cap ch) (a_closed ch) (a_buf ch)
    (match op with CROUTINE_SELECT_OP_SEND => a_senders ch ++ [o] | _ => a_senders ch end)
    (match op with CROUTINE_SELECT_OP_RECV => a_receivers ch ++ [o] | _ => a_receivers ch end).

Definition others (T : list tid) : list offer → list offer := filter (λ o, o_task o ∉ T).
Definition a_withdraw_from (T : list tid) (ch : achan) : achan :=
  mkAChan (a_elem ch) (a_cap ch) (a_closed ch) (a_buf ch)
    (others T (a_senders ch)) (others T (a_receivers ch)).
(** The tasks [T] are woken: their offers are gone everywhere. *)
Definition a_withdraw (T : list tid) (A : astate) : astate :=
  mkAState (a_withdraw_from T <$> a_chans A) (a_vals A).
Definition a_alter (f : achan → achan) (c : positive) (A : astate) : astate :=
  mkAState (alter f c (a_chans A)) (a_vals A).

Definition a_read (A : astate) (p : option vptr) (n : Z) : option (list byte) :=
  if n =? 0 then Some [] else
  match p with
  | Some (UserPtr o) =>
      bs ← a_vals A !! o;
      if n <=? Z.of_nat (length bs) then Some (take (Z.to_nat n) bs) else None
  | _ => None
  end.
Definition a_write (A : astate) (p : option vptr) (v : list byte) : option astate :=
  if (length v =? 0)%nat then Some A else
  match p with
  | Some (UserPtr o) =>
      bs ← a_vals A !! o;
      if (length v <=? length bs)%nat
      then Some (mkAState (a_chans A) (<[o := overwrite bs 0 v]> (a_vals A))) else None
  | _ => None
  end.

(** ** The operations

    Each returns the result, the offers it accepts (with the status the
    waiting task is told) and the next state; [None] when a value slot is not
    an object of the element size. *)
Definition wakeup : Type := offer * croutine_select_status.

Definition a_try_send (shutdown : bool) (c : positive) (p : option vptr) (A : astate)
  : option (try_send_result * list wakeup * astate) :=
  ch ← a_chans A !! c;
  if a_closed ch || shutdown then Some (TRY_SEND CROUTINE_CHANNEL_SEND_CLOSED, [], A) else
  v ← a_read A p (a_elem ch);
  match a_receivers ch with
  | o :: _ =>
      A' ← a_write A (o_slot o) v;
      Some (TRY_SEND CROUTINE_CHANNEL_SEND_OK, [(o, CROUTINE_SELECT_STATUS_VALUE)],
            a_withdraw [o_task o] A')
  | [] =>
      if Z.of_nat (length (a_buf ch)) <? a_cap ch
      then Some (TRY_SEND CROUTINE_CHANNEL_SEND_OK, [], a_alter (a_set_buf (a_buf ch ++ [v])) c A)
      else Some (TRY_SEND_WOULD_BLOCK, [], A)
  end.

Definition a_try_recv (shutdown : bool) (c : positive) (out : option vptr) (A : astate)
  : option (croutine_channel_recv_result * list wakeup * astate) :=
  ch ← a_chans A !! c;
  match a_buf ch, a_senders ch with
  | v :: l, senders =>
      A' ← a_write A out v;
      match senders with
      | o :: _ =>
          if a_closed ch then Some (CROUTINE_CHANNEL_RECV_VALUE, [], a_alter (a_set_buf l) c A')
          else u ← a_read A' (o_slot o) (a_elem ch);
               Some (CROUTINE_CHANNEL_RECV_VALUE, [(o, CROUTINE_SELECT_STATUS_SENT)],
                     a_withdraw [o_task o] (a_alter (a_set_buf (l ++ [u])) c A'))
      | [] => Some (CROUTINE_CHANNEL_RECV_VALUE, [], a_alter (a_set_buf l) c A')
      end
  | [], o :: _ =>
      v ← a_read A (o_slot o) (a_elem ch);
      A' ← a_write A out v;
      Some (CROUTINE_CHANNEL_RECV_VALUE, [(o, CROUTINE_SELECT_STATUS_SENT)],
            a_withdraw [o_task o] A')
  | [], [] =>
      if a_closed ch || shutdown then Some (CROUTINE_CHANNEL_RECV_CLOSED, [], A)
      else Some (CROUTINE_CHANNEL_RECV_EMPTY, [], A)
  end.

Definition a_wait (c : positive) (op : croutine_select_op) (o : offer) : astate → astate :=
  a_alter (a_add_offer op o) c.

(** Closing wakes everybody who waits on the channel. *)
Definition a_waiting (ch : achan) : list tid := o_task <$> a_senders ch ++ a_receivers ch.
Definition a_close (c : positive) (A : astate) : astate :=
  match a_chans A !! c with
  | Some ch => if a_closed ch then A
               else a_withdraw (a_waiting ch) (a_alter a_set_closed c A)
  | None => A
  end.

(** ** The invariant of the abstract machine

    Nobody waits in vain: receivers wait only on an empty buffer, senders
    only on a full one, a waiting sender and a waiting receiver of one
    channel are cases of one select, and nobody waits on a closed channel. *)
Record achan_ok (ch : achan) : Prop := {
  ao_len : Z.of_nat (length (a_buf ch)) ≤ a_cap ch;
  ao_vals : Forall (λ v, Z.of_nat (length v) = a_elem ch) (a_buf ch);
  ao_recv : a_receivers ch ≠ [] → a_buf ch = [];
  ao_send : a_senders ch ≠ [] → Z.of_nat (length (a_buf ch)) = a_cap ch;
  ao_pair : ∀ o o', o ∈ a_senders ch → o' ∈ a_receivers ch → o_task o = o_task o';
  ao_closed : a_closed ch = true → a_senders ch = [] ∧ a_receivers ch = []
}.
Definition aok (A : astate) : Prop := ∀ c ch, a_chans A !! c = Some ch → achan_ok ch.

(** A task may start to wait: the attempt failed, and only the task itself
    waits on the other side. *)
Definition would_block (op : croutine_select_op) (t : tid) (ch : achan) : Prop :=
  a_closed ch = false ∧
  match op with
  | CROUTINE_SELECT_OP_SEND =>
      Z.of_nat (length (a_buf ch)) = a_cap ch ∧ (∀ o, o ∈ a_receivers ch → o_task o = t)
  | CROUTINE_SELECT_OP_RECV => a_buf ch = [] ∧ (∀ o, o ∈ a_senders ch → o_task o = t)
  end.

Lemma others_in T l o : o ∈ others T l ↔ o ∈ l ∧ o_task o ∉ T.
Proof. unfold others. rewrite list_elem_of_filter. tauto. Qed.

Lemma others_nil T l : others T l ≠ [] → l ≠ [].
Proof. by destruct l. Qed.

Lemma others_all l : others [] l = l.
Proof.
  unfold others. induction l as [|o l IH]; [done|].
  rewrite filter_cons_True by set_solver. f_equal. exact IH.
Qed.

Lemma achan_ok_withdraw T ch : achan_ok ch → achan_ok (a_withdraw_from T ch).
Proof.
  intros [H1 H2 H3 H4 H5 H6]. split; simpl; try done.
  - intros ?%others_nil. auto.
  - intros ?%others_nil. auto.
  - intros o o' [Ho _]%others_in [Ho' _]%others_in. by apply H5.
  - intros Hc. by destruct (H6 Hc) as [-> ->].
Qed.

Lemma aok_withdraw T A : aok A → aok (a_withdraw T A).
Proof.
  intros HA c ch. simpl. rewrite lookup_fmap.
  destruct (a_chans A !! c) as [ch0|] eqn:E; simpl; [|done].
  intros [= <-]. by apply achan_ok_withdraw, (HA c).
Qed.

Lemma aok_alter f c ch A :
  aok A → a_chans A !! c = Some ch → achan_ok (f ch) → aok (a_alter f c A).
Proof.
  intros HA Hc Hch c' ch'. simpl. rewrite lookup_alter_Some.
  intros [(-> & ch0 & H & ->)|[_ H]]; [by simplify_eq|by eapply HA].
Qed.

Lemma a_write_chans A p v A' : a_write A p v = Some A' → a_chans A' = a_chans A.
Proof.
  unfold a_write. destruct (length v =? 0)%nat; [by intros [= <-]|].
  destruct p as [[o|]|]; try done. destruct (a_vals A !! o) as [bs|]; simpl; [|done].
  case_match; [|done]. by intros [= <-].
Qed.

Lemma aok_chans A A' : a_chans A' = a_chans A → aok A → aok A'.
Proof. unfold aok. by intros ->. Qed.

Lemma a_read_length A p n v : 0 ≤ n → a_read A p n = Some v → Z.of_nat (length v) = n.
Proof.
  unfold a_read. intros Hn. destruct (Z.eqb_spec n 0) as [->|]; [by intros [= <-]|].
  destruct p as [[o|]|]; try done. destruct (a_vals A !! o) as [bs|]; simpl; [|done].
  case_bool; [|done]. intros [= <-]. rewrite length_take. lia.
Qed.

(** ** The operations keep it *)

Ltac a_inv :=
  repeat match goal with
  | H : (_ ≫= _) = Some _ |- _ => apply bind_Some in H as (? & ? & H)
  end.

Lemma aok_try_send sd c p A r T A' :
  aok A → (∀ ch, a_chans A !! c = Some ch → 0 ≤ a_elem ch) →
  a_try_send sd c p A = Some (r, T, A') → aok A'.
Proof.
  intros HA Hel Hrun. unfold a_try_send in Hrun. a_inv. rename x into ch.
  pose proof (HA c ch H) as [H1 H2 H3 H4 H5 H6].
  destruct (a_closed ch) eqn:Ec; simpl in *; [by simplify_eq|]. destruct sd; [by simplify_eq|].
  a_inv. rename x into v. destruct (a_receivers ch) as [|o rs] eqn:Er.
  - case_bool; simplify_eq; [|done]. eapply aok_alter; [done..|].
    split; simpl; rewrite ?length_app, ?Er, ?Ec; simpl; try done; try lia.
    + apply Forall_app. split; [done|]. constructor; [|done].
      eapply a_read_length; [by eapply Hel|done].
    + intros Hs. specialize (H4 Hs). lia.
  - a_inv. simplify_eq. apply aok_withdraw. eapply aok_chans; [|done]. by eapply a_write_chans.
Qed.

Lemma aok_try_recv sd c p A r T A' :
  aok A → (∀ ch, a_chans A !! c = Some ch → 0 ≤ a_elem ch) →
  a_try_recv sd c p A = Some (r, T, A') → aok A'.
Proof.
  intros HA Hel Hrun. unfold a_try_recv in Hrun. a_inv. rename x into ch.
  pose proof (HA c ch H) as [H1 H2 H3 H4 H5 H6].
  destruct (a_buf ch) as [|v l] eqn:Eb.
  - destruct (a_senders ch) as [|o ss] eqn:Es.
    + by destruct (a_closed ch || sd); simplify_eq.
    + a_inv. simplify_eq. apply aok_withdraw. eapply aok_chans; [|done]. by eapply a_write_chans.
  - a_inv. rename x into A1. apply Forall_cons in H2 as [Hv H2].
    assert (a_receivers ch = []) as Er by (destruct (a_receivers ch); [done|by discriminate H3]).
    match goal with Hw : a_write _ _ _ = Some A1 |- _ => pose proof (a_write_chans _ _ _ _ Hw) as EA end.
    assert (a_chans A1 !! c = Some ch) as Hc1 by (by rewrite EA).
    apply (aok_chans A A1 EA) in HA.
    simpl in H1, H4. destruct (a_senders ch) as [|o ss] eqn:Es.
    + simplify_eq. eapply aok_alter; [done..|]. split; simpl; rewrite ?Er, ?Es; try done; try lia; set_solver.
    + destruct (a_closed ch) eqn:Ec; [by destruct (H6 eq_refl)|]. a_inv. simplify_eq.
      apply aok_withdraw. eapply aok_alter; [done..|]. specialize (H4 ltac:(done)).
      split; simpl; rewrite ?length_app, ?Er, ?Es, ?Ec; simpl; try done; try lia.
      * apply Forall_app. split; [done|]. constructor; [|done].
        eapply a_read_length; [by eapply Hel|done].
      * set_solver.
Qed.

Lemma aok_wait c op o A ch :
  aok A → a_chans A !! c = Some ch → would_block op (o_task o) ch → aok (a_wait c op o A).
Proof.
  intros HA Hc [Hcl Hb]. eapply aok_alter; [done..|].
  destruct (HA c ch Hc) as [H1 H2 H3 H4 H5 H6].
  destruct op; destruct Hb as [Hb1 Hb2]; split; simpl; try done; try (by rewrite Hcl).
  - intros o1 o2 [Ho| ->%list_elem_of_singleton]%elem_of_app Ho'; [by apply H5|].
    symmetry. by apply Hb2.
  - intros o1 o2 Ho [Ho'| ->%list_elem_of_singleton]%elem_of_app; [by apply H5|]. by apply Hb2.
Qed.

Lemma others_waiting l l' : l ⊆ l' → others (o_task <$> l') l = [].
Proof.
  intros Hl. destruct (others _ l) as [|o r] eqn:E; [done|].
  assert (o ∈ others (o_task <$> l') l) as [Ho Hn]%others_in by (rewrite E; left).
  destruct Hn. apply list_elem_of_fmap. set_solver.
Qed.

Lemma aok_close c A : aok A → aok (a_close c A).
Proof.
  intros HA. unfold a_close. destruct (a_chans A !! c) as [ch|] eqn:Hc; [|done].
  destruct (a_closed ch) eqn:Ec; [done|]. intros c' ch'. simpl. rewrite lookup_fmap.
  destruct (decide (c = c')) as [<-|Hne].
  - rewrite lookup_alter_eq, Hc. simpl. intros [= <-].
    destruct (HA c ch Hc) as [H1 H2 H3 H4 H5 H6]. unfold a_withdraw_from, a_waiting. simpl.
    rewrite !others_waiting by set_solver. split; simpl; try done; set_solver.
  - rewrite lookup_alter_ne by done. destruct (a_chans A !! c') as [ch0|] eqn:E; simpl; [|done].
    intros [= <-]. by apply achan_ok_withdraw, (HA c').
Qed.

(** An attempt that would block changes nothing. *)
Lemma a_try_send_blocked sd c p A T A' :
  a_try_send sd c p A = Some (TRY_SEND_WOULD_BLOCK, T, A') →
  T = [] ∧ A' = A ∧ sd = false ∧ ∃ a, a_chans A !! c = Some a ∧ a_closed a = false ∧
    is_Some (a_read A p (a_elem a)) ∧ a_receivers a = [] ∧ a_cap a ≤ Z.of_nat (length (a_buf a)).
Proof.
  unfold a_try_send. intros Hrun. apply bind_Some in Hrun as (a & Ha & Hrun).
  destruct (a_closed a) eqn:Ec; [done|]. destruct sd; [done|]. simpl in Hrun.
  apply bind_Some in Hrun as (v & Hv & Hrun). destruct (a_receivers a) as [|o rs] eqn:Er.
  - destruct (Z.ltb_spec (Z.of_nat (length (a_buf a))) (a_cap a)); simplify_eq.
    split_and!; try done. exists a. rewrite Hv. eauto 10.
  - apply bind_Some in Hrun as (? & _ & ?). done.
Qed.

Lemma a_try_recv_blocked sd c p A T A' :
  a_try_recv sd c p A = Some (CROUTINE_CHANNEL_RECV_EMPTY, T, A') →
  T = [] ∧ A' = A ∧ sd = false ∧ ∃ a, a_chans A !! c = Some a ∧ a_closed a = false ∧
    a_buf a = [] ∧ a_senders a = [].
Proof.
  unfold a_try_recv. intros Hrun. apply bind_Some in Hrun as (a & Ha & Hrun).
  destruct (a_buf a) eqn:Eb.
  - destruct (a_senders a) as [|o ss] eqn:Es.
    + destruct (a_closed a || sd) eqn:Ec; simplify_eq. apply orb_false_iff in Ec as [? ?].
      split_and!; try done. exists a. eauto 10.
    + apply bind_Some in Hrun as (? & _ & Hrun). apply bind_Some in Hrun as (? & _ & ?). done.
  - apply bind_Some in Hrun as (? & _ & Hrun). destruct (a_senders a); [done|].
    destruct (a_closed a); [done|]. apply bind_Some in Hrun as (? & _ & ?). done.
Qed.
