(* ===== verification/ChannelRefine.v ===== *)
(** * src/channel.c implements the abstract machine: the moves

    [abs] reads the abstract channels off a state; the lemmas of this file
    say what the steps of the operations (taking a waiter out of a queue,
    copying a value, pushing to and popping from a ring, completing a waiter)
    do to the invariant and to the abstraction. *)

From S2P Require Import Prelude Task WaitQueue Channel ChannelBuffer ChannelInv ChannelSpec.

Section refine.
Context {W : Type} `{SchedulerLaws W}.
Implicit Types (s : cstate W) (x : ChannelWaiter) (w c : positive) (op : croutine_select_op).
Implicit Types (B : positive → list (list byte)) (Q : positive → croutine_select_op → list positive).

(** ** The abstraction *)

Definition case_of x : option (positive * Z) :=
  match w_kind x, w_state x with
  | CW_SELECT, Some st => Some (st, i32 (w_case_index x))
  | _, _ => None
  end.
Definition offer_of s w : option offer :=
  x ← waiters s !! w;
  t ← w_task x;
  if wlive s x then Some (mkOffer t (w_value_slot x) (case_of x)) else None.
Definition offers s Q c op : list offer := omap (offer_of s) (Q c op).
Definition abs_chan s B Q c (ch : croutine_channel) : achan :=
  mkAChan (elem_size ch) (capacity ch) (closed ch) (B c) (offers s Q c SEND) (offers s Q c RECV).
Definition abs s B Q : astate :=
  mkAState (map_imap (λ c ch, Some (abs_chan s B Q c ch)) (channels s)) (values s).

(** The simulation relation. *)
Definition no_task : tid → Prop := λ _, False.
Definition cref s (A : astate) : Prop :=
  ∃ B Q, cinv s B Q no_task ∧ drained s Q ∧ abs s B Q = A.

Lemma abs_lookup s B Q c :
  a_chans (abs s B Q) !! c = abs_chan s B Q c <$> channels s !! c.
Proof. simpl. rewrite map_lookup_imap. by destruct (channels s !! c). Qed.

Lemma a_offers_abs s B Q c ch op : a_offers op (abs_chan s B Q c ch) = offers s Q c op.
Proof. by destruct op. Qed.

Lemma astate_eq A A' : (∀ c, a_chans A !! c = a_chans A' !! c) → a_vals A = a_vals A' → A = A'.
Proof. destruct A, A'. simpl. intros ?%map_eq ->. by f_equal. Qed.

Lemma achan_eq ch ch' :
  a_elem ch = a_elem ch' → a_cap ch = a_cap ch' → a_closed ch = a_closed ch' →
  a_buf ch = a_buf ch' → (∀ op, a_offers op ch = a_offers op ch') → ch = ch'.
Proof.
  intros E1 E2 E3 E4 E5. pose proof (E5 SEND) as E6. specialize (E5 RECV).
  destruct ch, ch'. simpl in *. by subst.
Qed.

Lemma a_offers_withdraw op T ch : a_offers op (a_withdraw_from T ch) = others T (a_offers op ch).
Proof. by destruct op. Qed.

Lemma a_withdraw_lookup T A c :
  a_chans (a_withdraw T A) !! c = a_withdraw_from T <$> a_chans A !! c.
Proof. apply lookup_fmap. Qed.

Lemma others_cons T o l : others T (o :: l) = if decide (o_task o ∈ T) then others T l else o :: others T l.
Proof.
  unfold others. case_decide.
  - by rewrite filter_cons_False by tauto.
  - by rewrite filter_cons_True.
Qed.

Lemma others_omap (f f' : positive → option offer) T l :
  (∀ w, w ∈ l → f' w = o ← f w; if decide (o_task o ∈ T) then None else Some o) →
  omap f' l = others T (omap f l).
Proof.
  induction l as [|w l IH]; intros Hf; [done|].
  cbn [omap list_omap]. rewrite (Hf w) by left.
  assert (omap f' l = others T (omap f l)) as IHl by (apply IH; intros; apply Hf; by right).
  unfold omap in IHl. destruct (f w) as [o|]; simpl; [|done].
  rewrite others_cons. case_decide; [done|]. f_equal. exact IHl.
Qed.

(** ** Taking a waiter out of a queue *)

Lemma offer_payload s s1 w x x1 :
  selects s1 = selects s → waiters s !! w = Some x → waiters s1 !! w = Some x1 →
  payload x1 = payload x → offer_of s1 w = offer_of s w.
Proof.
  intros Hs Hx Hx1 Hp. unfold offer_of. rewrite Hx, Hx1. simpl.
  rewrite (wlive_payload s s1 x x1) by done.
  destruct x, x1; unfold payload in Hp; simpl in *; by simplify_eq.
Qed.

Lemma offer_popped s s1 c op l w :
  popped s s1 c op l → offer_of s1 w = offer_of s w.
Proof.
  intros [_ _ P3 _ _ P6]. destruct (waiters s !! w) as [x|] eqn:Hx.
  - destruct (frame_payload _ _ _ P6 w x Hx) as (x1 & Hx1 & Hp). by eapply offer_payload.
  - unfold offer_of. rewrite Hx.
    assert (waiters s1 !! w = None) as ->; [|done].
    apply not_elem_of_dom. rewrite (frame_dom _ _ _ P6). by apply not_elem_of_dom.
Qed.

Lemma offers_ext s s' Q c op :
  (∀ w, w ∈ Q c op → offer_of s' w = offer_of s w) → offers s' Q c op = offers s Q c op.
Proof. intros Hw. apply list_omap_ext, Forall_Forall2_diag, Forall_forall. exact Hw. Qed.

Lemma abs_ext s s' B Q :
  channels s' = channels s → values s' = values s →
  (∀ c ch op w, channels s !! c = Some ch → w ∈ Q c op → offer_of s' w = offer_of s w) →
  abs s' B Q = abs s B Q.
Proof.
  intros Ec Ev Ho. apply astate_eq; [|done]. intros c. rewrite !abs_lookup, Ec.
  destruct (channels s !! c) as [ch|] eqn:Hc; [|done]. simpl. f_equal.
  apply achan_eq; try done. intros op. rewrite !a_offers_abs. apply offers_ext.
  intros w. by apply (Ho c ch op).
Qed.

Lemma popped_lookup s s1 c op l c' :
  popped s s1 c op l → 
  ∀ B Q, abs_chan s1 B Q c' <$> channels s1 !! c' = abs_chan s B Q c' <$> channels s !! c'.
Proof.
  intros Hpo B Q.
  assert (∀ op', offers s1 Q c' op' = offers s Q c' op') as Ho.
  { intros op'. apply offers_ext. intros w _. by eapply offer_popped. }
  destruct (po_channels _ _ _ _ _ Hpo) as (ch & q & Hc & ->).
  destruct (decide (c' = c)) as [->|Hne].
  - rewrite lookup_insert_eq, Hc. simpl. unfold abs_chan. rewrite !Ho. by destruct op.
  - rewrite lookup_insert_ne by done. destruct (channels s !! c'); [|done]. simpl.
    unfold abs_chan. by rewrite !Ho.
Qed.

Lemma abs_popped s s1 c op l B Q : popped s s1 c op l → abs s1 B Q = abs s B Q.
Proof.
  intros Hpo. apply astate_eq.
  - intros c'. rewrite !abs_lookup. by eapply popped_lookup.
  - apply Hpo.
Qed.

Lemma offers_dead s l : Forall (dead_in s) l → omap (offer_of s) l = [].
Proof.
  induction 1 as [|w l Hw _ IH]; [done|]. cbn [omap list_omap].
  assert (offer_of s w = None) as ->; [|exact IH].
  unfold offer_of. destruct (waiters s !! w) as [x|] eqn:Hx; [|done]. simpl.
  rewrite (Hw x Hx). by destruct (w_task x).
Qed.

Lemma abs_queue_ext s B Q Q' : (∀ c op, offers s Q c op = offers s Q' c op) → abs s B Q = abs s B Q'.
Proof.
  intros Ho. apply astate_eq; [|done]. intros c. rewrite !abs_lookup.
  destruct (channels s !! c); [|done]. simpl. unfold abs_chan. by rewrite !Ho.
Qed.

Lemma abs_withdraw_ext s B Q Q' T :
  (∀ c op, others T (offers s Q c op) = others T (offers s Q' c op)) →
  a_withdraw T (abs s B Q) = a_withdraw T (abs s B Q').
Proof.
  intros Ho. apply astate_eq; [|done]. intros c. rewrite !a_withdraw_lookup, !abs_lookup. destruct (channels s !! c); [|done]. simpl.
  unfold a_withdraw_from, abs_chan. simpl. by rewrite !Ho.
Qed.

(** [pop_live_waiter_locked] takes the first offer, if there is one. *)
Lemma pop_live_refines s B Q c ch op :
  cinv s B Q no_task → channels s !! c = Some ch →
  ∃ r s1 Q1, pop_live_waiter_locked c op s = Ok (r, s1) ∧ popped s s1 c op (Q c op) ∧
    (∀ c' op', Q1 c' op' ⊆ Q c' op') ∧
    match r with
    | None => offers s Q c op = [] ∧ cinv s1 B Q1 no_task ∧ abs s1 B Q1 = abs s B Q
    | Some w => ∃ x t rest, 
        waiters s1 !! w = Some x ∧ w_task x = Some t ∧ waiter_ok s ch op x ∧ wlive s x = true ∧
        sch_parked (worker s) t ∧
        offers s Q c op = mkOffer t (w_value_slot x) (case_of x) :: rest ∧
        (∀ c' op', w ∉ Q1 c' op') ∧ cinv s1 B Q1 (λ u, u = t) ∧
        a_withdraw [t] (abs s1 B Q1) = a_withdraw [t] (abs s B Q)
    end.
Proof.
  intros HI Hch. pose proof (queue_size _ _ _ _ _ _ op HI Hch) as Hsz.
  destruct (pop_live_spec B no_task c op (Q c op) s Q ch (S (size (waiters s))) HI Hch eq_refl)
    as (r & s1 & l1 & Hrun & Hpo & Hr); [lia|].
  exists r, s1, (updQ Q c op l1). split; [done|]. split; [done|].
  destruct r as [w|].
  - destruct Hr as (pre & y & t & EQ & Hpre & Hy & Hyo & Hyl & Hyt & Hpk & (x & Hx & Hp & Hxc) & HI1).
    assert (w_task x = w_task y ∧ w_value_slot x = w_value_slot y ∧ case_of x = case_of y) as (P1 & P2 & P3).
    { destruct x, y. unfold payload in Hp. simpl in *. by simplify_eq. }
    assert (offers s Q c op = mkOffer t (w_value_slot x) (case_of x) :: omap (offer_of s) l1) as Hoff.
    { unfold offers. rewrite EQ, omap_app, offers_dead by done. simpl.
      unfold offer_of at 1. rewrite Hy. simpl. by rewrite Hyt, Hyl, P2, P3. }
    split; [intros c' op'; apply updQ_sub; rewrite EQ; set_solver|].
    exists x, t, (omap (offer_of s) l1). split_and!; try done.
    + congruence.
    + by eapply waiter_ok_ext; [..|exact Hyo].
    + by rewrite (wlive_payload s s y x).
    + intros c' op' Hw. destruct (decide (c' = c ∧ op' = op)) as [[-> ->]|Hne].
      * rewrite updQ_eq in Hw. pose proof (wq_nodup _ _ _ _ (ci_queue _ _ _ _ HI c ch op Hch)) as Hnd.
        rewrite EQ in Hnd. apply NoDup_app in Hnd as (_ & _ & [? _]%NoDup_cons). done.
      * rewrite updQ_ne in Hw by done.
        apply Hne. apply (queued_unique s B Q no_task c' op' c op w); [done..|]. rewrite EQ. set_solver.
    + eapply cinv_weaken; [|done]. unfold no_task. tauto.
    + rewrite (abs_popped _ _ _ _ _ _ _ Hpo). apply abs_withdraw_ext. intros c' op'.
      unfold updQ, offers. case_decide as Ed; [|done]. destruct Ed as [-> ->].
      fold (offers s Q c op). rewrite Hoff, others_cons, decide_True by (simpl; set_solver). done.
  - destruct Hr as (-> & Hd & HI1).
    assert (offers s Q c op = []) as Hoff by (by apply offers_dead).
    split; [intros c' op'; apply updQ_sub; set_solver|]. split; [done|]. split; [done|].
    rewrite (abs_popped _ _ _ _ _ _ _ Hpo). apply abs_queue_ext. intros c' op'.
    unfold updQ, offers. case_decide as Ed; [|done]. destruct Ed as [-> ->]. symmetry. apply Hoff.
Qed.

(** ** Completing a waiter *)

(** The part of the state the operations below leave alone. *)
Definition reg_view s : option positive * gmap positive (option positive * option positive) :=
  (channel_registry s, (λ ch, (registry_prev ch, registry_next ch)) <$> channels s).
Record cframe s s' : Prop := {
  cf_reg : reg_view s' = reg_view s;
  cf_closed : closed <$> channels s' = closed <$> channels s;
  cf_waiters : payload <$> waiters s' = payload <$> waiters s;
  cf_shutdown : sched_shutdown (worker s') = sched_shutdown (worker s)
}.

(** The tasks of [T] were woken and told their status, and nobody else. *)
Definition success (k : wakeup) : bool :=
  match o_case k.1, k.2 with None, CROUTINE_SELECT_STATUS_CLOSED => false | _, _ => true end.
Definition tasks (T : list wakeup) : list tid := (λ k, o_task k.1) <$> T.
Record woke s s' (T : list wakeup) : Prop := {
  wk_parked : ∀ u, sch_parked (worker s') u ↔ sch_parked (worker s) u ∧ u ∉ tasks T;
  wk_was : ∀ u, u ∈ tasks T → sch_parked (worker s) u;
  wk_flag : ∀ k, k ∈ T → sch_flag (worker s') (o_task k.1) = Some (success k);
  wk_flags : ∀ u, u ∉ tasks T → sch_flag (worker s') u = sch_flag (worker s) u;
  wk_select : ∀ k st i, k ∈ T → o_case k.1 = Some (st, i) →
    selects s' !! st = Some (mkSelectState true i k.2);
  wk_selects : ∀ st, (∀ k i, k ∈ T → o_case k.1 ≠ Some (st, i)) →
    selects s' !! st = selects s !! st;
  wk_live : ∀ k st i, k ∈ T → o_case k.1 = Some (st, i) →
    ∃ ss, selects s !! st = Some ss ∧ done ss = false;
  wk_running : ∀ u, sch_running (worker s) u → sch_running (worker s') u;
  wk_from : ∀ k, k ∈ T → ∃ w x, waiters s !! w = Some x ∧ w_task x = Some (o_task k.1) ∧
    case_of x = o_case k.1
}.

Lemma fmap_payload_lookup (h h' : gmap positive ChannelWaiter) w x :
  payload <$> h = payload <$> h' → h !! w = Some x → ∃ y, h' !! w = Some y ∧ payload x = payload y.
Proof.
  intros E Hx. apply (f_equal (lookup w)) in E. rewrite !lookup_fmap, Hx in E.
  destruct (h' !! w) as [y|]; [|done]. exists y. split; [done|]. by apply (inj Some) in E.
Qed.

Lemma case_of_payload x y : payload x = payload y → w_task x = w_task y ∧ case_of x = case_of y.
Proof. intros [= E1 E2 E3 E4 E5 E6]. unfold case_of. by rewrite E1, E3, E5, E6. Qed.

Lemma cframe_refl s : cframe s s.
Proof. done. Qed.
Lemma cframe_trans s1 s2 s3 : cframe s1 s2 → cframe s2 s3 → cframe s1 s3.
Proof. intros [A1 A2 A3 A4] [B1 B2 B3 B4]. split; congruence. Qed.

(** Nobody was woken. *)
Lemma woke_quiet s s' : worker s' = worker s → selects s' = selects s → woke s s' [].
Proof. intros E1 E2. split; rewrite ?E1, ?E2; set_solver. Qed.
Lemma woke_after s s1 s2 T :
  worker s1 = worker s → selects s1 = selects s → payload <$> waiters s1 = payload <$> waiters s →
  woke s1 s2 T → woke s s2 T.
Proof.
  intros E1 E2 E3 [H1 H2 H3 H4 H5 H6 H7 H8 H9]. rewrite E1 in *. rewrite E2 in *. split; try done.
  intros k Hk. destruct (H9 k Hk) as (w & x & Hx & Ht & Hc).
  destruct (fmap_payload_lookup _ _ _ _ E3 Hx) as (y & Hy & [E4 E5]%case_of_payload). exists w, y. by rewrite <-E4, <-E5.
Qed.
Lemma woke_before s s1 s2 T :
  worker s2 = worker s1 → selects s2 = selects s1 → woke s s1 T → woke s s2 T.
Proof. intros E1 E2 [H1 H2 H3 H4 H5 H6 H7 H8 H9]. rewrite <-E1 in *. rewrite <-E2 in *. by split. Qed.

Lemma popped_frame s s1 c op l : popped s s1 c op l → cframe s s1.
Proof.
  intros [(ch & q & Hc & P1) P2 P3 P4 P5 P6]. split.
  - unfold reg_view. rewrite P1, P5. f_equal. rewrite fmap_insert.
    apply insert_id. rewrite lookup_fmap, Hc. by destruct op.
  - rewrite P1, fmap_insert. apply insert_id. rewrite lookup_fmap, Hc. by destruct op.
  - apply map_eq. intros w. rewrite !lookup_fmap.
    destruct (waiters s !! w) as [x|] eqn:Hx.
    + destruct (frame_payload _ _ _ P6 w x Hx) as (x1 & -> & Hp). simpl. by rewrite Hp.
    + assert (waiters s1 !! w = None) as ->; [|done].
      apply not_elem_of_dom. rewrite (frame_dom _ _ _ P6). by apply not_elem_of_dom.
  - by rewrite P4.
Qed.

Lemma offer_completed s s1 B Q E x w t status c ch op w' :
  cinv s B Q E → waiters s !! w = Some x → (∀ c op, w ∉ Q c op) → w_task x = Some t →
  (w_kind x = CW_SELECT → w_state x ≠ None) → completed s s1 x t status →
  channels s !! c = Some ch → w' ∈ Q c op →
  offer_of s1 w' = o ← offer_of s w'; if decide (o_task o ∈ [t]) then None else Some o.
Proof.
  intros HI Hx Hnq Ht Hst [_ C2 _ _ C5 _ _ _ _ _] Hch Hw'.
  destruct (ci_waiter _ _ _ _ HI c ch op w' Hch Hw') as (y & Hy & Hyo).
  destruct (wo_task _ _ _ _ Hyo) as (u & Hu & _).
  unfold offer_of. rewrite C2, Hy. simpl. rewrite Hu. simpl.
  pose proof (ci_one _ _ _ _ HI w' w y x Hy Hx) as [H1 H2].
  destruct (wlive s1 y) eqn:E1.
  - destruct (fire_live s s1 x status y C5 E1) as [E2 Hne]. rewrite E2. simpl.
    rewrite decide_False; [done|]. rewrite list_elem_of_singleton. intros ->.
    destruct H1 as [->|(K1 & K2 & K3)]; [congruence|by apply (Hnq c op)|]. by apply Hne; auto.
  - destruct (wlive s y) eqn:E2; [|done]. simpl. rewrite decide_True; [done|].
    rewrite list_elem_of_singleton. destruct (decide (u = t)) as [|Hne]; [done|].
    rewrite (fire_live_other s s1 x status y C5 E2) in E1; [done|].
    intros K1 K2 K3. specialize (H2 K2 K1 K3). congruence.
Qed.

Lemma abs_completed s s1 B Q E x w t status :
  cinv s B Q E → waiters s !! w = Some x → (∀ c op, w ∉ Q c op) → w_task x = Some t →
  (w_kind x = CW_SELECT → w_state x ≠ None) → completed s s1 x t status →
  abs s1 B Q = a_withdraw [t] (abs s B Q).
Proof.
  intros HI Hx Hnq Ht Hst Hco. apply astate_eq; [|apply Hco].
  intros c. rewrite a_withdraw_lookup, !abs_lookup, (co_channels _ _ _ _ _ Hco).
  destruct (channels s !! c) as [ch|] eqn:Hch; [|done]. simpl. f_equal.
  apply achan_eq; try done. intros op. rewrite a_offers_withdraw, !a_offers_abs.
  apply others_omap. intros w' Hw'. by eapply offer_completed.
Qed.

Lemma woke_completed s s1 w x t status ch op :
  waiters s !! w = Some x → w_task x = Some t → sch_parked (worker s) t → waiter_ok s ch op x → wlive s x = true → completed s s1 x t status →
  woke s s1 [(mkOffer t (w_value_slot x) (case_of x), status)].
Proof.
  intros Hx Ht Hpk Hok Hlive [_ _ _ _ C5 C6 C7 C8 _ C10]. unfold fire in C5.
  pose proof (wo_state _ _ _ _ Hok) as Hst.
  split; unfold tasks; simpl; rewrite ?C5; try setoid_rewrite list_elem_of_singleton; simpl.
  - done.
  - by intros u ->.
  - intros k ->. simpl. rewrite C6. f_equal. unfold success, told, case_of. simpl.
    destruct (w_kind x); [by destruct status|].
    destruct (Hst eq_refl) as (st & ss & -> & _). by destruct status.
  - done.
  - intros k st i ->. simpl. unfold case_of.
    destruct (w_kind x), (w_state x); try done. intros [= <- <-]. by rewrite lookup_insert_eq.
  - intros st Hne. specialize (λ i, Hne _ i eq_refl). simpl in Hne. unfold case_of in Hne.
    destruct (w_kind x), (w_state x) as [st'|]; try done. rewrite lookup_insert_ne; naive_solver.
  - intros k st i ->. simpl. unfold case_of, wlive in *. destruct (w_kind x) eqn:K; [done|].
    destruct (Hst eq_refl) as (st' & ss & E1 & E2). rewrite E1, E2 in *.
    intros [= <- <-]. exists ss. split; [done|]. by apply negb_true_iff.
  - done.
  - intros k ->. by exists w, x.
Qed.

(** A waiter just popped is completed. *)
Lemma completed_refines s s1 B Q w x t status ch op :
  cinv s B Q (λ u, u = t) → waiters s !! w = Some x → (∀ c op, w ∉ Q c op) →
  w_task x = Some t → sch_parked (worker s) t → waiter_ok s ch op x → wlive s x = true →
  completed s s1 x t status → sch_ok (worker s1) →
  cinv s1 B Q no_task ∧ abs s1 B Q = a_withdraw [t] (abs s B Q) ∧ channels s1 = channels s ∧
  cframe s s1 ∧ woke s s1 [(mkOffer t (w_value_slot x) (case_of x), status)].
Proof.
  intros HI Hx Hnq Ht Hpk Hok Hlive Hco Hsok.
  assert (w_kind x = CW_SELECT → w_state x ≠ None) as Hst.
  { intros K. by destruct (wo_state _ _ _ _ Hok K) as (st & ss & -> & _). }
  split_and!.
  - eapply (cinv_completed s s1 B Q no_task); try done.
    eapply cinv_weaken; [|done]. intros u ->. by right.
  - by eapply abs_completed.
  - apply Hco.
  - destruct Hco. split; [|congruence..]. unfold reg_view. congruence.
  - by eapply woke_completed.
Qed.

(** ** Moving values *)

Lemma cinv_values s B Q E vs :
  (∀ o bs, values s !! o = Some bs → ∃ bs', vs !! o = Some bs' ∧ length bs' = length bs) →
  cinv s B Q E → cinv (set_values vs s) B Q E.
Proof.
  intros Hv [H1 H2 H3 H4 H5 H6 H7 H8 H9]. split; try done.
  intros c ch op w Hch Hw. destruct (H5 c ch op w Hch Hw) as (x & Hx & [O1 O2 O3 O4]).
  exists x. split; [done|]. split; try done.
  destruct O3 as [?|(o & bs & E1 & E2 & E3)]; [by left|]. right.
  destruct (Hv o bs E2) as (bs' & E4 & E5). exists o, bs'. rewrite E5. done.
Qed.

Lemma a_write_lengths A p v A' o bs :
  a_write A p v = Some A' → a_vals A !! o = Some bs →
  ∃ bs', a_vals A' !! o = Some bs' ∧ length bs' = length bs.
Proof.
  unfold a_write. intros Hw Ho. destruct (length v =? 0)%nat; [simplify_eq; eauto|].
  destruct p as [[o'|]|]; try done. destruct (a_vals A !! o') as [bs0|] eqn:E; [|done]. simpl in Hw.
  destruct (Nat.leb_spec (length v) (length bs0)); [|done]. simplify_eq/=.
  destruct (decide (o' = o)) as [->|Hne].
  - rewrite lookup_insert_eq. simplify_eq. eexists. split; [done|]. apply overwrite_length; lia.
  - rewrite lookup_insert_ne by done. eauto.
Qed.

Lemma slot_ok_read s B Q ch p :
  0 ≤ elem_size ch → slot_ok s ch p → ∃ v, a_read (abs s B Q) p (elem_size ch) = Some v.
Proof.
  intros He [E|(o & bs & -> & Ho & Hl)]; unfold a_read; [rewrite E; eauto|].
  destruct (elem_size ch =? 0); [eauto|]. simpl. rewrite Ho. simpl.
  case_bool; [eauto|lia].
Qed.

Lemma read_slot_ok s B Q ch p v : a_read (abs s B Q) p (elem_size ch) = Some v → slot_ok s ch p.
Proof.
  unfold a_read, slot_ok. destruct (Z.eqb_spec (elem_size ch) 0); [by left|].
  destruct p as [[o|]|]; try done. simpl. destruct (values s !! o) as [bs|] eqn:Ho; simpl; [|done].
  case_bool; [|done]. intros _. right. by exists o, bs.
Qed.

Lemma slot_ok_write s B Q ch p v :
  slot_ok s ch p → Z.of_nat (length v) = elem_size ch →
  ∃ A', a_write (abs s B Q) p v = Some A'.
Proof.
  intros [E|(o & bs & -> & Ho & Hl)] Hv; unfold a_write.
  { destruct (Nat.eqb_spec (length v) 0); [eauto|lia]. }
  destruct (length v =? 0)%nat; [eauto|]. simpl. rewrite Ho. simpl.
  destruct (Nat.leb_spec (length v) (length bs)); [eauto|lia].
Qed.

Lemma read_run s A p n v :
  a_vals A = values s → n ≠ 0 → a_read A p n = Some v → read_bytes p n s = Ok (v, s).
Proof.
  unfold a_read, read_bytes. intros <- Hn. case_bool; [done|].
  destruct p as [[o|]|]; try done. destruct (a_vals A !! o) as [bs|]; simpl; [|done].
  destruct (Z.leb_spec n (Z.of_nat (length bs))); [|done]. case_bool; [lia|]. by intros [= <-].
Qed.

Lemma set_values_id s : set_values (values s) s = s.
Proof. by destruct s. Qed.

Lemma write_run s A p v A' :
  a_vals A = values s → (length v ≠ 0)%nat → a_write A p v = Some A' →
  write_bytes p v s = Ok (tt, set_values (a_vals A') s).
Proof.
  unfold a_write, write_bytes. intros <- Hn. destruct (Nat.eqb_spec (length v) 0); [done|].
  destruct p as [[o|]|]; try done. destruct (a_vals A !! o) as [bs|]; simpl; [|done].
  destruct (Nat.leb_spec (length v) (length bs)); [|done]. intros [= <-].
  destruct (Nat.ltb_spec (length bs) (length v)); [lia|]. done.
Qed.

(** [copy_value] between two objects of the callers. *)
Lemma copy_run s A src dst n v A' :
  a_vals A = values s → 0 ≤ n → a_read A src n = Some v → a_write A dst v = Some A' →
  copy_value dst src n s = Ok (tt, set_values (a_vals A') s).
Proof.
  intros HA Hn Hr Hw. unfold copy_value. pose proof (a_read_length _ _ _ _ Hn Hr) as Hl.
  destruct (Z.eqb_spec n 0) as [->|Hn0].
  - unfold a_write in Hw. destruct (Nat.eqb_spec (length v) 0); [|lia]. simplify_eq.
    by rewrite HA, set_values_id.
  - rewrite (bind_ok _ _ _ _ _ (read_run _ _ _ _ _ HA Hn0 Hr)).
    eapply write_run; [done|lia|done].
Qed.

Lemma abs_values s B Q A' :
  a_chans A' = a_chans (abs s B Q) → abs (set_values (a_vals A') s) B Q = A'.
Proof. intros HA. destruct A' as [chs vs]. simpl in HA. subst. done. Qed.

(** ** Changing one channel *)

Definition updB B c (l : list (list byte)) : positive → list (list byte) :=
  λ c', if decide (c' = c) then l else B c'.
Definition with_chan s c (ch : croutine_channel) : cstate W :=
  set_channels (<[c := ch]> (channels s)) s.

Lemma cinv_chan s B Q E c ch ch' l :
  cinv s B Q E → channels s !! c = Some ch → elem_size ch' = elem_size ch →
  (∀ op, queue_of op ch' = queue_of op ch) → buf_rep ch' l →
  cinv (with_chan s c ch') (updB B c l) Q E.
Proof.
  intros [H1 H2 H3 H4 H5 H6 H7 H8 H9] Hc He Hq Hb. unfold with_chan.
  split; simpl; try done; intros c'.
  - intros ch0. unfold updB. case_decide as Ed.
    + subst. rewrite lookup_insert_eq. by intros [= <-].
    + rewrite lookup_insert_ne by done. apply H2.
  - intros ch0 op [[<- <-]|[_ ?]]%lookup_insert_Some; [rewrite Hq|]; eauto.
  - intros op [? _]%lookup_insert_None. eauto.
  - intros ch0 op w [[<- <-]|[_ ?]]%lookup_insert_Some Hw.
    + destruct (H5 c ch op w Hc Hw) as (x & Hx & Hok). exists x. split; [done|].
      by eapply waiter_ok_ext; [..|exact Hok].
    + destruct (H5 c' ch0 op w) as (x & Hx & Hok); [done..|]. exists x. split; [done|].
      by eapply waiter_ok_ext; [..|exact Hok].
Qed.

Lemma abs_chan_upd f s B Q c ch ch' l :
  channels s !! c = Some ch →
  abs_chan s (updB B c l) Q c ch' = f (abs_chan s B Q c ch) →
  abs (with_chan s c ch') (updB B c l) Q = a_alter f c (abs s B Q).
Proof.
  intros Hc Hf. apply astate_eq; [|done]. intros c'. unfold a_alter. cbn [a_chans].
  destruct (decide (c' = c)) as [->|Hne].
  - rewrite lookup_alter_eq, !abs_lookup. unfold with_chan. simpl.
    rewrite lookup_insert_eq, Hc. simpl. by rewrite <-Hf.
  - rewrite lookup_alter_ne by done. rewrite !abs_lookup. unfold with_chan. simpl.
    rewrite lookup_insert_ne by done. destruct (channels s !! c'); [|done]. simpl.
    unfold abs_chan, updB. by rewrite decide_False.
Qed.

(** What stays when one channel changes. *)
Record quiet s s' : Prop := {
  qu_frame : cframe s s';
  qu_waiters : waiters s' = waiters s;
  qu_selects : selects s' = selects s;
  qu_worker : worker s' = worker s
}.
Lemma with_chan_quiet s c ch ch' :
  channels s !! c = Some ch → registry_prev ch' = registry_prev ch →
  registry_next ch' = registry_next ch → closed ch' = closed ch → quiet s (with_chan s c ch').
Proof.
  intros Hc E1 E2 E3. split; try done. split; try done; unfold reg_view, with_chan; simpl.
  - f_equal. rewrite fmap_insert. apply insert_id. rewrite lookup_fmap, Hc. simpl. by rewrite E1, E2.
  - rewrite fmap_insert. apply insert_id. rewrite lookup_fmap, Hc. simpl. by rewrite E3.
Qed.
Lemma set_values_quiet s vs : quiet s (set_values vs s).
Proof. done. Qed.
Lemma quiet_trans s1 s2 s3 : quiet s1 s2 → quiet s2 s3 → quiet s1 s3.
Proof. intros [A1 A2 A3 A4] [B1 B2 B3 B4]. split; [by eapply cframe_trans|congruence..]. Qed.

Lemma get_chan_run s c ch : channels s !! c = Some ch → get_chan c s = Ok (ch, s).
Proof. intros Hc. unfold get_chan, deref. by rewrite Hc. Qed.
Lemma get_waiter_run s w x : waiters s !! w = Some x → get_waiter w s = Ok (x, s).
Proof. intros Hc. unfold get_waiter, deref. by rewrite Hc. Qed.
Lemma upd_chan_run s c ch f :
  channels s !! c = Some ch → upd_chan c f s = Ok (tt, with_chan s c (f ch)).
Proof. intros Hc. unfold upd_chan. by rewrite (bind_ok _ _ _ _ _ (get_chan_run _ _ _ Hc)). Qed.

Lemma overwrite_nil bs off : overwrite bs off [] = bs.
Proof. unfold overwrite. simpl. by rewrite Nat.add_0_r, take_drop. Qed.

Lemma buffer_slot_run s c ch bs i :
  channels s !! c = Some ch → buffer ch = Some bs → 0 ≤ i < capacity ch → 0 ≤ elem_size ch →
  elem_size ch * capacity ch ≤ SIZE_MAX →
  buffer_slot c i s = Ok (Some (BufPtr c (i * elem_size ch)), s).
Proof.
  intros Hc Hb Hi He Hm. unfold buffer_slot.
  rewrite (bind_ok _ _ _ _ _ (get_chan_run _ _ _ Hc)), Hb.
  destruct (Z.eqb_spec (elem_size ch) 0) as [E|]; [by rewrite E, Z.mul_0_r|]. by rewrite capacity_slot.
Qed.

Lemma with_chan_lookup s c ch : channels (with_chan s c ch) !! c = Some ch.
Proof. apply lookup_insert_eq. Qed.
Lemma with_chan_twice s c ch ch' : with_chan (with_chan s c ch) c ch' = with_chan s c ch'.
Proof. unfold with_chan, set_channels. simpl. by rewrite insert_insert_eq. Qed.
Lemma with_chan_id s c ch : channels s !! c = Some ch → with_chan s c ch = s.
Proof. intros Hc. unfold with_chan. rewrite insert_id by done. by destruct s. Qed.

(** Writing a value into a slot of a ring. *)
Lemma copy_in_run s A c ch bs off p n v :
  channels s !! c = Some ch → buffer ch = Some bs → a_vals A = values s →
  0 ≤ n → a_read A p n = Some v → 0 ≤ off → off + n ≤ Z.of_nat (length bs) →
  copy_value (Some (BufPtr c off)) p n s =
    Ok (tt, with_chan s c (set_ring (Some (overwrite bs off v)) (len ch) (head ch) (tail ch) ch)).
Proof.
  intros Hc Hb HA Hn Hr Ho Hl. pose proof (a_read_length _ _ _ _ Hn Hr) as Hv.
  unfold copy_value. destruct (Z.eqb_spec n 0) as [->|Hn0].
  - assert (v = []) as -> by (by apply nil_length_inv; lia).
    rewrite overwrite_nil, <-Hb. unfold set_ring. rewrite with_chan_id; [done|].
    by destruct ch.
  - rewrite (bind_ok _ _ _ _ _ (read_run _ _ _ _ _ HA Hn0 Hr)).
    unfold write_bytes. rewrite Hc, Hb. case_bool; [lia|]. done.
Qed.

(** Reading a slot of a ring into an object. *)
Lemma copy_out_run s A c ch bs j out v A' :
  channels s !! c = Some ch → buffer ch = Some bs → a_vals A = values s →
  0 ≤ elem_size ch → 0 ≤ j → j * elem_size ch + elem_size ch ≤ Z.of_nat (length bs) →
  slot (elem_size ch) bs j = v → a_write A out v = Some A' →
  copy_value out (Some (BufPtr c (j * elem_size ch))) (elem_size ch) s =
    Ok (tt, set_values (a_vals A') s).
Proof.
  intros Hc Hb HA He Hj Hl Hs Hw.
  assert (Z.of_nat (length v) = elem_size ch) as Hv.
  { rewrite <-Hs, slot_length by lia. lia. }
  unfold copy_value. destruct (Z.eqb_spec (elem_size ch) 0) as [E|].
  - unfold a_write in Hw. destruct (Nat.eqb_spec (length v) 0); [|lia]. simplify_eq.
    by rewrite HA, set_values_id.
  - unfold read_bytes, mbind, M_bind. rewrite Hc. simpl. rewrite Hb. case_bool; [lia|].
    fold (slot (elem_size ch) bs j). rewrite Hs. eapply write_run; [done|lia|done].
Qed.

Lemma buffer_push_refines s B Q E c ch p v :
  cinv s B Q E → channels s !! c = Some ch → a_read (abs s B Q) p (elem_size ch) = Some v →
  Z.of_nat (length (B c)) < capacity ch →
  ∃ s' ch', buffer_push c p s = Ok (tt, s') ∧ channels s' = <[c := ch']> (channels s) ∧
    closed ch' = closed ch ∧ quiet s s' ∧ cinv s' (updB B c (B c ++ [v])) Q E ∧
    abs s' (updB B c (B c ++ [v])) Q = a_alter (a_set_buf (B c ++ [v])) c (abs s B Q).
Proof.
  intros HI Hc Hr Hroom. pose proof (ci_buf _ _ _ _ HI c ch Hc) as Hrep.
  pose proof Hrep as [He Hcap Hm Hlen _ _ _ Ht Hb]. destruct Hb as (bs & Hb & Hbl & _); [lia|].
  pose proof (a_read_length _ _ _ _ He Hr) as Hv.
  pose proof (buf_rep_push ch (B c) v bs Hrep Hroom Hv Hb) as Hrep'.
  specialize (Ht ltac:(lia)). pose proof (Z.mod_pos_bound (head ch + Z.of_nat (length (B c))) (capacity ch)).
  set (off := tail ch * elem_size ch) in *.
  set (ch1 := set_ring (Some (overwrite bs off v)) (len ch) (head ch) (tail ch) ch).
  set (ch' := set_ring _ _ _ _ ch) in Hrep'.
  exists (with_chan s c ch'), ch'.
  assert (buffer_push c p s = Ok (tt, with_chan s c ch')) as Hrun.
  { unfold buffer_push. rewrite (bind_ok _ _ _ _ _ (get_chan_run _ _ _ Hc)).
    erewrite bind_ok by (eapply buffer_slot_run; [done|done|lia|done|done]).
    erewrite bind_ok by (eapply copy_in_run; [done|done| |done|done|nia|nia]; done).
    fold off ch1. erewrite bind_ok by (apply get_chan_run, with_chan_lookup).
    erewrite bind_ok by (unfold ch1; simpl; rewrite umod_ok by lia; done).
    erewrite upd_chan_run by apply with_chan_lookup. rewrite with_chan_twice.
    unfold ch1, ch', set_ring. simpl. rewrite (u64_small (tail ch + 1)) by lia. done. }
  split; [done|]. split; [done|]. split; [done|]. split; [by eapply with_chan_quiet|]. split.
  - by eapply cinv_chan; [done|done|done|intros []|].
  - eapply abs_chan_upd; [done|]. unfold abs_chan, a_set_buf, updB. simpl. by rewrite decide_True.
Qed.

Lemma buffer_pop_refines s B Q E c ch out v l A1 :
  cinv s B Q E → channels s !! c = Some ch → B c = v :: l →
  a_write (abs s B Q) out v = Some A1 →
  ∃ s' ch', buffer_pop c out s = Ok (tt, s') ∧ channels s' = <[c := ch']> (channels s) ∧
    closed ch' = closed ch ∧ quiet s s' ∧ cinv s' (updB B c l) Q E ∧
    abs s' (updB B c l) Q = a_alter (a_set_buf l) c A1.
Proof.
  intros HI Hc HB Hw. pose proof (ci_buf _ _ _ _ HI c ch Hc) as Hrep. rewrite HB in Hrep.
  pose proof Hrep as [He Hcap Hm Hlen Hbd _ Hh Ht _]. simpl in Hlen, Hbd.
  destruct (buf_rep_pop ch v l Hrep) as [(bs & Hb & Hs & Hl) Hrep'].
  set (ch' := set_ring _ _ _ _ ch) in Hrep'.
  set (s1 := set_values (a_vals A1) s). exists (with_chan s1 c ch'), ch'.
  assert (buffer_pop c out s = Ok (tt, with_chan s1 c ch')) as Hrun.
  { unfold buffer_pop. rewrite (bind_ok _ _ _ _ _ (get_chan_run _ _ _ Hc)).
    erewrite bind_ok by (eapply buffer_slot_run; [done|done|lia|done|done]).
    erewrite bind_ok by (eapply (copy_out_run _ (abs s B Q)); try done; lia).
    fold s1. erewrite bind_ok by (by apply get_chan_run).
    erewrite bind_ok by (simpl; rewrite umod_ok by lia; done).
    erewrite upd_chan_run by done. rewrite (u64_small (head ch + 1)) by lia. done. }
  assert (cinv s1 B Q E) as HI1.
  { apply cinv_values; [|done]. intros o bs' Ho. by eapply a_write_lengths. }
  split; [done|]. split; [done|]. split; [done|].
  split; [eapply quiet_trans; [apply set_values_quiet|by eapply with_chan_quiet]|]. split.
  - eapply cinv_chan; [done|done|done|by intros []|]. done.
  - erewrite <-(abs_values s B Q A1) by (by eapply a_write_chans). fold s1.
    eapply abs_chan_upd; [done|]. unfold abs_chan, a_set_buf, updB. simpl. by rewrite decide_True.
Qed.

Lemma drained_frame s s' Q Q' :
  cframe s s' → (∀ c op, Q' c op ⊆ Q c op) → drained s Q → drained s' Q'.
Proof.
  intros F HQ Hd c ch op Hc Hcl. pose proof (cf_closed _ _ F) as Ec.
  apply (f_equal (lookup c)) in Ec. rewrite !lookup_fmap, Hc in Ec.
  destruct (channels s !! c) as [ch0|] eqn:Hc0; [|done]. simplify_eq/=.
  assert (Q c op = []) as Hn by (eapply Hd; [done|congruence]).
  specialize (HQ c op). rewrite Hn in HQ. destruct (Q' c op); [done|set_solver].
Qed.

(** Writing an object and changing a buffer commute with withdrawing. *)
Lemma a_write_withdraw T A A' p v A1 :
  a_withdraw T A = a_withdraw T A' → a_write A p v = Some A1 →
  ∃ A1', a_write A' p v = Some A1' ∧ a_withdraw T A1 = a_withdraw T A1'.
Proof.
  intros [= E1 E2]. unfold a_write. rewrite E2.
  destruct (length v =? 0)%nat; [intros [= <-]; exists A'; unfold a_withdraw; by rewrite E1, E2|].
  destruct p as [[o|]|]; try done. destruct (a_vals A' !! o); simpl; [|done].
  case_match; [|done]. intros [= <-]. eexists. split; [done|].
  unfold a_withdraw. simpl. by rewrite E1.
Qed.

Lemma a_withdraw_alter T f c A :
  (∀ ch, a_withdraw_from T (f ch) = f (a_withdraw_from T ch)) →
  a_withdraw T (a_alter f c A) = a_alter f c (a_withdraw T A).
Proof.
  intros Hf. apply astate_eq; [|done]. intros c'.
  rewrite a_withdraw_lookup. unfold a_alter. cbn [a_chans].
  destruct (decide (c = c')) as [<-|Hne].
  - rewrite !lookup_alter_eq, a_withdraw_lookup.
    destruct (a_chans A !! c); [|done]. simpl. by rewrite Hf.
  - by rewrite !lookup_alter_ne, a_withdraw_lookup by done.
Qed.
End refine.
