(* ===== verification/ChannelOps.v ===== *)
(** * src/channel.c implements the abstract machine: the operations

    Every operation of a channel, run in a state that represents an abstract
    state, returns what the abstract operation returns and leaves a state
    that represents the abstract successor, having woken exactly the tasks
    whose offers were accepted. *)

From S2P Require Import Prelude Task WaitQueue Channel ChannelBuffer ChannelInv ChannelSpec.
From S2P Require Import ChannelRefine.

Section ops.
Context {W : Type} `{SchedulerLaws W}.
Implicit Types (s : cstate W) (x : ChannelWaiter) (w c : positive) (op : croutine_select_op).
Implicit Types (B : positive → list (list byte)) (Q : positive → croutine_select_op → list positive).

(** The outcome of an operation: the state [s'] represents [A'] and differs
    from [s] in what the accepted offers [T] explain. *)
Record evolves s s' (T : list wakeup) (A' : astate) : Prop := {
  ev_ref : cref s' A';
  ev_frame : cframe s s';
  ev_woke : woke s s' T
}.

Lemma popped_quiet s s1 c op l :
  popped s s1 c op l → worker s1 = worker s ∧ selects s1 = selects s ∧ values s1 = values s.
Proof. by intros []. Qed.

Lemma waiter_ok_popped s s1 c ch op op' l x :
  popped s s1 c op' l → waiter_ok s ch op x → waiter_ok s1 ch op x.
Proof. intros [_ P2 P3 P4 _ _] Hok. by eapply waiter_ok_ext; [..|exact Hok]. Qed.

Lemma waiter_ok_quiet s s1 ch op x :
  selects s1 = selects s → worker s1 = worker s →
  (∀ o bs, values s !! o = Some bs → ∃ bs', values s1 !! o = Some bs' ∧ length bs' = length bs) →
  waiter_ok s ch op x → waiter_ok s1 ch op x.
Proof.
  intros E1 E2 Hv [O1 (t & O2 & O2') O3 O4]. split; [done| | |by rewrite E1].
  - exists t. rewrite E2. unfold wlive in *. by rewrite E1.
  - destruct O3 as [?|(o & bs & E3 & E4 & E5)]; [by left|]. right.
    destruct (Hv o bs E4) as (bs' & E6 & E7). exists o, bs'. rewrite E7. done.
Qed.

(** A waiter was popped in [s1], a value was moved in [s2]: completing it
    finishes the operation. *)
Lemma finish_wake s s1 s2 B1 Q1 w x t status ch op :
  cframe s s1 → worker s1 = worker s → selects s1 = selects s → quiet s1 s2 →
  (∀ o bs, values s1 !! o = Some bs → ∃ bs', values s2 !! o = Some bs' ∧ length bs' = length bs) →
  cinv s2 B1 Q1 (λ u, u = t) → waiters s1 !! w = Some x → w_task x = Some t →
  (∀ c' op', w ∉ Q1 c' op') → sch_parked (worker s1) t → waiter_ok s1 ch op x →
  wlive s1 x = true →
  told x status = true →
  ∃ s3, complete_waiter_locked w status s2 = Ok (tt, s3) ∧ cinv s3 B1 Q1 no_task ∧
    channels s3 = channels s2 ∧ cframe s s3 ∧
    abs s3 B1 Q1 = a_withdraw [t] (abs s2 B1 Q1) ∧
    woke s s3 [(mkOffer t (w_value_slot x) (case_of x), status)].
Proof.
  intros F Ew Es [F2 U1 U2 U3] Hv HI Hx Ht Hnq Hpk Hok Hlv Hst.
  assert (waiter_ok s2 ch op x) as Hok2 by (by eapply waiter_ok_quiet; [..|exact Hok]).
  destruct (complete_run s2 x w t status) as (s3 & Hrun & Hco & Hsok);
    [apply HI|by rewrite U3|by rewrite U1|done|apply Hok2|done|].
  destruct (completed_refines s2 s3 B1 Q1 w x t status ch op) as (HI3 & Habs & Hch & F3 & Hwk);
    rewrite ?U1, ?U3; try done.
  { by rewrite (wlive_payload s1 s2 x x). }
  exists s3. split_and!; try done.
  - eapply cframe_trans; [done|]. by eapply cframe_trans.
  - eapply woke_after; [..|exact Hwk]; [congruence..|]. rewrite U1. apply F.
Qed.

Lemma wake_receiver_refines s B Q c ch p v :
  cinv s B Q no_task → channels s !! c = Some ch →
  a_read (abs s B Q) p (elem_size ch) = Some v →
  ∃ r s1 Q1 T, wake_waiting_receiver_locked c p s = Ok (r, s1) ∧
    (∀ c' op', Q1 c' op' ⊆ Q c' op') ∧ cinv s1 B Q1 no_task ∧ cframe s s1 ∧ woke s s1 T ∧
    if (r : bool) then
      ∃ o rest A1, offers s Q c RECV = o :: rest ∧ a_write (abs s B Q) (o_slot o) v = Some A1 ∧
        abs s1 B Q1 = a_withdraw [o_task o] A1 ∧ T = [(o, CROUTINE_SELECT_STATUS_VALUE)]
    else offers s Q c RECV = [] ∧ abs s1 B Q1 = abs s B Q ∧ T = [].
Proof.
  intros HI Hc Hr. pose proof (buf_elem _ _ (ci_buf _ _ _ _ HI c ch Hc)) as He.
  destruct (pop_live_refines s B Q c ch RECV HI Hc) as (r & s1 & Q1 & Hrun & Hpo & HQ & Hres).
  pose proof (popped_frame _ _ _ _ _ Hpo) as F. pose proof (popped_quiet _ _ _ _ _ Hpo) as (Ew & Es & Ev).
  unfold wake_waiting_receiver_locked. rewrite (bind_ok _ _ _ _ _ Hrun). destruct r as [w|].
  - destruct Hres as (x & t & rest & Hx & Ht & Hok & Hlv & Hpk & Hoff & Hnq & HI1 & Habs).
    destruct (po_channels _ _ _ _ _ Hpo) as (ch0 & q & Hc0 & Hs1).
    rewrite Hc in Hc0. injection Hc0 as <-.
    rewrite (bind_ok _ _ _ _ _ (get_waiter_run _ _ _ Hx)).
    erewrite bind_ok by (apply get_chan_run; rewrite Hs1; apply lookup_insert_eq).
    assert (elem_size (set_queue_of RECV q ch) = elem_size ch) as -> by done.
    assert (a_read (abs s1 B Q1) p (elem_size ch) = Some v) as Hr1.
    { unfold a_read in *. simpl in *. by rewrite Ev. }
    destruct (slot_ok_write s1 B Q1 ch (w_value_slot x) v) as [A1 Hw].
    { apply (waiter_ok_popped _ _ _ _ _ _ _ _ Hpo Hok). }
    { by eapply a_read_length. }
    erewrite bind_ok by (eapply (copy_run _ (abs s1 B Q1)); done).
    destruct (finish_wake s s1 (set_values (a_vals A1) s1) B Q1 w x t
      CROUTINE_SELECT_STATUS_VALUE ch RECV) as (s3 & Hrun3 & HI3 & _ & F3 & Habs3 & Hwk); try done.
    { intros o bs Ho. by eapply a_write_lengths. }
    { apply cinv_values; [|done]. intros o bs Ho. by eapply a_write_lengths. }
    { by rewrite Ew. }
    { by eapply waiter_ok_popped. }
    { by rewrite (wlive_payload s s1 x x). }
    { unfold told. by destruct (w_kind x). }
    rewrite (bind_ok _ _ _ _ _ Hrun3).
    destruct (a_write_withdraw _ _ _ _ _ _ Habs Hw) as (A1' & Hw' & HA1).
    eexists true, s3, Q1, _. split; [done|]. split_and!; try done.
    eexists _, rest, A1'. split; [done|]. split; [done|]. split; [|done].
    rewrite Habs3, abs_values by (by eapply a_write_chans). done.
  - destruct Hres as (Hoff & HI1 & Habs).
    exists false, s1, Q1, []. split_and!; try done. by apply woke_quiet.
Qed.

Lemma wake_sender_refines s B Q c ch out :
  cinv s B Q no_task → channels s !! c = Some ch → (offers s Q c SEND ≠ [] → slot_ok s ch out) →
  ∃ r s1 Q1 T, wake_waiting_sender_direct_locked c out s = Ok (r, s1) ∧
    (∀ c' op', Q1 c' op' ⊆ Q c' op') ∧ cinv s1 B Q1 no_task ∧ cframe s s1 ∧ woke s s1 T ∧
    if (r : bool) then
      ∃ o rest v A1, offers s Q c SEND = o :: rest ∧
        a_read (abs s B Q) (o_slot o) (elem_size ch) = Some v ∧
        a_write (abs s B Q) out v = Some A1 ∧
        abs s1 B Q1 = a_withdraw [o_task o] A1 ∧ T = [(o, CROUTINE_SELECT_STATUS_SENT)]
    else offers s Q c SEND = [] ∧ abs s1 B Q1 = abs s B Q ∧ T = [] ∧
         worker s1 = worker s ∧ closed <$> channels s1 !! c = Some (closed ch).
Proof.
  intros HI Hc Hout. pose proof (buf_elem _ _ (ci_buf _ _ _ _ HI c ch Hc)) as He.
  destruct (pop_live_refines s B Q c ch SEND HI Hc) as (r & s1 & Q1 & Hrun & Hpo & HQ & Hres).
  pose proof (popped_frame _ _ _ _ _ Hpo) as F. pose proof (popped_quiet _ _ _ _ _ Hpo) as (Ew & Es & Ev).
  destruct (po_channels _ _ _ _ _ Hpo) as (ch0 & q & Hc0 & Hs1).
  rewrite Hc in Hc0. injection Hc0 as <-.
  unfold wake_waiting_sender_direct_locked. rewrite (bind_ok _ _ _ _ _ Hrun). destruct r as [w|].
  - destruct Hres as (x & t & rest & Hx & Ht & Hok & Hlv & Hpk & Hoff & Hnq & HI1 & Habs).
    rewrite (bind_ok _ _ _ _ _ (get_waiter_run _ _ _ Hx)).
    erewrite bind_ok by (apply get_chan_run; rewrite Hs1; apply lookup_insert_eq).
    assert (elem_size (set_queue_of SEND q ch) = elem_size ch) as -> by done.
    destruct (slot_ok_read s B Q ch (w_value_slot x) He) as [v Hr]; [apply Hok|].
    assert (a_read (abs s1 B Q1) (w_value_slot x) (elem_size ch) = Some v) as Hr1.
    { unfold a_read in *. simpl in *. by rewrite Ev. }
    destruct (slot_ok_write s1 B Q1 ch out v) as [A1 Hw].
    { unfold slot_ok in *. rewrite Ev. apply Hout. by rewrite Hoff. }
    { by eapply a_read_length. }
    erewrite bind_ok by (eapply (copy_run _ (abs s1 B Q1)); done).
    destruct (finish_wake s s1 (set_values (a_vals A1) s1) B Q1 w x t
      CROUTINE_SELECT_STATUS_SENT ch SEND) as (s3 & Hrun3 & HI3 & _ & F3 & Habs3 & Hwk); try done.
    { intros o bs Ho. by eapply a_write_lengths. }
    { apply cinv_values; [|done]. intros o bs Ho. by eapply a_write_lengths. }
    { by rewrite Ew. }
    { by eapply waiter_ok_popped. }
    { by rewrite (wlive_payload s s1 x x). }
    { unfold told. by destruct (w_kind x). }
    rewrite (bind_ok _ _ _ _ _ Hrun3).
    destruct (a_write_withdraw _ _ _ _ _ _ Habs Hw) as (A1' & Hw' & HA1).
    eexists true, s3, Q1, _. split; [done|]. split_and!; try done.
    eexists _, rest, v, A1'. split_and!; try done.
    rewrite Habs3, abs_values by (by eapply a_write_chans). done.
  - destruct Hres as (Hoff & HI1 & Habs).
    exists false, s1, Q1, []. split_and!; try done; [by apply woke_quiet|].
    rewrite Hs1, lookup_insert_eq. done.
Qed.

Lemma buffer_sender_refines s B Q c ch :
  cinv s B Q no_task → channels s !! c = Some ch → Z.of_nat (length (B c)) < capacity ch →
  ∃ r s1 B1 Q1 T, buffer_one_waiting_sender_locked c s = Ok (r, s1) ∧
    (∀ c' op', Q1 c' op' ⊆ Q c' op') ∧ cinv s1 B1 Q1 no_task ∧ cframe s s1 ∧ woke s s1 T ∧
    if (r : bool) then
      ∃ o rest v, offers s Q c SEND = o :: rest ∧
        a_read (abs s B Q) (o_slot o) (elem_size ch) = Some v ∧
        abs s1 B1 Q1 = a_withdraw [o_task o] (a_alter (a_set_buf (B c ++ [v])) c (abs s B Q)) ∧
        T = [(o, CROUTINE_SELECT_STATUS_SENT)]
    else offers s Q c SEND = [] ∧ abs s1 B1 Q1 = abs s B Q ∧ T = [].
Proof.
  intros HI Hc Hroom. pose proof (ci_buf _ _ _ _ HI c ch Hc) as Hrep.
  pose proof (buf_elem _ _ Hrep) as He.
  destruct (pop_live_refines s B Q c ch SEND HI Hc) as (r & s1 & Q1 & Hrun & Hpo & HQ & Hres).
  pose proof (popped_frame _ _ _ _ _ Hpo) as F. pose proof (popped_quiet _ _ _ _ _ Hpo) as (Ew & Es & Ev).
  destruct (po_channels _ _ _ _ _ Hpo) as (ch0 & q & Hc0 & Hs1).
  rewrite Hc in Hc0. injection Hc0 as <-.
  unfold buffer_one_waiting_sender_locked. rewrite (bind_ok _ _ _ _ _ (get_chan_run _ _ _ Hc)).
  rewrite (buf_len _ _ Hrep). destruct (Z.eqb_spec (capacity ch) 0); [lia|].
  destruct (Z.leb_spec (capacity ch) (Z.of_nat (length (B c)))); [lia|].
  cbn [orb]. rewrite (bind_ok _ _ _ _ _ Hrun). destruct r as [w|].
  - destruct Hres as (x & t & rest & Hx & Ht & Hok & Hlv & Hpk & Hoff & Hnq & HI1 & Habs).
    rewrite (bind_ok _ _ _ _ _ (get_waiter_run _ _ _ Hx)).
    destruct (slot_ok_read s B Q ch (w_value_slot x) He) as [v Hr]; [apply Hok|].
    destruct (buffer_push_refines s1 B Q1 (λ u, u = t) c (set_queue_of SEND q ch) (w_value_slot x) v)
      as (s2 & ch' & Hrun2 & Hch2 & _ & Hqu & HI2 & Habs2); try done.
    { rewrite Hs1. apply lookup_insert_eq. }
    { unfold a_read in *. simpl in *. by rewrite Ev. }
    rewrite (bind_ok _ _ _ _ _ Hrun2).
    destruct (finish_wake s s1 s2 (updB B c (B c ++ [v])) Q1 w x t
      CROUTINE_SELECT_STATUS_SENT ch SEND) as (s3 & Hrun3 & HI3 & _ & F3 & Habs3 & Hwk); try done.
    { intros o bs Ho. exists bs. split; [|done]. rewrite <-Ho.
      apply (f_equal a_vals) in Habs2. simpl in Habs2. by rewrite Habs2. }
    { by rewrite Ew. }
    { by eapply waiter_ok_popped. }
    { by rewrite (wlive_payload s s1 x x). }
    { unfold told. by destruct (w_kind x). }
    rewrite (bind_ok _ _ _ _ _ Hrun3).
    eexists true, s3, _, Q1, _. split; [done|]. split_and!; try done.
    eexists _, rest, v. split_and!; try done. simpl.
    rewrite Habs3, Habs2, !a_withdraw_alter by done. by rewrite Habs.
  - destruct Hres as (Hoff & HI1 & Habs).
    exists false, s1, B, Q1, []. split_and!; try done. by apply woke_quiet.
Qed.

Lemma abs_get s B Q c ch : a_chans (abs s B Q) !! c = Some ch →
  ∃ ch0, channels s !! c = Some ch0 ∧ ch = abs_chan s B Q c ch0.
Proof. rewrite abs_lookup. destruct (channels s !! c); simpl; [|done]. intros [= <-]. eauto. Qed.

Lemma write_slot_ok s B Q ch p v A' :
  Z.of_nat (length v) = elem_size ch → a_write (abs s B Q) p v = Some A' → slot_ok s ch p.
Proof.
  unfold a_write, slot_ok. intros Hl. destruct (Nat.eqb_spec (length v) 0); [left; lia|].
  destruct p as [[o|]|]; try done. simpl. destruct (values s !! o) as [bs|] eqn:Ho; simpl; [|done].
  destruct (Nat.leb_spec (length v) (length bs)); [|done]. intros _. right.
  exists o, bs. split_and!; [done..|lia].
Qed.

Lemma evolves_id s A : cref s A → evolves s s [] A.
Proof. intros HR. split; [done|done|by apply woke_quiet]. Qed.

Lemma cref_intro s s' B Q Q' :
  cframe s s' → (∀ c op, Q' c op ⊆ Q c op) → drained s Q → cinv s' B Q' no_task →
  cref s' (abs s' B Q').
Proof. intros F HQ Hd HI. exists B, Q'. split; [done|]. split; [by eapply drained_frame|done]. Qed.

Lemma a_set_buf_twice l l' c A :
  a_alter (a_set_buf l) c (a_alter (a_set_buf l') c A) = a_alter (a_set_buf l) c A.
Proof.
  apply astate_eq; [|done]. intros c'. unfold a_alter. simpl. destruct (decide (c = c')) as [<-|Hne].
  - rewrite !lookup_alter_eq. by destruct (a_chans A !! c).
  - by rewrite !lookup_alter_ne.
Qed.

(** [try_send_locked] *)
Lemma try_send_sim s A c p r T A' :
  cref s A → a_try_send (sched_shutdown (worker s)) c p A = Some (r, T, A') →
  ∃ s', try_send_locked c p s = Ok (r, s') ∧ evolves s s' T A'.
Proof.
  intros (B & Q & HI & Hd & <-) Hrun. unfold a_try_send in Hrun.
  apply bind_Some in Hrun as (a & Ha & Hrun). destruct (abs_get _ _ _ _ _ Ha) as (ch & Hc & ->).
  unfold try_send_locked. rewrite (bind_ok _ _ _ _ _ (get_chan_run _ _ _ Hc)).
  erewrite bind_ok by reflexivity. cbn [abs_chan a_closed a_elem a_receivers a_buf a_cap] in Hrun.
  destruct (closed ch || sched_shutdown (worker s)).
  { injection Hrun as <- <- <-. exists s. split; [done|]. apply evolves_id. by exists B, Q. }
  apply bind_Some in Hrun as (v & Hv & Hrun).
  destruct (wake_receiver_refines s B Q c ch p v HI Hc Hv)
    as (b & s1 & Q1 & T1 & Hrun1 & HQ & HI1 & F1 & Hwk & Hb).
  rewrite (bind_ok _ _ _ _ _ Hrun1). destruct b.
  - destruct Hb as (o & rest & A1 & Hoff & Hw & Habs & ->). rewrite Hoff in Hrun.
    rewrite Hw in Hrun. simpl in Hrun. injection Hrun as <- <- <-. exists s1. split; [done|].
    split; [|done|done]. rewrite <-Habs. by eapply cref_intro.
  - destruct Hb as (Hoff & Habs & ->). rewrite Hoff in Hrun.
    assert (∃ ch1, channels s1 !! c = Some ch1 ∧ abs_chan s1 B Q1 c ch1 = abs_chan s B Q c ch)
      as (ch1 & Hc1 & Hab1).
    { rewrite <-Habs in Ha. destruct (abs_get _ _ _ _ _ Ha) as (ch1 & ? & ?). eauto. }
    injection Hab1 as E1 E2 E3 E4 E5.
    pose proof (ci_buf _ _ _ _ HI1 c ch1 Hc1) as Hrep.
    rewrite (bind_ok _ _ _ _ _ (get_chan_run _ _ _ Hc1)), (buf_len _ _ Hrep), E2.
    pose proof (buf_bound _ _ Hrep).
    destruct (Z.ltb_spec (Z.of_nat (length (B c))) (capacity ch)) as [Hlt|Hge].
    + destruct (Z.ltb_spec 0 (capacity ch)); [|lia]. simpl in *. injection Hrun as <- <- <-.
      destruct (buffer_push_refines s1 B Q1 no_task c ch1 p v)
        as (s2 & ch' & Hrun2 & Hch2 & _ & Hqu & HI2 & Habs2); try done; [by rewrite Habs, E1|lia|].
      rewrite (bind_ok _ _ _ _ _ Hrun2). exists s2. split; [done|]. 
      assert (cframe s s2) as F2 by (eapply cframe_trans; [done|apply Hqu]).
      split; [|done|eapply woke_before; [apply Hqu..|done]].
      rewrite <-Habs, <-Habs2. by eapply cref_intro.
    + rewrite andb_false_r. injection Hrun as <- <- <-. exists s1. split; [done|]. split; [|done|done].
      rewrite <-Habs. by eapply cref_intro.
Qed.

(** [try_recv_locked] *)
Lemma try_recv_sim s A c out r T A' :
  cref s A → a_try_recv (sched_shutdown (worker s)) c out A = Some (r, T, A') →
  ∃ s', try_recv_locked c out s = Ok (r, s') ∧ evolves s s' T A'.
Proof.
  intros (B & Q & HI & Hd & <-) Hrun. unfold a_try_recv in Hrun.
  apply bind_Some in Hrun as (a & Ha & Hrun). destruct (abs_get _ _ _ _ _ Ha) as (ch & Hc & ->).
  pose proof (ci_buf _ _ _ _ HI c ch Hc) as Hrep.
  unfold try_recv_locked. rewrite (bind_ok _ _ _ _ _ (get_chan_run _ _ _ Hc)), (buf_len _ _ Hrep).
  cbn [abs_chan a_closed a_elem a_senders a_buf a_cap] in Hrun.
  destruct (B c) as [|v l] eqn:HB.
  - change (0 <? Z.of_nat (length [])) with false. cbn match.
    destruct (wake_sender_refines s B Q c ch out HI Hc)
      as (b & s1 & Q1 & T1 & Hrun1 & HQ & HI1 & F1 & Hwk & Hb).
    { intros Hne. destruct (offers s Q c SEND) as [|o rest]; [done|].
      apply bind_Some in Hrun as (v & Hv & Hrun). apply bind_Some in Hrun as (A1 & Hw & _).
      eapply write_slot_ok; [|done]. eapply a_read_length; [apply Hrep|done]. }
    rewrite (bind_ok _ _ _ _ _ Hrun1). destruct b.
    + destruct Hb as (o & rest & v & A1 & Hoff & Hv & Hw & Habs & ->).
      rewrite Hoff, Hv in Hrun. simpl in Hrun. rewrite Hw in Hrun. injection Hrun as <- <- <-.
      exists s1. split; [done|]. split; [|done|done]. rewrite <-Habs. by eapply cref_intro.
    + destruct Hb as (Hoff & Habs & -> & Ew & Ec). rewrite Hoff in Hrun.
      destruct (channels s1 !! c) as [ch1|] eqn:Hc1; [|done]. injection Ec as Ec.
      rewrite (bind_ok _ _ _ _ _ (get_chan_run _ _ _ Hc1)).
      erewrite bind_ok by reflexivity. rewrite Ec, Ew.
      exists s1. destruct (closed ch || sched_shutdown (worker s)); injection Hrun as <- <- <-;
        (split; [done|]; split; [|done|done]; rewrite <-Habs; by eapply cref_intro).
  - change (0 <? Z.of_nat (length (v :: l))) with true. cbn match.
    apply bind_Some in Hrun as (A1 & Hw & Hrun).
    destruct (buffer_pop_refines s B Q no_task c ch out v l A1 HI Hc HB Hw)
      as (s1 & ch1 & Hrun1 & Hch1 & Ecl & Hqu & HI1 & Habs1).
    rewrite (bind_ok _ _ _ _ _ Hrun1).
    assert (channels s1 !! c = Some ch1) as Hc1 by (rewrite Hch1; apply lookup_insert_eq).
    rewrite (bind_ok _ _ _ _ _ (get_chan_run _ _ _ Hc1)), Ecl.
    assert (woke s s1 []) as Hwk1 by (apply woke_quiet; apply Hqu).
    assert (offers s1 Q c SEND = offers s Q c SEND) as Hoff1.
    { apply offers_ext. intros w _. unfold offer_of, wlive. by rewrite (qu_waiters _ _ Hqu), (qu_selects _ _ Hqu). }
    destruct (closed ch) eqn:Ec; cbn [negb].
    + assert (offers s Q c SEND = []) as Hoff.
      { unfold offers. by rewrite (Hd c ch SEND Hc Ec). }
      rewrite Hoff in Hrun. injection Hrun as <- <- <-.
      exists s1. split; [done|]. split; [|apply Hqu|done]. rewrite <-Habs1.
      eapply cref_intro; [apply Hqu|done|done|done].
    + pose proof (ci_buf _ _ _ _ HI1 c ch1 Hc1) as Hrep1.
      assert (updB B c l c = l) as Hul by (unfold updB; by rewrite decide_True).
      assert (elem_size ch1 = elem_size ch ∧ capacity ch1 = capacity ch) as [Ee Ecap].
      { pose proof (f_equal (λ A, a_chans A !! c) Habs1) as Hx. cbn beta in Hx.
        rewrite abs_lookup, Hc1 in Hx. unfold a_alter in Hx. cbn [a_chans] in Hx.
        rewrite lookup_alter_eq, (a_write_chans _ _ _ _ Hw), abs_lookup, Hc in Hx.
        by injection Hx. }
      destruct (buffer_sender_refines s1 (updB B c l) Q c ch1 HI1 Hc1)
        as (b & s2 & B2 & Q2 & T2 & Hrun2 & HQ & HI2 & F2 & Hwk2 & Hb).
      { rewrite Hul, Ecap. pose proof (buf_bound _ _ Hrep) as Hbd. simpl in Hbd. lia. }
      rewrite (bind_ok _ _ _ _ _ (bind_ok _ _ _ _ _ Hrun2)).
      assert (cframe s s2) as F by (eapply cframe_trans; [apply Hqu|done]).
      assert (woke s s2 T2) as Hwk by (eapply woke_after; [apply Hqu..| |done]; by rewrite (qu_waiters _ _ Hqu)).
      exists s2. destruct b.
      * destruct Hb as (o & rest & u & Hoff & Hu & Habs2 & ->).
        rewrite Hoff1 in Hoff. rewrite Hoff in Hrun.
        assert (a_read A1 (o_slot o) (elem_size ch) = Some u) as Hu'.
        { rewrite <-Ee. rewrite Habs1 in Hu. exact Hu. }
        rewrite Hu' in Hrun. injection Hrun as <- <- <-. split; [done|]. split; [|done|done].
        replace (a_alter (a_set_buf (l ++ [u])) c A1)
          with (a_alter (a_set_buf (l ++ [u])) c (a_alter (a_set_buf l) c A1))
          by apply a_set_buf_twice.
        rewrite Hul in Habs2. rewrite <-Habs1, <-Habs2. by eapply cref_intro.
      * destruct Hb as (Hoff & Habs2 & ->). rewrite Hoff1 in Hoff. rewrite Hoff in Hrun.
        injection Hrun as <- <- <-. split; [done|]. split; [|done|done].
        rewrite <-Habs1, <-Habs2. by eapply cref_intro.
Qed.
End ops.
