(* ===== verification/ChannelWait.v ===== *)
(** * Waiting on a channel: registration, wake-up and withdrawal

    A task that cannot proceed leaves waiters in the queues and parks; when
    it runs again it takes out the ones that are still linked and forgets
    them all.  The steps of this protocol, as changes of the invariant and of
    the abstract state. *)

From S2P Require Import Prelude Task WaitQueue Channel ChannelBuffer ChannelInv ChannelSpec.
From S2P Require Import ChannelRefine.

Section wait.
Context {W : Type} `{SchedulerLaws W}.
Implicit Types (s : cstate W) (x : ChannelWaiter) (w c : positive) (op : croutine_select_op).
Implicit Types (B : positive → list (list byte)) (Q : positive → croutine_select_op → list positive).

(** ** The task parks *)

Lemma cinv_park s B Q E t wk :
  cinv s B Q E → sch_ok wk → (∀ u, sch_parked wk u ↔ sch_parked (worker s) u ∨ u = t) →
  cinv (set_worker wk s) B Q (λ u, E u ∨ u = t).
Proof.
  intros [H1 H2 H3 H4 H5 H6 H7 H8 H9] Hok Hp. split; try done; simpl.
  - intros c ch op w Hc Hw. destruct (H5 c ch op w Hc Hw) as (x & Hx & [O1 (u & Hu & Hul) O3 O4]).
    exists x. split; [done|]. split; try done. exists u. split; [done|].
    intros Hl. apply Hp. left. by apply Hul.
  - intros u [Hu| ->]%Hp; [|left; by right]. destruct (H8 u Hu) as [?|Hc]; [left; by left|by right].
Qed.

Lemma abs_worker s B Q wk : abs (set_worker wk s) B Q = abs s B Q.
Proof. done. Qed.

(** A wake-up in progress is over, or was never needed. *)
Lemma cinv_settle s B Q E t :
  cinv s B Q (λ u, E u ∨ u = t) → covered s Q t → cinv s B Q E.
Proof.
  intros [H1 H2 H3 H4 H5 H6 H7 H8 H9] Hc. split; try done.
  intros u Hu. destruct (H8 u Hu) as [[?| ->]|?]; [by left|by right|by right].
Qed.

(** ** A waiter comes into being *)

Definition add_waiter s w x : cstate W := set_waiters (<[w := x]> (waiters s)) s.

Lemma fresh_not_queued s B Q E w c op : cinv s B Q E → waiters s !! w = None → w ∉ Q c op.
Proof.
  intros HI Hw Hin. destruct (channels s !! c) as [ch|] eqn:Hc.
  - destruct (ci_waiter _ _ _ _ HI c ch op w Hc Hin) as (x & Hx & _). congruence.
  - rewrite (ci_none _ _ _ _ HI c op Hc) in Hin. set_solver.
Qed.

(** [x] is a wait of task [t] that fits the waiters that are there. *)
Definition fits (h : gmap positive ChannelWaiter) x : Prop :=
  ∀ w' y, h !! w' = Some y →
    (w_task x = w_task y →
       w_kind x = CW_SELECT ∧ w_kind y = CW_SELECT ∧ w_state x = w_state y) ∧
    (w_kind x = CW_SELECT → w_kind y = CW_SELECT → w_state x = w_state y → w_task x = w_task y).

Lemma one_wait_insert h w x : h !! w = None → fits h x → one_wait h → one_wait (<[w := x]> h).
Proof.
  intros Hw Hf H1 w1 w2 x1 x2 Hx1 Hx2. rewrite lookup_insert_Some in Hx1, Hx2.
  destruct Hx1 as [[<- <-]|[Hn1 Hx1]], Hx2 as [[<- <-]|[Hn2 Hx2]].
  - split; auto.
  - destruct (Hf w2 x2 Hx2). split; auto.
  - destruct (Hf w1 x1 Hx1) as [F1 F2]. split; [|intros K1 K2 K3; symmetry; auto].
    intros Ht. right. destruct (F1 (eq_sym Ht)) as (? & ? & ?). auto.
  - by apply (H1 w1 w2).
Qed.

(** The waiters outside the queues do not matter. *)
Lemma cinv_waiters s B Q E h :
  cinv s B Q E → one_wait h →
  (∀ u y, h !! u = Some y → w_kind y = CW_SELECT →
    ∃ st ss, w_state y = Some st ∧ selects s !! st = Some ss) →
  (∀ c op u, u ∈ Q c op → h !! u = waiters s !! u) →
  (∀ u y c, h !! u = Some y → w_channel y = Some c → waiters s !! u = Some y) →
  cinv (set_waiters h s) B Q E.
Proof.
  intros [H1 H2 H3 H4 H5 H6 H7 H8 H9] H1w Hst Hne Hl. split; try done; simpl.
  - intros c ch op Hc. destruct (H3 c ch op Hc) as [A1 A2 A3 A4]. split; [done..|].
    eapply dseg_ext; [|done]. intros u. apply Hne.
  - intros c ch op u Hc Hu. rewrite (Hne c op u) by done.
    destruct (H5 c ch op u Hc Hu) as (x & Hx & Hok). exists x. split; [done|].
    by eapply waiter_ok_ext; [..|exact Hok].
  - eauto.
  - intros t Ht. destruct (H8 t Ht) as [?|(c & op & u & y & Hu & Hy & Hr)]; [by left|].
    right. exists c, op, u, y. simpl. by rewrite (Hne c op u).
Qed.

Lemma abs_waiters s B Q h :
  (∀ c op u, u ∈ Q c op → h !! u = waiters s !! u) → abs (set_waiters h s) B Q = abs s B Q.
Proof.
  intros Hne. apply abs_ext; try done. intros c ch op w Hc Hw. unfold offer_of. simpl.
  by rewrite (Hne c op w).
Qed.

Lemma insert_apart s B Q E w x c op u :
  cinv s B Q E → waiters s !! w = None → u ∈ Q c op → <[w := x]> (waiters s) !! u = waiters s !! u.
Proof. intros HI Hw Hu. rewrite lookup_insert_ne; [done|]. intros <-. by eapply fresh_not_queued. Qed.

Lemma cinv_add_waiter s B Q E w x :
  cinv s B Q E → waiters s !! w = None → w_channel x = None → fits (waiters s) x →
  (w_kind x = CW_SELECT → ∃ st ss, w_state x = Some st ∧ selects s !! st = Some ss) →
  cinv (add_waiter s w x) B Q E.
Proof.
  intros HI Hw Hxc Hf Hst. apply cinv_waiters; [done| | | |].
  - apply one_wait_insert; try done. apply HI.
  - intros u y. rewrite lookup_insert_Some. intros [[_ <-]|[_ Hy]]; [done|by eapply ci_state].
  - intros. by eapply insert_apart.
  - intros u y c. rewrite lookup_insert_Some. intros [[<- <-]|[_ Hy]]; [congruence|done].
Qed.

Lemma abs_add_waiter s B Q E w x :
  cinv s B Q E → waiters s !! w = None → abs (add_waiter s w x) B Q = abs s B Q.
Proof. intros HI Hw. apply abs_waiters. intros. by eapply insert_apart. Qed.

(** ... and goes, when it is in no queue. *)
Definition del_waiter s w : cstate W := set_waiters (delete w (waiters s)) s.

Lemma delete_apart Q (h : gmap positive ChannelWaiter) w c op u :
  w ∉ Q c op → u ∈ Q c op → delete w h !! u = h !! u.
Proof. intros Hw Hu. rewrite lookup_delete_ne; [done|]. by intros <-. Qed.

Lemma cinv_del_waiter s B Q E w :
  cinv s B Q E → (∀ c op, w ∉ Q c op) → cinv (del_waiter s w) B Q E.
Proof.
  intros HI Hw. apply cinv_waiters; [done| | | |].
  - intros w1 w2 x1 x2 [_ Hx1]%lookup_delete_Some [_ Hx2]%lookup_delete_Some. by apply HI.
  - intros u y [_ Hy]%lookup_delete_Some. by eapply ci_state.
  - intros. by eapply delete_apart.
  - intros u y c. rewrite lookup_delete_Some. tauto.
Qed.

Lemma abs_del_waiter s B Q w :
  (∀ c op, w ∉ Q c op) → abs (del_waiter s w) B Q = abs s B Q.
Proof. intros Hw. apply abs_waiters. intros. by eapply delete_apart. Qed.

(** A waiter that is out of all queues says so itself. *)
Lemma unqueued_channel s B Q E w x :
  cinv s B Q E → (∀ c op, w ∉ Q c op) → waiters s !! w = Some x → w_channel x = None.
Proof.
  intros HI Hw Hx. destruct (w_channel x) as [c|] eqn:Hc; [|done].
  destruct (Hw c (w_op x)). by eapply ci_linked.
Qed.

(** ** A waiter joins a queue *)

Section grow.
Context (s : cstate W) (B : positive → list (list byte))
  (Q : positive → croutine_select_op → list positive) (E : tid → Prop).
Context (c : positive) (ch : croutine_channel) (op : croutine_select_op).
Context (w : positive) (x : ChannelWaiter) (h : gmap positive ChannelWaiter) (q : ChannelWaitQueue).
Hypothesis HI : cinv s B Q E.
Hypothesis Hch : channels s !! c = Some ch.
Hypothesis Hx : waiters s !! w = Some x.
Hypothesis Hw : ∀ c op, w ∉ Q c op.
Hypothesis Hok : waiter_ok s ch op x.
Hypothesis F : wq_frame (waiters s) h (Q c op ++ [w]).
Hypothesis Hrep : wq_rep h c q (Q c op ++ [w]).
Local Abbreviation Q' := (updQ Q c op (Q c op ++ [w])).
Local Abbreviation s' := (with_queue s c ch op h q).

Lemma grow_apart c' op' u :
  (c' = c ∧ op' = op → False) → u ∈ Q c' op' → h !! u = waiters s !! u.
Proof.
  intros Hne Hu. apply (frame_out _ _ _ F). intros [Hu'| ->%list_elem_of_singleton]%elem_of_app.
  - apply Hne. by eapply queued_unique.
  - by apply (Hw c' op').
Qed.

Lemma grow_linked u x' c' :
  h !! u = Some x' → w_channel x' = Some c' → u ∈ Q' c' (w_op x').
Proof.
  intros Hx' Hc'. destruct (frame_back _ _ _ _ _ F Hx') as (y & Hy & Hp).
  assert (w_op x' = w_op y) as Ho by (by injection Hp).
  destruct (decide (u ∈ Q c op ++ [w])) as [Hl|Hl].
  - destruct (dseg_live _ _ _ _ _ u (wq_seg _ _ _ _ Hrep) Hl) as (z & Hz & Hzc).
    rewrite Hx' in Hz. injection Hz as <-. rewrite Hc' in Hzc. injection Hzc as ->.
    assert (w_op y = op) as Hyo.
    { apply elem_of_app in Hl as [Hl| ->%list_elem_of_singleton].
      - destruct (ci_waiter _ _ _ _ HI c ch op u Hch Hl) as (x2 & Hx2 & Hok2).
        rewrite Hy in Hx2. injection Hx2 as <-. apply Hok2.
      - rewrite Hx in Hy. injection Hy as <-. apply Hok. }
    rewrite Ho, Hyo, updQ_eq. done.
  - rewrite (frame_out _ _ _ F) in Hx' by done. simplify_eq.
    pose proof (ci_linked _ _ _ _ HI u x' c' Hx' Hc') as Hin.
    rewrite updQ_ne; [done|]. intros [-> E2]. rewrite E2 in Hin. set_solver.
Qed.

Lemma grow_covered t : covered s Q t → covered s' Q' t.
Proof.
  intros (c' & op' & u & y & Hu & Hy & Hlv & Ht).
  destruct (frame_payload _ _ _ F u y Hy) as (y' & Hy' & Hp).
  exists c', op', u, y'. split_and!.
  - unfold updQ. case_decide as Ed; [|done]. destruct Ed as [-> ->]. set_solver.
  - done.
  - by rewrite (wlive_payload s s' y y').
  - assert (w_task y' = w_task y) as -> by (by injection Hp). done.
Qed.

Lemma grow_new t : wlive s x = true → w_task x = Some t → covered s' Q' t.
Proof.
  intros Hlv Ht. destruct (frame_payload _ _ _ F w x Hx) as (y & Hy & Hp).
  exists c, op, w, y. rewrite updQ_eq. split_and!; [set_solver|done| |].
  - by rewrite (wlive_payload s s' x y).
  - assert (w_task y = w_task x) as -> by (by injection Hp). done.
Qed.

Lemma cinv_grow : cinv s' B Q' E.
Proof.
  split.
  - apply HI.
  - intros c' ch' Hc'. destruct (with_queue_lookup _ _ _ _ _ _ _ _ Hch Hc') as (ch0 & Hch0 & Hs & _).
    apply (sb_buf _ _ Hs). by apply HI.
  - intros c' ch' op' Hc'.
    destruct (with_queue_lookup _ _ _ _ _ _ _ _ Hch Hc') as (ch0 & Hch0 & _ & Hq & Hq').
    destruct (decide (c' = c ∧ op' = op)) as [[-> ->]|Hne]; [by rewrite updQ_eq, Hq'|].
    rewrite updQ_ne, Hq by done. destruct (ci_queue _ _ _ _ HI c' ch0 op' Hch0) as [A1 A2 A3 A4].
    split; [done..|]. eapply dseg_ext; [|exact A4]. intros u Hu. by eapply grow_apart.
  - intros c' op' [Hc' Hne]%with_queue_none. rewrite updQ_ne by naive_solver. by apply HI.
  - intros c' ch' op' u Hc' Hu.
    destruct (with_queue_lookup _ _ _ _ _ _ _ _ Hch Hc') as (ch0 & Hch0 & Hs & _).
    assert (∃ y, waiters s !! u = Some y ∧ waiter_ok s ch0 op' y) as (y & Hy & Hyo).
    { unfold updQ in Hu. case_decide as Ed; [|by apply (ci_waiter _ _ _ _ HI c')].
      destruct Ed as [-> ->]. rewrite Hch in Hch0. injection Hch0 as <-.
      apply elem_of_app in Hu as [Hu| ->%list_elem_of_singleton]; [by apply (ci_waiter _ _ _ _ HI c)|].
      by exists x. }
    destruct (frame_payload _ _ _ F u y Hy) as (y' & Hy' & Hp). exists y'. split; [done|].
    eapply waiter_ok_ext; [..|exact Hyo]; try done. apply Hs.
  - apply grow_linked.
  - eapply one_wait_payload; [|apply HI]. intros u y'. apply (frame_back _ _ _ _ _ F).
  - intros t Ht. destruct (ci_covered _ _ _ _ HI t Ht) as [?|Hc]; [by left|]. right.
    by apply grow_covered.
  - by apply (state_payload s B Q E _ (Q c op ++ [w])).
Qed.
End grow.

Lemma abs_snoc s B Q c ch op w o :
  channels s !! c = Some ch → offer_of s w = Some o →
  abs s B (updQ Q c op (Q c op ++ [w])) = a_wait c op o (abs s B Q).
Proof.
  intros Hc Ho. apply astate_eq; [|done]. intros c'. unfold a_wait, a_alter. cbn [a_chans].
  assert (∀ c' op', offers s (updQ Q c op (Q c op ++ [w])) c' op' =
    if decide (c' = c ∧ op' = op) then offers s Q c op ++ [o] else offers s Q c' op') as Hoff.
  { intros c1 op1. unfold offers, updQ. case_decide; [|done].
    rewrite omap_app. f_equal. simpl. by rewrite Ho. }
  destruct (decide (c' = c)) as [->|Hne].
  - rewrite lookup_alter_eq, !abs_lookup, Hc. simpl. f_equal. unfold abs_chan, a_add_offer.
    rewrite !Hoff. destruct op; repeat case_decide; naive_solver.
  - rewrite lookup_alter_ne by done. rewrite !abs_lookup.
    destruct (channels s !! c'); [|done]. simpl. unfold abs_chan. rewrite !Hoff.
    by rewrite !decide_False by naive_solver.
Qed.

(** [wait_queue_push_tail] by a task about to park: [wk] is the scheduler
    once it has. *)
Lemma register_refines s wk B Q E c ch op w x t :
  cinv (set_worker wk s) B Q E → channels s !! c = Some ch → waiters s !! w = Some x →
  (∀ c op, w ∉ Q c op) → waiter_ok (set_worker wk s) ch op x → wlive s x = true → w_task x = Some t →
  ∃ s', on_queue c op (wait_queue_push_tail w c) s = Ok (tt, s') ∧
    let Q' := updQ Q c op (Q c op ++ [w]) in
    popped s s' c op (Q c op ++ [w]) ∧ cinv (set_worker wk s') B Q' E ∧
    covered (set_worker wk s') Q' t ∧ (∀ u, covered (set_worker wk s) Q u → covered (set_worker wk s') Q' u) ∧
    abs s' B Q' = a_wait c op (mkOffer t (w_value_slot x) (case_of x)) (abs s B Q).
Proof.
  intros HI Hc Hx Hw Hok Hlv Ht. pose proof (ci_queue _ _ _ _ HI c ch op Hc) as Hrep.
  destruct (push_tail_spec _ _ _ _ w x Hrep (Hw c op) Hx) as (h & q & Hrun & Hrep' & F).
  exists (with_queue s c ch op h q). split; [by apply on_queue_run|].
  pose proof (with_queue_popped s c ch op h q _ Hc F) as Hpo. split; [done|].
  split; [by apply (cinv_grow (set_worker wk s) B Q E c ch op w x h q)|].
  split; [by apply (grow_new (set_worker wk s) B Q E c ch op w x h q)|].
  split; [intros u; by apply (grow_covered (set_worker wk s) B Q E c ch op w x h q)|].
  rewrite (abs_popped _ _ _ _ _ _ _ Hpo). eapply abs_snoc; [done|].
  unfold offer_of. rewrite Hx. simpl. by rewrite Ht, Hlv.
Qed.

(** ** The task runs again *)

(** A waiter of a task that is not parked is in a queue only as a leftover of
    a select that has fired. *)
Lemma running_unqueued s B Q E w x t :
  cinv s B Q E → waiters s !! w = Some x → w_task x = Some t → ¬ sch_parked (worker s) t →
  wlive s x = true → ∀ c op, w ∉ Q c op.
Proof.
  intros HI Hx Ht Hp Hl c op Hw. destruct (channels s !! c) as [ch|] eqn:Hc.
  - destruct (ci_waiter _ _ _ _ HI c ch op w Hc Hw) as (y & Hy & Hyo). simplify_eq.
    destruct (wo_task _ _ _ _ Hyo) as (u & Hu & Hul). simplify_eq. auto.
  - rewrite (ci_none _ _ _ _ HI c op Hc) in Hw. set_solver.
Qed.

Lemma channel_resume_refines s A op t c w x b :
  cref s A → waiters s !! w = Some x → w_kind x = CW_REGULAR → w_task x = Some t →
  ¬ sch_parked (worker s) t → sch_flag (worker s) t = Some b →
  channel_resume op t true c w s = Ok (b, del_waiter s w) ∧ cref (del_waiter s w) A.
Proof.
  intros (B & Q & HI & Hd & <-) Hx Hk Ht Hp Hf.
  assert (wlive s x = true) as Hl by (unfold wlive; by rewrite Hk).
  pose proof (running_unqueued _ _ _ _ _ _ _ HI Hx Ht Hp Hl) as Hw. split.
  - unfold channel_resume, on_worker, mbind, M_bind. rewrite (sch_resume_spec _ _ _ Hf). simpl.
    assert (set_worker (worker s) s = s) as -> by (by destruct s).
    destruct b; simpl.
    + rewrite (sch_resume_spec _ _ _ Hf). simpl. by destruct s.
    + rewrite (get_waiter_run _ _ _ Hx), (unqueued_channel _ _ _ _ _ _ HI Hw Hx). done.
  - exists B, Q. split; [by apply cinv_del_waiter|]. split; [done|]. by apply abs_del_waiter.
Qed.
End wait.
