(* ===== verification/ChannelBlock.v ===== *)
(** * Blocking operations and closing

    [croutine_channel_send] and [croutine_channel_recv] up to the context
    switch and after it, and [croutine_channel_close], against the abstract
    machine. *)

From S2P Require Import Prelude Task WaitQueue Channel ChannelBuffer ChannelInv ChannelSpec.
From S2P Require Import ChannelRefine ChannelOps ChannelWait.

Section block.
Context {W : Type} `{SchedulerLaws W}.
Implicit Types (s : cstate W) (x : ChannelWaiter) (w c : positive) (op : croutine_select_op).
Implicit Types (B : positive → list (list byte)) (Q : positive → croutine_select_op → list positive).

(** The task is executing, and in no channel operation. *)
Definition idle s (t : tid) : Prop :=
  sch_running (worker s) t ∧ ∀ w x, waiters s !! w = Some x → w_task x ≠ Some t.

Lemma frame_waiter s s' w x : cframe s s' → waiters s' !! w = Some x →
  ∃ y, waiters s !! w = Some y ∧ payload x = payload y.
Proof. intros F. apply fmap_payload_lookup, F. Qed.

Lemma idle_frame s s' T t : cframe s s' → woke s s' T → idle s t → idle s' t.
Proof.
  intros F Hw [Hr Hn]. split; [by apply (wk_running _ _ _ Hw)|].
  intros w x Hx Ht. destruct (frame_waiter _ _ _ _ F Hx) as (y & Hy & Hp).
  assert (w_task x = w_task y) as E by (by injection Hp). apply (Hn w y Hy). congruence.
Qed.

Lemma idle_fits s t x : idle s t → w_task x = Some t → w_kind x = CW_REGULAR → fits (waiters s) x.
Proof.
  intros [_ Hn] Ht Hk w y Hy. split; [|congruence]. intros E. destruct (Hn w y Hy). congruence.
Qed.

(** The state [s'] after task [t] parked with the new waiters [N]. *)
Record parks s s' (t : tid) (N : list (positive * ChannelWaiter)) (A' : astate) : Prop := {
  pk_ref : cref s' A';
  pk_reg : reg_view s' = reg_view s;
  pk_waiters : payload <$> waiters s' = payload <$> (list_to_map N ∪ waiters s);
  pk_new : ∀ w x, (w, x) ∈ N → waiters s !! w = None;
  pk_selects : ∀ st ss, selects s !! st = Some ss → selects s' !! st = Some ss;
  pk_parked : ∀ u, sch_parked (worker s') u ↔ sch_parked (worker s) u ∨ u = t;
  pk_flag : sch_flag (worker s') t = Some false;
  pk_flags : ∀ u, u ≠ t → sch_flag (worker s') u = sch_flag (worker s) u;
  pk_running : ∀ u, u ≠ t → sch_running (worker s) u → sch_running (worker s') u;
  pk_shutdown : sched_shutdown (worker s') = sched_shutdown (worker s)
}.

Lemma parks_after s s1 s' t N A' :
  cframe s s1 → woke s s1 [] → parks s1 s' t N A' → parks s s' t N A'.
Proof.
  intros [F1 F2 F3 F4] [K1 _ _ K4 _ K6 _ K7 _] [P1 P2 P3 P4 P5 P6 P7 P8 P9 P10]. split; try done.
  - congruence.
  - rewrite P3, !map_fmap_union. by rewrite F3.
  - intros w x Hw. pose proof (f_equal (lookup w) F3) as E. rewrite !lookup_fmap in E.
    rewrite (P4 w x Hw) in E. by destruct (waiters s !! w).
  - intros st ss Hs. apply P5. rewrite K6; [done|]. set_solver.
  - intros u. rewrite P6, K1. set_solver.
  - intros u Hu. rewrite P8 by done. apply K4. set_solver.
  - intros u Hu Hr. apply P9; [done|]. by apply K7.
  - congruence.
Qed.

Lemma new_waiter_run s x :
  let w := fresh (dom (waiters s)) in
  new_waiter x s = Ok (w, add_waiter s w x) ∧ waiters s !! w = None.
Proof. split; [done|]. apply not_elem_of_dom, is_fresh. Qed.

Lemma covered_worker s wk Q t : covered (set_worker wk s) Q t ↔ covered s Q t.
Proof. done. Qed.

(** Registering one regular waiter and parking. *)
Lemma block_refines {R} s A c a op t p (K : bool → positive → R) :
  cref s A → idle s t → a_chans A !! c = Some a → a_closed a = false →
  sched_shutdown (worker s) = false → is_Some (a_read A p (a_elem a)) →
  let x := mkWaiter CW_REGULAR op None None None (Some t) p None 0 in
  ∃ s' w, (w ← new_waiter x;
           on_queue c op (wait_queue_push_tail w c);;
           parked ← on_worker (sched_park (Some t));
           mret (K parked w)) s = Ok (K true w, s') ∧
    parks s s' t [(w, x)] (a_wait c op (mkOffer t p None) A).
Proof.
  intros (B & Q & HI & Hd & <-) Hidle Ha Hcl Hsd Hr x.
  destruct (abs_get _ _ _ _ _ Ha) as (ch & Hc & ->). simpl in Hcl, Hr.
  destruct (new_waiter_run s x) as [Hnew Hfresh]. set (w := fresh (dom (waiters s))) in *.
  set (s1 := add_waiter s w x) in *.
  destruct (sch_park_spec (worker s) t (ci_sched _ _ _ _ HI) (proj1 Hidle) Hsd)
    as (wk & Hpark & Hok & Hpk & Hf & Hfs & Hrn & Hsd').
  assert (cinv s1 B Q no_task) as HI1.
  { apply cinv_add_waiter; try done. by eapply idle_fits. }
  pose proof (cinv_park s1 B Q no_task t wk HI1 Hok Hpk) as HI2.
  assert (∀ c op, w ∉ Q c op) as Hnq by (intros; by apply (fresh_not_queued s B Q no_task)).
  destruct (register_refines s1 wk B Q (λ u, no_task u ∨ u = t) c ch op w x t)
    as (s2 & Hreg & Hpo & HI3 & Hcov & _ & Habs); try done.
  { apply lookup_insert_eq. }
  { split; try done; [exists t; split; [done|]; intros _; apply Hpk; by right|].
    destruct Hr as [v Hv]. exact (read_slot_ok s B Q ch p v Hv). }
  pose proof (popped_frame _ _ _ _ _ Hpo) as [F1 F2 F3 F4].
  pose proof (popped_quiet _ _ _ _ _ Hpo) as (Ew & Es & Ev).
  exists (set_worker wk s2), w. split.
  { rewrite (bind_ok _ _ _ _ _ Hnew), (bind_ok _ _ _ _ _ Hreg).
    unfold on_worker, mbind, M_bind. rewrite Ew. simpl. by rewrite Hpark. }
  split; simpl; try done.
  - eexists B, _. split; [by eapply cinv_settle|]. split.
    + intros c' ch' op' Hc' Hcl'. unfold updQ. case_decide as Ed.
      * destruct Ed as [-> ->]. destruct (po_channels _ _ _ _ _ Hpo) as (ch0 & q & Hch0 & Hs2).
        simpl in Hc'. rewrite Hs2, lookup_insert_eq in Hc'.
        assert (ch0 = ch) as -> by (simpl in Hch0; congruence). injection Hc' as <-.
        destruct (set_queue_of_fields op q ch) as (_ & _ & E & _). congruence.
      * pose proof (f_equal (lookup c') F2) as E. rewrite !lookup_fmap in E. simpl in Hc', E.
        rewrite Hc' in E. destruct (channels s !! c') as [ch0|] eqn:Hc0; simplify_eq/=.
        eapply Hd; [done|]. congruence.
    + rewrite abs_worker, Habs. unfold s1. by rewrite (abs_add_waiter s B Q no_task).
  - rewrite F3. unfold s1. simpl. by rewrite <-insert_union_l, (left_id_L ∅ (∪)).
  - intros w' x' [= -> ->]%list_elem_of_singleton. done.
  - by rewrite Es.
  - congruence.
Qed.
End block.
