(* ===== verification/ChannelClose.v ===== *)
(** * Closing a channel

    [channel_close_locked] marks the channel and completes every waiter of
    both queues; the abstract [a_close] withdraws all offers of the tasks
    that wait on it. *)

From S2P Require Import Prelude Task WaitQueue Channel ChannelBuffer ChannelInv ChannelSpec.
From S2P Require Import ChannelRefine ChannelOps.

Section close.
Context {W : Type} `{SchedulerLaws W}.
Implicit Types (s : cstate W) (x : ChannelWaiter) (w c : positive) (op : croutine_select_op).
Implicit Types (B : positive → list (list byte)) (Q : positive → croutine_select_op → list positive).

Lemma tasks_app T T' : tasks (T ++ T') = tasks T ++ tasks T'.
Proof. apply fmap_app. Qed.

Lemma elem_of_tasks T k : k ∈ T → o_task k.1 ∈ tasks T.
Proof. intros Hk. unfold tasks. apply list_elem_of_fmap. eauto. Qed.

Lemma woke_trans s s1 s2 T T' : payload <$> waiters s1 = payload <$> waiters s →
  woke s s1 T → woke s1 s2 T' → woke s s2 (T ++ T').
Proof.
  intros Hp [A1 A2 A3 A4 A5 A6 A7 A8 A9] [B1 B2 B3 B4 B5 B6 B7 B8 B9].
  assert (∀ u, u ∈ tasks T → u ∉ tasks T') as Hdisj.
  { intros u Hu Hu'. apply B2, A1 in Hu' as [_ ?]. done. }
  split; rewrite ?tasks_app; try setoid_rewrite elem_of_app.
  - intros u. rewrite B1, A1. tauto.
  - intros u [Hu|Hu]; [by apply A2|]. by apply B2, A1 in Hu as [? _].
  - intros k [Hk|Hk]; [|by apply B3]. rewrite B4; [by apply A3|]. by apply Hdisj, elem_of_tasks.
  - intros u Hu. rewrite B4, A4; tauto.
  - intros k st i [Hk|Hk] Hc; [|by eapply B5]. rewrite B6; [by eapply A5|].
    intros k' i' Hk' Hc'. destruct (B7 k' st i' Hk' Hc') as (ss & Hss & Hd).
    rewrite (A5 k st i Hk Hc) in Hss. by simplify_eq.
  - intros st Hn. rewrite B6, A6; naive_solver.
  - intros k st i [Hk|Hk] Hc; [by eapply A7|]. destruct (B7 k st i Hk Hc) as (ss & Hss & Hd).
    exists ss. split; [|done]. rewrite <-Hss. symmetry. apply A6. intros k' i' Hk' Hc'.
    rewrite (A5 k' st i' Hk' Hc') in Hss. by simplify_eq.
  - auto.
  - intros k [Hk|Hk]; [by apply A9|]. destruct (B9 k Hk) as (w & x & Hx & Ht & Hc).
    destruct (fmap_payload_lookup _ _ _ _ Hp Hx) as (y & Hy & [E4 E5]%case_of_payload). exists w, y. by rewrite <-E4, <-E5.
Qed.

Lemma others_equiv T T' l : (∀ u, u ∈ T ↔ u ∈ T') → others T l = others T' l.
Proof.
  intros HT. induction l as [|o l IH]; [done|]. rewrite !others_cons, IH.
  repeat case_decide; naive_solver.
Qed.

Lemma a_withdraw_equiv T T' A : (∀ u, u ∈ T ↔ u ∈ T') → a_withdraw T A = a_withdraw T' A.
Proof.
  intros HT. apply astate_eq; [|done]. intros c. rewrite !a_withdraw_lookup.
  destruct (a_chans A !! c) as [ch|]; [|done]. simpl. unfold a_withdraw_from.
  by rewrite !(others_equiv T T').
Qed.

Lemma others_others T T' l : others T' (others T l) = others (T ++ T') l.
Proof.
  induction l as [|o l IH]; [done|]. rewrite !others_cons.
  repeat (case_decide || rewrite others_cons); try done; try (by f_equal); set_solver.
Qed.

Lemma a_withdraw_app T T' A : a_withdraw T' (a_withdraw T A) = a_withdraw (T ++ T') A.
Proof.
  apply astate_eq; [|done]. intros c. rewrite !a_withdraw_lookup.
  destruct (a_chans A !! c) as [ch|]; [|done]. simpl. unfold a_withdraw_from. simpl.
  by rewrite !others_others.
Qed.

Lemma a_withdraw_nil A : a_withdraw [] A = A.
Proof.
  apply astate_eq; [|done]. intros c. rewrite a_withdraw_lookup.
  destruct (a_chans A !! c) as [[]|]; [|done]. simpl. unfold a_withdraw_from. simpl.
  by rewrite !others_all.
Qed.

(** The tasks [T] are told, once each, that their offers [os] were closed. *)
Record closing (os : list offer) (T : list wakeup) : Prop := {
  cl_offer : ∀ k, k ∈ T → k.1 ∈ os ∧ k.2 = CROUTINE_SELECT_STATUS_CLOSED;
  cl_once : NoDup (tasks T)
}.

Lemma closing_app os T T' :
  closing os T → closing (others (tasks T) os) T' → closing os (T ++ T').
Proof.
  intros [A1 A2] [B1 B2]. split.
  - intros k [Hk|Hk]%elem_of_app; [by apply A1|].
    destruct (B1 k Hk) as [[? _]%others_in ?]. done.
  - rewrite tasks_app. apply NoDup_app. split_and!; try done. intros u Hu Hu'.
    unfold tasks in Hu'. apply list_elem_of_fmap in Hu' as (k & -> & Hk).
    destruct (B1 k Hk) as [[_ Hn]%others_in _]. done.
Qed.

Lemma close_waiter_dead s w x :
  waiters s !! w = Some x → wlive s x = false → close_waiter w s = Ok (tt, s).
Proof.
  intros Hx Hl. unfold close_waiter. rewrite (bind_ok _ _ _ _ _ (get_waiter_run _ _ _ Hx)).
  unfold wlive in Hl. destruct (w_kind x); [done|]. destruct (w_state x) as [st|]; [|done].
  unfold deref, mbind, M_bind. destruct (selects s !! st) as [ss|]; [|done].
  by destruct (done ss).
Qed.

Lemma close_waiter_live s w x t ch op :
  sch_ok (worker s) → sch_parked (worker s) t → waiters s !! w = Some x → w_task x = Some t →
  waiter_ok s ch op x → wlive s x = true →
  ∃ s1, close_waiter w s = Ok (tt, s1) ∧ completed s s1 x t CROUTINE_SELECT_STATUS_CLOSED ∧
        sch_ok (worker s1).
Proof.
  intros Hok Hpk Hx Ht Hxo Hl. unfold close_waiter.
  rewrite (bind_ok _ _ _ _ _ (get_waiter_run _ _ _ Hx)).
  unfold wlive in Hl. destruct (w_kind x) eqn:Hk.
  - destruct (close_regular_run s x t Hok Hpk Ht Hk) as (s1 & Hrun & Hco & Hok1).
    exists s1. by rewrite (bind_ok _ _ _ _ _ Hrun).
  - destruct (wo_state _ _ _ _ Hxo Hk) as (st & ss & E1 & E2). rewrite E1, E2 in *.
    assert (deref (λ s, selects s !! st) s = Ok (ss, s)) as Hd by (unfold deref; by rewrite E2).
    rewrite (bind_ok _ _ _ _ _ Hd). apply negb_true_iff in Hl. rewrite Hl.
    apply complete_run; try done; [intros _; by rewrite E1; eauto|]. unfold told. by rewrite Hk.
Qed.

(** One iteration of [wake_all_as_closed_locked]. *)
Lemma close_one s B Q c ch op w l :
  cinv s B Q no_task → channels s !! c = Some ch → Q c op = w :: l →
  ∃ s1 s2 T, on_queue c op wait_queue_pop_head s = Ok (Some w, s1) ∧ close_waiter w s1 = Ok (tt, s2) ∧
    let Q2 := updQ Q c op l in
    cinv s2 B Q2 no_task ∧ cframe s s2 ∧ woke s s2 T ∧ closing (offers s Q c op) T ∧
    abs s2 B Q2 = a_withdraw (tasks T) (abs s B Q) ∧ is_Some (channels s2 !! c).
Proof.
  intros HI Hch HQ.
  destruct (pop_one s B Q no_task c ch op w l HI Hch HQ) as (s1 & x & Hrun & Hpo & Hx & Hok & Hxu & HI1).
  pose proof (popped_frame _ _ _ _ _ Hpo) as F. pose proof (popped_quiet _ _ _ _ _ Hpo) as (Ew & Es & Ev).
  assert (is_Some (channels s1 !! c)) as Hc1.
  { destruct (po_channels _ _ _ _ _ Hpo) as (ch0 & q & _ & ->). rewrite lookup_insert_eq. eauto. }
  assert (wlive s1 (unlinked x) = wlive s x) as Hlv by (by apply wlive_payload).
  destruct (wo_task _ _ _ _ Hok) as (t & Ht & Hpk).
  assert (∀ T, offer_of s w = None ∨ (∃ o, offer_of s w = Some o ∧ o_task o ∈ T) →
    a_withdraw T (abs s1 B (updQ Q c op l)) = a_withdraw T (abs s B Q)) as Habs.
  { intros T Ho. rewrite (abs_popped _ _ _ _ _ _ _ Hpo). apply abs_withdraw_ext. intros c' op'.
    unfold updQ, offers. case_decide as Ed; [|done]. destruct Ed as [-> ->]. rewrite HQ. simpl.
    destruct Ho as [->|(o & -> & Ho)]; [done|]. by rewrite others_cons, decide_True. }
  assert (offer_of s w = if wlive s x then Some (mkOffer t (w_value_slot x) (case_of x)) else None) as Hoff.
  { unfold offer_of. rewrite Hx. simpl. by rewrite Ht. }
  destruct (wlive s x) eqn:Hl.
  - assert (waiter_ok s1 ch op (unlinked x)) as Hok1 by (by eapply waiter_ok_ext; [..|exact Hok]).
    destruct (close_waiter_live s1 w (unlinked x) t ch op) as (s2 & Hrun2 & Hco & Hsok); try done.
    { apply HI1. }
    { rewrite Ew. by apply Hpk. }
    assert (∀ c' op', w ∉ updQ Q c op l c' op') as Hnq.
    { intros c' op' Hw'. destruct (channels s1 !! c') as [ch'|] eqn:Hc'.
      - destruct (dseg_live _ _ _ _ _ w (wq_seg _ _ _ _ (ci_queue _ _ _ _ HI1 c' ch' op' Hc')) Hw')
          as (y & Hy & Hyc). by simplify_eq.
      - rewrite (ci_none _ _ _ _ HI1 c' op' Hc') in Hw'. set_solver. }
    destruct (completed_refines s1 s2 B (updQ Q c op l) w (unlinked x) t
      CROUTINE_SELECT_STATUS_CLOSED ch op) as (HI2 & Habs2 & Hch2 & F2 & Hwk); try done.
    { eapply cinv_weaken; [|exact HI1]. intros u [[]|[_ ?]]. congruence. }
    { rewrite Ew. by apply Hpk. }
    exists s1, s2, [(mkOffer t (w_value_slot x) (case_of x), CROUTINE_SELECT_STATUS_CLOSED)].
    split; [done|]. split; [done|]. split_and!; try done.
    + by eapply cframe_trans.
    + eapply woke_after; [done..| |done]. by apply (cf_waiters _ _ (popped_frame _ _ _ _ _ Hpo)).
    + split; [|apply NoDup_singleton]. intros k ->%list_elem_of_singleton. split; [|done].
      unfold offers. rewrite HQ. simpl. rewrite Hoff. left.
    + rewrite Habs2. apply Habs. right. rewrite Hoff. eexists. split; [done|]. simpl. set_solver.
    + by rewrite Hch2.
  - exists s1, s1, []. split; [done|]. split; [by eapply close_waiter_dead|]. split_and!; try done.
    + eapply cinv_weaken; [|exact HI1]. intros u [?|[? _]]; done.
    + by apply woke_quiet.
    + split; [set_solver|apply NoDup_nil_2].
    + simpl. rewrite <-(a_withdraw_nil (abs s1 _ _)). rewrite Habs by (left; by rewrite Hoff). done.
Qed.

Lemma abs_offers s s' B Q Q' T c ch ch' op :
  abs s' B Q' = a_withdraw T (abs s B Q) → channels s !! c = Some ch → channels s' !! c = Some ch' →
  offers s' Q' c op = others T (offers s Q c op).
Proof.
  intros Habs Hc Hc'. pose proof (f_equal (λ A, a_chans A !! c) Habs) as E. cbn beta in E.
  rewrite a_withdraw_lookup, !abs_lookup, Hc, Hc' in E. simpl in E. apply (inj Some) in E.
  rewrite <-(a_offers_abs s' B Q' c ch' op), E, a_offers_withdraw. by rewrite a_offers_abs.
Qed.

Lemma wake_all_spec B c op l : ∀ s Q fuel,
  cinv s B Q no_task → is_Some (channels s !! c) → Q c op = l → (length l < fuel)%nat →
  ∃ s1 T, wake_all fuel c op s = Ok (tt, s1) ∧ cinv s1 B (updQ Q c op []) no_task ∧
    cframe s s1 ∧ woke s s1 T ∧ closing (offers s Q c op) T ∧
    abs s1 B (updQ Q c op []) = a_withdraw (tasks T) (abs s B Q) ∧ is_Some (channels s1 !! c).
Proof.
  induction l as [|w l IH]; intros s Q [|fuel] HI [ch Hch] HQ Hf; simpl in Hf; try lia; cbn [wake_all].
  - destruct (pop_none s B Q no_task c ch op HI Hch HQ) as (s1 & Hrun & Hpo & HI1).
    rewrite (bind_ok _ _ _ _ _ Hrun). exists s1, []. split; [done|].
    pose proof (popped_quiet _ _ _ _ _ Hpo) as (Ew & Es & _). split_and!; try done.
    + by eapply popped_frame.
    + by apply woke_quiet.
    + split; [set_solver|apply NoDup_nil_2].
    + simpl. rewrite a_withdraw_nil, (abs_popped _ _ _ _ _ _ _ Hpo). apply abs_queue_ext.
      intros c' op'. unfold offers, updQ. case_decide as Ed; [|done]. destruct Ed as [-> ->].
      by rewrite HQ.
    + destruct (po_channels _ _ _ _ _ Hpo) as (ch0 & q & _ & ->). rewrite lookup_insert_eq. eauto.
  - destruct (close_one s B Q c ch op w l HI Hch HQ)
      as (s1 & s2 & T & Hrun1 & Hrun2 & HI2 & F2 & Hwk & Hcl & Habs & [ch2 Hc2]).
    rewrite (bind_ok _ _ _ _ _ Hrun1), (bind_ok _ _ _ _ _ Hrun2).
    destruct (IH s2 (updQ Q c op l) fuel HI2) as (s3 & T' & Hrun3 & HI3 & F3 & Hwk3 & Hcl3 & Habs3 & Hc3).
    { eauto. }
    { apply updQ_eq. }
    { lia. }
    assert (∀ c' op', updQ (updQ Q c op l) c op [] c' op' = updQ Q c op [] c' op') as HQQ.
    { intros c' op'. unfold updQ. by case_decide. }
    exists s3, (T ++ T'). split; [done|]. split_and!; try done.
    + by eapply cinv_ext.
    + by eapply cframe_trans.
    + eapply woke_trans; [by apply cf_waiters|done..].
    + apply closing_app; [done|]. by rewrite <-(abs_offers _ _ _ _ _ _ _ _ _ op Habs Hch Hc2).
    + rewrite tasks_app, <-a_withdraw_app, <-Habs, <-Habs3. apply abs_queue_ext.
      intros c' op'. unfold offers. by rewrite HQQ.
Qed.

Lemma wake_all_refines s B Q c op :
  cinv s B Q no_task → is_Some (channels s !! c) →
  ∃ s1 T, wake_all_as_closed_locked c op s = Ok (tt, s1) ∧ cinv s1 B (updQ Q c op []) no_task ∧
    cframe s s1 ∧ woke s s1 T ∧ closing (offers s Q c op) T ∧
    abs s1 B (updQ Q c op []) = a_withdraw (tasks T) (abs s B Q) ∧ is_Some (channels s1 !! c).
Proof.
  intros HI [ch Hc]. pose proof (queue_size _ _ _ _ _ _ op HI Hc) as Hsz.
  eapply wake_all_spec; [done|eauto|done|lia].
Qed.

Lemma closing_mono os os' T : os ⊆ os' → closing os T → closing os' T.
Proof. intros Hs [A1 A2]. split; [|done]. intros k Hk. destruct (A1 k Hk). split; [by apply Hs|done]. Qed.

Lemma others_none T l : others T l = [] → ∀ o, o ∈ l → o_task o ∈ T.
Proof.
  intros Hn o Ho. destruct (decide (o_task o ∈ T)) as [|Hne]; [done|].
  assert (o ∈ others T l) as Hin by (by apply others_in). rewrite Hn in Hin. set_solver.
Qed.

(** Both queues of a channel are drained. *)
Lemma drain_refines s B Q c ch :
  cinv s B Q no_task → channels s !! c = Some ch →
  ∃ s' Q' T, (wake_all_as_closed_locked c SEND;; wake_all_as_closed_locked c RECV) s = Ok (tt, s') ∧
    cinv s' B Q' no_task ∧ cframe s s' ∧ woke s s' T ∧
    closing (offers s Q c SEND ++ offers s Q c RECV) T ∧
    (∀ o, o ∈ offers s Q c SEND ++ offers s Q c RECV → o_task o ∈ tasks T) ∧
    abs s' B Q' = a_withdraw (tasks T) (abs s B Q) ∧
    (∀ c' op, Q' c' op = if decide (c' = c) then [] else Q c' op).
Proof.
  intros HI Hc.
  destruct (wake_all_refines s B Q c SEND HI) as (s1 & T1 & Hrun1 & HI1 & F1 & Hwk1 & Hcl1 & Habs1 & [ch1 Hc1]);
    [eauto|].
  destruct (wake_all_refines s1 B (updQ Q c SEND []) c RECV HI1)
    as (s2 & T2 & Hrun2 & HI2 & F2 & Hwk2 & Hcl2 & Habs2 & [ch2 Hc2]); [eauto|].
  rewrite (bind_ok _ _ _ _ _ Hrun1), Hrun2.
  assert (abs s2 B (updQ (updQ Q c SEND []) c RECV []) = a_withdraw (tasks (T1 ++ T2)) (abs s B Q)) as Habs.
  { by rewrite Habs2, Habs1, a_withdraw_app, tasks_app. }
  assert (∀ op, updQ (updQ Q c SEND []) c RECV [] c op = []) as Hnil.
  { intros []; unfold updQ; repeat case_decide; naive_solver. }
  assert (∀ op, others (tasks (T1 ++ T2)) (offers s Q c op) = []) as Hoff.
  { intros op. rewrite <-(abs_offers _ _ _ _ _ _ _ _ _ op Habs Hc Hc2). unfold offers. by rewrite Hnil. }
  eexists s2, _, (T1 ++ T2). split; [done|]. split_and!; try done.
  - by eapply cframe_trans.
  - eapply woke_trans; [by apply cf_waiters|done..].
  - apply closing_app; [by eapply closing_mono; [|done]; set_solver|].
    rewrite (abs_offers _ _ _ _ _ _ _ _ _ RECV Habs1 Hc Hc1) in Hcl2.
    eapply closing_mono; [|done]. unfold others. rewrite filter_app. set_solver.
  - intros o [Ho|Ho]%elem_of_app; by eapply others_none.
  - intros c' op. case_decide as Ed; [by subst|]. unfold updQ. by rewrite !decide_False by naive_solver.
Qed.

(** [channel_close_locked] *)
Record closes s s' (T : list wakeup) : Prop := {
  cs_reg : reg_view s' = reg_view s;
  cs_waiters : payload <$> waiters s' = payload <$> waiters s;
  cs_shutdown : sched_shutdown (worker s') = sched_shutdown (worker s);
  cs_woke : woke s s' T
}.

Lemma channel_close_sim s A c a :
  cref s A → a_chans A !! c = Some a →
  ∃ s' T, channel_close_locked c s = Ok (tt, s') ∧ cref s' (a_close c A) ∧ closes s s' T ∧
    (a_closed a = true → T = []) ∧
    (a_closed a = false → closing (a_senders a ++ a_receivers a) T ∧
       ∀ o, o ∈ a_senders a ++ a_receivers a → o_task o ∈ tasks T).
Proof.
  intros (B & Q & HI & Hd & <-) Ha. unfold a_close. rewrite Ha.
  destruct (abs_get _ _ _ _ _ Ha) as (ch & Hc & ->). simpl.
  unfold channel_close_locked. rewrite (bind_ok _ _ _ _ _ (get_chan_run _ _ _ Hc)).
  destruct (closed ch) eqn:Ec.
  { exists s, []. split; [done|]. split_and!; try done; [by exists B, Q|].
    split; try done. by apply woke_quiet. }
  rewrite (bind_ok _ _ _ _ _ (upd_chan_run _ _ _ _ Hc)).
  set (ch1 := set_closed true ch). set (s1 := with_chan s c ch1).
  assert (cinv s1 (updB B c (B c)) Q no_task) as HI1.
  { eapply cinv_chan; [done|done|done|by intros []|].
    eapply buf_rep_ext; [..|by apply HI]; done. }
  assert (abs s1 (updB B c (B c)) Q = a_alter a_set_closed c (abs s B Q)) as Habs1.
  { eapply abs_chan_upd; [done|]. unfold abs_chan, a_set_closed, updB. simpl. by rewrite decide_True. }
  destruct (drain_refines s1 _ Q c ch1 HI1) as (s2 & Q2 & T & Hrun & HI2 & F2 & Hwk & Hcl & Hall & Habs & HQ2).
  { apply with_chan_lookup. }
  exists s2, T. split; [done|]. split_and!; try done.
  - eexists _, Q2. split; [done|]. split.
    + intros c' ch' op Hc' Hcl'. rewrite HQ2. case_decide as Ed; [done|].
      pose proof (f_equal (lookup c') (cf_closed _ _ F2)) as E. rewrite !lookup_fmap, Hc' in E.
      unfold s1, with_chan in E. simpl in E. rewrite lookup_insert_ne in E by done.
      destruct (channels s !! c') as [ch0|] eqn:Hc0; simplify_eq/=. eapply Hd; [done|congruence].
    + rewrite Habs, Habs1. apply a_withdraw_equiv. intros u. split.
      * intros (k & -> & Hk)%list_elem_of_fmap. apply list_elem_of_fmap.
        destruct (cl_offer _ _ Hcl k Hk). eauto.
      * intros (o & -> & Ho)%list_elem_of_fmap. by apply Hall.
  - destruct F2 as [G1 G2 G3 G4]. split; try done.
    + rewrite G1. unfold reg_view, s1, with_chan. simpl. f_equal.
      rewrite fmap_insert. apply insert_id. by rewrite lookup_fmap, Hc.
    + by eapply woke_after; [..|exact Hwk].
Qed.
End close.
