(* ===== verification/ChannelRegistry.v ===== *)
(** * The registry of channels: creation, destruction, shutdown

    All channels are linked into a list so that a shutdown can close them.
    [reg_rep] relates the links to a list of channels; creation conses,
    destruction removes, and the walk of [croutine_channel_shutdown_all_locked]
    closes every channel, after which no task waits on a channel. *)

From S2P Require Import Prelude Task WaitQueue Channel ChannelBuffer ChannelInv ChannelSpec.
From S2P Require Import ChannelRefine ChannelOps ChannelClose.

(** The links of the channels: predecessor and successor. *)
Abbreviation links := (gmap positive (option positive * option positive)).

(** The channels [l] are linked in order, the first after [p], the last
    before [n]. *)
Fixpoint rseg (m : links) (p : option positive) (l : list positive) (n : option positive) : Prop :=
  match l with
  | [] => True
  | c :: l' => m !! c = Some (p, first l' n) ∧ rseg m (Some c) l' n
  end.

Record reg_rep (v : option positive * links) (l : list positive) : Prop := {
  rr_head : v.1 = first l None;
  rr_nodup : NoDup l;
  rr_seg : rseg v.2 None l None;
  rr_dom : ∀ c, is_Some (v.2 !! c) ↔ c ∈ l
}.

Lemma rseg_ext m m' p l n : (∀ c, c ∈ l → m' !! c = m !! c) → rseg m p l n → rseg m' p l n.
Proof.
  revert p. induction l as [|c l IH]; intros p Hm; [done|]. intros [Hc Hl]. split.
  - rewrite Hm by left. done.
  - apply IH; [|done]. intros u Hu. apply Hm. by right.
Qed.

Lemma first_app l1 l2 n : first (l1 ++ l2) n = first l1 (first l2 n).
Proof. by destruct l1. Qed.

Lemma rseg_app m p l1 l2 n :
  rseg m p (l1 ++ l2) n ↔ rseg m p l1 (first l2 n) ∧ rseg m (final l1 p) l2 n.
Proof.
  revert p. induction l1 as [|c l1 IH]; intros p; [simpl; tauto|].
  cbn [app rseg]. rewrite IH, first_app.
  assert (final (c :: l1) p = final l1 (Some c)) as ->.
  { unfold final. rewrite last_cons. by destruct (last l1). }
  tauto.
Qed.

(** Redirecting the outer links of a segment. *)
Lemma rseg_next m m' p l n n' :
  NoDup l → rseg m p l n →
  (∀ c, c ∈ l → last l ≠ Some c → m' !! c = m !! c) →
  (∀ c q, last l = Some c → m !! c = Some (q, n) → m' !! c = Some (q, n')) →
  rseg m' p l n'.
Proof.
  revert p. induction l as [|c l IH]; intros p Hnd; [done|]. intros [Hc Hl] Ho Hlast.
  apply NoDup_cons in Hnd as [Hcl Hnd]. destruct l as [|d l].
  - split; [|done]. by apply Hlast.
  - split.
    + rewrite Ho; [done|left|]. rewrite last_cons_cons. intros Hl'.
      apply last_Some_elem_of in Hl'. done.
    + apply IH; [done..| |done]. intros u Hu. apply Ho. by right.
Qed.

Lemma rseg_prev m m' p p' l n :
  NoDup l → rseg m p l n →
  (∀ c, c ∈ l → first l None ≠ Some c → m' !! c = m !! c) →
  (∀ c q, first l None = Some c → m !! c = Some (p, q) → m' !! c = Some (p', q)) →
  rseg m' p' l n.
Proof.
  intros Hnd. destruct l as [|c l]; [done|]. apply NoDup_cons in Hnd as [Hcl Hnd].
  intros [Hc Hl] Ho Hf. split; [by apply Hf|].
  eapply rseg_ext; [|done]. intros u Hu. apply Ho; [by right|]. simpl. congruence.
Qed.

(** Unlinking an element, as a change of the links. *)
Definition set_next_of (c : option positive) (v : option positive) (m : links) : links :=
  match c with Some c => alter (λ e, (e.1, v)) c m | None => m end.
Definition set_prev_of (c : option positive) (v : option positive) (m : links) : links :=
  match c with Some c => alter (λ e, (v, e.2)) c m | None => m end.

Lemma set_next_of_ne c v m u : c ≠ Some u → set_next_of c v m !! u = m !! u.
Proof. destruct c as [c|]; [|done]. intros Hne. apply lookup_alter_ne. congruence. Qed.
Lemma set_prev_of_ne c v m u : c ≠ Some u → set_prev_of c v m !! u = m !! u.
Proof. destruct c as [c|]; [|done]. intros Hne. apply lookup_alter_ne. congruence. Qed.
Lemma set_next_of_is_Some c v m u : is_Some (set_next_of c v m !! u) ↔ is_Some (m !! u).
Proof.
  destruct c as [c|]; [|done]. destruct (decide (c = u)) as [<-|Hne]; simpl.
  - rewrite lookup_alter_eq. by rewrite fmap_is_Some.
  - by rewrite lookup_alter_ne.
Qed.
Lemma set_prev_of_is_Some c v m u : is_Some (set_prev_of c v m !! u) ↔ is_Some (m !! u).
Proof.
  destruct c as [c|]; [|done]. destruct (decide (c = u)) as [<-|Hne]; simpl.
  - rewrite lookup_alter_eq. by rewrite fmap_is_Some.
  - by rewrite lookup_alter_ne.
Qed.

Lemma final_None_elem l u : final l None = Some u → u ∈ l.
Proof. intros Hf. by eapply final_elem. Qed.
Lemma first_None_elem l u : first l None = Some u → u ∈ l.
Proof. destruct l; [done|]. intros [= ->]. left. Qed.

Lemma unlink_reg h m l1 c l2 :
  reg_rep (h, m) (l1 ++ c :: l2) →
  let prev := final l1 None in let next := first l2 None in
  m !! c = Some (prev, next) ∧
  reg_rep (match prev with None => next | _ => h end,
           delete c (set_prev_of next prev (set_next_of prev next m))) (l1 ++ l2).
Proof.
  intros [R1 R2 R3 R4] prev next. simpl in *. apply rseg_app in R3 as [R3 [Hc R5]].
  pose proof R2 as (Hnd1 & Hdj & [Hc2 Hnd2]%NoDup_cons)%NoDup_app.
  assert (c ∉ l1) as Hc1 by (intros ?; apply (Hdj c); [done|left]).
  assert (∀ u, u ∈ l1 → u ∉ l2) as Hdj' by (intros u Hu Hu2; apply (Hdj u); [done|by right]).
  assert (∀ u, prev = Some u → u ∈ l1) as Hprev by apply final_None_elem.
  assert (∀ u, next = Some u → u ∈ l2) as Hnext by apply first_None_elem.
  split; [done|]. split; simpl.
  - rewrite first_app. unfold prev, final. rewrite R1, first_app.
    destruct (last l1) as [p|] eqn:El; [|by apply last_None in El; subst].
    destruct l1; done.
  - apply NoDup_app. split_and!; auto.
  - apply rseg_app. split.
    + eapply rseg_next; [done|exact R3| |].
      * intros u Hu Hne. rewrite lookup_delete_ne by (by intros <-).
        rewrite set_prev_of_ne by (intros ?%Hnext; by apply (Hdj' u)).
        apply set_next_of_ne. unfold prev, final. by destruct (last l1).
      * intros u q Hu Hm. assert (prev = Some u) as Ep by (unfold prev, final; by rewrite Hu).
        assert (u ∈ l1) as Hin by auto. rewrite lookup_delete_ne by (by intros <-).
        rewrite set_prev_of_ne by (intros ?%Hnext; by apply (Hdj' u)).
        rewrite Ep. simpl. by rewrite lookup_alter_eq, Hm.
    + fold prev. eapply (rseg_prev _ _ (Some c)); [done|exact R5| |].
      * intros u Hu Hne. rewrite lookup_delete_ne by (by intros <-).
        rewrite set_prev_of_ne by done. apply set_next_of_ne. intros ?%Hprev. by apply (Hdj' u).
      * intros u q Hu Hm. assert (u ∈ l2) as Hin by auto. rewrite lookup_delete_ne by (by intros <-).
        unfold next. rewrite Hu. simpl. rewrite lookup_alter_eq, set_next_of_ne.
        { by rewrite Hm. }
        intros ?%Hprev. by apply (Hdj' u).
  - intros u. destruct (decide (u = c)) as [->|Hne].
    + rewrite lookup_delete_eq, elem_of_app. rewrite is_Some_alt. tauto.
    + rewrite lookup_delete_ne, set_prev_of_is_Some, set_next_of_is_Some, R4 by done. set_solver.
Qed.

Section registry.
Context `{Alloc} {W : Type} `{SchedulerLaws W}.
Implicit Types (s : cstate W) (c : positive) (l : list positive).

(** ** Creation *)

Definition a_new (c : positive) (esz cap : Z) (A : astate) : astate :=
  mkAState (<[c := mkAChan esz cap false [] [] []]> (a_chans A)) (a_vals A).

Lemma cinv_new s B Q E c ch :
  cinv s B Q E → channels s !! c = None → buf_rep ch [] →
  (∀ op, queue_of op ch = mkWaitQueue None None) →
  cinv (with_chan s c ch) (updB B c []) Q E.
Proof.
  intros [I1 I2 I3 I4 I5 I6 I7 I8 I9] Hc Hb Hq. unfold with_chan. split; simpl; try done; intros c'.
  - intros ch'. unfold updB. case_decide as Ed.
    + subst. rewrite lookup_insert_eq. by intros [= <-].
    + rewrite lookup_insert_ne by done. apply I2.
  - intros ch' op [[<- <-]|[_ ?]]%lookup_insert_Some; [|by apply I3].
    rewrite Hq, I4 by done. split; try done. constructor.
  - intros op [? _]%lookup_insert_None. by apply I4.
  - intros ch' op w [[<- <-]|[_ Hc']]%lookup_insert_Some Hw; [rewrite I4 in Hw by done; set_solver|].
    destruct (I5 c' ch' op w Hc' Hw) as (x & Hx & Hok). exists x. split; [done|].
    by eapply waiter_ok_ext; [..|exact Hok].
Qed.

Lemma abs_new s B Q E c ch :
  cinv s B Q E → channels s !! c = None → closed ch = false →
  abs (with_chan s c ch) (updB B c []) Q = a_new c (elem_size ch) (capacity ch) (abs s B Q).
Proof.
  intros HI Hc Hcl. apply astate_eq; [|done]. intros c'. rewrite abs_lookup. unfold a_new. cbn [a_chans].
  unfold with_chan. simpl. destruct (decide (c' = c)) as [->|Hne].
  - rewrite !lookup_insert_eq. simpl. unfold abs_chan, offers, updB.
    by rewrite !(ci_none _ _ _ _ HI) by done; rewrite decide_True, Hcl.
  - rewrite !lookup_insert_ne by done.
    change (map_imap _ _ !! c') with (a_chans (abs s B Q) !! c').
    rewrite abs_lookup. destruct (channels s !! c'); [|done]. simpl.
    unfold abs_chan, updB. by rewrite decide_False.
Qed.

(** The record [croutine_channel_create] fills in. *)
Lemma new_buf_rep esz cap buf n :
  0 ≤ esz ≤ SIZE_MAX → 0 ≤ cap ≤ SIZE_MAX → (cap ≠ 0 → esz ≤ SIZE_MAX / cap) →
  (0 < cap → ∃ bs, buf = Some bs ∧ esz * cap ≤ Z.of_nat (length bs)) →
  buf_rep (mkChannel esz cap false buf 0 0 0 (mkWaitQueue None None) (mkWaitQueue None None) None n) [].
Proof.
  intros He Hc Hm Hb. unfold SIZE_MAX in *.
  split; simpl; try done; try lia.
  - destruct (decide (cap = 0)) as [->|Hne]; [unfold SIZE_MAX; lia|]. specialize (Hm Hne).
    pose proof (Z.mul_div_le (2 ^ 64 - 1) cap ltac:(lia)). unfold SIZE_MAX. nia.
  - intros Hp. destruct (Hb Hp) as (bs & -> & Hl). exists bs. by split_and!.
Qed.

Lemma reg_view_with s c ch ch' :
  channels s !! c = Some ch →
  reg_view (with_chan s c ch') =
    (channel_registry s, <[c := (registry_prev ch', registry_next ch')]> (reg_view s).2).
Proof. intros Hc. unfold reg_view, with_chan. simpl. by rewrite fmap_insert. Qed.

(** Changing the registry links of one channel. *)
Lemma cinv_links s B Q E c ch ch' :
  cinv s B Q E → channels s !! c = Some ch → elem_size ch' = elem_size ch → capacity ch' = capacity ch →
  closed ch' = closed ch → buffer ch' = buffer ch → len ch' = len ch → head ch' = head ch →
  tail ch' = tail ch → (∀ op, queue_of op ch' = queue_of op ch) →
  cinv (with_chan s c ch') B Q E ∧ abs (with_chan s c ch') B Q = abs s B Q ∧
  (drained s Q → drained (with_chan s c ch') Q).
Proof.
  intros HI Hc E1 E2 E3 E4 E5 E6 E7 Eq.
  assert (∀ c', updB B c (B c) c' = B c') as HB.
  { intros c'. unfold updB. case_decide; by subst. }
  assert (cinv (with_chan s c ch') (updB B c (B c)) Q E) as HI'.
  { eapply cinv_chan; [done..|]. eapply buf_rep_ext; [..|by apply HI]; done. }
  split_and!.
  - destruct HI' as [I1 I2 I3 I4 I5 I6 I7 I8 I9]. split; try done.
    intros c' ch0 Hc'. rewrite <-HB. by apply I2.
  - apply astate_eq; [|done]. intros c'. rewrite !abs_lookup. unfold with_chan. simpl.
    destruct (decide (c' = c)) as [->|Hne].
    + rewrite lookup_insert_eq, Hc. simpl. unfold abs_chan. rewrite E1, E2, E3. done.
    + by rewrite lookup_insert_ne.
  - intros Hd c' ch0 op. unfold with_chan. simpl. rewrite lookup_insert_Some.
    intros [[<- <-]|[_ Hc']] Hcl; [eapply Hd; [done|congruence]|by eapply Hd].
Qed.

Definition create_granted (esz cap : Z) : Prop :=
  esz * cap ≤ SIZE_MAX ∧ calloc_ok 1 104 = true ∧
  (cap ≠ 0 → is_Some (malloc (Z.max 1 (esz * cap)))).

Lemma cref_registry s A r : cref s A → cref (set_channel_registry r s) A.
Proof.
  intros (B & Q & [I1 I2 I3 I4 I5 I6 I7 I8 I9] & Hd & <-). exists B, Q. split; [|done].
  split; try done. intros c ch op w Hc Hw. destruct (I5 c ch op w Hc Hw) as (x & Hx & Hok).
  exists x. split; [done|]. by eapply waiter_ok_ext; [..|exact Hok].
Qed.

(** What creation and destruction leave alone. *)
Record registers s s' : Prop := {
  rg_waiters : waiters s' = waiters s;
  rg_selects : selects s' = selects s;
  rg_worker : worker s' = worker s
}.

(** A new channel becomes the first of the list. *)
Lemma link_head_sim s A l c ch :
  cref s A → reg_rep (reg_view s) l → channels s !! c = None → buf_rep ch [] → closed ch = false →
  (∀ op, queue_of op ch = mkWaitQueue None None) → registry_prev ch = None →
  registry_next ch = channel_registry s →
  ∃ s', (modify (set_channels (<[c := ch]> (channels s)));;
         (match channel_registry s with
          | Some r => upd_chan r (set_registry_prev (Some c))
          | None => mret tt
          end);;
         modify (set_channel_registry (Some c));; mret (Some c)) s = Ok (Some c, s') ∧
    cref s' (a_new c (elem_size ch) (capacity ch) A) ∧ reg_rep (reg_view s') (c :: l) ∧ registers s s'.
Proof.
  intros (B & Q & HI & Hd & <-) [R1 R2 R3 R4] Hc Hb Hcl Hq Hp Hn.
  pose proof (cinv_new s B Q no_task c ch HI Hc Hb Hq) as HI1.
  pose proof (abs_new s B Q no_task c ch HI Hc Hcl) as Habs1.
  assert (c ∉ l) as Hcl'.
  { intros Hin. apply R4 in Hin as [? Hin]. unfold reg_view in Hin. simpl in Hin.
    by rewrite lookup_fmap, Hc in Hin. }
  assert (drained (with_chan s c ch) Q) as Hd1.
  { intros c' ch' op. unfold with_chan. simpl. rewrite lookup_insert_Some.
    intros [[<- <-]|[_ Hc']] Hcl2; [congruence|by eapply Hd]. }
  set (m := (λ ch, (registry_prev ch, registry_next ch)) <$> channels s) in *.
  change (reg_view s) with (channel_registry s, m) in *. simpl in R1, R3, R4.
  rewrite (bind_ok _ _ s tt (with_chan s c ch)) by done.
  destruct l as [|r l]; simpl in R1; rewrite R1.
  - rewrite (bind_ok _ _ _ tt (with_chan s c ch)) by done. eexists. split; [done|].
    split; [apply cref_registry; eexists _, Q; done|]. split; [|done].
    split; [done|apply NoDup_singleton|..].
    + simpl. rewrite fmap_insert, lookup_insert_eq. rewrite Hp, Hn, R1. done.
    + intros c'. simpl. rewrite fmap_insert, lookup_insert_is_Some'. fold m.
      rewrite R4. set_solver.
  - assert (r ≠ c) as Hrc by set_solver.
    destruct R3 as [Hr R3]. unfold m in Hr. rewrite lookup_fmap in Hr.
    destruct (channels s !! r) as [chr|] eqn:Hcr; [|done]. injection Hr as Hrp Hrn.
    assert (channels (with_chan s c ch) !! r = Some chr) as Hcr1.
    { unfold with_chan. simpl. by rewrite lookup_insert_ne. }
    rewrite (bind_ok _ _ _ _ _ (upd_chan_run _ _ _ _ Hcr1)). eexists. split; [done|].
    destruct (cinv_links _ _ _ _ r chr (set_registry_prev (Some c) chr) HI1 Hcr1) as (HI2 & Habs2 & Hd2);
      try done.
    split; [apply cref_registry; eexists _, Q; split; [done|]; split; [auto|congruence]|].
    split; [|done]. split; [done| |..].
    + by apply NoDup_cons.
    + simpl. rewrite !fmap_insert. fold m. apply NoDup_cons in R2 as [Hrl R2]. split_and!.
      * rewrite lookup_insert_ne, lookup_insert_eq by done. by rewrite Hp, Hn, R1.
      * rewrite lookup_insert_eq. simpl. by rewrite Hrn.
      * eapply rseg_ext; [|exact R3]. intros u Hu. rewrite !lookup_insert_ne; set_solver.
    + intros c'. simpl. rewrite !fmap_insert, !lookup_insert_is_Some'. fold m. rewrite R4. set_solver.
Qed.

Lemma create_sim s A l esz cap :
  cref s A → reg_rep (reg_view s) l → 0 ≤ esz ≤ SIZE_MAX → 0 ≤ cap ≤ SIZE_MAX →
  (create_granted esz cap → ∃ c s',
     croutine_channel_create esz cap s = Ok (Some c, s') ∧ a_chans A !! c = None ∧
     cref s' (a_new c esz cap A) ∧ reg_rep (reg_view s') (c :: l) ∧ registers s s') ∧
  (¬ create_granted esz cap → croutine_channel_create esz cap s = Ok (None, s)).
Proof.
  intros HR Hreg He Hc.
  assert ((negb (cap =? 0) && (SIZE_MAX / cap <? esz)) = true ↔ ¬ esz * cap ≤ SIZE_MAX) as Hov.
  { destruct (Z.eqb_spec cap 0) as [->|Hne]; simpl.
    - unfold SIZE_MAX. split; [done|lia].
    - rewrite Z.ltb_lt. split.
      + intros Hlt Hle. pose proof (Z.div_le_lower_bound SIZE_MAX cap esz). lia.
      + intros Hgt. apply Z.div_lt_upper_bound; lia. }
  split.
  - intros (Hg1 & Hg2 & Hg3). unfold croutine_channel_create. rewrite Hg2.
    destruct (negb (cap =? 0) && (SIZE_MAX / cap <? esz)) ; [naive_solver|].
    set (c := fresh (dom (channels s))).
    assert (channels s !! c = None) as Hfresh by (apply not_elem_of_dom, is_fresh).
    assert (a_chans A !! c = None) as HfA.
    { destruct HR as (B & Q & _ & _ & <-). by rewrite abs_lookup, Hfresh. }
    assert (cap ≠ 0 → esz ≤ SIZE_MAX / cap) as Hdiv.
    { intros Hne. apply Z.div_le_lower_bound; lia. }
    destruct (Z.eqb_spec cap 0) as [->|Hne]; cbn [negb].
    + destruct (link_head_sim s A l c (mkChannel esz 0 false None 0 0 0 (mkWaitQueue None None)
        (mkWaitQueue None None) None (channel_registry s))) as (s' & Hrun & Hs'); try done.
      { by apply new_buf_rep. }
      { by intros []. }
      exists c, s'. split; [exact Hrun|]. done.
    + rewrite u64_small by (unfold SIZE_MAX in *; nia).
      replace (if esz * cap =? 0 then 1 else esz * cap) with (Z.max 1 (esz * cap))
        by (case_bool; nia).
      destruct (Hg3 Hne) as [bs Hbs]. rewrite Hbs. simpl.
      destruct (link_head_sim s A l c (mkChannel esz cap false (Some bs) 0 0 0 (mkWaitQueue None None)
        (mkWaitQueue None None) None (channel_registry s))) as (s' & Hrun & Hs'); try done.
      { apply new_buf_rep; try done. intros _. exists bs. split; [done|].
        rewrite (malloc_length _ _ Hbs). lia. }
      { by intros []. }
      exists c, s'. split; [exact Hrun|]. done.
  - intros Hng. unfold croutine_channel_create.
    destruct (negb (cap =? 0) && (SIZE_MAX / cap <? esz)) ; [done|].
    destruct (calloc_ok 1 104) eqn:Ecal; [|done]. cbn [negb].
    assert (esz * cap ≤ SIZE_MAX) as Hle by (apply Z.nlt_ge; intros Hgt; apply Z.lt_nge, Hov in Hgt; done).
    destruct (Z.eqb_spec cap 0) as [->|Hne]; [by destruct Hng|].
    rewrite u64_small by (unfold SIZE_MAX in *; nia).
    replace (if esz * cap =? 0 then 1 else esz * cap) with (Z.max 1 (esz * cap))
      by (case_bool; nia).
    destruct (malloc (Z.max 1 (esz * cap))) eqn:Em; [|done]. destruct Hng. split_and!; eauto.
Qed.

(** ** Destruction *)

Definition a_free (c : positive) (A : astate) : astate := mkAState (delete c (a_chans A)) (a_vals A).

Lemma reg_live s c : is_Some ((reg_view s).2 !! c) ↔ is_Some (channels s !! c).
Proof. unfold reg_view. simpl. by rewrite lookup_fmap, fmap_is_Some. Qed.

Lemma registers_trans s1 s2 s3 : registers s1 s2 → registers s2 s3 → registers s1 s3.
Proof. intros [A1 A2 A3] [B1 B2 B3]. split; congruence. Qed.

(** Writing one link of a neighbour, if there is one. *)
Lemma set_link_sim s A o f (g : option positive * option positive → option positive * option positive) :
  cref s A → (∀ c, o = Some c → is_Some (channels s !! c)) →
  (∀ ch, f ch = set_registry_next (g (registry_prev ch, registry_next ch)).2
                  (set_registry_prev (g (registry_prev ch, registry_next ch)).1 ch)) →
  ∃ s', (match o with Some c => upd_chan c f | None => mret tt end) s = Ok (tt, s') ∧ cref s' A ∧
    reg_view s' = (channel_registry s, match o with Some c => alter g c (reg_view s).2
                                       | None => (reg_view s).2 end) ∧ registers s s'.
Proof.
  intros HR Hlive Hf. destruct o as [c|]; [|by exists s].
  destruct (Hlive c eq_refl) as [ch Hc]. destruct HR as (B & Q & HI & Hd & <-).
  exists (with_chan s c (f ch)). split; [by apply upd_chan_run|].
  destruct (cinv_links s B Q no_task c ch (f ch) HI Hc) as (HI' & Habs & Hd');
    try (by rewrite Hf).
  split; [exists B, Q; auto|]. split; [|done].
  erewrite reg_view_with by done. f_equal. rewrite Hf. simpl. symmetry.
  apply map_eq. intros u. destruct (decide (u = c)) as [->|Hne].
  - rewrite lookup_alter_eq, lookup_insert_eq, lookup_fmap, Hc. simpl.
    by destruct (g (registry_prev ch, registry_next ch)).
  - rewrite lookup_alter_ne by done. by rewrite lookup_insert_ne.
Qed.

Lemma free_sim s A c a :
  cref s A → a_chans A !! c = Some a → a_closed a = true →
  cref (set_channels (delete c (channels s)) s) (a_free c A).
Proof.
  intros (B & Q & HI & Hd & <-) Ha Hcl. destruct (abs_get _ _ _ _ _ Ha) as (ch & Hc & ->).
  simpl in Hcl. pose proof HI as [I1 I2 I3 I4 I5 I6 I7 I8 I9].
  exists B, Q. split; [split; simpl; try done|split].
  - intros c' ch' [_ Hc']%lookup_delete_Some. eauto.
  - intros c' ch' op [_ Hc']%lookup_delete_Some. eauto.
  - intros c' op [->|Hc']%lookup_delete_None; [by eapply Hd|eauto].
  - intros c' ch' op w [_ Hc']%lookup_delete_Some Hw.
    destruct (I5 c' ch' op w Hc' Hw) as (x & Hx & Hok). exists x. split; [done|].
    by eapply waiter_ok_ext; [..|exact Hok].
  - intros c' ch' op. simpl. intros [_ Hc']%lookup_delete_Some. by eapply Hd.
  - apply astate_eq; [|done]. intros c'. rewrite abs_lookup. unfold a_free. cbn [a_chans]. simpl.
    destruct (decide (c = c')) as [<-|Hne]; [by rewrite !lookup_delete_eq|].
    rewrite !lookup_delete_ne by done.
    change (map_imap _ _ !! c') with (a_chans (abs s B Q) !! c'). by rewrite abs_lookup.
Qed.

Lemma cref_chan s A c a : cref s A → a_chans A !! c = Some a →
  ∃ ch, channels s !! c = Some ch ∧ closed ch = a_closed a ∧ elem_size ch = a_elem a ∧
    (closed ch = true → ∀ op, wq_head (queue_of op ch) = None).
Proof.
  intros (B & Q & HI & Hd & <-) Ha. destruct (abs_get _ _ _ _ _ Ha) as (ch & Hc & ->).
  exists ch. split_and!; try done. intros Hcl op.
  rewrite (wq_head_eq _ _ _ _ (ci_queue _ _ _ _ HI c ch op Hc)). by rewrite (Hd c ch op).
Qed.

Lemma destroy_sim s A l c a :
  cref s A → reg_rep (reg_view s) l → a_chans A !! c = Some a →
  (a_closed a = false → croutine_channel_destroy (Some c) s = Ok (false, s)) ∧
  (a_closed a = true → ∃ s' l1 l2, croutine_channel_destroy (Some c) s = Ok (true, s') ∧
     cref s' (a_free c A) ∧ l = l1 ++ c :: l2 ∧ reg_rep (reg_view s') (l1 ++ l2) ∧ registers s s').
Proof.
  intros HR Hreg Ha. destruct (cref_chan s A c a HR Ha) as (ch & Hc & Ecl & _ & Hq).
  unfold croutine_channel_destroy. rewrite (bind_ok _ _ _ _ _ (get_chan_run _ _ _ Hc)), Ecl.
  split; intros Hcl; rewrite Hcl in *; [done|].
  pose proof (Hq Ecl SEND) as Hqs. pose proof (Hq Ecl RECV) as Hqr. simpl in Hqs, Hqr.
  rewrite Hqs, Hqr. simpl.
  assert (c ∈ l) as Hin by (apply (rr_dom _ _ Hreg), reg_live; eauto).
  apply list_elem_of_split in Hin as (l1 & l2 & ->).
  destruct (reg_view s) as [h m] eqn:Ev. destruct (unlink_reg h m l1 c l2 Hreg) as [Hm Hreg'].
  assert (h = channel_registry s ∧ registry_prev ch = final l1 None ∧ registry_next ch = first l2 None)
    as (-> & Ep & En).
  { unfold reg_view in Ev. injection Ev as <- <-. rewrite lookup_fmap, Hc in Hm. by simplify_eq/=. }
  set (prev := final l1 None) in *. set (next := first l2 None) in *. rewrite Ep, En.
  assert (∀ u, u ∈ l1 ++ c :: l2 → is_Some (channels s !! u)) as Hlive.
  { intros u Hu. apply reg_live. rewrite Ev. by apply (rr_dom _ _ Hreg). }
  (* the predecessor, or the head of the list *)
  assert (∃ s1, (match prev with
       | Some p => upd_chan p (set_registry_next next)
       | None => modify (set_channel_registry next)
       end) s = Ok (tt, s1) ∧ cref s1 A ∧
      reg_view s1 = (match prev with None => next | _ => channel_registry s end,
                     set_next_of prev next m) ∧ registers s s1) as (s1 & Hrun1 & HR1 & Ev1 & G1).
  { destruct prev as [p|] eqn:Epv.
    - destruct (set_link_sim s A (Some p) (set_registry_next next) (λ e, (e.1, next)))
        as (s1 & Hrun & HR1 & Ev1 & G1); try done.
      { intros u [= <-]. apply Hlive, elem_of_app. left. by apply final_None_elem. }
      exists s1. split; [done|]. split_and!; try done. rewrite Ev1, Ev. done.
    - eexists. split; [done|]. split; [by apply cref_registry|]. split; [|done].
      unfold reg_view in *. injection Ev as <-. done. }
  rewrite (bind_ok _ _ _ _ _ Hrun1).
  destruct (set_link_sim s1 A next (set_registry_prev prev) (λ e, (prev, e.2)))
    as (s2 & Hrun2 & HR2 & Ev2 & G2); try done.
  { intros u Hu. apply reg_live. rewrite Ev1. simpl. apply set_next_of_is_Some.
    change m with ((channel_registry s, m).2). rewrite <-Ev. apply reg_live, Hlive, elem_of_app.
    right. right. by apply first_None_elem. }
  rewrite (bind_ok _ _ _ _ _ Hrun2). eexists _, l1, l2. split; [done|]. split_and!; try done.
  - by eapply free_sim.
  - assert (channel_registry s1 = (reg_view s1).1) as Er by done.
    rewrite Ev1 in Ev2, Er. simpl in Ev2, Er. rewrite Er in Ev2.
    unfold reg_view in Ev2 |- *. injection Ev2 as Er2 Em2. simpl. rewrite fmap_delete, Er2, Em2. done.
  - by eapply registers_trans; [|eapply registers_trans; [exact G2|]].
Qed.

(** ** Shutdown *)

Lemma closes_trans s s1 s2 T T' : closes s s1 T → closes s1 s2 T' → closes s s2 (T ++ T').
Proof. intros [A1 A2 A3 A4] [B1 B2 B3 B4]. split; try congruence. by eapply woke_trans. Qed.

Definition a_close_all (l : list positive) (A : astate) : astate := foldl (λ A c, a_close c A) A l.

Lemma a_close_lookup c A c' :
  ∃ T, a_chans (a_close c A) !! c' =
    (λ a, a_withdraw_from T (if decide (c' = c) then a_set_closed a else a)) <$> a_chans A !! c'.
Proof.
  assert (∀ a, a_withdraw_from [] a = a) as Hnil.
  { intros []. unfold a_withdraw_from. simpl. by rewrite !others_all. }
  unfold a_close. destruct (a_chans A !! c) as [ch|] eqn:Hc.
  - destruct (a_closed ch) eqn:Ecl.
    + exists []. destruct (decide (c' = c)) as [->|Hne].
      * rewrite Hc. simpl. rewrite Hnil. f_equal. destruct ch. simpl in Ecl. by subst.
      * destruct (a_chans A !! c'); simpl; [|done]. by rewrite Hnil.
    + exists (a_waiting ch). rewrite a_withdraw_lookup. unfold a_alter. cbn [a_chans].
      destruct (decide (c' = c)) as [->|Hne].
      * by rewrite lookup_alter_eq, Hc.
      * rewrite lookup_alter_ne by done. by destruct (a_chans A !! c').
  - exists []. destruct (decide (c' = c)) as [->|Hne]; [by rewrite Hc|].
    destruct (a_chans A !! c'); simpl; [|done]. by rewrite Hnil.
Qed.

Lemma a_close_all_closed l A c a :
  a_chans (a_close_all l A) !! c = Some a →
  ∃ a0, a_chans A !! c = Some a0 ∧ (c ∈ l ∨ a_closed a0 = true → a_closed a = true) ∧ a_buf a = a_buf a0.
Proof.
  revert A. induction l as [|d l IH]; intros A Ha; simpl in Ha.
  { exists a. split_and!; try done. intros [?|?]; [set_solver|done]. }
  destruct (IH (a_close d A) Ha) as (a1 & Ha1 & Hcl & Hb).
  destruct (a_close_lookup d A c) as [T HT]. rewrite HT in Ha1.
  destruct (a_chans A !! c) as [a0|]; [|done]. simpl in Ha1. apply (inj Some) in Ha1.
  exists a0. split; [done|]. rewrite <-Ha1 in Hcl, Hb. split.
  - intros [[->|?]%elem_of_cons|E]; apply Hcl; auto.
    + right. by rewrite decide_True.
    + right. by case_decide.
  - rewrite Hb. simpl. by case_decide.
Qed.

Lemma shutdown_walk l2 : ∀ s A l1 fuel,
  cref s A → reg_rep (reg_view s) (l1 ++ l2) → (length l2 ≤ fuel)%nat →
  ∃ s' T, shutdown_all fuel (first l2 None) s = Ok (tt, s') ∧ cref s' (a_close_all l2 A) ∧ closes s s' T.
Proof.
  induction l2 as [|c l2 IH]; intros s A l1 fuel HR Hreg Hf; simpl in Hf.
  { exists s, []. split; [by destruct fuel|]. split; [done|]. split; try done. by apply woke_quiet. }
  destruct fuel as [|fuel]; [lia|]. simpl.
  assert (is_Some (channels s !! c)) as [ch Hc].
  { apply reg_live, (rr_dom _ _ Hreg). set_solver. }
  assert (∃ a, a_chans A !! c = Some a) as [a Ha].
  { destruct HR as (B & Q & _ & _ & <-). rewrite abs_lookup, Hc. simpl. eauto. }
  destruct (channel_close_sim s A c a HR Ha) as (s1 & T & Hrun & HR1 & Hcs & _).
  rewrite (bind_ok _ _ _ _ _ Hrun). pose proof Hreg as [_ _ Hseg _].
  rewrite <-(cs_reg _ _ _ Hcs) in Hreg, Hseg. apply rseg_app in Hseg as [_ [Hseg _]].
  unfold reg_view in Hseg. simpl in Hseg. rewrite lookup_fmap in Hseg.
  destruct (channels s1 !! c) as [ch1|] eqn:Hc1; [|done]. injection Hseg as _ Hn.
  rewrite (bind_ok _ _ _ _ _ (get_chan_run _ _ _ Hc1)), Hn.
  destruct (IH s1 (a_close c A) (l1 ++ [c]) fuel HR1) as (s2 & T2 & Hrun2 & HR2 & Hcs2).
  { by rewrite <-app_assoc. }
  { lia. }
  exists s2, (T ++ T2). split; [done|]. split; [done|]. by eapply closes_trans.
Qed.

Lemma registry_size s l : reg_rep (reg_view s) l → length l = size (channels s).
Proof.
  intros [_ Hnd _ Hdom]. rewrite <-size_dom, <-(size_list_to_set (C:=gset positive)) by done.
  f_equal. apply set_eq. intros c. rewrite elem_of_list_to_set, <-Hdom, elem_of_dom. apply reg_live.
Qed.

Lemma shutdown_all_sim s A l :
  cref s A → reg_rep (reg_view s) l →
  ∃ s' T, croutine_channel_shutdown_all_locked s = Ok (tt, s') ∧ cref s' (a_close_all l A) ∧
    closes s s' T ∧ (∀ t, ¬ sch_parked (worker s') t).
Proof.
  intros HR Hreg. destruct (shutdown_walk l s A [] (size (channels s)) HR Hreg) as (s' & T & Hrun & HR' & Hcs).
  { by rewrite (registry_size s l). }
  exists s', T. split; [|split_and!; try done].
  - unfold croutine_channel_shutdown_all_locked. rewrite (bind_ok _ _ s s s) by done.
    pose proof (rr_head _ _ Hreg) as Hh. simpl in Hh. by rewrite Hh.
  - intros t Ht. destruct HR' as (B & Q & HI & Hd & Habs).
    destruct (ci_covered _ _ _ _ HI t Ht) as [[]|(c & op & w & x & Hw & _)].
    destruct (channels s' !! c) as [ch|] eqn:Hc; [|rewrite (ci_none _ _ _ _ HI) in Hw by done; set_solver].
    assert (c ∈ l) as Hl.
    { apply (rr_dom _ _ Hreg). rewrite <-(cs_reg _ _ _ Hcs). apply reg_live. eauto. }
    assert (a_chans (a_close_all l A) !! c = Some (abs_chan s' B Q c ch)) as Ha.
    { rewrite <-Habs, abs_lookup, Hc. done. }
    destruct (a_close_all_closed l A c _ Ha) as (a0 & _ & Hcl & _). simpl in Hcl.
    rewrite (Hd c ch op Hc) in Hw by auto. set_solver.
Qed.
End registry.
