(* ===== verification/Select.v ===== *)
(** * Select (src/channel.c, lines 513-736)

    [croutine_select] tries its cases in a random order; when none can
    proceed and there is no default it registers a waiter for every case and
    parks until one of them is completed. *)

From S2P Require Import Prelude Task WaitQueue Channel.

Record croutine_select_case := mkCase {
  case_channel : option positive;
  case_op : croutine_select_op;
  case_value : option vptr;
  case_status : croutine_select_status
}.
Definition set_case_status (v : croutine_select_status) (cs : croutine_select_case)
  : croutine_select_case := mkCase (case_channel cs) (case_op cs) (case_value cs) v.

Definition CROUTINE_SELECT_DEFAULT_INDEX : Z := -1.
(** [sizeof(struct ChannelWaiter)] *)
Definition SIZEOF_WAITER : Z := 64.

(** ** The generator and the shuffle *)

Definition GOLDEN : Z := 0x9E3779B97F4A7C15.

(** [task] is the address of the current task, [now] the result of
    [time(NULL)]; they matter only for the first number a thread draws.
    The result is also the new [select_rng_state]. *)
Definition select_rng_next (task now : Z) (select_rng_state : Z) : Z :=
  let seeded :=
    if select_rng_state =? 0 then
      let seed := Z.lxor (u64 task) (u64 (u64 now * GOLDEN)) in
      if seed =? 0 then GOLDEN else seed
    else select_rng_state in
  let x := Z.lxor seeded (u64 (Z.shiftl seeded 13)) in
  let x := Z.lxor x (Z.shiftr x 7) in
  Z.lxor x (u64 (Z.shiftl x 17)).

(** The loop of [shuffle_indices]: [i] counts down from [n] to 2. *)
Fixpoint shuffle_from (task now : Z) (i : nat) (rng : Z) (idx : list Z) : outcome (Z * list Z) :=
  match i with
  | O | S O => Ok (rng, idx)
  | S i' =>
      let rng := select_rng_next task now rng in
      j ← umod rng (Z.of_nat i);
      tmp ← idx_get idx (Z.of_nat i - 1);
      v ← idx_get idx j;
      idx ← idx_set idx (Z.of_nat i - 1) v;
      idx ← idx_set idx j tmp;
      shuffle_from task now i' rng idx
  end.
Definition shuffle_indices (task now : Z) (rng : Z) (idx : list Z) (n : nat) : outcome (Z * list Z) :=
  shuffle_from task now n rng idx.

Section select.
Context `{Alloc} {W : Type} `{Scheduler W}.
Abbreviation St := (cstate W).

(** ** Phase A *)

(** Whether the case fired, and the case with its new status. *)
Definition try_select_case_locked (cs : croutine_select_case) : M St (bool * croutine_select_case) :=
  match case_channel cs with
  | None => mret (false, cs)
  | Some c =>
      match case_op cs with
      | CROUTINE_SELECT_OP_SEND =>
          r ← try_send_locked c (case_value cs);
          mret match r with
               | TRY_SEND CROUTINE_CHANNEL_SEND_OK =>
                   (true, set_case_status CROUTINE_SELECT_STATUS_SENT cs)
               | TRY_SEND CROUTINE_CHANNEL_SEND_CLOSED =>
                   (true, set_case_status CROUTINE_SELECT_STATUS_CLOSED cs)
               | TRY_SEND_WOULD_BLOCK => (false, cs)
               end
      | CROUTINE_SELECT_OP_RECV =>
          r ← try_recv_locked c (case_value cs);
          mret match r with
               | CROUTINE_CHANNEL_RECV_VALUE =>
                   (true, set_case_status CROUTINE_SELECT_STATUS_VALUE cs)
               | CROUTINE_CHANNEL_RECV_CLOSED =>
                   (true, set_case_status CROUTINE_SELECT_STATUS_CLOSED cs)
               | CROUTINE_CHANNEL_RECV_EMPTY => (false, cs)
               end
      end
  end.

(** The cases are tried in the given order until one fires. *)
Fixpoint try_cases (order : list Z) (cases : list croutine_select_case)
  : M St (option Z * list croutine_select_case) :=
  match order with
  | [] => mret (None, cases)
  | index :: order =>
      cs ← (λ s, a ← idx_get cases index; Ok (a, s));
      r ← try_select_case_locked cs;
      cases ← (λ s, a ← idx_set cases index r.2; Ok (a, s));
      if (r.1 : bool) then mret (Some (i32 index), cases) else try_cases order cases
  end.

(** ** Phase B *)

(** One iteration of the registration loop. *)
Definition register_case (task : tid) (st : positive) (i : nat) (cs : croutine_select_case)
  : M St (positive * bool) :=
  w ← new_waiter (mkWaiter CW_SELECT (case_op cs) None None None (Some task) (case_value cs)
                    (Some st) (u32 (Z.of_nat i)));
  match case_channel cs with
  | None => mret (w, false)
  | Some c => on_queue c (case_op cs) (wait_queue_push_tail w c);; mret (w, true)
  end.
(** The waiters, in order, and [registered_waiters]. *)
Fixpoint register_cases (task : tid) (st : positive) (i : nat) (cases : list croutine_select_case)
  : M St (list positive * nat) :=
  match cases with
  | [] => mret ([], O)
  | cs :: cases =>
      r ← register_case task st i cs;
      rs ← register_cases task st (S i) cases;
      mret (r.1 :: rs.1, if (r.2 : bool) then S rs.2 else rs.2)
  end.

(** The [state] object and the waiters, local to the call. *)
Definition new_select (ss : CroutineSelectState) : M St positive :=
  st ← gets (λ s, fresh (dom (selects s)));
  modify (λ s, set_selects (<[st := ss]> (selects s)) s);;
  mret st.
Definition drop_select (st : positive) : M St unit :=
  modify (λ s, set_selects (delete st (selects s)) s).
Fixpoint drop_waiters (ws : list positive) : M St unit :=
  match ws with [] => mret tt | w :: ws => drop_waiter w;; drop_waiters ws end.

Fixpoint scrub_select_waiters (ws : list positive) : M St unit :=
  match ws with
  | [] => mret tt
  | w :: ws =>
      x ← get_waiter w;
      (match w_channel x with
       | None => mret tt
       | Some c => on_queue c (w_op x) (wait_queue_unlink w)
       end);;
      scrub_select_waiters ws
  end.

(** The function, up to the context switch: either it returned (with the
    index and the cases) or it left the waiters [ws] and the state [st]. *)
Inductive select_step :=
| SelectReturn (index : Z) (cases : list croutine_select_case)
| SelectPark (parked : bool) (ws : list positive) (st : positive)
             (cases : list croutine_select_case).

(** The order in which the cases are tried. *)
Definition select_order (task now rng : Z) (n : nat) : outcome (Z * list Z) :=
  let ids := (λ i, u32 (Z.of_nat i)) <$> seq 0 n in
  if (n <=? 32)%nat then shuffle_indices task now rng ids n
  else match malloc (u64 (Z.of_nat n * 4)) with
       | Some _ => shuffle_indices task now rng ids n
       | None => Ok (rng, ids)
       end.

(** The part after the loop over the cases. *)
Definition select_wait (current : option tid) (rng : Z) (cases : list croutine_select_case)
    (has_default : bool) : M St (select_step * Z) :=
  let n := length cases in
  if has_default then mret (SelectReturn CROUTINE_SELECT_DEFAULT_INDEX cases, rng) else
  match current with
  | None => mret (SelectReturn CROUTINE_SELECT_DEFAULT_INDEX cases, rng)
  | Some task =>
      if (32 <? n)%nat && negb (calloc_ok (Z.of_nat n) SIZEOF_WAITER)
      then mret (SelectReturn CROUTINE_SELECT_DEFAULT_INDEX cases, rng) else
      st ← new_select (mkSelectState false (-1) CROUTINE_SELECT_STATUS_VALUE);
      '(ws, registered_waiters) ← register_cases task st 0 cases;
      if (registered_waiters =? 0)%nat then
        drop_waiters ws;; drop_select st;;
        mret (SelectReturn CROUTINE_SELECT_DEFAULT_INDEX cases, rng)
      else
        parked ← on_worker (sched_park current);
        mret (SelectPark parked ws st cases, rng)
  end.

(** [current_address] is the address of [current], for the generator. *)
Definition croutine_select (current : option tid) (current_address now rng : Z)
    (cases : list croutine_select_case) (has_default : bool) : M St (select_step * Z) :=
  let n := length cases in
  if (n =? 0)%nat then
    if has_default then mret (SelectReturn CROUTINE_SELECT_DEFAULT_INDEX cases, rng)
    else abort "croutine_select: no cases and no default arm"
  else
  '(rng, order) ← (λ s, a ← select_order current_address now rng n; Ok (a, s));
  '(fired, cases) ← try_cases order cases;
  match fired with
  | Some chosen => mret (SelectReturn chosen cases, rng)
  | None => select_wait current rng cases has_default
  end.

(** After the switch, or at once when parking was refused. *)
Definition croutine_select_resume (task : tid) (parked : bool) (ws : list positive) (st : positive)
    (cases : list croutine_select_case) : M St (Z * list croutine_select_case) :=
  woken ← (if parked then on_worker (sched_resume task) else mret false);
  scrub_select_waiters ws;;
  if (woken : bool) then
    ss ← deref (λ s, selects s !! st);
    let chosen := chosen_index ss in
    cases ← (λ s,
      if (0 <=? chosen) && (chosen <? Z.of_nat (length cases)) then
        cs ← idx_get cases chosen;
        l ← idx_set cases chosen (set_case_status (chosen_status ss) cs);
        Ok (l, s)
      else Ok (cases, s));
    drop_waiters ws;; drop_select st;;
    mret (chosen, cases)
  else
    drop_waiters ws;; drop_select st;;
    mret (CROUTINE_SELECT_DEFAULT_INDEX, cases).
End select.
