(* ===== verification/SelectOrder.v ===== *)
(** * The order in which a select tries its cases

    The shuffle permutes its input, so every case is tried exactly once; the
    generator behind it never falls into its fixed point zero. *)

From S2P Require Import Prelude Task WaitQueue Channel Select.

(** ** The generator *)

Lemma lxor_range a b n : 0 ≤ n → 0 ≤ a < 2 ^ n → 0 ≤ b < 2 ^ n → 0 ≤ Z.lxor a b < 2 ^ n.
Proof.
  intros Hn Ha Hb. split; [apply Z.lxor_nonneg; lia|].
  destruct (decide (Z.lxor a b = 0)) as [->|Hne]; [lia|].
  assert (0 ≤ Z.lxor a b) by (apply Z.lxor_nonneg; lia).
  apply Z.log2_lt_pow2; [lia|]. pose proof (Z.log2_lxor a b ltac:(lia) ltac:(lia)).
  assert (∀ x, 0 ≤ x < 2 ^ n → x ≠ 0 → Z.log2 x < n) as Hl by (intros; apply Z.log2_lt_pow2; lia).
  destruct (decide (a = 0)) as [->|]; [|destruct (decide (b = 0)) as [->|]].
  - rewrite Z.lxor_0_l in *. apply Hl; lia.
  - rewrite Z.lxor_0_r in *. apply Hl; lia.
  - pose proof (Hl a). pose proof (Hl b). lia.
Qed.

Lemma xorshift_left_nonzero x k :
  0 < x < 2 ^ 64 → 0 < k < 64 → Z.lxor x (u64 (Z.shiftl x k)) ≠ 0.
Proof.
  intros Hx Hk E. apply Z.lxor_eq in E. rewrite Z.shiftl_mul_pow2 in E by lia. unfold u64 in E.
  assert ((x * 2 ^ k - x) mod 2 ^ 64 = 0) as Hm.
  { rewrite Zminus_mod, <-E, (Z.mod_small x) by lia. by rewrite Z.sub_diag, Z.mod_0_l. }
  apply Z.mod_divide in Hm; [|lia]. replace (x * 2 ^ k - x) with ((2 ^ k - 1) * x) in Hm by lia.
  apply Z.gauss in Hm; [apply Z.divide_pos_le in Hm; lia|].
  apply (Z.coprime_pow_l 2); [lia|]. unfold Z.coprime. replace (2 ^ k - 1) with (-1 + 2 ^ (k - 1) * 2).
  - by rewrite Z.gcd_add_mult_diag_r.
  - replace k with (k - 1 + 1) at 2 by lia. rewrite Z.pow_add_r by lia. lia.
Qed.

Lemma xorshift_right_nonzero x k : 0 < x → 0 < k → Z.lxor x (Z.shiftr x k) ≠ 0.
Proof.
  intros Hx Hk E. apply Z.lxor_eq in E. rewrite Z.shiftr_div_pow2 in E by lia.
  assert (x / 2 ^ k < x); [|lia]. apply Z.div_lt; [lia|].
  apply Z.pow_gt_1; lia.
Qed.

Lemma rng_seeded task now st : 0 ≤ st < 2 ^ 64 →
  0 < (if st =? 0 then
         let seed := Z.lxor (u64 task) (u64 (u64 now * GOLDEN)) in
         if seed =? 0 then GOLDEN else seed
       else st) < 2 ^ 64.
Proof.
  intros Hst. case_bool; [|lia]. cbv zeta.
  pose proof (lxor_range (u64 task) (u64 (u64 now * GOLDEN)) 64 ltac:(lia) (u64_range _) (u64_range _)).
  case_bool; [unfold GOLDEN; lia|lia].
Qed.

(** The state stays in [1, 2^64): a thread seeds its generator once. *)
Lemma rng_range task now st : 0 ≤ st < 2 ^ 64 → 0 < select_rng_next task now st < 2 ^ 64.
Proof.
  intros Hst. unfold select_rng_next. pose proof (rng_seeded task now st Hst) as Hx.
  set (x := if st =? 0 then _ else _) in *. clearbody x. cbv zeta.
  pose proof (lxor_range x (u64 (Z.shiftl x 13)) 64 ltac:(lia) ltac:(lia) (u64_range _)).
  pose proof (xorshift_left_nonzero x 13 Hx ltac:(lia)).
  set (y := Z.lxor x _) in *. clearbody y.
  assert (0 ≤ Z.shiftr y 7 < 2 ^ 64) as Hs.
  { rewrite Z.shiftr_div_pow2 by lia. split; [apply Z.div_pos; lia|].
    apply Z.div_lt_upper_bound; lia. }
  pose proof (lxor_range y (Z.shiftr y 7) 64 ltac:(lia) ltac:(lia) Hs).
  pose proof (xorshift_right_nonzero y 7 ltac:(lia) ltac:(lia)).
  set (z := Z.lxor y _) in *. clearbody z.
  pose proof (lxor_range z (u64 (Z.shiftl z 17)) 64 ltac:(lia) ltac:(lia) (u64_range _)).
  pose proof (xorshift_left_nonzero z 17 ltac:(lia) ltac:(lia)). lia.
Qed.

(** ** The shuffle *)

Lemma swap_perm {A} (l : list A) i j a b :
  l !! i = Some a → l !! j = Some b → <[j := a]> (<[i := b]> l) ≡ₚ l.
Proof.
  intros Hi Hj. apply Permutation_inj. split; [by rewrite !length_insert|].
  exists (λ k, if decide (k = i) then j else if decide (k = j) then i else k). split.
  - intros k k'. repeat case_decide; naive_solver.
  - intros k. cbv beta. pose proof (lookup_lt_Some _ _ _ Hi). pose proof (lookup_lt_Some _ _ _ Hj).
    destruct (decide (k = j)) as [->|Hkj].
    + rewrite list_lookup_insert_eq by (rewrite length_insert; done).
      destruct (decide (j = i)) as [->|]; congruence.
    + rewrite list_lookup_insert_ne by done. destruct (decide (k = i)) as [->|Hki].
      * by rewrite list_lookup_insert_eq.
      * by rewrite list_lookup_insert_ne.
Qed.

Lemma shuffle_step task now n rng idx :
  shuffle_from task now (S (S n)) rng idx =
    (let i := Z.of_nat (S (S n)) in
     let rng := select_rng_next task now rng in
     j ← umod rng i;
     tmp ← idx_get idx (i - 1);
     v ← idx_get idx j;
     idx ← idx_set idx (i - 1) v;
     idx ← idx_set idx j tmp;
     shuffle_from task now (S n) rng idx).
Proof. reflexivity. Qed.

Lemma shuffle_perm task now n : ∀ rng idx,
  0 ≤ rng < 2 ^ 64 → (n ≤ length idx)%nat →
  ∃ rng' idx', shuffle_from task now n rng idx = Ok (rng', idx') ∧ idx' ≡ₚ idx ∧ 0 ≤ rng' < 2 ^ 64.
Proof.
  induction n as [|n IH]; intros rng idx Hr Hn; [by exists rng, idx|].
  destruct n as [|n]; [by exists rng, idx|]. rewrite shuffle_step. cbv zeta.
  pose proof (rng_range task now rng Hr) as Hr'. set (r := select_rng_next task now rng) in *.
  set (i := Z.of_nat (S (S n))). rewrite umod_ok by lia. cbn [mbind outcome_bind].
  pose proof (Z.mod_pos_bound r i ltac:(lia)) as Hj.
  destruct (lookup_lt_is_Some_2 idx (Z.to_nat (i - 1))) as [a Ha]; [lia|].
  destruct (lookup_lt_is_Some_2 idx (Z.to_nat (r mod i))) as [b Hb]; [lia|].
  rewrite (outcome_bind_ok _ _ _ (idx_get_ok _ _ _ Ha)).
  rewrite (outcome_bind_ok _ _ _ (idx_get_ok _ _ _ Hb)).
  erewrite outcome_bind_ok by (apply idx_set_ok; lia).
  erewrite outcome_bind_ok by (apply idx_set_ok; rewrite length_insert; lia).
  destruct (IH r (<[Z.to_nat (r mod i) := a]> (<[Z.to_nat (i - 1) := b]> idx)))
    as (rng' & idx' & Hrun & Hp & Hrr); [lia|rewrite !length_insert; lia|].
  exists rng', idx'. split; [exact Hrun|]. split; [|done]. rewrite Hp. by apply swap_perm.
Qed.

(** Every case index occurs exactly once in the order. *)
Lemma select_order_perm `{Alloc} task now rng n :
  0 ≤ rng < 2 ^ 64 → Z.of_nat n ≤ 2 ^ 31 →
  ∃ rng' order, select_order task now rng n = Ok (rng', order) ∧
    order ≡ₚ Z.of_nat <$> seq 0 n ∧ 0 ≤ rng' < 2 ^ 64.
Proof.
  intros Hr Hn. unfold select_order, shuffle_indices.
  assert ((λ i, u32 (Z.of_nat i)) <$> seq 0 n = Z.of_nat <$> seq 0 n) as ->.
  { apply list_fmap_ext. intros k i Hi. apply lookup_seq in Hi as [-> ?]. apply u32_small. lia. }
  destruct (shuffle_perm task now n rng (Z.of_nat <$> seq 0 n)) as (rng' & order & Hrun & Hp & Hr').
  { done. }
  { by rewrite length_fmap, length_seq. }
  destruct (n <=? 32)%nat; [by eauto|]. case_match; [by eauto|]. by eauto.
Qed.
