(* ===== verification/SelectSim.v ===== *)
(** * Select against the abstract machine

    Phase A is a sequence of abstract attempts of which at most the last
    changes anything; phase B makes one offer per case, all of them withdrawn
    together when one is accepted; after the wake-up the leftover waiters are
    removed without a trace in the abstract state. *)

From S2P Require Import Prelude Task WaitQueue Channel ChannelBuffer ChannelInv ChannelSpec.
From S2P Require Import ChannelRefine ChannelOps ChannelWait ChannelBlock ChannelClose Select.
From S2P Require Import SelectOrder.

(** ** The abstract select *)

(** The attempt of one case: the status it fires with, if it does. *)
Definition a_try_case (sd : bool) (cs : croutine_select_case) (A : astate)
  : option (option croutine_select_status * list wakeup * astate) :=
  match case_channel cs with
  | None => Some (None, [], A)
  | Some c =>
      match case_op cs with
      | CROUTINE_SELECT_OP_SEND =>
          '(r, T, A') ← a_try_send sd c (case_value cs) A;
          Some (match r with
                | TRY_SEND CROUTINE_CHANNEL_SEND_OK => Some CROUTINE_SELECT_STATUS_SENT
                | TRY_SEND CROUTINE_CHANNEL_SEND_CLOSED => Some CROUTINE_SELECT_STATUS_CLOSED
                | TRY_SEND_WOULD_BLOCK => None
                end, T, A')
      | CROUTINE_SELECT_OP_RECV =>
          '(r, T, A') ← a_try_recv sd c (case_value cs) A;
          Some (match r with
                | CROUTINE_CHANNEL_RECV_VALUE => Some CROUTINE_SELECT_STATUS_VALUE
                | CROUTINE_CHANNEL_RECV_CLOSED => Some CROUTINE_SELECT_STATUS_CLOSED
                | CROUTINE_CHANNEL_RECV_EMPTY => None
                end, T, A')
      end
  end.

Fixpoint a_try_cases (sd : bool) (order : list Z) (cases : list croutine_select_case) (A : astate)
  : option (option (Z * croutine_select_status) * list wakeup * astate) :=
  match order with
  | [] => Some (None, [], A)
  | i :: order =>
      cs ← cases !! Z.to_nat i;
      '(r, T, A') ← a_try_case sd cs A;
      match r with
      | Some status => Some (Some (i, status), T, A')
      | None => a_try_cases sd order cases A'
      end
  end.

(** The offer of case [i]. *)
Definition case_offer (t : tid) (st : positive) (i : nat) (cs : croutine_select_case) : offer :=
  mkOffer t (case_value cs) (Some (st, i32 (u32 (Z.of_nat i)))).
Definition a_wait_case (t : tid) (st : positive) (i : nat) (cs : croutine_select_case) (A : astate)
  : astate :=
  match case_channel cs with
  | None => A
  | Some c => a_wait c (case_op cs) (case_offer t st i cs) A
  end.
(** The offers of a waiting select, first case first. *)
Fixpoint a_wait_all (t : tid) (st : positive) (i : nat) (cases : list croutine_select_case) (A : astate)
  : astate :=
  match cases with
  | [] => A
  | cs :: cases => a_wait_all t st (S i) cases (a_wait_case t st i cs A)
  end.

(** A case can be registered: its channel is open and its value slot is an
    object of the element size. *)
Definition case_ready (A : astate) (cs : croutine_select_case) : Prop :=
  ∀ c, case_channel cs = Some c → ∃ a, a_chans A !! c = Some a ∧ a_closed a = false ∧
    is_Some (a_read A (case_value cs) (a_elem a)).

Lemma case_ready_wait t st i cs cs' A : case_ready A cs' → case_ready (a_wait_case t st i cs A) cs'.
Proof.
  intros Hr c Hc. destruct (Hr c Hc) as (a & Ha & Hcl & Hv). unfold a_wait_case.
  destruct (case_channel cs) as [c'|]; [|by eauto]. unfold a_wait, a_alter. cbn [a_chans].
  destruct (decide (c' = c)) as [->|Hne].
  - rewrite lookup_alter_eq, Ha. simpl. eexists. split; [done|]. done.
  - rewrite lookup_alter_ne by done. eauto.
Qed.

(** An attempt that does not fire changes nothing, and tells that the task
    may wait there. *)
Lemma a_try_case_blocked sd cs A T A' :
  a_try_case sd cs A = Some (None, T, A') →
  T = [] ∧ A' = A ∧
  ∀ c, case_channel cs = Some c → sd = false ∧ ∃ a, a_chans A !! c = Some a ∧ a_closed a = false ∧
    match case_op cs with
    | CROUTINE_SELECT_OP_SEND => a_receivers a = [] ∧ a_cap a ≤ Z.of_nat (length (a_buf a)) ∧
                                 is_Some (a_read A (case_value cs) (a_elem a))
    | CROUTINE_SELECT_OP_RECV => a_buf a = [] ∧ a_senders a = []
    end.
Proof.
  unfold a_try_case. destruct (case_channel cs) as [c|]; [|by intros [= <- <-]].
  destruct (case_op cs); intros Hrun; apply bind_Some in Hrun as ([[r T'] A1] & Hrun & E).
  - destruct r as [[]|]; simplify_eq.
    destruct (a_try_send_blocked _ _ _ _ _ _ Hrun) as (-> & -> & -> & a & Ha & Hcl & Hv & Hr & Hf).
    split_and!; try done. intros c' [= <-]. eauto 10.
  - destruct r; simplify_eq.
    destruct (a_try_recv_blocked _ _ _ _ _ _ Hrun) as (-> & -> & -> & a & Ha & Hcl & Hb & Hs).
    split_and!; try done. intros c' [= <-]. eauto 10.
Qed.

Lemma a_try_cases_blocked sd order cases A T A' :
  a_try_cases sd order cases A = Some (None, T, A') →
  T = [] ∧ A' = A ∧
  ∀ i, i ∈ order → ∃ cs, cases !! Z.to_nat i = Some cs ∧ a_try_case sd cs A = Some (None, [], A).
Proof.
  revert A. induction order as [|i order IH]; intros A Hrun; simpl in Hrun.
  { simplify_eq. split_and!; try done. set_solver. }
  apply bind_Some in Hrun as (cs & Hcs & Hrun). apply bind_Some in Hrun as ([[r T1] A1] & Hc & Hrun).
  destruct r; [done|]. destruct (a_try_case_blocked _ _ _ _ _ Hc) as (-> & -> & _).
  destruct (IH A Hrun) as (-> & -> & Hall). split_and!; try done.
  intros j [->|Hj]%elem_of_cons; eauto.
Qed.

Section select.
Context `{Alloc} {W : Type} `{SchedulerLaws W}.
Implicit Types (s : cstate W) (x : ChannelWaiter) (w c st : positive) (op : croutine_select_op).
Implicit Types (B : positive → list (list byte)) (Q : positive → croutine_select_op → list positive).

(** ** Phase A *)

Definition fired (r : option croutine_select_status) (cs : croutine_select_case)
  : bool * croutine_select_case :=
  match r with Some v => (true, set_case_status v cs) | None => (false, cs) end.

Lemma try_case_sim s A cs r T A' :
  cref s A → a_try_case (sched_shutdown (worker s)) cs A = Some (r, T, A') →
  ∃ s', try_select_case_locked cs s = Ok (fired r cs, s') ∧ evolves s s' T A'.
Proof.
  intros HR Hrun. unfold a_try_case in Hrun. unfold try_select_case_locked.
  destruct (case_channel cs) as [c|].
  2: { simplify_eq. exists s. split; [done|]. by apply evolves_id. }
  destruct (case_op cs); apply bind_Some in Hrun as ([[r' T'] A1] & Hrun & E).
  - destruct (try_send_sim _ _ _ _ _ _ _ HR Hrun) as (s' & Hs & Hev).
    rewrite (bind_ok _ _ _ _ _ Hs). exists s'. destruct r' as [[]|]; simplify_eq; done.
  - destruct (try_recv_sim _ _ _ _ _ _ _ HR Hrun) as (s' & Hs & Hev).
    rewrite (bind_ok _ _ _ _ _ Hs). exists s'. destruct r'; simplify_eq; done.
Qed.

Definition with_status (k : option (Z * croutine_select_status)) (cases : list croutine_select_case) :=
  match k with
  | Some (i, v) => alter (set_case_status v) (Z.to_nat i) cases
  | None => cases
  end.

Lemma alter_lookup {A} (f : A → A) (l : list A) i a : l !! i = Some a → alter f i l = <[i := f a]> l.
Proof. revert i. induction l as [|b l IH]; intros [|i] Hi; simplify_eq/=; [done|]. f_equal. by apply IH. Qed.

Lemma try_cases_sim order cases : ∀ s A k T A',
  cref s A → a_try_cases (sched_shutdown (worker s)) order cases A = Some (k, T, A') →
  ∃ s', try_cases order cases s = Ok ((λ '(i, _), i32 i) <$> k, with_status k cases, s') ∧
        evolves s s' T A'.
Proof.
  induction order as [|i order IH]; intros s A k T A' HR Hrun; simpl in Hrun.
  { simplify_eq. exists s. split; [done|]. by apply evolves_id. }
  apply bind_Some in Hrun as (cs & Hcs & Hrun). apply bind_Some in Hrun as ([[r T1] A1] & Hc & Hrun).
  destruct (try_case_sim _ _ _ _ _ _ HR Hc) as (s1 & Hs1 & Hev1). cbn [try_cases].
  erewrite bind_ok by (rewrite (idx_get_ok _ _ _ Hcs); reflexivity).
  rewrite (bind_ok _ _ _ _ _ Hs1).
  erewrite bind_ok by (rewrite idx_set_ok by (by eapply lookup_lt_Some); reflexivity).
  destruct r as [v|]; simpl.
  - simplify_eq/=. exists s1. split; [|done]. unfold mret, M_ret. do 3 f_equal.
    symmetry. by apply alter_lookup.
  - destruct (a_try_case_blocked _ _ _ _ _ Hc) as (-> & -> & _). destruct Hev1 as [HR1 F1 Hw1].
    rewrite <-(cf_shutdown _ _ F1) in Hrun.
    destruct (IH s1 A k T A' HR1 Hrun) as (s2 & Hs2 & [HR2 F2 Hw2]).
    exists s2. rewrite list_insert_id by done. split; [done|].
    split; [done|by eapply cframe_trans|]. eapply (woke_trans s s1 s2 []); [apply F1|done..].
Qed.

(** ** Phase B *)

(** The waiters [N] of task [t] for the select [st] were added. *)
Record reg_step s s' (t : tid) st (N : list (positive * ChannelWaiter)) : Prop := {
  rs_worker : worker s' = worker s;
  rs_selects : selects s' = selects s;
  rs_values : values s' = values s;
  rs_reg : reg_view s' = reg_view s;
  rs_closed : closed <$> channels s' = closed <$> channels s;
  rs_elem : elem_size <$> channels s' = elem_size <$> channels s;
  rs_waiters : payload <$> waiters s' = payload <$> (list_to_map N ∪ waiters s);
  rs_new : ∀ w x, (w, x) ∈ N → waiters s !! w = None ∧ w_task x = Some t ∧
             w_kind x = CW_SELECT ∧ w_state x = Some st
}.

(** Only this select's waiters belong to [t], and only they to the select. *)
Definition own s (t : tid) st : Prop :=
  ∀ w y, waiters s !! w = Some y →
    (w_task y = Some t → w_kind y = CW_SELECT ∧ w_state y = Some st) ∧
    (w_kind y = CW_SELECT → w_state y = Some st → w_task y = Some t).

Lemma own_fits s t st x :
  own s t st → w_task x = Some t → w_kind x = CW_SELECT → w_state x = Some st → fits (waiters s) x.
Proof.
  intros Ho Ht Hk Hs w y Hy. destruct (Ho w y Hy) as [H1' H2']. rewrite Ht, Hk, Hs. split.
  - intros E. destruct (H1' (eq_sym E)) as [-> ->]. done.
  - intros _ K E. symmetry. auto.
Qed.

Lemma own_step s s' t st N : reg_step s s' t st N → own s t st → own s' t st.
Proof.
  intros [_ _ _ _ _ _ R1 R2] Ho w y Hy.
  destruct (fmap_payload_lookup _ _ _ _ R1 Hy) as (z & Hz & Hp).
  injection Hp as E1 E2 E3 E4 E5 E6. rewrite E1, E3, E5.
  apply lookup_union_Some_raw in Hz as [Hz|[_ Hz]]; [|by apply (Ho w z)].
  apply elem_of_list_to_map_2 in Hz. destruct (R2 w z Hz) as (_ & -> & -> & ->). done.
Qed.

Lemma reg_step_refl s t st : reg_step s s t st [].
Proof. split; try done; [|set_solver]. simpl. by rewrite (left_id_L ∅ (∪)). Qed.

Lemma reg_step_trans s s1 s2 t st N1 N2 :
  reg_step s s1 t st N1 → reg_step s1 s2 t st N2 → reg_step s s2 t st (N1 ++ N2).
Proof.
  intros [A1 A2 A3 A4 A5 A6 A7 A8] [B1 B2 B3 B4 B5 B6 B7 B8].
  assert (∀ w x, (w, x) ∈ N2 → waiters s !! w = None ∧ (list_to_map N1 : gmap _ ChannelWaiter) !! w = None) as Hd.
  { intros w x Hw. destruct (B8 w x Hw) as [Hn _]. apply (f_equal (lookup w)) in A7.
    rewrite !lookup_fmap, Hn in A7. symmetry in A7. apply fmap_None, lookup_union_None in A7. tauto. }
  split; try congruence.
  - rewrite B7, map_fmap_union, A7, <-map_fmap_union. f_equal.
    rewrite list_to_map_app, (assoc_L (∪)). f_equal. apply map_union_comm.
    apply map_disjoint_spec. intros w x y Hx%elem_of_list_to_map_2 Hy. destruct (Hd w x Hx). congruence.
  - intros w x [Hw|Hw]%elem_of_app; [by apply A8|]. destruct (B8 w x Hw) as (_ & ?).
    destruct (Hd w x Hw). done.
Qed.

Lemma add_waiter_step s w x t st :
  waiters s !! w = None → w_task x = Some t → w_kind x = CW_SELECT → w_state x = Some st →
  reg_step s (add_waiter s w x) t st [(w, x)].
Proof.
  intros Hw Ht Hk Hs. split; try done.
  - simpl. by rewrite <-insert_union_l, (left_id_L ∅ (∪)).
  - intros w' x' [= -> ->]%list_elem_of_singleton. done.
Qed.

Lemma queue_step s s' c op l t st : popped s s' c op l → reg_step s s' t st [].
Proof.
  intros Hpo. pose proof (popped_frame _ _ _ _ _ Hpo) as [F1 F2 F3 F4].
  destruct (popped_quiet _ _ _ _ _ Hpo) as (E1 & E2 & E3). split; try done; [| |set_solver].
  - destruct (po_channels _ _ _ _ _ Hpo) as (ch & q & Hc & ->). rewrite fmap_insert.
    apply insert_id. rewrite lookup_fmap, Hc. by destruct op.
  - simpl. by rewrite (left_id_L ∅ (∪)).
Qed.

Definition case_waiter (t : tid) st (i : nat) (cs : croutine_select_case) : ChannelWaiter :=
  mkWaiter CW_SELECT (case_op cs) None None None (Some t) (case_value cs) (Some st) (u32 (Z.of_nat i)).

(** In the middle of phase B; [wk] is the scheduler once [t] has parked. *)
Record pending s (wk : W) B Q (t : tid) st : Prop := {
  pd_inv : cinv (set_worker wk s) B Q (λ u, u = t);
  pd_drained : drained s Q;
  pd_own : own s t st;
  pd_state : ∃ i v, selects s !! st = Some (mkSelectState false i v);
  pd_parked : sch_parked wk t
}.

Lemma drained_push s s' Q c ch op w l :
  drained s Q → channels s !! c = Some ch → closed ch = false →
  closed <$> channels s' = closed <$> channels s → l = Q c op ++ [w] → drained s' (updQ Q c op l).
Proof.
  intros Hd Hc Hcl Ec -> c' ch' op' Hc' Hcl'.
  apply (f_equal (lookup c')) in Ec. rewrite !lookup_fmap, Hc' in Ec.
  destruct (channels s !! c') as [ch0|] eqn:Hc0; simplify_eq/=.
  rewrite updQ_ne; [eapply Hd; [done|congruence]|]. intros [-> ->]. congruence.
Qed.

Lemma register_case_sim s wk B Q t st i cs :
  pending s wk B Q t st → case_ready (abs s B Q) cs →
  ∃ s' w b Q', register_case t st i cs s = Ok ((w, b), s') ∧
    pending s' wk B Q' t st ∧ reg_step s s' t st [(w, case_waiter t st i cs)] ∧
    abs s' B Q' = a_wait_case t st i cs (abs s B Q) ∧
    (b = bool_decide (is_Some (case_channel cs))) ∧
    (b = true ∨ covered (set_worker wk s) Q t → covered (set_worker wk s') Q' t).
Proof.
  intros [HI Hd Ho Hst Hpk] Hready. set (x := case_waiter t st i cs).
  destruct (new_waiter_run s x) as [Hnew Hfresh]. set (w := fresh (dom (waiters s))) in *.
  set (s1 := add_waiter s w x) in *.
  pose proof (add_waiter_step s w x t st Hfresh eq_refl eq_refl eq_refl) as Hstep1. fold s1 in Hstep1.
  assert (w_kind x = CW_SELECT → ∃ st' ss, w_state x = Some st' ∧ selects s !! st' = Some ss) as Hxs.
  { intros _. destruct Hst as (j & v & Hst). eauto. }
  assert (cinv (set_worker wk s1) B Q (λ u, u = t)) as HI1.
  { apply (cinv_add_waiter (set_worker wk s)); try done. by eapply own_fits. }
  assert (abs s1 B Q = abs s B Q) as Habs1.
  { apply (abs_add_waiter (set_worker wk s) B Q _ w x HI Hfresh). }
  unfold register_case. fold (case_waiter t st i cs). fold x. rewrite (bind_ok _ _ _ _ _ Hnew).
  unfold a_wait_case. destruct (case_channel cs) as [c|] eqn:Ecs.
  - destruct (Hready c Ecs) as (a & Ha & Hcl & Hv).
    destruct (abs_get _ _ _ _ _ Ha) as (ch & Hc & ->). simpl in Hcl, Hv. destruct Hv as [v Hv].
    assert (∀ c op, w ∉ Q c op) as Hnq by (intros; by apply (fresh_not_queued (set_worker wk s) B Q _ _ _ _ HI)).
    assert (wlive s1 x = true) as Hlive.
    { destruct Hst as (j & v' & Hst). unfold wlive. simpl. by rewrite Hst. }
    destruct (register_refines s1 wk B Q (λ u, u = t) c ch (case_op cs) w x t)
      as (s2 & Hreg & Hpo & HI2 & Hcov & Hcovs & Habs2); try done.
    { apply lookup_insert_eq. }
    { split; try done; [by exists t|]. exact (read_slot_ok s B Q ch _ v Hv). }
    rewrite (bind_ok _ _ _ _ _ Hreg).
    pose proof (queue_step _ _ _ _ _ t st Hpo) as Hstep2.
    pose proof (reg_step_trans _ _ _ _ _ _ _ Hstep1 Hstep2) as Hstep. rewrite app_nil_r in Hstep.
    eexists s2, w, true, _. split; [done|]. split_and!; try done.
    + split; try done; [|by eapply own_step|by rewrite (rs_selects _ _ _ _ _ Hstep)].
      eapply drained_push; try done. apply Hstep.
    + rewrite Habs2, Habs1. done.
  - exists s1, w, false, Q. split; [done|]. split_and!; try done.
    + split; try done. by eapply own_step.
    + intros [?|(c & op & u & y & Hu & Hy & Hr)]; [done|]. exists c, op, u, y. split; [done|].
      split; [|done]. simpl. rewrite lookup_insert_ne; [done|].
      intros <-. simpl in Hy. congruence.
Qed.

Lemma register_cases_sim cases : ∀ s wk B Q t st i,
  pending s wk B Q t st → (∀ cs, cs ∈ cases → case_ready (abs s B Q) cs) →
  ∃ s' ws n Q', register_cases t st i cases s = Ok ((ws, n), s') ∧
    pending s' wk B Q' t st ∧
    reg_step s s' t st (zip ws (imap (λ k cs, case_waiter t st (i + k) cs) cases)) ∧
    length ws = length cases ∧ abs s' B Q' = a_wait_all t st i cases (abs s B Q) ∧
    (n = O ↔ ∀ cs, cs ∈ cases → case_channel cs = None) ∧
    (n ≠ O ∨ covered (set_worker wk s) Q t → covered (set_worker wk s') Q' t).
Proof.
  induction cases as [|cs cases IH]; intros s wk B Q t st i HP Hr.
  { exists s, [], O, Q. split; [done|]. split_and!; try done.
    - apply reg_step_refl.
    - split; [set_solver|done].
    - by intros [?|?]. }
  destruct (register_case_sim s wk B Q t st i cs HP) as (s1 & w & b & Q1 & Hrun1 & HP1 & Hst1 & Habs1 & Hb & Hcov1).
  { apply Hr. left. }
  destruct (IH s1 wk B Q1 t st (S i) HP1) as (s2 & ws & n & Q2 & Hrun2 & HP2 & Hst2 & Hlen & Habs2 & Hn & Hcov2).
  { intros cs' Hcs'. rewrite Habs1. apply case_ready_wait, Hr. by right. }
  cbn [register_cases]. rewrite (bind_ok _ _ _ _ _ Hrun1), (bind_ok _ _ _ _ _ Hrun2).
  eexists s2, (w :: ws), _, Q2. split; [done|]. split_and!; try done.
  - cbn [imap zip zip_with]. rewrite Nat.add_0_r.
    pose proof (reg_step_trans _ _ _ _ _ _ _ Hst1 Hst2) as Hst. simpl in Hst.
    erewrite imap_ext; [exact Hst|]. intros k cs' _. simpl. f_equal. lia.
  - simpl. by rewrite Hlen.
  - simpl. by rewrite Habs2, Habs1.
  - simpl. destruct b; symmetry in Hb.
    + apply bool_decide_eq_true in Hb. split; [done|]. intros Hall.
      rewrite (Hall cs) in Hb by left. by destruct Hb.
    + apply bool_decide_eq_false in Hb. rewrite Hn. split.
      * intros Hall cs' [->|Hcs']%elem_of_cons; [|by apply Hall].
        destruct (case_channel cs); [destruct Hb; eauto|done].
      * intros Hall cs' Hcs'. apply Hall. by right.
  - simpl. intros Hc. apply Hcov2. destruct b; [right; auto|]. destruct Hc as [?|?]; [by left|].
    right. auto.
Qed.

(** ** The select state and the waiters come and go *)

(** Selects that no waiter refers to do not matter. *)
Lemma cinv_selects s B Q E sel :
  cinv s B Q E →
  (∀ w x st, waiters s !! w = Some x → w_kind x = CW_SELECT → w_state x = Some st →
     sel !! st = selects s !! st) →
  cinv (set_selects sel s) B Q E ∧ abs (set_selects sel s) B Q = abs s B Q.
Proof.
  intros HI Hsel.
  assert (∀ w x, waiters s !! w = Some x → wlive (set_selects sel s) x = wlive s x) as Hlv.
  { intros w x Hx. unfold wlive. simpl. destruct (w_kind x) eqn:K; [done|].
    destruct (w_state x) as [st|] eqn:Est; [|done]. by rewrite (Hsel w x st). }
  pose proof HI as [I1 I2 I3 I4 I5 I6 I7 I8 I9]. split; [split; try done; simpl|].
  - intros c ch op w Hc Hw. destruct (I5 c ch op w Hc Hw) as (x & Hx & [O1 (t & Ht & Htl) O3 O4]).
    exists x. split; [done|]. split; try done.
    + exists t. by rewrite (Hlv w x Hx).
    + intros K. destruct (O4 K) as (st & ss & E1 & E2). exists st, ss. simpl.
      by rewrite (Hsel w x st).
  - intros t Ht. destruct (I8 t Ht) as [?|(c & op & w & x & Hw & Hx & Hl & Htx)]; [by left|].
    right. exists c, op, w, x. by rewrite (Hlv w x Hx).
  - intros w x Hx K. destruct (I9 w x Hx K) as (st & ss & E1 & E2). exists st, ss.
    by rewrite (Hsel w x st).
  - apply abs_ext; try done. intros c ch op w Hc Hw. unfold offer_of. simpl.
    destruct (waiters s !! w) as [x|] eqn:Hx; [|done]. simpl. by rewrite (Hlv w x Hx).
Qed.

Definition without (ws : list positive) (h : gmap positive ChannelWaiter) :=
  filter (λ e, e.1 ∉ ws) h.

Lemma without_lookup ws h w : without ws h !! w = if decide (w ∈ ws) then None else h !! w.
Proof.
  unfold without. case_decide.
  - apply map_lookup_filter_None. right. intros x _. simpl. tauto.
  - destruct (h !! w) as [x|] eqn:Hx.
    + by apply map_lookup_filter_Some.
    + apply map_lookup_filter_None. by left.
Qed.

Lemma drop_waiters_run ws s : drop_waiters ws s = Ok (tt, set_waiters (without ws (waiters s)) s).
Proof.
  revert s. induction ws as [|w ws IH]; intros s; cbn [drop_waiters].
  - unfold mret, M_ret. do 2 f_equal. destruct s. unfold set_waiters. simpl. f_equal.
    apply map_eq. intros w. by rewrite without_lookup, decide_False by set_solver.
  - rewrite (bind_ok _ _ s tt (set_waiters (delete w (waiters s)) s)) by done.
    rewrite IH. do 2 f_equal. unfold set_waiters. simpl. f_equal. apply map_eq. intros u.
    rewrite !without_lookup. destruct (decide (u = w)) as [->|Hne].
    + rewrite lookup_delete_eq, (decide_True (P := w ∈ w :: ws)) by set_solver. by case_decide.
    + rewrite lookup_delete_ne by done. repeat case_decide; set_solver.
Qed.

(** ** After the wake-up *)

Record scrubbed s s' : Prop := {
  sc_frame : cframe s s';
  sc_worker : worker s' = worker s;
  sc_selects : selects s' = selects s;
  sc_values : values s' = values s
}.

Lemma scrubbed_trans s1 s2 s3 : scrubbed s1 s2 → scrubbed s2 s3 → scrubbed s1 s3.
Proof. intros [A1 A2 A3 A4] [B1 B2 B3 B4]. split; [by eapply cframe_trans|congruence..]. Qed.

(** Unlinking a waiter that cannot be completed any more. *)
Lemma unlink_refines s B Q w x c :
  cinv s B Q no_task → waiters s !! w = Some x → wlive s x = false → w_channel x = Some c →
  ∃ s' Q', on_queue c (w_op x) (wait_queue_unlink w) s = Ok (tt, s') ∧ cinv s' B Q' no_task ∧
    (∀ c op, Q' c op ⊆ Q c op) ∧ (∀ c op, w ∉ Q' c op) ∧ abs s' B Q' = abs s B Q ∧ scrubbed s s'.
Proof.
  intros HI Hx Hl Hxc. pose proof (ci_linked _ _ _ _ HI w x c Hx Hxc) as Hw. set (op := w_op x) in *.
  destruct (channels s !! c) as [ch|] eqn:Hc.
  2: { rewrite (ci_none _ _ _ _ HI c op Hc) in Hw. set_solver. }
  apply list_elem_of_split in Hw as (l1 & l2 & HQ).
  pose proof (ci_queue _ _ _ _ HI c ch op Hc) as Hrep. rewrite HQ in Hrep.
  pose proof (wq_nodup _ _ _ _ Hrep) as Hnd.
  destruct (unlink_spec _ _ _ _ _ _ Hrep) as (h & q & x' & Hx' & Hrun & Hrep' & F & Hxu). simplify_eq.
  rewrite <-HQ in F.
  assert (l1 ++ l2 ⊆ Q c op) as Hsub by (rewrite HQ; set_solver).
  assert (w ∉ l1 ++ l2) as Hwl by (rewrite <-Permutation_middle in Hnd; by apply NoDup_cons in Hnd as [? _]).
  pose proof (with_queue_popped s c ch op h q _ Hc F) as Hpo.
  assert (∀ u, u ∈ Q c op → u ∉ l1 ++ l2 → u = w) as Hw1 by (intros u; rewrite HQ; set_solver).
  exists (with_queue s c ch op h q), (updQ Q c op (l1 ++ l2)).
  split; [by apply on_queue_run|]. split_and!.
  - apply (cinv_shrink s B Q no_task no_task); try done.
    + intros u y Hu Hul Hy. rewrite (Hw1 u Hu Hul), Hxu in Hy. by injection Hy as <-.
    + intros u y t Hu Hul Hy Hlv. rewrite (Hw1 u Hu Hul) in Hy. congruence.
  - intros c' op'. by apply updQ_sub.
  - intros c' op' Hin. destruct (decide (c' = c ∧ op' = op)) as [[-> ->]|Hne].
    + by rewrite updQ_eq in Hin.
    + rewrite updQ_ne in Hin by done. apply Hne.
      apply (queued_unique s B Q no_task c' op' c op w); try done. rewrite HQ. set_solver.
  - rewrite (abs_popped _ _ _ _ _ _ _ Hpo). apply abs_queue_ext. intros c' op'.
    unfold offers, updQ. case_decide as Ed; [|done]. destruct Ed as [-> ->].
    rewrite HQ, !omap_app. f_equal. cbn [omap list_omap].
    assert (offer_of s w = None) as ->; [|done].
    unfold offer_of. rewrite Hx. simpl. rewrite Hl. by destruct (w_task x).
  - destruct (popped_quiet _ _ _ _ _ Hpo) as (E1 & E2 & E3). split; try done. by eapply popped_frame.
Qed.

Lemma scrub_sim ws : ∀ s B Q,
  cinv s B Q no_task → (∀ w, w ∈ ws → ∃ x, waiters s !! w = Some x ∧ wlive s x = false) →
  ∃ s' Q', scrub_select_waiters ws s = Ok (tt, s') ∧ cinv s' B Q' no_task ∧
    (∀ c op, Q' c op ⊆ Q c op) ∧ (∀ w, w ∈ ws → ∀ c op, w ∉ Q' c op) ∧
    abs s' B Q' = abs s B Q ∧ scrubbed s s'.
Proof.
  induction ws as [|w ws IH]; intros s B Q HI Hws.
  { exists s, Q. split; [done|]. split_and!; try done. set_solver. }
  destruct (Hws w) as (x & Hx & Hl); [left|]. cbn [scrub_select_waiters].
  rewrite (bind_ok _ _ _ _ _ (get_waiter_run _ _ _ Hx)).
  assert (∃ s1 Q1, (match w_channel x with
       | None => mret tt | Some c => on_queue c (w_op x) (wait_queue_unlink w) end) s = Ok (tt, s1) ∧
      cinv s1 B Q1 no_task ∧ (∀ c op, Q1 c op ⊆ Q c op) ∧ (∀ c op, w ∉ Q1 c op) ∧
      abs s1 B Q1 = abs s B Q ∧ scrubbed s s1) as (s1 & Q1 & Hrun1 & HI1 & HQ1 & Hw1 & Habs1 & Hsc1).
  { destruct (w_channel x) as [c|] eqn:Hxc; [by apply unlink_refines|].
    exists s, Q. split_and!; try done. intros c op Hin.
    destruct (channels s !! c) as [ch|] eqn:Hc.
    - destruct (dseg_live _ _ _ _ _ w (wq_seg _ _ _ _ (ci_queue _ _ _ _ HI c ch op Hc)) Hin)
        as (y & Hy & Hyc). by simplify_eq.
    - rewrite (ci_none _ _ _ _ HI c op Hc) in Hin. set_solver. }
  rewrite (bind_ok _ _ _ _ _ Hrun1).
  destruct (IH s1 B Q1 HI1) as (s2 & Q2 & Hrun2 & HI2 & HQ2 & Hw2 & Habs2 & Hsc2).
  { intros u Hu. destruct (Hws u) as (y & Hy & Hyl); [by right|].
    destruct (fmap_payload_lookup _ _ u y (eq_sym (cf_waiters _ _ (sc_frame _ _ Hsc1))) Hy) as (z & Hz & Hp).
    exists z. split; [done|]. rewrite (wlive_payload s s1 y z); [done|apply Hsc1|done]. }
  exists s2, Q2. split; [done|]. split_and!; try done.
  - intros c op. etrans; [apply HQ2|apply HQ1].
  - intros u [->|Hu]%elem_of_cons c op; [|by apply Hw2]. intros Hin. by apply (Hw1 c op), HQ2.
  - congruence.
  - by eapply scrubbed_trans.
Qed.

(** [ws] are the waiters of the select [st] of task [t]. *)
Record selecting s (t : tid) (ws : list positive) st : Prop := {
  sl_in : ∀ w, w ∈ ws → ∃ x, waiters s !! w = Some x ∧ w_kind x = CW_SELECT ∧
            w_state x = Some st ∧ w_task x = Some t;
  sl_only : ∀ w x, waiters s !! w = Some x → w_kind x = CW_SELECT → w_state x = Some st → w ∈ ws
}.

(** The call is over: its waiters and its state are gone. *)
Record leaves s s' (ws : list positive) st : Prop := {
  lv_waiters : payload <$> waiters s' = payload <$> without ws (waiters s);
  lv_selects : selects s' = delete st (selects s);
  lv_worker : worker s' = worker s;
  lv_reg : reg_view s' = reg_view s
}.

Lemma leave_sim s A t ws st :
  cref s A → selecting s t ws st → (∃ i v, selects s !! st = Some (mkSelectState true i v)) →
  ∃ s1 s', scrub_select_waiters ws s = Ok (tt, s1) ∧ selects s1 = selects s ∧
    (drop_waiters ws;; drop_select st) s1 = Ok (tt, s') ∧ cref s' A ∧ leaves s s' ws st.
Proof.
  intros (B & Q & HI & Hd & <-) [Hin Honly] (i & v & Hss).
  destruct (scrub_sim ws s B Q HI) as (s1 & Q1 & Hrun1 & HI1 & HQ1 & Hnq & Habs1 & [F1 Ew Es Ev]).
  { intros w Hw. destruct (Hin w Hw) as (x & Hx & K1 & K2 & _). exists x. split; [done|].
    unfold wlive. by rewrite K1, K2, Hss. }
  set (s2 := set_waiters (without ws (waiters s1)) s1).
  assert (∀ c op u, u ∈ Q1 c op → without ws (waiters s1) !! u = waiters s1 !! u) as Hne.
  { intros c op u Hu. rewrite without_lookup, decide_False; [done|]. intros Hu'. by apply (Hnq u Hu' c op). }
  assert (∀ u y, without ws (waiters s1) !! u = Some y → (u ∉ ws) ∧ waiters s1 !! u = Some y) as Hwo.
  { intros u y. rewrite without_lookup. by case_decide. }
  assert (cinv s2 B Q1 no_task) as HI2.
  { apply cinv_waiters; try done.
    - intros w1 w2 x1 x2 [_ Hx1]%Hwo [_ Hx2]%Hwo. by apply (ci_one _ _ _ _ HI1).
    - intros u y [_ Hy]%Hwo. by eapply (ci_state _ _ _ _ HI1).
    - intros u y c [_ Hy]%Hwo. done. }
  destruct (cinv_selects s2 B Q1 no_task (delete st (selects s2)) HI2) as [HI3 Habs3].
  { intros w x st' [Hw Hx]%Hwo K1 K2. rewrite lookup_delete_ne; [done|]. intros <-. apply Hw.
    destruct (fmap_payload_lookup _ _ w x (cf_waiters _ _ F1) Hx) as (y & Hy & Hp).
    injection Hp as P1 P2 P3 P4 P5 P6. eapply Honly; [done|congruence..]. }
  exists s1, (set_selects (delete st (selects s2)) s2). split; [done|]. split; [done|]. split_and!.
  - by rewrite (bind_ok _ _ _ _ _ (drop_waiters_run ws s1)).
  - exists B, Q1. split; [done|]. split.
    + by eapply (drained_frame s s1).
    + rewrite Habs3. unfold s2. rewrite abs_waiters by done. done.
  - split; try done; [|simpl; by rewrite Es|apply F1]. simpl. apply map_eq. intros u.
    rewrite !lookup_fmap, !without_lookup. case_decide; [done|].
    by rewrite <-!lookup_fmap, (cf_waiters _ _ F1).
Qed.

(** The rest of [croutine_select] after one of its cases was completed. *)
Lemma select_resume_sim s A t ws st cases i v :
  cref s A → selecting s t ws st → selects s !! st = Some (mkSelectState true i v) →
  sch_flag (worker s) t = Some true → 0 ≤ i < Z.of_nat (length cases) →
  ∃ s', croutine_select_resume t true ws st cases s = Ok ((i, with_status (Some (i, v)) cases), s') ∧
    cref s' A ∧ leaves s s' ws st.
Proof.
  intros HR Hsel Hss Hf Hi. destruct (leave_sim s A t ws st HR Hsel) as (s1 & s' & Hrun1 & Es & Hrun2 & HR' & Hlv).
  { eauto. }
  exists s'. split; [|done]. unfold croutine_select_resume.
  assert (on_worker (sched_resume t) s = Ok (true, s)) as Hres.
  { unfold on_worker. rewrite (sch_resume_spec _ _ _ Hf). simpl. by destruct s. }
  rewrite (bind_ok _ _ _ _ _ Hres), (bind_ok _ _ _ _ _ Hrun1).
  assert (deref (λ s, selects s !! st) s1 = Ok (mkSelectState true i v, s1)) as Hd.
  { unfold deref. by rewrite Es, Hss. }
  rewrite (bind_ok _ _ _ _ _ Hd). cbn [chosen_index chosen_status].
  destruct (lookup_lt_is_Some_2 cases (Z.to_nat i)) as [cs Hcs]; [lia|].
  destruct (Z.leb_spec 0 i); [|lia]. destruct (Z.ltb_spec i (Z.of_nat (length cases))); [|lia]. simpl.
  erewrite bind_ok.
  2: { rewrite (outcome_bind_ok _ _ _ (idx_get_ok _ _ _ Hcs)).
       erewrite outcome_bind_ok by (apply idx_set_ok; by eapply lookup_lt_Some). reflexivity. }
  rewrite (bind_ok _ _ _ _ _ (drop_waiters_run ws s1)) in Hrun2.
  rewrite (bind_ok _ _ _ _ _ (drop_waiters_run ws s1)).
  rewrite (bind_ok _ _ _ _ _ Hrun2). by rewrite (alter_lookup _ _ _ _ Hcs).
Qed.

(** ** Phase B as a whole *)

Definition unfired : CroutineSelectState := mkSelectState false (-1) CROUTINE_SELECT_STATUS_VALUE.

Lemma new_select_run s ss :
  let st := fresh (dom (selects s)) in
  new_select ss s = Ok (st, set_selects (<[st := ss]> (selects s)) s) ∧ selects s !! st = None.
Proof. split; [done|]. apply not_elem_of_dom, is_fresh. Qed.

Definition case_waiters (t : tid) st (ws : list positive) (cases : list croutine_select_case) :=
  zip ws (imap (λ k cs, case_waiter t st k cs) cases).

Lemma case_waiters_in t st ws cases w :
  length ws = length cases → w ∈ ws → ∃ x, (w, x) ∈ case_waiters t st ws cases.
Proof.
  intros Hl (i & Hi)%list_elem_of_lookup.
  destruct (lookup_lt_is_Some_2 cases i) as [cs Hcs]; [apply lookup_lt_Some in Hi; lia|].
  exists (case_waiter t st i cs). apply list_elem_of_lookup. exists i.
  apply lookup_zip_with_Some. exists w, (case_waiter t st i cs). split_and!; try done.
  rewrite list_lookup_imap, Hcs. done.
Qed.

Lemma case_waiters_fst t st ws cases w x : (w, x) ∈ case_waiters t st ws cases → w ∈ ws.
Proof. intros Hw. by apply elem_of_zip_l in Hw. Qed.

Lemma selecting_step s s' t st ws cases :
  reg_step s s' t st (case_waiters t st ws cases) → length ws = length cases →
  (∀ w x, waiters s !! w = Some x → w_kind x = CW_SELECT → w_state x ≠ Some st) →
  selecting s' t ws st.
Proof.
  intros [_ _ _ _ _ _ R1 R2] Hl Hno. split.
  - intros w Hw. destruct (case_waiters_in t st ws cases w Hl Hw) as [x Hx].
    assert (is_Some ((list_to_map (case_waiters t st ws cases) ∪ waiters s) !! w)) as [y Hy].
    { apply lookup_union_is_Some. left. apply elem_of_dom. rewrite dom_list_to_map_L.
      apply elem_of_list_to_set, list_elem_of_fmap. by exists (w, x). }
    destruct (fmap_payload_lookup _ _ _ _ (eq_sym R1) Hy) as (z & Hz & Hp).
    injection Hp as P1 P2 P3 P4 P5 P6. exists z. rewrite <-P1, <-P3, <-P5.
    apply lookup_union_Some_raw in Hy as [Hy%elem_of_list_to_map_2|[_ Hy]].
    + destruct (R2 w y Hy) as (_ & -> & -> & ->). done.
    + destruct (R2 w x Hx) as (? & _). congruence.
  - intros w y Hy K1 K2. destruct (fmap_payload_lookup _ _ _ _ R1 Hy) as (z & Hz & Hp).
    injection Hp as P1 P2 P3 P4 P5 P6. apply lookup_union_Some_raw in Hz as [Hz|[_ Hz]].
    + apply elem_of_list_to_map_2 in Hz. by eapply case_waiters_fst.
    + destruct (Hno w z Hz); congruence.
Qed.

Lemma select_block_sim {R} s A t cases (K : bool → list positive → positive → R) (d : M (cstate W) R) :
  cref s A → idle s t → sched_shutdown (worker s) = false →
  (∀ cs, cs ∈ cases → case_ready A cs) → (∃ cs, cs ∈ cases ∧ case_channel cs ≠ None) →
  ∃ s' ws st,
    (st ← new_select unfired;
     '(ws, n) ← register_cases t st 0 cases;
     if (n =? 0)%nat then drop_waiters ws;; drop_select st;; d
     else parked ← on_worker (sched_park (Some t)); mret (K parked ws st)) s = Ok (K true ws st, s') ∧
    parks s s' t (case_waiters t st ws cases) (a_wait_all t st 0 cases A) ∧
    selecting s' t ws st ∧ length ws = length cases ∧
    selects s !! st = None ∧ selects s' !! st = Some unfired.
Proof.
  intros (B & Q & HI & Hd & <-) Hidle Hsd Hready (cs0 & Hcs0 & Hch0).
  destruct (new_select_run s unfired) as [Hnew Hfresh]. set (st := fresh (dom (selects s))) in *.
  set (s1 := set_selects (<[st := unfired]> (selects s)) s) in *.
  assert (∀ w x, waiters s !! w = Some x → w_kind x = CW_SELECT → w_state x ≠ Some st) as Hno.
  { intros w x Hx K1 E. destruct (ci_state _ _ _ _ HI w x Hx K1) as (st' & ss & E1 & E2). congruence. }
  destruct (cinv_selects s B Q no_task (<[st := unfired]> (selects s)) HI) as [HI1 Habs1].
  { intros w x st' Hx K1 E. rewrite lookup_insert_ne; [done|]. intros <-. by apply (Hno w x). }
  destruct (sch_park_spec (worker s) t (ci_sched _ _ _ _ HI) (proj1 Hidle) Hsd)
    as (wk & Hpark & Hok & Hpk & Hf & Hfs & Hrn & Hsd').
  assert (pending s1 wk B Q t st) as HP.
  { split; try done.
    - eapply cinv_weaken; [|by apply (cinv_park s1 B Q no_task t wk)]. intros u [[]| ->]. done.
    - intros w y Hy. split; [intros E; by destruct (proj2 Hidle w y)|].
      intros K1 E. by destruct (Hno w y).
    - exists (-1), CROUTINE_SELECT_STATUS_VALUE. apply lookup_insert_eq.
    - apply Hpk. by right. }
  destruct (register_cases_sim cases s1 wk B Q t st 0 HP) as (s2 & ws & n & Q2 & Hreg & HP2 & Hst & Hl & Habs & Hn & Hcov).
  { intros cs Hcs. fold s1 in Habs1. rewrite Habs1. by apply Hready. }
  assert (n ≠ O) as Hn0 by (intros ->; by apply Hch0, Hn).
  specialize (Hcov (or_introl Hn0)). destruct HP2 as [HI2 Hd2 _ _ _].
  change (imap _ cases) with (imap (λ k cs, case_waiter t st k cs) cases) in Hst.
  fold (case_waiters t st ws cases) in Hst.
  exists (set_worker wk s2), ws, st. split.
  { rewrite (bind_ok _ _ _ _ _ Hnew), (bind_ok _ _ _ _ _ Hreg).
    destruct (Nat.eqb_spec n 0); [done|]. unfold on_worker, mbind, M_bind.
    rewrite (rs_worker _ _ _ _ _ Hst). simpl. by rewrite Hpark. }
  split; [split; simpl|split_and!]; try done.
  - exists B, Q2. split; [|split; [done|]].
    + eapply (cinv_settle _ _ _ _ t); [|exact Hcov]. eapply cinv_weaken; [|done]. intros u ->. by right.
    + by rewrite abs_worker, Habs, <-Habs1.
  - apply Hst.
  - apply Hst.
  - intros w x Hw. by destruct (rs_new _ _ _ _ _ Hst w x Hw).
  - intros st' ss' Hs. rewrite (rs_selects _ _ _ _ _ Hst). simpl. rewrite lookup_insert_ne; [done|].
    intros <-. congruence.
  - congruence.
  - assert (selecting s2 t ws st) as [S1 S2] by (by eapply selecting_step). by split.
  - simpl. rewrite (rs_selects _ _ _ _ _ Hst). apply lookup_insert_eq.
Qed.

(** No case names a channel: the call leaves no trace. *)
Lemma register_none cases : ∀ s t st i,
  (∀ cs, cs ∈ cases → case_channel cs = None) →
  ∃ ws h, register_cases t st i cases s = Ok ((ws, O), set_waiters h s) ∧ without ws h = waiters s ∧
    (∀ w, w ∈ ws → waiters s !! w = None).
Proof.
  induction cases as [|cs cases IH]; intros s t st i Hno.
  { exists [], (waiters s). split; [by destruct s|]. split; [|set_solver].
    apply map_eq. intros w. by rewrite without_lookup, decide_False by set_solver. }
  set (x := case_waiter t st i cs). destruct (new_waiter_run s x) as [Hnew Hfresh].
  set (w := fresh (dom (waiters s))) in *.
  destruct (IH (add_waiter s w x) t st (S i)) as (ws & h & Hrun & Hh & Hws).
  { intros cs' Hcs'. apply Hno. by right. }
  exists (w :: ws), h. split.
  { cbn [register_cases]. unfold register_case. fold (case_waiter t st i cs). fold x.
    rewrite (Hno cs) by left.
    assert ((w ← new_waiter x; mret (w, false)) s = Ok ((w, false), add_waiter s w x)) as Hr by done.
    rewrite (bind_ok _ _ _ _ _ Hr), (bind_ok _ _ _ _ _ Hrun). done. }
  simpl in Hws. split.
  - apply map_eq. intros u. apply (f_equal (lookup u)) in Hh. simpl in Hh.
    rewrite without_lookup in Hh |- *. destruct (decide (u = w)) as [->|Hne].
    + rewrite decide_True by left. done.
    + rewrite lookup_insert_ne in Hh by done. rewrite <-Hh. repeat case_decide; set_solver.
  - intros u [->|Hu]%elem_of_cons; [done|]. specialize (Hws u Hu). rewrite lookup_insert_None in Hws. tauto.
Qed.

Lemma select_none_sim {R} s t cases (K : bool → list positive → positive → R) (d : M (cstate W) R) :
  (∀ cs, cs ∈ cases → case_channel cs = None) →
  (st ← new_select unfired;
   '(ws, n) ← register_cases t st 0 cases;
   if (n =? 0)%nat then drop_waiters ws;; drop_select st;; d
   else parked ← on_worker (sched_park (Some t)); mret (K parked ws st)) s = d s.
Proof.
  intros Hno. destruct (new_select_run s unfired) as [Hnew Hfresh]. set (st := fresh (dom (selects s))) in *.
  rewrite (bind_ok _ _ _ _ _ Hnew).
  destruct (register_none cases (set_selects (<[st := unfired]> (selects s)) s) t st 0 Hno)
    as (ws & h & Hrun & Hh & _).
  rewrite (bind_ok _ _ _ _ _ Hrun). cbn [Nat.eqb].
  rewrite (bind_ok _ _ _ _ _ (drop_waiters_run ws _)). cbn [waiters set_waiters].
  rewrite Hh. unfold drop_select.
  rewrite (bind_ok _ _ _ tt s); [done|]. unfold modify, set_selects, set_waiters. simpl.
  rewrite delete_insert_id by done. by destruct s.
Qed.
(** ** The whole call *)

Implicit Types (cases : list croutine_select_case).

(** Every value pointer is an object of its channel's element size. *)
Definition slots_ok (A : astate) cases : Prop :=
  ∀ cs c a, cs ∈ cases → case_channel cs = Some c → a_chans A !! c = Some a →
    is_Some (a_read A (case_value cs) (a_elem a)).

Lemma blocked_ready sd order cases A :
  order ≡ₚ Z.of_nat <$> seq 0 (length cases) →
  (∀ i, i ∈ order → ∃ cs, cases !! Z.to_nat i = Some cs ∧ a_try_case sd cs A = Some (None, [], A)) →
  slots_ok A cases →
  (∀ cs, cs ∈ cases → case_ready A cs) ∧
  ((∃ cs, cs ∈ cases ∧ case_channel cs ≠ None) → sd = false).
Proof.
  intros Hp Hall Hslots.
  assert (∀ cs, cs ∈ cases → a_try_case sd cs A = Some (None, [], A)) as Hbl.
  { intros cs (i & Hi)%list_elem_of_lookup. destruct (Hall (Z.of_nat i)) as (cs' & Hcs' & Hb).
    - rewrite Hp. apply list_elem_of_fmap_2, elem_of_seq. apply lookup_lt_Some in Hi. lia.
    - rewrite Nat2Z.id in Hcs'. by simplify_eq. }
  split.
  - intros cs Hcs c Hc. destruct (a_try_case_blocked _ _ _ _ _ (Hbl cs Hcs)) as (_ & _ & Hb).
    destruct (Hb c Hc) as (_ & a & Ha & Hcl & _). exists a. split_and!; try done. by eapply Hslots.
  - intros (cs & Hcs & Hne). destruct (a_try_case_blocked _ _ _ _ _ (Hbl cs Hcs)) as (_ & _ & Hb).
    destruct (case_channel cs) as [c|]; [|done]. by destruct (Hb c eq_refl).
Qed.

Lemma a_try_cases_elem sd order cases A i v T A' :
  a_try_cases sd order cases A = Some (Some (i, v), T, A') → i ∈ order.
Proof.
  revert A. induction order as [|j order IH]; intros A Hrun; [done|]. simpl in Hrun.
  apply bind_Some in Hrun as (cs & _ & Hrun). apply bind_Some in Hrun as ([[r T1] A1] & _ & Hrun).
  destruct r; [simplify_eq; left|]. right. by eapply IH.
Qed.

Lemma some_channel cases :
  ¬ Forall (λ cs, case_channel cs = None) cases → ∃ cs, cs ∈ cases ∧ case_channel cs ≠ None.
Proof. intros Hn%not_Forall_Exists; [|apply _]. apply Exists_exists in Hn as (cs & ? & ?). eauto. Qed.

(** [croutine_select] up to the switch. *)
Lemma select_call_sim s A addr now rng cases has_default :
  cref s A → slots_ok A cases → 0 ≤ rng < 2 ^ 64 →
  0 < Z.of_nat (length cases) ≤ 2 ^ 31 →
  ((32 < length cases)%nat → calloc_ok (Z.of_nat (length cases)) SIZEOF_WAITER = true) →
  ∃ rng' order, order ≡ₚ Z.of_nat <$> seq 0 (length cases) ∧ ∀ k T A',
  a_try_cases (sched_shutdown (worker s)) order cases A = Some (k, T, A') →
  match k with
  | Some (i, v) => ∀ cur, ∃ s',
      croutine_select cur addr now rng cases has_default s =
        Ok ((SelectReturn i (with_status k cases), rng'), s') ∧
      0 ≤ i < Z.of_nat (length cases) ∧ evolves s s' T A'
  | None => A' = A ∧
      (∃ s', croutine_select None addr now rng cases has_default s =
               Ok ((SelectReturn CROUTINE_SELECT_DEFAULT_INDEX cases, rng'), s') ∧ evolves s s' [] A) ∧
      ∀ t, idle s t →
      if has_default || bool_decide (Forall (λ cs, case_channel cs = None) cases) then
        ∃ s', croutine_select (Some t) addr now rng cases has_default s =
                Ok ((SelectReturn CROUTINE_SELECT_DEFAULT_INDEX cases, rng'), s') ∧ evolves s s' [] A
      else
        ∃ s' ws st, croutine_select (Some t) addr now rng cases has_default s =
                      Ok ((SelectPark true ws st cases, rng'), s') ∧
          parks s s' t (case_waiters t st ws cases) (a_wait_all t st 0 cases A) ∧
          selecting s' t ws st ∧ selects s' !! st = Some unfired ∧
          length ws = length cases ∧ selects s !! st = None
  end.
Proof.
  intros HR Hslots Hrng Hlen Hmem.
  destruct (select_order_perm addr now rng (length cases) Hrng) as (rng' & order & Hord & Hp & _); [lia|].
  exists rng', order. split; [done|]. intros k T A' Hrun.
  destruct (try_cases_sim order cases s A k T A' HR Hrun) as (s1 & Hs1 & Hev).
  assert (∀ cur, croutine_select cur addr now rng cases has_default s =
    match k with
    | Some (i, _) => Ok ((SelectReturn (i32 i) (with_status k cases), rng'), s1)
    | None => select_wait cur rng' cases has_default s1
    end) as Hsel.
  { intros cur. unfold croutine_select. destruct (Nat.eqb_spec (length cases) 0); [lia|].
    erewrite bind_ok by (rewrite Hord; reflexivity). cbn match.
    rewrite (bind_ok _ _ _ _ _ Hs1).
    by destruct k as [[i v]|]. }
  destruct k as [[i v]|].
  - intros cur. rewrite Hsel. exists s1. simpl.
    assert (i ∈ order) as Hi by (by eapply a_try_cases_elem).
    rewrite Hp in Hi. apply list_elem_of_fmap in Hi as (j & -> & Hj%elem_of_seq).
    rewrite i32_small by lia. split; [done|]. split; [lia|done].
  - destruct (a_try_cases_blocked _ _ _ _ _ _ Hrun) as (-> & -> & Hall). split; [done|].
    split; [rewrite Hsel; exists s1; split; [unfold select_wait; by destruct has_default|done]|].
    intros t Hidle. rewrite Hsel. unfold select_wait. destruct has_default; cbn [orb]; [by eauto|].
    replace ((32 <? length cases)%nat && negb (calloc_ok (Z.of_nat (length cases)) SIZEOF_WAITER)) with false
      by (destruct (Nat.ltb_spec 32 (length cases)); [by rewrite Hmem|done]).
    destruct (blocked_ready _ _ _ _ Hp Hall Hslots) as [Hready Hsd]. destruct Hev as [HR1 F1 Hw1].
    case_bool_decide as Hnone.
    + exists s1. split; [|done].
      exact (select_none_sim s1 t cases (λ b ws st, (SelectPark b ws st cases, rng'))
        (mret (SelectReturn CROUTINE_SELECT_DEFAULT_INDEX cases, rng')) (proj1 (Forall_forall _ _) Hnone)).
    + assert (∃ cs, cs ∈ cases ∧ case_channel cs ≠ None) as Hsome by (by apply some_channel).
      destruct (select_block_sim s1 A t cases (λ b ws st, (SelectPark b ws st cases, rng'))
        (mret (SelectReturn CROUTINE_SELECT_DEFAULT_INDEX cases, rng')) HR1)
        as (s2 & ws & st & Hrun2 & Hpk & Hsl & Hl & Hst & Hss); try done.
      { by eapply idle_frame. }
      { rewrite (cf_shutdown _ _ F1). auto. }
      exists s2, ws, st. split; [exact Hrun2|]. split_and!; try done; [by eapply parks_after|].
      rewrite <-(wk_selects _ _ _ Hw1); [done|]. set_solver.
Qed.
End select.
