(* ===== verification/ChannelClients.v ===== *)
(** * The tasks inside channel operations (src/channel.c)

    A task that was parked in a send, a receive or a select continues that
    call when it runs again.  [clients] relates the calls that are under way
    to the waiters and select states they left behind: every waiter belongs
    to such a call, and when the task runs again the call can be completed.
    Every operation keeps this. *)

From S2P Require Import Prelude Task WaitQueue Channel ChannelBuffer ChannelInv ChannelSpec.
From S2P Require Import ChannelRefine ChannelOps ChannelWait ChannelBlock ChannelClose.
From S2P Require Import ChannelRegistry Select SelectOrder SelectSim.

(** The call a task is blocked in: what its stack frame refers to. *)
Inductive blocked :=
| BSend (c w : positive)
| BRecv (c w : positive)
| BSelect (ws : list positive) (st : positive) (cases : list croutine_select_case).

Section clients.
Context `{Alloc} {W : Type} `{SchedulerLaws W}.
Implicit Types (s : cstate W) (x : ChannelWaiter) (w c st : positive) (t u : tid) (pd : gmap tid blocked).

Definition in_cases (i : Z) (cases : list croutine_select_case) : Prop := 0 ≤ i < Z.of_nat (length cases).

Definition regular_ok s t w : Prop :=
  (∃ x, waiters s !! w = Some x ∧ w_kind x = CW_REGULAR ∧ w_task x = Some t) ∧
  is_Some (sch_flag (worker s) t).
Record select_ok s t (ws : list positive) st (cases : list croutine_select_case) : Prop := {
  so_some : ws ≠ [];
  so_waiters : selecting s t ws st;
  so_index : ∀ w x, w ∈ ws → waiters s !! w = Some x → in_cases (i32 (w_case_index x)) cases;
  so_state : ∃ ss, selects s !! st = Some ss ∧
    if done ss then ¬ sch_parked (worker s) t ∧ sch_flag (worker s) t = Some true ∧ in_cases (chosen_index ss) cases
    else sch_parked (worker s) t
}.
Definition wait_ok s t (b : blocked) : Prop :=
  match b with
  | BSend _ w | BRecv _ w => regular_ok s t w
  | BSelect ws st cases => select_ok s t ws st cases
  end.

Record clients s pd : Prop := {
  cn_wait : ∀ t b, pd !! t = Some b → wait_ok s t b;
  cn_task : ∀ w x t, waiters s !! w = Some x → w_task x = Some t → is_Some (pd !! t)
}.

Lemma payload_fields x y : payload x = payload y →
  w_kind x = w_kind y ∧ w_task x = w_task y ∧ w_state x = w_state y ∧ w_case_index x = w_case_index y.
Proof. by intros [=]. Qed.

(** A task is parked on a channel only inside a call. *)
Lemma parked_client s A pd t : cref s A → clients s pd → sch_parked (worker s) t → is_Some (pd !! t).
Proof.
  intros (B & Q & HI & _) [_ Hc] Hp. destruct (ci_covered _ _ _ _ HI t Hp) as [[]|(c & op & w & x & _ & Hx & _ & Ht)].
  by eapply Hc.
Qed.

Lemma select_waiter s t ws st cases : select_ok s t ws st cases →
  ∃ w x, w ∈ ws ∧ waiters s !! w = Some x ∧ w_kind x = CW_SELECT ∧ w_state x = Some st ∧ w_task x = Some t.
Proof.
  intros [Hne [Hin _] _ _]. destruct ws as [|w ws]; [done|]. destruct (Hin w) as (x & ?); [left|].
  exists w, x. split; [left|done].
Qed.

(** ** Waking *)

Lemma selecting_payload s s' t ws st :
  payload <$> waiters s' = payload <$> waiters s → selecting s t ws st → selecting s' t ws st.
Proof.
  intros E [Hin Ho]. split.
  - intros w Hw. destruct (Hin w Hw) as (x & Hx & K1 & K2 & K3).
    destruct (fmap_payload_lookup _ _ w x (eq_sym E) Hx) as (y & Hy & (P1 & P2 & P3 & _)%payload_fields).
    exists y. split_and!; congruence.
  - intros w x Hx K1 K2. destruct (fmap_payload_lookup _ _ w x E Hx) as (y & Hy & (P1 & P2 & P3 & _)%payload_fields).
    eapply Ho; [done|congruence..].
Qed.

Lemma select_ok_woke s s' A t ws st cases T :
  cref s A → select_ok s t ws st cases → payload <$> waiters s' = payload <$> waiters s → woke s s' T →
  select_ok s' t ws st cases.
Proof.
  intros (B & Q & HI & _) Hok Hp [K1 K2 K3 K4 K5 K6 K7 _ K9]. pose proof (select_waiter _ _ _ _ _ Hok) as (w0 & x0 & Hw0 & Hx0 & Hk0 & Hs0 & Ht0).
  destruct Hok as [O1 O2 O3 (ss & Hss & O4)].
  assert (∀ k, k ∈ T → o_task k.1 = t ↔ ∃ i, o_case k.1 = Some (st, i)) as Hiff.
  { intros k Hk. destruct (K9 k Hk) as (w & x & Hx & Ht & Hc).
    destruct (ci_one _ _ _ _ HI w w0 x x0 Hx Hx0) as [One1 One2]. split.
    - intros E. assert (w_kind x = CW_SELECT ∧ w_state x = Some st) as [E1 E2].
      { destruct One1 as [->|(E1 & _ & E2)]; [congruence|by simplify_eq|]. split; congruence. }
      unfold case_of in Hc. rewrite E1, E2 in Hc. eauto.
    - intros [i E]. rewrite E in Hc. unfold case_of in Hc. destruct (w_kind x) eqn:E1, (w_state x) eqn:E2; try done.
      injection Hc as -> _. specialize (One2 ltac:(done) ltac:(done) ltac:(congruence)). congruence. }
  split; [done|by eapply selecting_payload| |].
  { intros w x Hw Hx. destruct (fmap_payload_lookup _ _ w x Hp Hx) as (y & Hy & (_ & _ & _ & ->)%payload_fields). by eapply O3. }
  destruct (decide (t ∈ tasks T)) as [Hin|Hin].
  - apply list_elem_of_fmap in Hin as (k & Et & Hk). destruct (proj1 (Hiff k Hk) (eq_sym Et)) as [i Hi].
    eexists. split; [by eapply K5|]. cbn. split_and!.
    + rewrite K1. intros [_ Hn]. apply Hn, list_elem_of_fmap. eauto.
    + rewrite Et, (K3 k Hk). unfold success. by rewrite Hi.
    + destruct (K9 k Hk) as (w & x & Hx & Ht & Hc). rewrite Hi in Hc. unfold case_of in Hc.
      destruct (w_kind x) eqn:E1, (w_state x) eqn:E2; try done. injection Hc as -> <-.
      eapply O3; [|done]. by eapply (sl_only _ _ _ _ O2).
  - exists ss. rewrite K6; [|intros k i Hk Hi; apply Hin, list_elem_of_fmap; exists k; split; [symmetry; apply Hiff; eauto|done]].
    split; [done|]. destruct (done ss); rewrite K1, ?K4 by done; tauto.
Qed.

Lemma clients_woke s s' A pd T :
  cref s A → clients s pd → payload <$> waiters s' = payload <$> waiters s → woke s s' T → clients s' pd.
Proof.
  intros HR [Hw Ht] Hp HT. split.
  - assert (∀ t w, regular_ok s t w → regular_ok s' t w) as Hreg.
    { intros t w [(x & Hx & K1 & K2) [b Hf]]. split.
      - destruct (fmap_payload_lookup _ _ w x (eq_sym Hp) Hx) as (y & Hy & (P1 & P2 & _)%payload_fields).
        exists y. split_and!; congruence.
      - destruct (decide (t ∈ tasks T)) as [Hin|Hin]; [|rewrite (wk_flags _ _ _ HT) by done; eauto].
        apply list_elem_of_fmap in Hin as (k & -> & Hk). rewrite (wk_flag _ _ _ HT k Hk). eauto. }
    intros t b Hb. specialize (Hw t b Hb). destruct b as [c w|c w|ws st cases]; [by apply Hreg..|].
    by eapply select_ok_woke.
  - intros w x t Hx. destruct (fmap_payload_lookup _ _ w x Hp Hx) as (y & Hy & (_ & -> & _)%payload_fields). by eapply Ht.
Qed.

(** ** Parking *)

(** The waiters [N] of a call are new. *)
Lemma parks_lookup s s' t N A' w x' :
  parks s s' t N A' → waiters s' !! w = Some x' →
  (∃ x, (w, x) ∈ N ∧ payload x' = payload x) ∨ ∃ x, waiters s !! w = Some x ∧ payload x' = payload x.
Proof.
  intros Hp Hx. destruct (fmap_payload_lookup _ _ w x' (pk_waiters _ _ _ _ _ Hp) Hx) as (x & Hl & E).
  apply lookup_union_Some_raw in Hl as [Hl|[_ Hl]]; [left|right; eauto].
  apply elem_of_list_to_map_2 in Hl. eauto.
Qed.
Lemma parks_kept s s' t N A' w x :
  parks s s' t N A' → waiters s !! w = Some x → ∃ x', waiters s' !! w = Some x' ∧ payload x = payload x'.
Proof.
  intros Hp Hx. apply (fmap_payload_lookup _ _ w x (eq_sym (pk_waiters _ _ _ _ _ Hp))).
  apply lookup_union_Some_raw. right. split; [|done]. apply not_elem_of_list_to_map_1.
  intros ([w' y] & -> & Hy)%list_elem_of_fmap. pose proof (pk_new _ _ _ _ _ Hp _ _ Hy). cbn in Hx. congruence.
Qed.

Lemma idle_none s pd t : clients s pd → idle s t → pd !! t = None.
Proof.
  intros [Hw _] [_ Hn]. destruct (pd !! t) as [b|] eqn:E; [|done]. specialize (Hw t b E).
  destruct b as [c w|c w|ws st cases].
  - destruct Hw as [(x & Hx & _ & Ht) _]. by destruct (Hn w x).
  - destruct Hw as [(x & Hx & _ & Ht) _]. by destruct (Hn w x).
  - destruct (select_waiter _ _ _ _ _ Hw) as (w & x & _ & Hx & _ & _ & Ht). by destruct (Hn w x).
Qed.

Lemma wait_ok_park s s' t N A' u b :
  parks s s' t N A' → u ≠ t →
  (∀ w x st, (w, x) ∈ N → w_kind x = CW_SELECT → w_state x = Some st → selects s !! st = None) →
  wait_ok s u b → wait_ok s' u b.
Proof.
  intros Hp Hne Hst.
  assert (∀ w, regular_ok s u w → regular_ok s' u w) as Hreg.
  { intros w [(x & Hx & K1 & K2) Hf]. split.
    - destruct (parks_kept _ _ _ _ _ _ _ Hp Hx) as (y & Hy & (P1 & P2 & _)%payload_fields). exists y. split_and!; congruence.
    - by rewrite (pk_flags _ _ _ _ _ Hp). }
  destruct b as [c w|c w|ws st cases]; [by apply Hreg..|]. intros [O1 [Hin Ho] O3 (ss & Hss & O4)].
  split; [done| | |].
  - split.
    + intros w Hw. destruct (Hin w Hw) as (x & Hx & K1 & K2 & K3).
      destruct (parks_kept _ _ _ _ _ _ _ Hp Hx) as (y & Hy & (P1 & P2 & P3 & _)%payload_fields). exists y. split_and!; congruence.
    + intros w x' Hx K1 K2. destruct (parks_lookup _ _ _ _ _ _ _ Hp Hx) as [(x & HN & E)|(x & Hx' & E)];
        apply payload_fields in E as (P1 & P2 & P3 & _).
      * rewrite (Hst w x st HN) in Hss; congruence.
      * eapply Ho; [done|congruence..].
  - intros w x' Hw Hx. destruct (Hin w Hw) as (x & Hx' & _).
    destruct (parks_kept _ _ _ _ _ _ _ Hp Hx') as (y & Hy & (_ & _ & _ & P4)%payload_fields).
    replace (w_case_index x') with (w_case_index x) by congruence. by eapply O3.
  - exists ss. split; [by apply (pk_selects _ _ _ _ _ Hp)|]. rewrite (pk_flags _ _ _ _ _ Hp) by done.
    destruct (done ss); rewrite (pk_parked _ _ _ _ _ Hp); tauto.
Qed.

Lemma clients_park s s' A' pd t N b :
  clients s pd → idle s t → parks s s' t N A' → (∀ w x, (w, x) ∈ N → w_task x = Some t) →
  (∀ w x st, (w, x) ∈ N → w_kind x = CW_SELECT → w_state x = Some st → selects s !! st = None) →
  wait_ok s' t b → clients s' (<[t := b]> pd).
Proof.
  intros Hc Hidle Hp HN Hst Hb. pose proof (idle_none _ _ _ Hc Hidle) as Hnone. destruct Hc as [Hw Ht]. split.
  - intros u b' [[<- <-]|[Hne Hu]]%lookup_insert_Some; [done|]. eapply wait_ok_park; [done..|]. by apply Hw.
  - intros w x' u Hx Hu. apply lookup_insert_is_Some'.
    destruct (parks_lookup _ _ _ _ _ _ _ Hp Hx) as [(x & Hin & E)|(x & Hx' & E)];
      apply payload_fields in E as (_ & P2 & _).
    + left. specialize (HN w x Hin). congruence.
    + right. eapply Ht; [done|congruence].
Qed.

Lemma clients_park_regular s s' A' pd t w op p b :
  clients s pd → idle s t →
  parks s s' t [(w, mkWaiter CW_REGULAR op None None None (Some t) p None 0)] A' →
  (∃ c, b = BSend c w ∨ b = BRecv c w) → clients s' (<[t := b]> pd).
Proof.
  intros Hc Hidle Hp [c Hb]. assert (regular_ok s' t w) as Hok.
  { split; [|rewrite (pk_flag _ _ _ _ _ Hp); eauto].
    destruct (fmap_payload_lookup _ _ w (mkWaiter CW_REGULAR op None None None (Some t) p None 0)
      (eq_sym (pk_waiters _ _ _ _ _ Hp))) as (y & Hy & (P1 & P2 & _)%payload_fields).
    { apply lookup_union_Some_raw. left. cbn. by rewrite lookup_insert_eq. }
    exists y. by rewrite <-P1, <-P2. }
  eapply clients_park; try done.
  - by intros w' x [= -> ->]%list_elem_of_singleton.
  - by intros w' x st [= -> ->]%list_elem_of_singleton.
  - by destruct Hb as [-> | ->].
Qed.

Lemma clients_park_select s s' A' pd t ws st cases :
  clients s pd → idle s t → parks s s' t (case_waiters t st ws cases) A' → selecting s' t ws st →
  length ws = length cases → cases ≠ [] → Z.of_nat (length cases) ≤ 2 ^ 31 → selects s !! st = None →
  selects s' !! st = Some unfired → clients s' (<[t := BSelect ws st cases]> pd).
Proof.
  intros Hc Hidle Hp Hsel Hl Hne Hlen Hst Hss.
  assert (∀ w x, (w, x) ∈ case_waiters t st ws cases → ∃ k cs, x = case_waiter t st k cs ∧ (k < length cases)%nat) as HN.
  { intros w x (k & Hk)%list_elem_of_lookup. apply lookup_zip_with_Some in Hk as (w' & x' & [= <- <-] & _ & Hk).
    rewrite list_lookup_imap in Hk. apply fmap_Some in Hk as (cs & Hcs & ->). exists k, cs.
    split; [done|]. by eapply lookup_lt_Some. }
  eapply clients_park; try done.
  - intros w x (k & cs & -> & _)%HN. done.
  - intros w x st' (k & cs & -> & _)%HN _ [= <-]. done.
  - split; [by destruct ws, cases|done| |].
    + intros w x' Hw Hx. destruct (parks_lookup _ _ _ _ _ _ _ Hp Hx) as [(x & Hin & E)|(x & Hx' & E)];
        apply payload_fields in E as (P1 & P2 & P3 & P4).
      * destruct (HN w x Hin) as (k & cs & -> & Hk). rewrite P4. unfold in_cases. cbn [case_waiter w_case_index].
        rewrite u32_small by lia. rewrite i32_small by lia. lia.
      * destruct (sl_in _ _ _ _ Hsel w Hw) as (y & Hy & _ & _ & Ht). destruct (proj2 Hidle w x Hx'). congruence.
    + exists unfired. split; [done|]. cbn. apply (pk_parked _ _ _ _ _ Hp). by right.
Qed.

(** ** The call is completed *)

Lemma clients_resume s A pd t b w :
  cref s A → clients s pd → pd !! t = Some b → (∃ c, b = BSend c w ∨ b = BRecv c w) →
  clients (del_waiter s w) (delete t pd).
Proof.
  intros (B & Q & HI & _) [Hw Ht] Hb [c Hbw].
  assert (regular_ok s t w) as [(x & Hx & Hk & Htk) _] by (specialize (Hw t b Hb); by destruct Hbw as [-> | ->]).
  split.
  - intros u b' [Hne Hu]%lookup_delete_Some. specialize (Hw u b' Hu).
    assert (∀ w', regular_ok s u w' → regular_ok (del_waiter s w) u w') as Hreg.
    { intros w' [(y & Hy & K1 & K2) Hf]. split; [|done]. exists y. split; [|done]. cbn.
      rewrite lookup_delete_ne; [done|]. intros <-. congruence. }
    destruct b' as [c' w'|c' w'|ws st cases]; [by apply Hreg..|]. destruct Hw as [O1 [Hin Ho] O3 O4].
    split; [done| | |done].
    + split.
      * intros w' Hw'. destruct (Hin w' Hw') as (y & Hy & K1 & K2). exists y. split; [|done]. cbn.
        rewrite lookup_delete_ne; [done|]. intros <-. congruence.
      * cbn. intros w' y [_ Hy]%lookup_delete_Some. by apply Ho.
    + cbn. intros w' y Hw' [_ Hy]%lookup_delete_Some. by eapply O3.
  - cbn. intros w' y u [Hne Hy]%lookup_delete_Some Hu. rewrite lookup_delete_ne; [by eapply Ht|].
    intros <-. destruct (ci_one _ _ _ _ HI w w' x y Hx Hy) as [One _].
    destruct One as [E|(E & _)]; congruence.
Qed.

Lemma clients_leave s s' A pd t ws st cases :
  cref s A → clients s pd → pd !! t = Some (BSelect ws st cases) → leaves s s' ws st →
  clients s' (delete t pd).
Proof.
  intros (B & Q & HI & _) [Hw Ht] Hb [L1 L2 L3 _]. pose proof (Hw t _ Hb) as Hok.
  destruct (select_waiter _ _ _ _ _ Hok) as (w0 & x0 & Hw0 & Hx0 & Hk0 & Hs0 & Ht0). destruct Hok as [_ [Hin Ho] _ _].
  assert (∀ w x', waiters s' !! w = Some x' → (w ∉ ws) ∧ ∃ x, waiters s !! w = Some x ∧ payload x' = payload x) as Hback.
  { intros w x' Hx'. destruct (fmap_payload_lookup _ _ w x' L1 Hx') as (x & Hx & E).
    rewrite without_lookup in Hx. case_decide; [done|]. eauto. }
  assert (∀ w x, waiters s !! w = Some x → w ∉ ws → ∃ x', waiters s' !! w = Some x' ∧ payload x = payload x') as Hfwd.
  { intros w x Hx Hn. apply (fmap_payload_lookup _ _ w x (eq_sym L1)). rewrite without_lookup. by rewrite decide_False. }
  split.
  - intros u b' [Hne Hu]%lookup_delete_Some. pose proof (Hw u b' Hu) as Hwu.
    assert (∀ w, regular_ok s u w → regular_ok s' u w) as Hreg.
    { intros w [(y & Hy & K1 & K2) Hf]. rewrite <-L3 in Hf. split; [|done].
      destruct (Hfwd w y Hy) as (y' & Hy' & (P1 & P2 & _)%payload_fields); [|exists y'; split_and!; congruence].
      intros Hws. destruct (Hin w Hws) as (z & Hz & _ & _ & E). congruence. }
    destruct b' as [c' w'|c' w'|ws' st' cases']; [by apply Hreg..|].
    destruct (select_waiter _ _ _ _ _ Hwu) as (w1 & x1 & Hw1 & Hx1 & Hk1 & Hs1 & Ht1).
    assert (st' ≠ st) as Hst.
    { intros ->. destruct (Hin w1) as (z & Hz & _ & _ & E); [by eapply Ho|]. congruence. }
    destruct Hwu as [O1 [Hin' Ho'] O3 (ss & Hss & O4)].
    assert (∀ w, w ∈ ws' → w ∉ ws) as Hdis.
    { intros w Hw' Hws. destruct (Hin w Hws) as (z & Hz & _ & _ & E), (Hin' w Hw') as (z' & Hz' & _ & _ & E'). congruence. }
    split; [done| | |].
    + split.
      * intros w Hw'. destruct (Hin' w Hw') as (y & Hy & K1 & K2 & K3).
        destruct (Hfwd w y Hy (Hdis w Hw')) as (y' & Hy' & (P1 & P2 & P3 & _)%payload_fields). exists y'. split_and!; congruence.
      * intros w y' Hy' K1 K2. destruct (Hback w y' Hy') as (_ & y & Hy & (P1 & P2 & P3 & _)%payload_fields).
        eapply Ho'; [done|congruence..].
    + intros w y' Hw' Hy'. destruct (Hback w y' Hy') as (_ & y & Hy & (_ & _ & _ & ->)%payload_fields). by eapply O3.
    + exists ss. rewrite L2, lookup_delete_ne, L3 by done. done.
  - intros w y' u Hy' Hu. destruct (Hback w y' Hy') as (Hn & y & Hy & (_ & P2 & _)%payload_fields).
    rewrite lookup_delete_ne; [eapply Ht; [done|congruence]|]. intros <-. apply Hn.
    destruct (ci_one _ _ _ _ HI w w0 y x0 Hy Hx0) as [One _].
    destruct One as [->|(E1 & _ & E2)]; [congruence|done|]. eapply Ho; [done..|congruence].
Qed.

(** ** Changes outside the channels *)

Lemma clients_ext s s' pd :
  clients s pd → waiters s' = waiters s → selects s' = selects s →
  (∀ t, is_Some (pd !! t) → (sch_parked (worker s') t ↔ sch_parked (worker s) t) ∧
     sch_flag (worker s') t = sch_flag (worker s) t) →
  clients s' pd.
Proof.
  intros [Hw Ht] E1 E2 Hsame. split; [|by rewrite E1]. intros t b Hb. specialize (Hw t b Hb).
  destruct (Hsame t) as [S1 S2]; [eauto|].
  assert (∀ w, regular_ok s t w → regular_ok s' t w) as Hreg by (intros w; unfold regular_ok; by rewrite E1, S2).
  destruct b as [c w|c w|ws st cases]; [by apply Hreg..|]. destruct Hw as [O1 [Hin Ho] O3 (ss & Hss & O4)].
  split; [done|by split; rewrite E1|by rewrite E1|]. exists ss. rewrite E2, S2. split; [done|].
  destruct (done ss); rewrite S1; done.
Qed.
End clients.
