(* ===== verification/ChannelCalls.v ===== *)
(** * Every channel call of a well-behaved client runs to an end

    In a state that represents an abstract state, with the calls under way
    accounted for, a call on a live channel with a value object of the
    element size completes (it never goes wrong), keeps the invariant that
    nobody waits in vain, and either returns or parks its task. *)

From S2P Require Import Prelude Task WaitQueue Channel ChannelBuffer ChannelInv ChannelSpec.
From S2P Require Import ChannelRefine ChannelOps ChannelWait ChannelBlock ChannelClose.
From S2P Require Import ChannelRegistry Select SelectOrder SelectSim ChannelClients.

(** ** The abstract operations are defined *)

Lemma a_read_slot A p n : 0 ≤ n → is_Some (a_read A p n) ↔
  n = 0 ∨ ∃ o bs, p = Some (UserPtr o) ∧ a_vals A !! o = Some bs ∧ n ≤ Z.of_nat (length bs).
Proof.
  intros Hn. unfold a_read. destruct (Z.eqb_spec n 0) as [->|Hne]; [split; eauto|]. split.
  - destruct p as [[o|]|]; intros [v Hv]; try done. destruct (a_vals A !! o) as [bs|] eqn:E; [|done]. cbn in Hv.
    destruct (Z.leb_spec n (Z.of_nat (length bs))); [|done]. right. eauto.
  - intros [?|(o & bs & -> & -> & Hl)]; [done|]. cbn. destruct (Z.leb_spec n (Z.of_nat (length bs))); [eauto|lia].
Qed.
Lemma a_write_slot A p n v : Z.of_nat (length v) = n → is_Some (a_read A p n) →
  ∃ A', a_write A p v = Some A' ∧ ∀ q m, 0 ≤ m → is_Some (a_read A q m) → is_Some (a_read A' q m).
Proof.
  intros Hv Hr. unfold a_write. destruct (Nat.eqb_spec (length v) 0) as [E|E]; [eauto|].
  apply a_read_slot in Hr; [|lia]. destruct Hr as [?|(o & bs & -> & Hb & Hl)]; [lia|]. rewrite Hb. cbn.
  destruct (Nat.leb_spec (length v) (length bs)); [|lia]. eexists. split; [done|]. intros q m Hm.
  rewrite !a_read_slot by done. intros [?|(o' & bs' & -> & Hb' & Hl')]; [by left|right]. cbn.
  destruct (decide (o = o')) as [<-|Hne].
  - simplify_eq. exists o, (overwrite bs 0 v). rewrite lookup_insert_eq. split_and!; try done.
    rewrite overwrite_length by lia. done.
  - exists o', bs'. by rewrite lookup_insert_ne.
Qed.

Section calls.
Context `{Alloc} {W : Type} `{SchedulerLaws W}.
Implicit Types (s : cstate W) (w c st : positive) (t u : tid) (pd : gmap tid blocked) (A : astate) (a : achan).
Implicit Types (l : list positive) (cases : list croutine_select_case).

Lemma cref_elem s A c a : cref s A → a_chans A !! c = Some a → 0 ≤ a_elem a.
Proof.
  intros (B & Q & HI & _ & <-) Ha. destruct (abs_get _ _ _ _ _ Ha) as (ch & Hc & ->).
  apply (buf_elem _ _ (ci_buf _ _ _ _ HI c ch Hc)).
Qed.

(** The value object of a waiting task has the element size. *)
Lemma offer_slot s A c a op o : cref s A → a_chans A !! c = Some a → o ∈ a_offers op a →
  0 ≤ a_elem a ∧ is_Some (a_read A (o_slot o) (a_elem a)).
Proof.
  intros (B & Q & HI & _ & <-) Ha Ho. destruct (abs_get _ _ _ _ _ Ha) as (ch & Hc & ->).
  pose proof (buf_elem _ _ (ci_buf _ _ _ _ HI c ch Hc)) as Hel. split; [apply Hel|].
  rewrite a_offers_abs in Ho. apply list_elem_of_omap in Ho as (w & Hw & Ho).
  destruct (ci_waiter _ _ _ _ HI c ch op w Hc Hw) as (x & Hx & Hok). unfold offer_of in Ho. rewrite Hx in Ho. cbn in Ho.
  destruct (w_task x); [|done]. cbn in Ho. destruct (wlive s x); [|done]. injection Ho as <-. cbn.
  apply a_read_slot; [apply Hel|]. destruct (wo_slot _ _ _ _ Hok) as [?|(o & bs & -> & Hb & Hl)]; [by left|right]. eauto.
Qed.

Lemma try_send_total s A sd c a p :
  cref s A → a_chans A !! c = Some a → is_Some (a_read A p (a_elem a)) →
  ∃ r T A', a_try_send sd c p A = Some (r, T, A').
Proof.
  intros HR Ha [v Hv]. unfold a_try_send. rewrite Ha. cbn. destruct (_ || _); [eauto|]. rewrite Hv. cbn.
  destruct (a_receivers a) as [|o rest] eqn:Er; [destruct (_ <? _); eauto|].
  destruct (offer_slot s A c a RECV o HR Ha) as [Hn Ho]; [cbn; rewrite Er; left|].
  destruct (a_write_slot A (o_slot o) (a_elem a) v) as (A' & -> & _); [by eapply a_read_length|done|]. cbn. eauto.
Qed.

Lemma try_recv_total s A sd c a p :
  cref s A → aok A → a_chans A !! c = Some a → is_Some (a_read A p (a_elem a)) →
  ∃ r T A', a_try_recv sd c p A = Some (r, T, A').
Proof.
  intros HR Hok Ha Hp. unfold a_try_recv. rewrite Ha. cbn.
  assert (∀ o, o ∈ a_senders a → 0 ≤ a_elem a ∧ is_Some (a_read A (o_slot o) (a_elem a))) as Hs.
  { intros o Ho. by eapply (offer_slot s A c a SEND). }
  destruct (a_buf a) as [|v rest] eqn:Eb.
  - destruct (a_senders a) as [|o senders]; [destruct (_ || _); eauto|].
    destruct (Hs o) as [Hn [v Hv]]; [left|]. rewrite Hv. cbn.
    destruct (a_write_slot A p (a_elem a) v) as (A' & -> & _); [by eapply a_read_length|done|]. cbn. eauto.
  - pose proof (ao_vals _ (Hok c a Ha)) as Hv. rewrite Eb in Hv. apply Forall_cons in Hv as [Hv _].
    destruct (a_write_slot A p (a_elem a) v) as (A' & -> & Hkeep); [done..|]. cbn.
    destruct (a_senders a) as [|o senders]; [eauto|]. destruct (a_closed a); [eauto|].
    destruct (Hs o) as [Hn Ho]; [left|]. destruct (Hkeep (o_slot o) (a_elem a) Hn Ho) as [v' ->]. cbn. eauto.
Qed.

Lemma try_cases_total s A sd order cases :
  cref s A → aok A → slots_ok A cases →
  (∀ cs c, cs ∈ cases → case_channel cs = Some c → is_Some (a_chans A !! c)) →
  (∀ i, i ∈ order → (Z.to_nat i < length cases)%nat) →
  ∃ k T A', a_try_cases sd order cases A = Some (k, T, A').
Proof.
  intros HR Hok Hslots Hlive. induction order as [|i order IH]; intros Hi; [by eexists _, _, _|]. cbn.
  destruct (lookup_lt_is_Some_2 cases (Z.to_nat i)) as [cs Hcs]; [apply Hi; left|]. rewrite Hcs. cbn.
  assert (∃ r T A', a_try_case sd cs A = Some (r, T, A')) as (r & T & A' & Hr).
  { unfold a_try_case. destruct (case_channel cs) as [c|] eqn:Ec; [|eauto].
    assert (cs ∈ cases) as Hin by (by eapply list_elem_of_lookup_2).
    destruct (Hlive cs c Hin Ec) as [a Ha]. pose proof (Hslots cs c a Hin Ec Ha) as Hv.
    destruct (case_op cs).
    - destruct (try_send_total s A sd c a (case_value cs) HR Ha Hv) as (r & T & A' & ->). cbn. eauto.
    - destruct (try_recv_total s A sd c a (case_value cs) HR Hok Ha Hv) as (r & T & A' & ->). cbn. eauto. }
  rewrite Hr. cbn. destruct r; [eauto|]. destruct (a_try_case_blocked _ _ _ _ _ Hr) as (_ & -> & _).
  apply IH. intros j Hj. apply Hi. by right.
Qed.

(** ** Nobody waits in vain *)

Lemma aok_try_case s A sd cs r T A' :
  cref s A → aok A → a_try_case sd cs A = Some (r, T, A') → aok A'.
Proof.
  intros HR Hok Hrun. pose proof (λ c a, cref_elem s A c a HR) as Hel. unfold a_try_case in Hrun.
  destruct (case_channel cs) as [c|]; [|by simplify_eq].
  destruct (case_op cs); apply bind_Some in Hrun as ([[r1 T1] A1] & Hrun & E).
  - assert (A' = A1) as -> by (by destruct r1 as [[]|]; simplify_eq). eapply aok_try_send; [done|apply Hel|done].
  - assert (A' = A1) as -> by (by destruct r1; simplify_eq). eapply aok_try_recv; [done|apply Hel|done].
Qed.
Lemma aok_try_cases s A sd order cases k T A' :
  cref s A → aok A → a_try_cases sd order cases A = Some (k, T, A') → aok A'.
Proof.
  intros HR Hok. induction order as [|i order IH]; cbn; intros Hrun; [by simplify_eq|].
  apply bind_Some in Hrun as (cs & _ & Hrun). apply bind_Some in Hrun as ([[r T1] A1] & Hc & Hrun).
  destruct r; [simplify_eq; by eapply aok_try_case|].
  destruct (a_try_case_blocked _ _ _ _ _ Hc) as (_ & -> & _). by apply IH.
Qed.

Lemma aok_wait_all t st cases : ∀ i A, aok A →
  (∀ cs c, cs ∈ cases → case_channel cs = Some c → ∃ a, a_chans A !! c = Some a ∧ would_block (case_op cs) t a) →
  aok (a_wait_all t st i cases A).
Proof.
  induction cases as [|cs cases IH]; intros i A Hok Hb; [done|]. cbn. apply IH.
  - unfold a_wait_case. destruct (case_channel cs) as [c|] eqn:Ec; [|done].
    destruct (Hb cs c) as (a & Ha & Hw); [left|done|]. by eapply aok_wait.
  - intros cs' c' Hin Hc'. destruct (Hb cs' c') as (a & Ha & Hcl & Hw); [by right|done|].
    unfold a_wait_case. destruct (case_channel cs) as [c|] eqn:Ec; [|by exists a].
    unfold a_wait, a_alter. cbn [a_chans]. destruct (decide (c = c')) as [<-|Hne].
    + rewrite lookup_alter_eq, Ha. eexists. split; [done|]. split; [done|].
      destruct (case_op cs'), Hw as [Hw1 Hw2]; (split; [done|]); intros o; cbn; destruct (case_op cs); auto;
        intros [?| ->%list_elem_of_singleton]%elem_of_app; auto.
    + rewrite lookup_alter_ne by done. by exists a.
Qed.

Lemma blocked_would_block A sd order cases t :
  aok A → order ≡ₚ Z.of_nat <$> seq 0 (length cases) →
  (∀ i, i ∈ order → ∃ cs, cases !! Z.to_nat i = Some cs ∧ a_try_case sd cs A = Some (None, [], A)) →
  ∀ cs c, cs ∈ cases → case_channel cs = Some c → ∃ a, a_chans A !! c = Some a ∧ would_block (case_op cs) t a.
Proof.
  intros Hok Hp Hall cs c (i & Hi)%list_elem_of_lookup Hc.
  destruct (Hall (Z.of_nat i)) as (cs' & Hcs' & Hb).
  { rewrite Hp. apply list_elem_of_fmap_2, elem_of_seq. apply lookup_lt_Some in Hi. lia. }
  rewrite Nat2Z.id in Hcs'. simplify_eq.
  destruct (a_try_case_blocked _ _ _ _ _ Hb) as (_ & _ & Hbl). destruct (Hbl c Hc) as (_ & a & Ha & Hcl & Hop).
  exists a. split; [done|]. split; [done|]. pose proof (ao_len _ (Hok c a Ha)).
  destruct (case_op cs).
  - destruct Hop as (Hr & Hf & _). rewrite Hr. split; [lia|set_solver].
  - destruct Hop as (Hr & Hs). rewrite Hs. split; [done|set_solver].
Qed.

(** A select that waits on a channel found the runtime running. *)
Lemma blocked_open A sd order cases :
  order ≡ₚ Z.of_nat <$> seq 0 (length cases) → ¬ Forall (λ cs, case_channel cs = None) cases →
  (∀ i, i ∈ order → ∃ cs, cases !! Z.to_nat i = Some cs ∧ a_try_case sd cs A = Some (None, [], A)) → sd = false.
Proof.
  intros Hp (cs & (i & Hi)%list_elem_of_lookup & Hc)%some_channel Hall.
  destruct (Hall (Z.of_nat i)) as (cs' & Hcs' & Hb).
  { rewrite Hp. apply list_elem_of_fmap_2, elem_of_seq. apply lookup_lt_Some in Hi. lia. }
  rewrite Nat2Z.id in Hcs'. simplify_eq. destruct (a_try_case_blocked _ _ _ _ _ Hb) as (_ & _ & Hbl).
  destruct (case_channel cs) as [c|] eqn:E; [|done]. by apply (Hbl c).
Qed.

(** ** The calls *)

Record chan_ok s A l pd : Prop := {
  ck_ref : cref s A;
  ck_ok : aok A;
  ck_reg : reg_rep (reg_view s) l;
  ck_clients : clients s pd
}.

(** The call returned ... *)
Record returned s s' pd : Prop := {
  rt_ok : ∃ A' l', chan_ok s' A' l' pd;
  rt_running : ∀ u, sch_running (worker s) u → sch_running (worker s') u;
  rt_shutdown : sched_shutdown (worker s') = sched_shutdown (worker s);
  rt_parked : ∀ u, sch_parked (worker s') u → sch_parked (worker s) u
}.
(** ... or parked its task. *)
Record blocks_task s s' t (b : blocked) pd : Prop := {
  bt_ok : ∃ A' l', chan_ok s' A' l' (<[t := b]> pd);
  bt_parked : sch_parked (worker s') t;
  bt_running : ∀ u, u ≠ t → sch_running (worker s) u → sch_running (worker s') u;
  bt_shutdown : sched_shutdown (worker s) = false ∧ sched_shutdown (worker s') = false
}.

Lemma returned_evolves s s' A A' l pd T : chan_ok s A l pd → aok A' → evolves s s' T A' → returned s s' pd.
Proof.
  intros [C1 C2 C3 C4] Hok [E1 E2 E3]. split.
  - exists A', l. split; try done; [by rewrite (cf_reg _ _ E2)|]. eapply clients_woke; [exact C1|exact C4|apply E2|exact E3].
  - apply (wk_running _ _ _ E3).
  - apply (cf_shutdown _ _ E2).
  - intros u Hu. by apply (wk_parked _ _ _ E3).
Qed.
Lemma blocks_parks s s' A A' l pd t N b :
  sched_shutdown (worker s) = false → chan_ok s A l pd → parks s s' t N A' → aok A' → clients s' (<[t := b]> pd) → blocks_task s s' t b pd.
Proof.
  intros Hsd [C1 C2 C3 C4] [P1 P2 P3 P4 P5 P6 P7 P8 P9 P10] Hok Hc. split; try done.
  - exists A', l. split; try done. by rewrite P2.
  - apply P6. by right.
  - by rewrite P10.
Qed.

(** Whoever calls is not inside another call. *)
Definition caller s (cur : option tid) : Prop := ∀ t, cur = Some t → idle s t.
Definition usable A c (p : option vptr) : Prop :=
  ∃ a, a_chans A !! c = Some a ∧ is_Some (a_read A p (a_elem a)).

Lemma send_call s A l pd cur c p :
  chan_ok s A l pd → caller s cur → usable A c (Some p) →
  ∃ r s', croutine_channel_send cur (Some c) (Some p) s = Ok (r, s') ∧
    match r with
    | SendReturn _ => returned s s' pd
    | SendPark b w => b = true ∧ ∃ t, cur = Some t ∧ blocks_task s s' t (BSend c w) pd
    end.
Proof.
  intros HC Hcur (a & Ha & Hp). pose proof HC as [HR Hok _ Hcl].
  destruct (try_send_total s A (sched_shutdown (worker s)) c a (Some p) HR Ha Hp) as (r & T & A' & Hrun).
  destruct (try_send_sim _ _ _ _ _ _ _ HR Hrun) as (s1 & Hs1 & Hev).
  assert (aok A') as Hok' by (eapply aok_try_send; [done| |done]; intros; by eapply cref_elem).
  unfold croutine_channel_send. rewrite (bind_ok _ _ _ _ _ Hs1).
  destruct r as [r|]; [by exists (SendReturn r), s1; split; [done|eapply returned_evolves]|].
  destruct cur as [t|]; [|by eexists _, s1; split; [done|eapply returned_evolves]].
  destruct (a_try_send_blocked _ _ _ _ _ _ Hrun) as (-> & -> & Hsd & a' & Ha' & Hcl' & Hv & Hr & Hf). simplify_eq.
  pose proof Hev as [HR1 F1 Hw1]. pose proof (Hcur t eq_refl) as Hidle.
  destruct (block_refines s1 A c a SEND t (Some p) SendPark HR1) as (s2 & w & Hrun2 & Hpk); try done.
  { by eapply idle_frame. }
  { by rewrite (cf_shutdown _ _ F1). }
  pose proof (parks_after _ _ _ _ _ _ F1 Hw1 Hpk) as Hpk'.
  exists (SendPark true w), s2. split; [exact Hrun2|]. split; [done|]. exists t. split; [done|].
  eapply blocks_parks; [done..| |].
  - eapply aok_wait; [done..|]. pose proof (ao_len _ (Hok c a Ha)). split; [done|]. rewrite Hr. split; [lia|set_solver].
  - eapply clients_park_regular; [done..|]. exists c. by left.
Qed.

Lemma recv_call s A l pd cur c p :
  chan_ok s A l pd → caller s cur → usable A c (Some p) →
  ∃ r s', croutine_channel_recv cur (Some c) (Some p) s = Ok (r, s') ∧
    match r with
    | RecvReturn _ => returned s s' pd
    | RecvPark b w => b = true ∧ ∃ t, cur = Some t ∧ blocks_task s s' t (BRecv c w) pd
    end.
Proof.
  intros HC Hcur (a & Ha & Hp). pose proof HC as [HR Hok _ Hcl].
  destruct (try_recv_total s A (sched_shutdown (worker s)) c a (Some p) HR Hok Ha Hp) as (r & T & A' & Hrun).
  destruct (try_recv_sim _ _ _ _ _ _ _ HR Hrun) as (s1 & Hs1 & Hev).
  assert (aok A') as Hok' by (eapply aok_try_recv; [done| |done]; intros; by eapply cref_elem).
  unfold croutine_channel_recv. rewrite (bind_ok _ _ _ _ _ Hs1).
  destruct r; [by eexists _, s1; split; [done|eapply returned_evolves]| |by eexists _, s1; split; [done|eapply returned_evolves]].
  destruct cur as [t|]; [|by eexists _, s1; split; [done|eapply returned_evolves]].
  destruct (a_try_recv_blocked _ _ _ _ _ _ Hrun) as (-> & -> & Hsd & a' & Ha' & Hcl' & Hb & Hs). simplify_eq.
  pose proof Hev as [HR1 F1 Hw1]. pose proof (Hcur t eq_refl) as Hidle.
  destruct (block_refines s1 A c a RECV t (Some p) RecvPark HR1) as (s2 & w & Hrun2 & Hpk); try done.
  { by eapply idle_frame. }
  { by rewrite (cf_shutdown _ _ F1). }
  pose proof (parks_after _ _ _ _ _ _ F1 Hw1 Hpk) as Hpk'.
  exists (RecvPark true w), s2. split; [exact Hrun2|]. split; [done|]. exists t. split; [done|].
  eapply blocks_parks; [done..| |].
  - eapply aok_wait; [done..|]. split; [done|]. rewrite Hs. split; [done|set_solver].
  - eapply clients_park_regular; [done..|]. exists c. by right.
Qed.

Lemma try_send_call s A l pd c p :
  chan_ok s A l pd → usable A c (Some p) →
  ∃ b s', croutine_channel_try_send (Some c) (Some p) s = Ok (b, s') ∧ returned s s' pd.
Proof.
  intros HC (a & Ha & Hp). pose proof HC as [HR Hok _ _].
  destruct (try_send_total s A (sched_shutdown (worker s)) c a (Some p) HR Ha Hp) as (r & T & A' & Hrun).
  destruct (try_send_sim _ _ _ _ _ _ _ HR Hrun) as (s1 & Hs1 & Hev).
  eexists _, s1. unfold croutine_channel_try_send. rewrite (bind_ok _ _ _ _ _ Hs1). split; [done|].
  eapply returned_evolves; [done| |done]. eapply aok_try_send; [done| |done]. intros; by eapply cref_elem.
Qed.
Lemma try_recv_call s A l pd c p :
  chan_ok s A l pd → usable A c (Some p) →
  ∃ b s', croutine_channel_try_recv (Some c) (Some p) s = Ok (b, s') ∧ returned s s' pd.
Proof.
  intros HC (a & Ha & Hp). pose proof HC as [HR Hok _ _].
  destruct (try_recv_total s A (sched_shutdown (worker s)) c a (Some p) HR Hok Ha Hp) as (r & T & A' & Hrun).
  destruct (try_recv_sim _ _ _ _ _ _ _ HR Hrun) as (s1 & Hs1 & Hev).
  eexists _, s1. unfold croutine_channel_try_recv. rewrite (bind_ok _ _ _ _ _ Hs1). split; [done|].
  eapply returned_evolves; [done| |done]. eapply aok_try_recv; [done| |done]. intros; by eapply cref_elem.
Qed.

(** A select of at most 2^31 cases, each on no channel or on a live one. *)
Definition selectable A cases : Prop :=
  0 < Z.of_nat (length cases) ≤ 2 ^ 31 ∧ slots_ok A cases ∧
  (∀ cs c, cs ∈ cases → case_channel cs = Some c → is_Some (a_chans A !! c)).

Lemma select_call s A l pd cur addr now rng cases has_default :
  calloc_grants → chan_ok s A l pd → caller s cur → selectable A cases → 0 ≤ rng < 2 ^ 64 →
  ∃ r rng' s', croutine_select cur addr now rng cases has_default s = Ok ((r, rng'), s') ∧
    match r with
    | SelectReturn _ _ => returned s s' pd
    | SelectPark b ws st cases' => b = true ∧ ∃ t, cur = Some t ∧ blocks_task s s' t (BSelect ws st cases') pd
    end.
Proof.
  intros Hg HC Hcur (Hlen & Hslots & Hlive) Hrng. pose proof HC as [HR Hok _ Hcl].
  destruct (select_call_sim s A addr now rng cases has_default HR Hslots Hrng Hlen) as (rng' & order & Hp & Hall).
  { intros _. apply Hg. unfold SIZEOF_WAITER, SIZE_MAX. lia. }
  destruct (try_cases_total s A (sched_shutdown (worker s)) order cases HR Hok Hslots Hlive) as (k & T & A' & Hrun).
  { intros i. rewrite Hp. intros (j & -> & Hj%elem_of_seq)%list_elem_of_fmap. rewrite Nat2Z.id. lia. }
  pose proof (aok_try_cases _ _ _ _ _ _ _ _ HR Hok Hrun) as Hok'. specialize (Hall k T A' Hrun).
  destruct k as [[i v]|].
  { destruct (Hall cur) as (s' & Hs & _ & Hev). eexists _, rng', s'. split; [exact Hs|]. by eapply returned_evolves. }
  destruct Hall as (-> & Hnone & Hsome). destruct cur as [t|].
  2: { destruct Hnone as (s' & Hs & Hev). eexists _, rng', s'. split; [exact Hs|]. by eapply returned_evolves. }
  pose proof (Hcur t eq_refl) as Hidle. specialize (Hsome t Hidle). destruct (_ || _) eqn:Ef.
  { destruct Hsome as (s' & Hs & Hev). eexists _, rng', s'. split; [exact Hs|]. by eapply returned_evolves. }
  destruct Hsome as (s' & ws & st & Hs & Hpk & Hsel & Hss & Hl & Hst).
  eexists _, rng', s'. split; [exact Hs|]. split; [done|]. exists t. split; [done|].
  destruct (a_try_cases_blocked _ _ _ _ _ _ Hrun) as (_ & _ & Hbl).
  eapply blocks_parks; [|done..| |].
  - eapply blocked_open; [done| |done]. apply orb_false_iff in Ef as [_ Ef]. by apply bool_decide_eq_false in Ef.
  - apply aok_wait_all; [done|]. by eapply blocked_would_block.
  - eapply clients_park_select; try done; [intros ->; cbn in Hlen; lia|lia].
Qed.

(** ** Closing, creating and destroying *)

Lemma close_call s A l pd c :
  chan_ok s A l pd → is_Some (a_chans A !! c) →
  ∃ s', croutine_channel_close (Some c) s = Ok (tt, s') ∧ returned s s' pd.
Proof.
  intros [HR Hok Hreg Hcl] [a Ha]. destruct (channel_close_sim s A c a HR Ha) as (s' & T & Hrun & HR' & [C1 C2 C3 C4] & _).
  exists s'. split; [exact Hrun|]. split; [|apply (wk_running _ _ _ C4)|done|intros u Hu; by apply (wk_parked _ _ _ C4)].
  exists (a_close c A), l. split; [done|by apply aok_close|by rewrite C1|eapply clients_woke; [exact HR|exact Hcl|exact C2|exact C4]].
Qed.

Lemma shutdown_call s A l pd :
  chan_ok s A l pd →
  ∃ s', croutine_channel_shutdown_all_locked s = Ok (tt, s') ∧ returned s s' pd ∧ (∀ t, ¬ sch_parked (worker s') t) ∧
    (∀ c ch, channels s' !! c = Some ch → closed ch = true).
Proof.
  intros [HR Hok Hreg Hcl]. destruct (shutdown_all_sim s A l HR Hreg) as (s' & T & Hrun & HR' & [C1 C2 C3 C4] & Hp).
  exists s'. split; [exact Hrun|]. split_and!; [|done|].
  - split; [|apply (wk_running _ _ _ C4)|done|intros u Hu; by apply (wk_parked _ _ _ C4)]. exists (a_close_all l A), l.
    split; [done| |by rewrite C1|eapply clients_woke; [exact HR|exact Hcl|exact C2|exact C4]].
    clear -Hok. unfold a_close_all. revert A Hok. induction l as [|c l IH]; intros A Hok; [done|]. cbn. by apply IH, aok_close.
  - intros c ch Hc. destruct HR' as (B & Q & HI & _ & E).
    pose proof (abs_lookup s' B Q c) as Hl. rewrite Hc, E in Hl. cbn in Hl.
    destruct (a_close_all_closed l A c _ Hl) as (a & Ha & Hcl' & _). apply Hcl'. left.
    apply (rr_dom _ _ Hreg). rewrite <-C1. apply reg_live. eauto.
Qed.

Lemma registered s s' A' l' pd A l :
  chan_ok s A l pd → cref s' A' → aok A' → reg_rep (reg_view s') l' → registers s s' → returned s s' pd.
Proof.
  intros HC HR' Hok' Hreg' [G1 G2 G3]. split; rewrite ?G3; try done.
  exists A', l'. split; try done. eapply clients_ext; [apply HC|done..|]. by rewrite G3.
Qed.

#[global] Instance create_granted_dec esz cap : Decision (create_granted esz cap).
Proof. unfold create_granted. apply _. Defined.

Lemma create_call s A l pd esz cap :
  chan_ok s A l pd → 0 ≤ esz ≤ SIZE_MAX → 0 ≤ cap ≤ SIZE_MAX →
  ∃ r s', croutine_channel_create esz cap s = Ok (r, s') ∧ returned s s' pd.
Proof.
  intros HC He Hc. pose proof HC as [HR Hok Hreg _].
  destruct (create_sim s A l esz cap HR Hreg He Hc) as [Hyes Hno].
  destruct (decide (create_granted esz cap)) as [Hg|Hg].
  - destruct (Hyes Hg) as (c & s' & Hrun & Hnew & HR' & Hreg' & Hrg). exists (Some c), s'. split; [done|].
    eapply registered; [done..| | |done]; [|done]. intros c' a'. cbn. rewrite lookup_insert_Some.
    intros [[<- <-]|[_ Ha']]; [|by eapply Hok]. split; cbn; try done; [lia|set_solver].
  - exists None, s. split; [by apply Hno|]. split; [by exists A, l|done..].
Qed.

Lemma destroy_call s A l pd c :
  chan_ok s A l pd → is_Some (a_chans A !! c) →
  ∃ b s', croutine_channel_destroy (Some c) s = Ok (b, s') ∧ returned s s' pd.
Proof.
  intros HC [a Ha]. pose proof HC as [HR Hok Hreg _]. destruct (destroy_sim s A l c a HR Hreg Ha) as [Hno Hyes].
  destruct (a_closed a).
  - destruct Hyes as (s' & l1 & l2 & Hrun & HR' & _ & Hreg' & Hrg); [done|]. exists true, s'. split; [done|].
    eapply registered; [done..| | |done]; [|done]. intros c' a'. cbn. rewrite lookup_delete_Some.
    intros [_ Ha']. by eapply Hok.
  - exists false, s. split; [by apply Hno|]. split; [by exists A, l|done..].
Qed.

(** ** Continuing a blocked call *)

(** What the code after the context switch does. *)
Definition continue (t : tid) (b : blocked) : M (cstate W) unit :=
  match b with
  | BSend c w => croutine_channel_send_resume t true c w;; mret tt
  | BRecv c w => croutine_channel_recv_resume t true c w;; mret tt
  | BSelect ws st cases => croutine_select_resume t true ws st cases;; mret tt
  end.

Lemma continue_call s A l pd t b :
  chan_ok s A l pd → pd !! t = Some b → ¬ sch_parked (worker s) t →
  ∃ s', continue t b s = Ok (tt, s') ∧ returned s s' (delete t pd).
Proof.
  intros HC Hb Hp. pose proof HC as [HR Hok Hreg Hcl]. pose proof (cn_wait _ _ Hcl t b Hb) as Hw.
  assert (∀ w s', regular_ok s t w → (∃ c, b = BSend c w ∨ b = BRecv c w) → s' = del_waiter s w → cref s' A →
    returned s s' (delete t pd)) as Hret.
  { intros w s' _ Hbw -> HR'. split; [|done..]. exists A, l. split; try done. by eapply clients_resume. }
  assert (∀ op c w, regular_ok s t w → ∃ fl, channel_resume op t true c w s = Ok (fl, del_waiter s w) ∧
    cref (del_waiter s w) A) as Hres.
  { intros op c w [(x & Hx & K1 & K2) [fl Hf]]. exists fl. by eapply channel_resume_refines. }
  destruct b as [c w|c w|ws st cases]; cbn [continue wait_ok] in *.
  - destruct (Hres SEND c w Hw) as (fl & Hrun & HR'). exists (del_waiter s w).
    unfold croutine_channel_send_resume. split; [by rewrite (bind_ok _ _ _ _ _ (bind_ok _ _ _ _ _ Hrun))|].
    eapply Hret; [exact Hw|eauto|done..].
  - destruct (Hres RECV c w Hw) as (fl & Hrun & HR'). exists (del_waiter s w).
    unfold croutine_channel_recv_resume. split; [by rewrite (bind_ok _ _ _ _ _ (bind_ok _ _ _ _ _ Hrun))|].
    eapply Hret; [exact Hw|eauto|done..].
  - destruct Hw as [O1 O2 O3 (ss & Hss & O4)]. destruct ss as [dn i v]. cbn in O4. destruct dn; [|done].
    destruct O4 as (_ & Hf & Hi).
    destruct (select_resume_sim s A t ws st cases i v HR O2 Hss Hf Hi) as (s' & Hrun & HR' & Hl).
    exists s'. split; [by rewrite (bind_ok _ _ _ _ _ Hrun)|]. pose proof Hl as [L1 L2 L3 L4].
    split; rewrite ?L3; try done. exists A, l. split; try done; [by rewrite L4|].
    eapply clients_leave; [exact HR|exact Hcl|exact Hb|exact Hl].
Qed.

(** ** The caller's own memory *)

Lemma cref_values s A vs :
  (∀ o bs, values s !! o = Some bs → ∃ bs', vs !! o = Some bs' ∧ length bs' = length bs) →
  cref s A → cref (set_values vs s) (mkAState (a_chans A) vs).
Proof. intros Hv (B & Q & HI & Hd & <-). exists B, Q. split; [by apply cinv_values|]. split; done. Qed.

Lemma store_call s A l pd vs :
  chan_ok s A l pd → (∀ o bs, values s !! o = Some bs → ∃ bs', vs !! o = Some bs' ∧ length bs' = length bs) →
  returned s (set_values vs s) pd.
Proof.
  intros [HR Hok Hreg Hcl] Hv. split; try done. exists (mkAState (a_chans A) vs), l.
  split; [by apply cref_values|done..|]. by eapply clients_ext.
Qed.
End calls.
