(* ===== verification/WorkerChannels.v ===== *)
(** * The scheduler keeps its promises to the channels

    [Scheduler] and [SchedulerLaws], the interface the channel proofs are
    written against, for the functions of src/worker.c. *)

From S2P Require Import Prelude Memory ArchX86 Task IoWait PollerApi Worker WorkerInv WaitQueue.
From S2P Require Import Channel ChannelBuffer ChannelInv.

Section instance.
Context `{Alloc, Os, Entry} {P : Type} `{PollerLaws P}.
Implicit Types (s : sched P) (t u : tid).

#[global] Instance worker_scheduler : Scheduler (sched P) := {|
  sched_wake := worker_wake_task_locked;
  sched_shutdown := shutdown_requested;
  sched_park := worker_park_current_on_channel_locked;
  sched_resume := worker_resume_from_channel
|}.

Definition on_channel s t : Prop :=
  ∃ obj, heap s !! t = Some obj ∧ state (scheduler obj) = TASK_WAITING_CHANNEL.
Definition executing s t : Prop :=
  ∃ obj, heap s !! t = Some obj ∧ state (scheduler obj) = TASK_RUNNABLE ∧
         queued (scheduler obj) = false.
Definition wake_flag s t : option bool := channel_wake_success <$> heap s !! t.
Definition worker_ok s : Prop := ∃ l m, winv s l m.

Lemma executing_insert s s' t obj u :
  heap s' = <[t := obj]> (heap s) → u ≠ t → executing s' u ↔ executing s u.
Proof. intros E Hne. unfold executing. by rewrite E, lookup_insert_ne. Qed.

Lemma worker_wake_law s t b :
  calloc_grants → worker_ok s → on_channel s t →
  ∃ s', worker_wake_task_locked (Some t) b s = Ok (true, s') ∧ worker_ok s' ∧
    (∀ u, on_channel s' u ↔ on_channel s u ∧ u ≠ t) ∧
    wake_flag s' t = Some b ∧ (∀ u, u ≠ t → wake_flag s' u = wake_flag s u) ∧
    shutdown_requested s' = shutdown_requested s ∧ (∀ u, executing s u → executing s' u).
Proof.
  intros Hg (l & m & HI) (obj & Ht & Hs).
  destruct (wake_task_run s l m t obj b HI Hg Ht Hs) as (s' & Hrun & HI' & Hh & Hrest & _).
  destruct (rest_stop _ _ Hrest) as [Hsd _].
  exists s'. split; [done|]. split_and!; try done.
  - by eexists _, _.
  - intros u. unfold on_channel. rewrite Hh. destruct (decide (u = t)) as [->|Hne].
    + rewrite lookup_insert_eq. split; [|naive_solver]. by intros (o & [= <-] & ?).
    + rewrite lookup_insert_ne by done. naive_solver.
  - unfold wake_flag. by rewrite Hh, lookup_insert_eq.
  - intros u Hne. unfold wake_flag. by rewrite Hh, lookup_insert_ne.
  - intros u Hu. destruct (decide (u = t)) as [->|Hne].
    + destruct Hu as (o & Ho & Ho' & _). congruence.
    + by eapply executing_insert.
Qed.

Lemma worker_park_law s t :
  worker_ok s → executing s t → shutdown_requested s = false →
  ∃ s', worker_park_current_on_channel_locked (Some t) s = Ok (true, s') ∧ worker_ok s' ∧
    (∀ u, on_channel s' u ↔ on_channel s u ∨ u = t) ∧
    wake_flag s' t = Some false ∧ (∀ u, u ≠ t → wake_flag s' u = wake_flag s u) ∧
    (∀ u, u ≠ t → executing s u → executing s' u) ∧ shutdown_requested s' = false.
Proof.
  intros (l & m & HI) (obj & Ht & Hs & Hq) Hsd.
  destruct (park_channel_run s l m t obj HI Ht Hs Hq Hsd) as [Hrun HI'].
  eexists. split; [done|]. split_and!; try done.
  - by eexists _, _.
  - intros u. unfold on_channel. simpl. destruct (decide (u = t)) as [->|Hne].
    + rewrite lookup_insert_eq. naive_solver.
    + rewrite lookup_insert_ne by done. naive_solver.
  - unfold wake_flag. simpl. by rewrite lookup_insert_eq.
  - intros u Hne. unfold wake_flag. simpl. by rewrite lookup_insert_ne.
  - intros u Hne Hu. by eapply executing_insert.
Qed.

Lemma worker_resume_law s t b :
  wake_flag s t = Some b → worker_resume_from_channel t s = Ok (b, s).
Proof.
  unfold wake_flag, worker_resume_from_channel. destruct (heap s !! t) as [obj|] eqn:Ht; [|done].
  intros [= <-]. by rewrite (bind_ok _ _ _ _ _ (get_task_run _ _ _ Ht)).
Qed.

(** As long as the allocator grants the growth of the run queue. *)
Definition worker_laws (Hg : calloc_grants) : SchedulerLaws (sched P).
Proof.
  refine {| sch_ok := worker_ok; sch_parked := on_channel; sch_running := executing;
            sch_flag := wake_flag |}.
  - intros s t (obj & Ht & Hs & _) (obj' & Ht' & Hs'). congruence.
  - intros s t b. by apply worker_wake_law.
  - intros s t. by apply worker_park_law.
  - intros s t b. apply worker_resume_law.
Defined.
End instance.
