(* ===== verification/SchedChannels.v ===== *)
(** * The channels' scheduler, with the workers in view

    The interface [SchedulerLaws] of the channels once more, now with the
    invariant [sinv] of a given set of workers: whatever a channel operation
    does, the counters keep counting and the tasks it wakes are served. *)

From S2P Require Import Prelude Posix Memory ArchX86 Task IoWait PollerApi Worker WorkerInv.
From S2P Require Import Resources WorkerIo WorkerLoop SchedInv WaitQueue.
From S2P Require Import Channel ChannelBuffer ChannelInv WorkerChannels.

Section laws.
Context `{Alloc, Os, Entry} {P : Type} `{PollerLaws P} (pcs : list pc) (ended : bool).
Hypothesis grants : calloc_grants.
Hypothesis reliable : wake_reliable (P:=P).
Implicit Types (s : sched P) (t u : tid) (obj : Task).

Definition run_by s t : Prop := executing s t ∧ ∃ i, pcs !! i = Some (Running t).

(** Only the record of [t] changes, and no worker that has switched back
    knows it. *)
Lemma sinv_task s s' t obj obj' l m :
  sinv pcs s → heap s !! t = Some obj → heap s' = <[t := obj']> (heap s) → owned obj' = owned obj →
  ¬ loose obj' →
  (¬ loose obj ∨ ∃ i, pcs !! i = Some (Running t)) →
  winv s' l m → (l ≠ [] → served pcs s') → rest s' = rest s →
  (cv s' = cv s ∨ cv s' = signalled (cv s) ∨ cv s' = broadcast (cv s)) →
  (wake_pending (poller s) → wake_pending (poller s')) → sinv pcs s'.
Proof.
  intros HI Ht Hh Hown Hlo Hor HW Hs Er Ec Hp. eapply sinv_step; [done..| | |]; rewrite Hh.
  - by eapply owned_insert.
  - intros i x u Hx Hu Hok. destruct (decide (u = t)) as [->|Hne]; [|by rewrite lookup_insert_ne].
    destruct x as [|ms|r|b|u'|u' y|u' y b|]; try done; cbn in Hok; destruct Hok as (o & Ho & Hq & Hy);
      rewrite Ht in Ho; injection Ho as <-; (destruct Hor as [Hn|[j Hj]];
        [destruct Hn; split; [done|]; cbn in Hu; rewrite Hy; destruct y; auto; done|]);
      by assert (i = j) as -> by (by eapply si_once); simplify_eq.
  - intros u o. destruct (decide (u = t)) as [->|Hne].
    + rewrite lookup_insert_eq. by intros [= <-].
    + rewrite lookup_insert_ne by done. eauto.
Qed.

(** The invariant, and whether main is known to have ended. *)
Definition sinv_at s : Prop := sinv pcs s ∧ (ended = true → main_finished s = true).

Lemma sinv_wake s t b :
  sinv_at s → on_channel s t →
  ∃ s', worker_wake_task_locked (Some t) b s = Ok (true, s') ∧ sinv_at s' ∧
    (∀ u, on_channel s' u ↔ on_channel s u ∧ u ≠ t) ∧
    wake_flag s' t = Some b ∧ (∀ u, u ≠ t → wake_flag s' u = wake_flag s u) ∧
    shutdown_requested s' = shutdown_requested s ∧ (∀ u, run_by s u → run_by s' u).
Proof.
  intros [HI Hend] (obj & Ht & Hs). destruct (si_sched _ _ HI) as (l & m & HW & Hsv).
  destruct (wake_task_run s l m t obj b HW grants Ht Hs) as (s' & Hrun & HW' & Hh & Er & Ec & Hp1 & Hp2 & _).
  exists s'. split; [done|]. split.
  { split; [|intros E; destruct (rest_ctl _ _ Er) as (_ & _ & [=]); specialize (Hend E); congruence].
    eapply (sinv_task s s' t obj); [done..| | |done| |done|auto|done].
    - by intros [? _].
    - left. intros [_ [E|E]]; congruence.
    - intros _. eapply served_signal; [done|by apply stopping_rest|done|]. intros Hi Ha. by apply Hp2. }
  destruct (worker_wake_law s t b grants) as (s'' & Hrun' & _ & L1 & L2 & L3 & L4 & L5).
  { by exists l, m. } { by exists obj. }
  rewrite Hrun in Hrun'. injection Hrun' as <-. split_and!; try done.
  intros u [Hu Hi]. split; [by apply L5|done].
Qed.

Lemma sinv_park s t :
  sinv_at s → run_by s t → shutdown_requested s = false →
  ∃ s', worker_park_current_on_channel_locked (Some t) s = Ok (true, s') ∧ sinv_at s' ∧
    (∀ u, on_channel s' u ↔ on_channel s u ∨ u = t) ∧
    wake_flag s' t = Some false ∧ (∀ u, u ≠ t → wake_flag s' u = wake_flag s u) ∧
    (∀ u, u ≠ t → run_by s u → run_by s' u) ∧ shutdown_requested s' = false.
Proof.
  intros [HI Hend] [Hex Hi] Hsd. pose proof Hex as (obj & Ht & Hs & Hq). destruct (si_sched _ _ HI) as (l & m & HW & Hsv).
  destruct (park_channel_run s l m t obj HW Ht Hs Hq Hsd) as [Hrun HW'].
  destruct (worker_park_law s t) as (s' & Hrun' & _ & L1 & L2 & L3 & L4 & L5); [by exists l, m|done..|].
  rewrite Hrun in Hrun'. injection Hrun' as <-. eexists. split; [done|]. split_and!; try done.
  - split; [|done]. eapply (sinv_task s _ t obj); [done..| |by right|done| |done|by left|done].
    + by intros [_ [E|E]].
    + intros Hl. eapply served_same; [done..|]. by apply Hsv.
  - intros u Hne [Hu Hj]. split; [by apply L4|done].
Qed.

Definition sys_laws : SchedulerLaws (sched P).
Proof.
  refine {| sch_ok := sinv_at; sch_parked := on_channel; sch_running := run_by; sch_flag := wake_flag |}.
  - intros s t [(obj & Ht & Hs & _) _] (obj' & Ht' & Hs'). congruence.
  - apply sinv_wake.
  - apply sinv_park.
  - intros s t b. apply worker_resume_law.
Defined.
End laws.
