(* ===== verification/System.v ===== *)
(** * The runtime as a whole (src/worker.c, src/channel.c, src/runtime.c)

    A state of the running program: the channels with the scheduler below
    them, where each worker thread is in its loop, and the blocking channel
    calls that tasks are inside of.  [act] executes one step of a worker, of
    the task it runs, or of a thread outside the pool; a step is a critical
    section of the code.  Which calls the tasks make, and what the kernel
    answers, is chosen by the label. *)

From S2P Require Import Prelude Posix Memory ArchX86 Task IoWait PollerApi Worker WorkerLoop SchedInv.
From S2P Require Import WaitQueue Channel Select ChannelInv ChannelClients ChannelCalls WorkerChannels.

Section system.
Context `{Alloc, Os, Entry} {P : Type} `{Poller P}.
Abbreviation CS := (cstate (sched P)).

(** ** Shutdown *)

(** [worker_request_shutdown] (worker.c, lines 439-454) *)
Definition worker_request_shutdown : M CS unit :=
  ok ← gets (λ s, runtime_init_ok (worker s));
  if negb ok then mret tt else
  on_worker (modify (set_shutdown_requested true));;
  croutine_channel_shutdown_all_locked;;
  on_worker cond_broadcast;;
  on_worker (modify (set_main_finished true));;
  on_worker croutine_poller_wake;;
  mret tt.

(** ** The calls a program can make *)

(** [croutine_io_forget_fd] (runtime.c) *)
Definition croutine_io_forget_fd (fd : Z) : M (sched P) unit := worker_forget_fd fd.

Inductive call :=
| Spawn (fpenv : Z * Z) (fn arg : Z)
| SpawnCopy (fpenv : Z * Z) (fn arg : Z) (arg_bytes : list byte) (arg_size : Z)
| IoWait (fd events : Z)
| IoForget (fd : Z)
| SetExitCode (code : Z)
| ChanCreate (elem_size capacity : Z)
| ChanDestroy (c : positive)
| ChanClose (c : positive)
| ChanSend (c : positive) (value : vptr)
| ChanRecv (c : positive) (out : vptr)
| ChanTrySend (c : positive) (value : vptr)
| ChanTryRecv (c : positive) (out : vptr)
| SelectOn (addr now rng : Z) (cases : list croutine_select_case) (has_default : bool)
| RequestShutdown
| Store (vs : gmap positive (list byte)).

(** The call up to its return ([None]) or to the switch back to the
    scheduler: the state the task yields with, and the channel call it is in
    the middle of.  [Store] is the program writing to its own objects. *)
Definition exec (current : option tid) (k : call) : M CS (option (TaskState * option blocked)) :=
  match k with
  | Spawn fpenv fn arg => on_worker (croutine_spawn fpenv fn arg);; mret None
  | SpawnCopy fpenv fn arg bytes size => on_worker (croutine_spawn_copy fpenv fn arg bytes size);; mret None
  | IoWait fd ev =>
      parked ← on_worker (worker_park_current_on_io current fd ev);
      mret (if (parked : bool) then Some (TASK_WAITING_IO, None) else None)
  | IoForget fd => on_worker (croutine_io_forget_fd fd);; mret None
  | SetExitCode code => on_worker (croutine_runtime_set_exit_code code);; mret None
  | ChanCreate esz cap => croutine_channel_create esz cap;; mret None
  | ChanDestroy c => croutine_channel_destroy (Some c);; mret None
  | ChanClose c => croutine_channel_close (Some c);; mret None
  | ChanSend c p =>
      r ← croutine_channel_send current (Some c) (Some p);
      match r with
      | SendReturn _ => mret None
      | SendPark _ w => mret (Some (TASK_WAITING_CHANNEL, Some (BSend c w)))
      end
  | ChanRecv c p =>
      r ← croutine_channel_recv current (Some c) (Some p);
      match r with
      | RecvReturn _ => mret None
      | RecvPark _ w => mret (Some (TASK_WAITING_CHANNEL, Some (BRecv c w)))
      end
  | ChanTrySend c p => croutine_channel_try_send (Some c) (Some p);; mret None
  | ChanTryRecv c p => croutine_channel_try_recv (Some c) (Some p);; mret None
  | SelectOn addr now rng cases has_default =>
      r ← croutine_select current addr now rng cases has_default;
      match r.1 with
      | SelectReturn _ _ => mret None
      | SelectPark _ ws st cases => mret (Some (TASK_WAITING_CHANNEL, Some (BSelect ws st cases)))
      end
  | RequestShutdown => worker_request_shutdown;; mret None
  | Store vs => modify (set_values vs);; mret None
  end.

(** ** States and steps *)

Record sys := mkSys {
  sy_state : CS;
  sy_workers : list pc;
  sy_calls : gmap tid blocked
}.

Inductive label :=
| LWorker (i : nat) (answers : list (sysres (list kernel_event)))
| LSpurious
| LStart
| LYield (i : nat)
| LReturn (i : nat)
| LCall (i : nat) (k : call)
| LResume (i : nat)
| LOutside (k : call).

(** The next step of a worker that is not running a task; [None] when the
    thread is blocked or has ended. *)
Definition worker_next (x : pc) (s : sched P) (answers : list (sysres (list kernel_event)))
    : option (M (sched P) pc) :=
  match x with
  | AtTop => Some (a ← loop_pass false; mret (after a false))
  | InPoll _ => Some (r ← on_poller (poller_wait MAX_POLLER_EVENTS answers); mret (Polled r))
  | Polled r => Some (a ← loop_polled r; mret (after a true))
  | InWait b => if 0 <? cond_woken s then Some (a ← loop_woken b; mret (after a b)) else None
  | Back t y => Some (b ← loop_should_shutdown; mret (Dispatching t y b))
  | Dispatching t y b => Some (loop_dispatch t y b;; mret AtTop)
  | Running _ | Exited => None
  end.

(** The task that worker [i] runs, and the call it is inside of. *)
Definition running (i : nat) (σ : sys) : option (tid * option blocked) :=
  match sy_workers σ !! i with
  | Some (Running t) => Some (t, sy_calls σ !! t)
  | _ => None
  end.

Definition spurious (s : sched P) : sched P :=
  set_cond_waiting (cond_waiting s - 1) (set_cond_woken (cond_woken s + 1) s).

Definition act (lb : label) (σ : sys) : option (outcome sys) :=
  let '(mkSys s ws calls) := σ in
  match lb with
  | LWorker i answers =>
      x ← ws !! i;
      m ← worker_next x (worker s) answers;
      Some ('(y, s') ← on_worker m s; Ok (mkSys s' (<[i := y]> ws) calls))
  | LSpurious =>
      if 0 <? cond_waiting (worker s)
      then Some (Ok (mkSys (set_worker (spurious (worker s)) s) ws calls)) else None
  | LStart => Some (Ok (mkSys s (ws ++ [AtTop]) calls))
  | LYield i =>
      match running i σ with
      | Some (t, None) =>
          w ← croutine_yield (Some t);
          Some (Ok (mkSys s (<[i := Back t (yielded_state w)]> ws) calls))
      | _ => None
      end
  | LReturn i =>
      match running i σ with
      | Some (t, None) =>
          Some ('(_, s') ← on_worker (task_finished (Some t)) s;
                Ok (mkSys s' (<[i := Back t TASK_FINISHED]> ws) calls))
      | _ => None
      end
  | LCall i k =>
      match running i σ with
      | Some (t, None) =>
          Some ('(r, s') ← exec (Some t) k s;
                Ok (match r with
                    | None => mkSys s' ws calls
                    | Some (y, b) => mkSys s' (<[i := Back t y]> ws) (partial_alter (λ _, b) t calls)
                    end))
      | _ => None
      end
  | LResume i =>
      match running i σ with
      | Some (t, Some b) =>
          Some ('(_, s') ← continue t b s; Ok (mkSys s' ws (delete t calls)))
      | _ => None
      end
  | LOutside k => Some ('(_, s') ← exec None k s; Ok (mkSys s' ws calls))
  end.
End system.
Arguments sys P : clear implicits.
Arguments label P {_}.
