(* ===== verification/Runtime.v ===== *)
(** * The runtime's life cycle (src/runtime.c)

    The thread that owns the runtime calls [croutine_runtime_init],
    [croutine_runtime_run] and [croutine_runtime_shutdown], or [croutine_run],
    which does all three.  The calls block, so they are cut at
    [pthread_create], at the wait for main and at each [pthread_join];
    [pr_driver] is where the thread is.  Around it run the workers, the tasks
    and the other threads of [System]. *)

From S2P Require Import Prelude Posix Memory ArchX86 Task IoWait PollerApi Worker WorkerLoop SchedInv.
From S2P Require Import WaitQueue Channel ChannelClients WorkerChannels System.

(** [croutine_runtime_config] *)
Record croutine_runtime_config := mkConfig {
  cfg_worker_count : Z;
  cfg_stack_size : Z
}.

(** Where the owning thread is.  [Idle] carries what its last call returned. *)
Inductive driver :=
| Idle (result : option Z)
| Creating (worker_id : Z)
| WaitingMain
| Joining (i exit_code : Z)
| Stopping (i : Z).

Definition SIZEOF_PTHREAD_T : Z := 8.
Definition MIN_STACK_SIZE : Z := 16 * 1024.

Section runtime.
Context `{Alloc, Os, Entry} {P : Type} `{Poller P}.

(** The static variables of the file and the rest of the process.
    [runtime_workers] is the length of the array, when there is one;
    [pr_joined] are the threads that have been joined; [pr_run] says that
    [croutine_run] is being executed, and in its last part with which
    result. *)
Record proc := mkProc {
  pr_sys : sys P;
  runtime_worker_count : Z;
  runtime_started_workers : Z;
  runtime_workers : option Z;
  runtime_initialized : bool;
  runtime_ever_initialized : bool;
  runtime_ran : bool;
  pr_driver : driver;
  pr_run : option (option Z);
  pr_joined : gset nat
}.

Definition set_sys x p := mkProc x (runtime_worker_count p) (runtime_started_workers p) (runtime_workers p)
  (runtime_initialized p) (runtime_ever_initialized p) (runtime_ran p) (pr_driver p) (pr_run p) (pr_joined p).
Definition set_worker_count x p := mkProc (pr_sys p) x (runtime_started_workers p) (runtime_workers p)
  (runtime_initialized p) (runtime_ever_initialized p) (runtime_ran p) (pr_driver p) (pr_run p) (pr_joined p).
Definition set_started_workers x p := mkProc (pr_sys p) (runtime_worker_count p) x (runtime_workers p)
  (runtime_initialized p) (runtime_ever_initialized p) (runtime_ran p) (pr_driver p) (pr_run p) (pr_joined p).
Definition set_workers x p := mkProc (pr_sys p) (runtime_worker_count p) (runtime_started_workers p) x
  (runtime_initialized p) (runtime_ever_initialized p) (runtime_ran p) (pr_driver p) (pr_run p) (pr_joined p).
Definition set_initialized x p := mkProc (pr_sys p) (runtime_worker_count p) (runtime_started_workers p)
  (runtime_workers p) x (runtime_ever_initialized p) (runtime_ran p) (pr_driver p) (pr_run p) (pr_joined p).
Definition set_ever_initialized x p := mkProc (pr_sys p) (runtime_worker_count p) (runtime_started_workers p)
  (runtime_workers p) (runtime_initialized p) x (runtime_ran p) (pr_driver p) (pr_run p) (pr_joined p).
Definition set_ran x p := mkProc (pr_sys p) (runtime_worker_count p) (runtime_started_workers p)
  (runtime_workers p) (runtime_initialized p) (runtime_ever_initialized p) x (pr_driver p) (pr_run p) (pr_joined p).
Definition set_driver x p := mkProc (pr_sys p) (runtime_worker_count p) (runtime_started_workers p)
  (runtime_workers p) (runtime_initialized p) (runtime_ever_initialized p) (runtime_ran p) x (pr_run p) (pr_joined p).
Definition set_run x p := mkProc (pr_sys p) (runtime_worker_count p) (runtime_started_workers p)
  (runtime_workers p) (runtime_initialized p) (runtime_ever_initialized p) (runtime_ran p) (pr_driver p) x (pr_joined p).
Definition set_joined x p := mkProc (pr_sys p) (runtime_worker_count p) (runtime_started_workers p)
  (runtime_workers p) (runtime_initialized p) (runtime_ever_initialized p) (runtime_ran p) (pr_driver p) (pr_run p) x.

(** Code of the other files. *)
Definition on_state {A} (m : M (cstate (sched P)) A) : M proc A := λ p,
  '(a, s) ← m (sy_state (pr_sys p));
  Ok (a, set_sys (mkSys s (sy_workers (pr_sys p)) (sy_calls (pr_sys p))) p).
Definition on_sched {A} (m : M (sched P) A) : M proc A := on_state (on_worker m).

(** ** Initialisation *)

(** [online] is the answer of [sysconf(_SC_NPROCESSORS_ONLN)]. *)
Definition croutine_runtime_init (config : option croutine_runtime_config) (online : Z) : M proc bool :=
  p ← get;
  if runtime_initialized p || runtime_ever_initialized p then mret false else
  let worker_count := if config is Some c then cfg_worker_count c else 0 in
  if (worker_count =? 0) && (online <=? 0) then mret false else
  let worker_count := if worker_count =? 0 then online else worker_count in
  let stack_size := if config is Some c then cfg_stack_size c else 0 in
  let stack_size := if stack_size =? 0 then CROUTINE_DEFAULT_STACK_SIZE else stack_size in
  if stack_size <? MIN_STACK_SIZE then mret false else
  on_sched (worker_configure_stack_size stack_size);;
  on_sched worker_reset_main_state;;
  ok ← on_sched worker_init;
  if negb ok then modify (set_ever_initialized true);; mret false else
  modify (set_ever_initialized true);;
  modify (set_worker_count worker_count);;
  modify (set_initialized true);;
  mret true.

(** ** Shutdown *)

Definition croutine_runtime_request_shutdown : M proc unit :=
  p ← get;
  if runtime_initialized p then on_state worker_request_shutdown else mret tt.

(** [croutine_runtime_shutdown] returns, to its caller or to [croutine_run],
    which returns the result of [croutine_runtime_run]. *)
Definition shutdown_returns : M proc unit :=
  p ← get;
  match pr_run p with
  | Some r => modify (set_run None);; modify (set_driver (Idle r))
  | None => modify (set_driver (Idle None))
  end.

Definition croutine_runtime_shutdown : M proc unit :=
  p ← get;
  if negb (runtime_initialized p) then shutdown_returns else
  on_state worker_request_shutdown;;
  modify (set_driver (Stopping 0)).

(** [pthread_join(runtime_workers[i])] of a thread that has ended; joining a
    thread twice is undefined. *)
Definition join_worker (i : Z) : M proc unit :=
  p ← get;
  match runtime_workers p with
  | Some n =>
      if (i <? n) && bool_decide (Z.to_nat i ∉ pr_joined p)
      then modify (set_joined ({[Z.to_nat i]} ∪ pr_joined p)) else stuck
  | None => stuck
  end.

(** [free(runtime_workers)] and the two assignments after it. *)
Definition free_workers : M proc unit :=
  modify (set_workers None);; modify (set_started_workers 0).

Definition shutdown_join_step (i : Z) : M proc unit :=
  p ← get;
  if i <? runtime_started_workers p then join_worker i;; modify (set_driver (Stopping (i + 1))) else
  free_workers;;
  on_sched worker_deinit;;
  modify (set_initialized false);;
  shutdown_returns.

(** ** Running *)

Definition run_returns (result : Z) : M proc unit :=
  p ← get;
  match pr_run p with
  | Some _ => modify (set_run (Some (Some result)));; croutine_runtime_shutdown
  | None => modify (set_driver (Idle (Some result)))
  end.

Definition croutine_runtime_run (fpenv : Z * Z) (main_fn arg : Z) : M proc unit :=
  p ← get;
  if negb (runtime_initialized p) || runtime_ran p || (main_fn =? 0) then run_returns (-1) else
  modify (set_ran true);;
  spawned ← on_sched (worker_spawn fpenv main_fn arg [] 0 false true);
  if negb spawned then run_returns (-1) else
  if calloc_ok (runtime_worker_count p) SIZEOF_PTHREAD_T then
    modify (set_workers (Some (runtime_worker_count p)));;
    modify (set_driver (Creating 0))
  else on_state worker_request_shutdown;; run_returns (-1).

(** The loop has ended: wait for main if every worker was created. *)
Definition creation_done : M proc unit :=
  p ← get;
  if runtime_started_workers p =? runtime_worker_count p
  then modify (set_driver WaitingMain) else modify (set_driver (Joining 0 (-1))).

(** One iteration; [error] is the answer of [pthread_create], and the new
    thread enters [worker_loop]. *)
Definition create_step (worker_id error : Z) : M proc unit :=
  p ← get;
  if worker_id <? runtime_worker_count p then
    if worker_id <? default 0 (runtime_workers p) then
      if negb (error =? 0) then on_state worker_request_shutdown;; creation_done else
      modify (λ p, set_sys (mkSys (sy_state (pr_sys p)) (sy_workers (pr_sys p) ++ [AtTop]) (sy_calls (pr_sys p))) p);;
      modify (λ p, set_started_workers (u64 (runtime_started_workers p + 1)) p);;
      modify (set_driver (Creating (u64 (worker_id + 1))))
    else stuck
  else creation_done.

Definition join_step (i exit_code : Z) : M proc unit :=
  p ← get;
  if i <? runtime_started_workers p then join_worker i;; modify (set_driver (Joining (i + 1) exit_code)) else
  free_workers;;
  run_returns exit_code.

Definition croutine_run (config : option croutine_runtime_config) (online : Z) (fpenv : Z * Z) (main_fn arg : Z)
    : M proc unit :=
  if main_fn =? 0 then modify (set_driver (Idle (Some (-1)))) else
  ok ← croutine_runtime_init config online;
  if negb ok then modify (set_driver (Idle (Some (-1)))) else
  modify (set_run (Some None));;
  croutine_runtime_run fpenv main_fn arg.

(** ** Steps of the process *)

Inductive plabel :=
| PInit (config : option croutine_runtime_config) (online : Z)
| PRun (fpenv : Z * Z) (main_fn arg : Z)
| PShutdown
| PWhole (config : option croutine_runtime_config) (online : Z) (fpenv : Z * Z) (main_fn arg : Z)
| PDriver (error : Z)
| PRequest
| PSys (lb : label P).

Definition worker_gone (p : proc) (i : Z) : bool :=
  if i <? runtime_started_workers p
  then match sy_workers (pr_sys p) !! Z.to_nat i with Some Exited => true | _ => false end else true.

(** The next step of the owning thread; [None] when it is blocked or has
    nothing to do. *)
Definition driver_next (p : proc) (error : Z) : option (M proc unit) :=
  match pr_driver p with
  | Idle _ => None
  | Creating worker_id => Some (create_step worker_id error)
  | WaitingMain =>
      match worker_wait_for_main (worker (sy_state (pr_sys p))) with
      | Ok (Some code, _) => Some (modify (set_driver (Joining 0 code)))
      | _ => None
      end
  | Joining i exit_code => if worker_gone p i then Some (join_step i exit_code) else None
  | Stopping i => if worker_gone p i then Some (shutdown_join_step i) else None
  end.

Definition exec_proc (m : M proc unit) (p : proc) : outcome proc := '(_, p') ← m p; Ok p'.

Definition pact (lb : plabel) (p : proc) : option (outcome proc) :=
  match lb, pr_driver p with
  | PInit config online, Idle _ =>
      Some (exec_proc (ok ← croutine_runtime_init config online; modify (set_driver (Idle (Some (Z.b2z ok))))) p)
  | PRun fpenv main_fn arg, Idle _ => Some (exec_proc (croutine_runtime_run fpenv main_fn arg) p)
  | PShutdown, Idle _ => Some (exec_proc croutine_runtime_shutdown p)
  | PWhole config online fpenv main_fn arg, Idle _ =>
      Some (exec_proc (croutine_run config online fpenv main_fn arg) p)
  | PDriver error, _ => m ← driver_next p error; Some (exec_proc m p)
  | PRequest, _ => Some (exec_proc croutine_runtime_request_shutdown p)
  | PSys LStart, _ => None
  | PSys lb, _ => o ← act lb (pr_sys p); Some (σ ← o; Ok (set_sys σ p))
  | _, _ => None
  end.
End runtime.
Arguments proc P : clear implicits.
Arguments plabel P {_}.
