(* ===== verification/SystemInv.v ===== *)
(** * The invariant of the whole runtime

    Whatever the tasks and the other threads call, as long as they call it
    with valid arguments, every step of [act] runs to an end and keeps the
    invariant: the channels represent an abstract state in which nobody waits
    in vain, the scheduler's bookkeeping is right for the workers there are,
    and the blocked calls can be completed. *)

From S2P Require Import Prelude Posix Memory ArchX86 Task IoWait PollerApi Worker WorkerInv.
From S2P Require Import Resources WorkerIo WorkerLoop SchedInv SchedSteps SchedCalls.
From S2P Require Import WaitQueue Channel ChannelBuffer ChannelInv ChannelSpec ChannelRefine ChannelOps.
From S2P Require Import ChannelWait ChannelBlock ChannelRegistry Select SelectSim.
From S2P Require Import ChannelClients ChannelCalls WorkerChannels SchedChannels System.

Section inv.
Context `{Alloc, Os, Entry} {P : Type} `{PollerLaws P}.
Hypothesis grants : calloc_grants.
Hypothesis reliable : wake_reliable (P:=P).
Hypothesis pages : page_size_ok.
Hypothesis fresh_maps : mmap_fresh.
Implicit Types (s : cstate (sched P)) (wk : sched P) (pcs : list pc) (t u : tid) (pd : gmap tid blocked) (σ : sys P).

Abbreviation laws_at pcs ended := (sys_laws pcs ended grants reliable).

(** Shutdown was requested and nobody is parked on a channel any more. *)
Definition halted wk : Prop := shutdown_requested wk = true ∧ ∀ t, ¬ on_channel wk t.

(** ** The scheduler moves, the channels stay *)

Lemma on_channel_chans wk u : on_channel wk u ↔ ∃ b, chans wk !! u = Some (true, b).
Proof.
  unfold on_channel, chans, chan_view. rewrite lookup_fmap. split.
  - intros (obj & -> & Hs). cbn. rewrite bool_decide_eq_true_2 by done. eauto.
  - intros [b Hb]. destruct (heap wk !! u) as [obj|]; [|done]. exists obj. split; [done|].
    injection Hb as Hb _. by apply bool_decide_eq_true in Hb.
Qed.
Lemma wake_flag_chans wk u : wake_flag wk u = snd <$> chans wk !! u.
Proof. unfold wake_flag, chans, chan_view. rewrite lookup_fmap. by destruct (heap wk !! u). Qed.

Lemma halted_less wk wk' : shutdown_requested wk' = shutdown_requested wk →
  (∀ t, on_channel wk' t → on_channel wk t) → halted wk → halted wk'.
Proof. intros E Hp [Hs Hq]. split; [congruence|]. intros t Ht. by apply (Hq t), Hp. Qed.
Lemma halted_same wk wk' : shutdown_requested wk' = shutdown_requested wk → chans wk' = chans wk → halted wk → halted wk'.
Proof. intros E Ec. apply halted_less; [done|]. intros t. by rewrite !on_channel_chans, Ec. Qed.

Lemma cref_worker pcs pcs' e e' s A wk :
  cref (H0 := laws_at pcs e) s A → sinv_at pcs' e' wk → (∀ u, on_channel wk u ↔ on_channel (worker s) u) →
  cref (H0 := laws_at pcs' e') (set_worker wk s) A.
Proof.
  intros (B & Q & [I1 I2 I3 I4 I5 I6 I7 I8 I9] & Hd & E) Hs Hc. exists B, Q. split; [|done].
  split; try done.
  - intros c ch op w Hch Hw. destruct (I5 c ch op w Hch Hw) as (x & Hx & [O1 (t & O2 & O3) O4 O5]).
    exists x. split; [done|]. split; try done. exists t. split; [done|]. intros Hl. by apply Hc, O3.
  - intros t Ht. apply I8. by apply Hc.
Qed.

(** What the scheduler may do to the tasks without the channels noticing. *)
Definition unnoticed wk wk' pd : Prop :=
  ∀ u, chans wk' !! u = chans wk !! u ∨
    (pd !! u = None ∧ (∀ b, chans wk' !! u ≠ Some (true, b)) ∧ ∀ b, chans wk !! u ≠ Some (true, b)).

Lemma chan_ok_worker pcs pcs' e e' s A l pd wk :
  chan_ok (H1 := laws_at pcs e) s A l pd → sinv_at pcs' e' wk → unnoticed (worker s) wk pd →
  chan_ok (H1 := laws_at pcs' e') (set_worker wk s) A l pd.
Proof.
  intros [C1 C2 C3 C4] Hs Hu.
  assert (∀ u, on_channel wk u ↔ on_channel (worker s) u) as Hc.
  { intros u. rewrite !on_channel_chans. destruct (Hu u) as [->|(_ & H1' & H2')]; [done|]. naive_solver. }
  split; [by eapply cref_worker|done|done|].
  destruct C4 as [C4 C5]. split; [|exact C5].
  intros t b Hb. specialize (C4 t b Hb). destruct (Hu t) as [E|(E & _)]; [|congruence].
  assert (wake_flag wk t = wake_flag (worker s) t) as Ef by (by rewrite !wake_flag_chans, E).
  destruct b as [c w|c w|ws st cases]; cbn in *.
  - destruct C4 as [Hx Hf]. split; [done|]. cbn in *. by rewrite Ef.
  - destruct C4 as [Hx Hf]. split; [done|]. cbn in *. by rewrite Ef.
  - destruct C4 as [O1 [O2 O2'] O3 (ss & Hss & O4)]. split; try done. exists ss. split; [done|]. cbn in *.
    rewrite Ef. destruct (done ss); [|by apply Hc]. rewrite <-Hc in O4. done.
Qed.

Lemma unnoticed_same wk wk' pd : chans wk' = chans wk → unnoticed wk wk' pd.
Proof. intros E u. left. by rewrite E. Qed.

(** ** The invariant *)

Context (ended : bool).
Abbreviation laws pcs := (laws_at pcs ended).
Abbreviation ok_at pcs := (chan_ok (H1 := laws pcs)).

(** A call ends or its task has not switched back as runnable. *)
Definition calls_ok pcs pd : Prop := ∀ i x t, pcs !! i = Some x → holds x = Some t →
  (∃ u, x = Running u) ∨ pd !! t = None.

Record sys_inv σ : Prop := {
  sv_chan : ∃ A l, ok_at (sy_workers σ) (sy_state σ) A l (sy_calls σ);
  sv_running : running_ok (sy_workers σ) (worker (sy_state σ));
  sv_calls : calls_ok (sy_workers σ) (sy_calls σ)
}.

Lemma not_parked pcs s A l pd t b : ok_at pcs s A l pd → pd !! t = None → chans (worker s) !! t ≠ Some (true, b).
Proof.
  intros HC Hn E. destruct (parked_client (H1 := laws pcs) s A pd t) as [x Hx]; [apply HC|apply HC| |congruence].
  apply on_channel_chans. eauto.
Qed.

Lemma sys_at s pcs pd : sys_inv (mkSys s pcs pd) → sinv_at pcs ended (worker s).
Proof. intros [(A & l & [(B & Q & HI & _) _ _ _]) _ _]. exact (ci_sched _ _ _ _ HI). Qed.
Lemma sys_sinv s pcs pd : sys_inv (mkSys s pcs pd) → sinv pcs (worker s).
Proof. intros HV. apply (sys_at _ _ _ HV). Qed.

(** A step of worker [i] that leaves the tasks' channel business alone. *)
Lemma sys_moved s pcs pd i y wk :
  sys_inv (mkSys s pcs pd) → moved pcs (worker s) i y wk →
  (∀ t, holds y = Some t → (∃ u, y = Running u) ∨ pd !! t = None) →
  sys_inv (mkSys (set_worker wk s) (<[i := y]> pcs) pd).
Proof.
  intros HV [M1 M2 M3 _ M5] Hy. pose proof (proj2 (sys_at _ _ _ HV)) as He.
  destruct HV as [(A & l & HC) HR HK]. split; cbn in *.
  - exists A, l. eapply chan_ok_worker; [done|split; auto|]. by apply unnoticed_same.
  - done.
  - intros j x t. rewrite list_lookup_insert_Some. intros [(<- & <- & _)|[_ Hj]] Hx; [by apply Hy|by eapply HK].
Qed.

(** The scheduler changes, no worker moves. *)
Lemma sys_still s pcs pd wk :
  sys_inv (mkSys s pcs pd) → sinv_at pcs ended wk → running_ok pcs wk → unnoticed (worker s) wk pd →
  sys_inv (mkSys (set_worker wk s) pcs pd).
Proof.
  intros [(A & l & HC) HR HK] Hs HR' Hu. split; [|done..]. exists A, l. by eapply chan_ok_worker.
Qed.

Lemma sys_returned s s' pcs pd pd' :
  sys_inv (mkSys s pcs pd) → returned (H1 := laws pcs) s s' pd' → calls_ok pcs pd' → sys_inv (mkSys s' pcs pd').
Proof.
  intros [_ HR _] [R1 R2 _] HK. split; [done| |done]. intros i t Hi. cbn in *.
  destruct (R2 t) as [Hex _]; [|exact Hex]. split; [by eapply HR|]. by exists i.
Qed.

Lemma sinv_parked pcs wk i t y :
  sinv pcs wk → pcs !! i = Some (Running t) → y = TASK_WAITING_CHANNEL → on_channel wk t →
  sinv (<[i := Back t y]> pcs) wk.
Proof.
  intros HI Hi -> (obj & Ht & Hs). pose proof (si_cond _ _ HI) as (C1 & C2 & C3).
  destruct (si_sched _ _ HI) as (l & m & HW & Hsv).
  eapply (sinv_move pcs wk wk i (Running t) _ l m); try done; try apply HI; cbn; try lia.
  - intros _. by eapply served_awake.
  - intros u o Ho Hl. right. exists o. split_and!; [done..|]. intros [= ->]. simplify_eq.
    destruct Hl as [_ [E|E]]; congruence.
  - by eapply calm_move; [apply HI|..].
Qed.

Lemma sys_blocked s s' pcs pd i t b :
  sys_inv (mkSys s pcs pd) → pcs !! i = Some (Running t) → blocks_task (H1 := laws pcs) s s' t b pd →
  sys_inv (mkSys s' (<[i := Back t TASK_WAITING_CHANNEL]> pcs) (<[t := b]> pd)).
Proof.
  intros [(A0 & l0 & HC0) HR HK] Hi [(A & l & HC) B2 B3 _]. cbn in *.
  pose proof HC as [(B & Q & HI & _) _ _ _]. pose proof (ci_sched _ _ _ _ HI) as [Hs He].
  assert (∀ j z u, pcs !! j = Some z → holds z = Some u → j ≠ i → u ≠ t) as Hother.
  { intros j z u Hj Hz Hne ->. by apply Hne, (si_once _ _ Hs j i z (Running t) t). }
  split; cbn.
  - exists A, l. assert (set_worker (worker s') s' = s') as E by (by destruct s'). rewrite <-E.
    eapply chan_ok_worker; [done| |by apply unnoticed_same]. split; [by apply sinv_parked|done].
  - intros j u. rewrite list_lookup_insert_Some. intros [(_ & ? & _)|[Hne Hj]]; [done|].
    destruct (B3 u) as [Hex _]; [by eapply Hother| |exact Hex]. split; [by eapply HR|]. by exists j.
  - intros j x u. rewrite list_lookup_insert_Some. intros [(_ & <- & _)|[Hne Hj]] Hx; [done|].
    destruct (HK j x u Hj Hx) as [?|Hn]; [by left|right]. rewrite lookup_insert_ne; [done|].
    intros <-. by apply (Hother j x t).
Qed.

(** ** The workers *)

(** The kernel's answers to a poll. *)
Definition answers_ok (answers : list (sysres (list kernel_event))) : Prop :=
  answered answers ∧ fits_in MAX_POLLER_EVENTS answers ∧ ∀ evs, Done evs ∈ answers → Forall event_ok evs.

(** How a step may end the process: the kernel refused to change the
    registration of a descriptor, or waiting failed. *)
Definition fatal (e : string) : Prop := e = interest_refused ∨ e = wait_failed.

Lemma on_worker_run {A} (m : M (sched P) A) s a wk :
  m (worker s) = Ok (a, wk) → on_worker m s = Ok (a, set_worker wk s).
Proof. intros E. unfold on_worker. by rewrite E. Qed.
Lemma on_worker_abort {A} (m : M (sched P) A) s e : m (worker s) = Abort e → on_worker m s = Abort e.
Proof. intros E. unfold on_worker. by rewrite E. Qed.
Lemma bind_abort {A B} (m : M (sched P) A) (f : A → M (sched P) B) wk e :
  m wk = Abort e → (m ≫= f) wk = Abort e.
Proof. intros E. unfold mbind, M_bind. by rewrite E. Qed.

Lemma sys_dispatched s pcs pd i t y b wk :
  sys_inv (mkSys s pcs pd) → pcs !! i = Some (Dispatching t y b) →
  dispatched pcs (worker s) i t (frees y b) wk → sys_inv (mkSys (set_worker wk s) (<[i := AtTop]> pcs) pd).
Proof.
  intros HV Hi [D1 D2 _ D3 D4]. pose proof (proj2 (sys_at _ _ _ HV)) as He.
  destruct HV as [(A & l & HC) HR HK]. split; cbn in *; [|done|].
  - exists A, l. eapply chan_ok_worker; [done|split; auto|]. destruct (frees y b) eqn:Ef; [|by apply unnoticed_same].
    intros u. rewrite D4. destruct (decide (u = t)) as [->|Hne]; [right|left; by rewrite lookup_delete_ne].
    assert (pd !! t = None) as Hn.
    { destruct (HK i _ t Hi) as [[? ?]|?]; [|done..]. by destruct y, b. }
    split_and!; [done| |]; intros b'; [by rewrite lookup_delete_eq|by eapply not_parked].
  - intros j x u. rewrite list_lookup_insert_Some. intros [(_ & <- & _)|[_ Hj]] Hx; [done|by eapply HK].
Qed.

Lemma worker_step s pcs pd i x answers m :
  sys_inv (mkSys s pcs pd) → pcs !! i = Some x → worker_next x (worker s) answers = Some m →
  ((∃ ms, x = InPoll ms) → answers_ok answers) →
  (∃ e, on_worker m s = Abort e ∧ fatal e) ∨
  ∃ y s', on_worker m s = Ok (y, s') ∧ sys_inv (mkSys s' (<[i := y]> pcs) pd) ∧
    (halted (worker s) → halted (worker s')).
Proof.
  intros HV Hi Hm Ha. pose proof (sys_sinv _ _ _ HV) as HI. pose proof (sv_running _ HV) as HR. cbn in HR.
  assert (∀ y wk, m (worker s) = Ok (y, wk) → moved pcs (worker s) i y wk →
    (∀ t, holds y = Some t → (∃ u, y = Running u) ∨ pd !! t = None) →
    ∃ y s', on_worker m s = Ok (y, s') ∧ sys_inv (mkSys s' (<[i := y]> pcs) pd) ∧
      (halted (worker s) → halted (worker s'))) as Hgo.
  { intros y wk Hrun Hmv Hy. eexists y, _. split; [by apply on_worker_run|]. split; [by apply sys_moved|].
    apply halted_same; apply Hmv. }
  assert (∀ a b t, holds (after a b) = Some t → (∃ u, after a b = Running u) ∨ pd !! t = None) as Hafter.
  { intros [|ms|u|] b t; cbn; eauto; done. }
  destruct x as [|ms|r|b|t|t y|t y b|]; try done; cbn in Hm.
  - right. injection Hm as <-. destruct (pass_run pcs (worker s) i false HI HR Hi) as (a & wk & Hrun & Hmv).
    eapply Hgo; [by rewrite (bind_ok _ _ _ _ _ Hrun)|done|auto].
  - right. injection Hm as <-. destruct Ha as (A1 & A2 & A3); [eauto|].
    destruct (poll_run pcs (worker s) i ms answers HI HR Hi A1 A2 A3) as (r & wk & Hrun & Hmv).
    eapply Hgo; [by rewrite (bind_ok _ _ _ _ _ Hrun)|done|done].
  - injection Hm as <-. destruct (polled_run pcs (worker s) i r grants HI HR Hi) as [[Hab _]|[Hab|(a & wk & Hrun & Hmv)]].
    + left. exists wait_failed. split; [by apply on_worker_abort, bind_abort|by right].
    + left. exists interest_refused. split; [by apply on_worker_abort, bind_abort|by left].
    + right. eapply Hgo; [by rewrite (bind_ok _ _ _ _ _ Hrun)|done|auto].
  - right. destruct (Z.ltb_spec 0 (cond_woken (worker s))); [|done]. injection Hm as <-.
    destruct (woken_run pcs (worker s) i b HI HR Hi) as (a & wk & Hrun & Hmv); [done|].
    eapply Hgo; [by rewrite (bind_ok _ _ _ _ _ Hrun)|done|auto].
  - right. injection Hm as <-. destruct (back_run pcs (worker s) i t y HI HR Hi) as [Hrun Hmv].
    eapply Hgo; [by rewrite (bind_ok _ _ _ _ _ Hrun)|done|]. intros u Hu.
    destruct (sv_calls _ HV i _ u Hi Hu) as [[? ?]|?]; [done|by right].
  - right. injection Hm as <-. destruct (dispatch_run pcs (worker s) i t y b grants HI HR Hi) as (wk & Hrun & Hd).
    eexists AtTop, _. split; [apply on_worker_run; by rewrite (bind_ok _ _ _ _ _ Hrun)|].
    split; [by eapply sys_dispatched|]. apply halted_less; [apply Hd|]. intros u. cbn.
    rewrite !on_channel_chans, (dp_chans _ _ _ _ _ _ Hd). destruct (frees y b); [|done].
    intros [b' [_ Hb]%lookup_delete_Some]. eauto.
Qed.

(** ** Shutdown *)

(** Flags and the condition variable change while the runtime is stopping. *)
Lemma sinv_stopping pcs wk wk' :
  sinv pcs wk → stopping wk' → heap wk' = heap wk → runnable_tasks wk' = runnable_tasks wk →
  io_waits wk' = io_waits wk → maps wk' = maps wk → blocks wk' = blocks wk →
  (poller_ready (poller wk) → poller_ready (poller wk')) →
  (∀ d, fd_valid (poller wk') d ↔ fd_valid (poller wk) d) →
  (∀ d, interest (poller wk') d = interest (poller wk) d) →
  runtime_init_called wk' = runtime_init_called wk ∧ runtime_init_ok wk' = runtime_init_ok wk ∧
  configured_stack_size wk' = configured_stack_size wk →
  poller_waiter_active wk' = poller_waiter_active wk ∧ idle_workers wk' = idle_workers wk →
  (cv wk' = cv wk ∨ cv wk' = broadcast (cv wk)) → calm pcs wk' → sinv pcs wk'.
Proof.
  intros [I1 I2 I3 I4 I5 I6 I7 I8 I9 I10 I11 I12 I13 _] Hst E1 E2 E3 E4 E5 E6 E7 E8 (E9 & E10 & E11) [E12 E13] Ec Hca.
  destruct (cv_less wk wk') as (D1 & D2 & D3); [by apply I8|tauto|].
  split; rewrite ?E1, ?E4, ?E5, ?E9, ?E10, ?E11, ?E12, ?E13; try done; try lia.
  - destruct I1 as (l & m & HW & _). exists l, m. split; [by eapply winv_ext; [..|exact HW]|]. intros _. by left.
  - intros Hw. apply I10. lia.
Qed.

Lemma sys_stopping s pcs pd wk :
  sys_inv (mkSys s pcs pd) → sinv_at pcs ended wk → heap wk = heap (worker s) →
  sys_inv (mkSys (set_worker wk s) pcs pd).
Proof.
  intros HV Hs Hh. apply sys_still; [done..| |].
  - unfold running_ok. rewrite Hh. apply (sv_running _ HV).
  - apply unnoticed_same. unfold chans. by rewrite Hh.
Qed.

(** [worker_request_shutdown] runs to an end.  Afterwards the flag is set,
    no task is parked on a channel, every channel is closed, nobody is
    blocked on the condition variable and the poller has a wake-up. *)
Lemma shutdown_step s pcs pd :
  sys_inv (mkSys s pcs pd) →
  ∃ s', worker_request_shutdown s = Ok (tt, s') ∧ sys_inv (mkSys s' pcs pd) ∧
    shutdown_requested (worker s') = true ∧ main_finished (worker s') = true ∧
    cond_waiting (worker s') = 0 ∧ wake_pending (poller (worker s')) ∧
    (∀ t, ¬ on_channel (worker s') t) ∧ (∀ c ch, channels s' !! c = Some ch → closed ch = true).
Proof.
  intros HV. pose proof (sys_sinv _ _ _ HV) as HI. unfold worker_request_shutdown.
  rewrite (bind_ok _ _ s true s) by (unfold gets; by rewrite (proj2 (si_init _ _ HI))). cbn [negb].
  set (wk1 := set_shutdown_requested true (worker s)). set (s1 := set_worker wk1 s).
  rewrite (bind_ok _ _ s tt s1) by done.
  assert (sys_inv (mkSys s1 pcs pd)) as HV1.
  { apply sys_stopping; [done| |done]. split; [|apply (sys_at _ _ _ HV)]. eapply sinv_stopping; try done; [by left|by left|].
    by eapply calm_same; [apply HI|..|]; [|by left|..]. }
  destruct HV1 as [(A & l & HC) HR1 HK1] eqn:E1. cbn in HC. clear E1.
  destruct (shutdown_call (H1 := laws pcs) s1 A l pd HC) as (s2 & Hrun & Hret & Hnp & Hcl).
  rewrite (bind_ok _ _ _ _ _ Hrun).
  pose proof (sys_returned s1 s2 pcs pd pd HV1 Hret HK1) as HV2. pose proof (sys_sinv _ _ _ HV2) as HI2.
  assert (shutdown_requested (worker s2) = true) as Hsd by exact (rt_shutdown _ _ _ Hret).
  destruct (cond_broadcast_run (worker s2)) as (wk3 & Hb & B1 & B2 & B3 & B4 & B5 & B6).
  rewrite (bind_ok _ _ _ _ _ (on_worker_run _ _ _ _ Hb)).
  destruct (rest_ctl _ _ B5) as (B7 & B8 & B9). destruct (ctl_stop _ _ B9) as (_ & C1 & C2 & C3 & C4 & C5 & C6).
  set (wk4 := set_main_finished true wk3).
  rewrite (bind_ok _ _ _ tt (set_worker wk4 s2)) by done.
  destruct (si_sched _ _ HI2) as (l4 & m4 & HW2 & _).
  assert (poller_ready (poller wk4)) as Hrdy by (unfold wk4; cbn; rewrite B4; apply HW2).
  destruct (poller_wake_run wk4 Hrdy) as (b & p' & Hw & P1 & P2 & P3 & P4 & P5).
  rewrite (bind_ok _ _ _ _ _ (on_worker_run croutine_poller_wake (set_worker wk4 s2) b _ Hw)).
  pose proof (wake_reliable_run wk4 b p' reliable Hrdy Hw P5) as Hpend.
  set (wk5 := set_poller p' wk4). injection B6 as B6 B6'.
  assert (stopping wk5) as Hst by (left; cbn; congruence).
  eexists. split; [done|]. split_and!; try done.
  - apply (sys_stopping s2); [done| |done]. split; [|done]. eapply sinv_stopping; [exact HI2|done..| | | | | | |]; try done.
    + intros d. cbn. by rewrite P2, <-B4.
    + intros d. cbn. by rewrite P3, <-B4.
    + right. unfold cv, broadcast. cbn. by rewrite B6, B6'.
  - cbn. congruence.
  - intros t (obj & Ht & Hs). apply (Hnp t). exists obj. by rewrite <-B1.
Qed.

(** ** The calls *)

(** The arguments of a call are valid: channels are live, value objects have
    the element size, descriptors are not the poller's own, the bytes to copy
    are there. *)
Definition live_slot s (c : positive) (p : option vptr) : Prop :=
  ∃ ch, channels s !! c = Some ch ∧ slot_ok s ch p.
Definition call_ok s (k : call) : Prop :=
  match k with
  | SpawnCopy _ _ _ bytes size => size ≤ Z.of_nat (length bytes)
  | IoWait fd ev => fd_valid (poller (worker s)) fd ∧ one_event ev
  | ChanCreate esz cap => 0 ≤ esz ≤ SIZE_MAX ∧ 0 ≤ cap ≤ SIZE_MAX
  | ChanDestroy c | ChanClose c => is_Some (channels s !! c)
  | ChanSend c p | ChanRecv c p | ChanTrySend c p | ChanTryRecv c p => live_slot s c (Some p)
  | SelectOn _ _ rng cases _ => 0 < Z.of_nat (length cases) ≤ 2 ^ 31 ∧ 0 ≤ rng < 2 ^ 64 ∧
      ∀ cs c, cs ∈ cases → case_channel cs = Some c → live_slot s c (case_value cs)
  | Store vs => ∀ o bs, values s !! o = Some bs → ∃ bs', vs !! o = Some bs' ∧ length bs' = length bs
  | Spawn _ _ _ | IoForget _ | SetExitCode _ | RequestShutdown => True
  end.

Lemma live_abs pcs s A c : cref (H0 := laws pcs) s A → is_Some (channels s !! c) → is_Some (a_chans A !! c).
Proof. intros (B & Q & _ & _ & <-) [ch Hc]. rewrite abs_lookup, Hc. by eexists. Qed.
Lemma slot_abs pcs s A c a p :
  cref (H0 := laws pcs) s A → live_slot s c p → a_chans A !! c = Some a → is_Some (a_read A p (a_elem a)).
Proof.
  intros (B & Q & HI & _ & <-) (ch & Hc & Hs) Ha. rewrite abs_lookup, Hc in Ha. injection Ha as <-. cbn.
  apply a_read_slot; [apply (buf_elem _ _ (ci_buf _ _ _ _ HI c ch Hc))|].
  destruct Hs as [?|(o & bs & -> & Hb & Hl)]; [by left|right]. eauto.
Qed.
Lemma live_usable pcs s A c p : cref (H0 := laws pcs) s A → live_slot s c p → usable A c p.
Proof.
  intros HR Hl. destruct (live_abs pcs s A c HR) as [a Ha]; [destruct Hl as (ch & Hc & _); eauto|].
  exists a. split; [done|]. by eapply slot_abs.
Qed.

Section exec.
Context (s : cstate (sched P)) (pcs : list pc) (pd : gmap tid blocked).
Hypothesis HV : sys_inv (mkSys s pcs pd).
(** The caller: a task some worker runs and that is in no call, or a thread
    outside the pool. *)
Context (who : option (nat * tid)).
Hypothesis Hwho : ∀ i t, who = Some (i, t) → pcs !! i = Some (Running t) ∧ pd !! t = None.
Abbreviation cur := (snd <$> who).

(** What a call may lead to. *)
Definition leads (o : outcome (option (TaskState * option blocked) * cstate (sched P))) : Prop :=
  (∃ e, o = Abort e ∧ fatal e) ∨
  ∃ r s', o = Ok (r, s') ∧ (halted (worker s) → halted (worker s')) ∧
    match r with
    | None => sys_inv (mkSys s' pcs pd)
    | Some (y, b) => ∃ i t, who = Some (i, t) ∧
        sys_inv (mkSys s' (<[i := Back t y]> pcs) (partial_alter (λ _, b) t pd))
    end.

Lemma leads_returned o s' : o = Ok (None, s') → returned (H1 := laws pcs) s s' pd → leads o.
Proof.
  intros -> Hr. right. exists None, s'. split; [done|]. split; [apply halted_less; apply Hr|].
  eapply sys_returned; [done..|]. apply HV.
Qed.
Lemma leads_blocked o s' t b : o = Ok (Some (TASK_WAITING_CHANNEL, Some b), s') → cur = Some t →
  blocks_task (H1 := laws pcs) s s' t b pd → leads o.
Proof.
  intros -> Hc Hb. right. eexists _, s'. split; [done|].
  split; [intros [Hs _]; pose proof (proj1 (bt_shutdown _ _ _ _ _ Hb)) as E; cbn in E; congruence|].
  destruct who as [[i t']|]; [|done]. cbn in Hc. injection Hc as ->.
  destruct (Hwho i t eq_refl) as [Hi _]. exists i, t. split; [done|]. by apply (sys_blocked s).
Qed.
Lemma exec_caller : caller (H1 := laws pcs) s cur.
Proof.
  intros t Ht. destruct who as [[i t']|]; [|done]. cbn in Ht. injection Ht as ->.
  destruct (Hwho i t eq_refl) as [Hi Hn]. destruct HV as [(A & l & HC) HR _]. cbn in *. split.
  - split; [by eapply HR|]. by exists i.
  - intros w x Hx Ht. destruct (cn_task _ _ (ck_clients _ _ _ _ HC) w x t Hx Ht). congruence.
Qed.
Lemma exec_still {A} (m : M (sched P) A) a wk :
  m (worker s) = Ok (a, wk) → sinv_at pcs ended wk → running_ok pcs wk → unnoticed (worker s) wk pd →
  (halted (worker s) → halted wk) → leads ((on_worker m;; mret None) s).
Proof.
  intros Hrun Hs HR Hu Hq. right. exists None, (set_worker wk s).
  split; [by rewrite (bind_ok _ _ _ _ _ (on_worker_run _ _ _ _ Hrun))|]. split; [done|]. by apply sys_still.
Qed.

Lemma exec_spawn fpenv f a bytes asz copy main :
  (copy && (0 <? asz) = true → asz ≤ Z.of_nat (length bytes)) →
  leads ((on_worker (worker_spawn fpenv f a bytes asz copy main);; mret None) s).
Proof.
  intros Hb. destruct (spawn_step pcs (worker s) fpenv f a bytes asz copy main pages fresh_maps reliable
    (sys_sinv _ _ _ HV) (sv_running _ HV) Hb) as (b & wk & Hrun & Hs & HR & Hsd & Hm & Hch).
  assert (halted (worker s) → halted wk) as Hq.
  { apply halted_less; [done|]. intros u. rewrite !on_channel_chans. intros [fl Hf]. destruct Hch as [E|(t & _ & E)];
      rewrite E in Hf; [eauto|]. apply lookup_insert_Some in Hf as [[_ ?]|[_ ?]]; [done|eauto]. }
  eapply exec_still; [done|split; [done|rewrite Hm; apply (sys_at _ _ _ HV)]|done| |done]. destruct Hch as [E|(t & Hn & E)]; [by apply unnoticed_same|].
  intros u. rewrite E. destruct (decide (u = t)) as [->|Hne]; [right|left; by rewrite lookup_insert_ne].
  rewrite Hn, lookup_insert_eq. split_and!; [|by intros b'|by intros b'].
  destruct HV as [(A & l & HC) _ _]. cbn in HC.
  destruct (pd !! t) as [bl|] eqn:Ep; [exfalso|done].
  pose proof (cn_wait _ _ (ck_clients _ _ _ _ HC) t bl Ep) as Hw.
  assert (∀ fl, wake_flag (worker s) t ≠ Some fl) as Hnf by (intros fl; by rewrite wake_flag_chans, Hn).
  destruct bl as [c w|c w|ws st cases]; cbn in Hw; [by destruct Hw as [_ [fl Hf]]; apply (Hnf fl)..|].
  destruct Hw as [_ _ _ (ss & _ & Hss)]. destruct (done ss); [by destruct Hss as (_ & Hf & _); apply (Hnf true)|].
  apply on_channel_chans in Hss as [b' Hb']. congruence.
Qed.

Lemma exec_io fd ev :
  fd_valid (poller (worker s)) fd → one_event ev → leads (exec cur (IoWait fd ev) s).
Proof.
  intros Hfd Hev. unfold leads. cbn [exec]. destruct who as [[i t]|]; cbn.
  - destruct (Hwho i t eq_refl) as [Hi Hn].
    destruct (io_park_step pcs (worker s) i t fd ev (sys_sinv _ _ _ HV) (sv_running _ HV) Hi Hfd Hev)
      as (b & wk & Hrun & Hmv & _).
    rewrite (bind_ok _ _ _ _ _ (on_worker_run _ _ _ _ Hrun)). right. eexists _, _. split; [done|].
    split; [apply halted_same; apply Hmv|].
    pose proof (sys_moved s pcs pd i _ wk HV Hmv) as HV'. destruct b.
    + exists i, t. split; [done|]. replace (partial_alter (λ _, None) t pd) with pd; [by apply HV'|].
      symmetry. change (delete t pd = pd). by apply delete_id.
    + rewrite list_insert_id in HV' by done. apply HV'. intros u _. left. eauto.
  - right. exists None, (set_worker (worker s) s). split; [done|]. split; [done|].
    by assert (set_worker (worker s) s = s) as -> by (by destruct s).
Qed.

Lemma exec_select addr now rng cases hd :
  call_ok s (SelectOn addr now rng cases hd) → leads (exec cur (SelectOn addr now rng cases hd) s).
Proof.
  intros (Hl & Hr & Hcs). destruct (sv_chan _ HV) as (A & l & HC). cbn in HC. pose proof (ck_ref _ _ _ _ HC) as HR.
  destruct (select_call (H1 := laws pcs) s A l pd cur addr now rng cases hd grants HC exec_caller)
    as (r & rng' & s' & Hrun & Hres); [|done|].
  { split_and!; [lia..| |].
    - intros cs c a Hin Hc Ha. by eapply slot_abs; [|apply (Hcs cs c)|].
    - intros cs c Hin Hc. destruct (Hcs cs c Hin Hc) as (ch & Hch & _). eapply live_abs; [done|]. eauto. }
  cbn [exec]. pose proof (bind_ok _ (λ r, match r.1 with
      | SelectReturn _ _ => mret None
      | SelectPark _ ws st cases => mret (Some (TASK_WAITING_CHANNEL, Some (BSelect ws st cases)))
      end) _ _ _ Hrun) as E. destruct r as [i cs|b ws st cs].
  - eapply leads_returned; [exact E|done].
  - destruct Hres as (_ & t & Ht & Hb). eapply leads_blocked; [exact E|done..].
Qed.

Lemma exec_ret {A} (m : M (cstate (sched P)) A) :
  (∃ a s', m s = Ok (a, s') ∧ returned (H1 := laws pcs) s s' pd) → leads ((m;; mret None) s).
Proof.
  intros (a & s' & Hrun & Hr). eapply leads_returned; [|done]. by rewrite (bind_ok _ _ _ _ _ Hrun).
Qed.

Lemma exec_leads k : call_ok s k → leads (exec cur k s).
Proof.
  intros Hk. destruct (sv_chan _ HV) as (A & l & HC). cbn in HC. pose proof (ck_ref _ _ _ _ HC) as HR.
  pose proof exec_caller as Hcur. pose proof (λ c p, live_usable pcs s A c p HR) as Hus.
  destruct k as [fpenv f a|fpenv f a bytes size|fd ev|fd|code|esz cap|c|c|c p|c p|c p|c p|addr now rng cases hd| |vs];
    cbn [exec call_ok] in *.
  - unfold croutine_spawn. destruct (f =? 0); [|by apply exec_spawn].
    eapply exec_still; [done|by eapply sys_at|apply (sv_running _ HV)|by apply unnoticed_same|done].
  - unfold croutine_spawn_copy. destruct (_ || _); [|by apply exec_spawn].
    eapply exec_still; [done|by eapply sys_at|apply (sv_running _ HV)|by apply unnoticed_same|done].
  - destruct Hk. by apply exec_io.
  - unfold croutine_io_forget_fd. destruct (forget_step pcs (worker s) fd grants reliable (sys_sinv _ _ _ HV) (sv_running _ HV))
      as [Hab|(wk & Hrun & Hs & HR' & Hc & Hsd & Hm)].
    + left. exists interest_refused. split; [|by left]. unfold mbind, M_bind. by rewrite (on_worker_abort _ _ _ Hab).
    + eapply exec_still; [done|split; [done|rewrite Hm; apply (sys_at _ _ _ HV)]|done| |]; [by apply unnoticed_same|by apply halted_same].
  - eapply exec_still; [done| |apply (sv_running _ HV)|by apply unnoticed_same|done].
    split; [|apply (sys_at _ _ _ HV)]. destruct (sys_sinv _ _ _ HV) as [I1 I2 I3 I4 I5 I6 I7 I8 I9 I10 I11 I12 I13 I14]. split; try done.
    destruct I1 as (l0 & m0 & HW0 & Hs0). exists l0, m0. split; [by eapply winv_ext; [..|exact HW0]|done].
  - destruct Hk. apply exec_ret. by eapply create_call.
  - apply exec_ret. eapply destroy_call; [done|]. by eapply live_abs.
  - apply exec_ret. destruct (close_call (H1 := laws pcs) s A l pd c HC) as (s' & Hrun & Hr); [by eapply live_abs|]. eauto.
  - destruct (send_call (H1 := laws pcs) s A l pd cur c p HC Hcur (Hus _ _ Hk)) as (r & s' & Hrun & Hres).
    destruct r as [r|b w].
    + eapply leads_returned; [|done]. by rewrite (bind_ok _ _ _ _ _ Hrun).
    + destruct Hres as (_ & t & Ht & Hb). eapply leads_blocked; [|done..]. by rewrite (bind_ok _ _ _ _ _ Hrun).
  - destruct (recv_call (H1 := laws pcs) s A l pd cur c p HC Hcur (Hus _ _ Hk)) as (r & s' & Hrun & Hres).
    destruct r as [r|b w].
    + eapply leads_returned; [|done]. by rewrite (bind_ok _ _ _ _ _ Hrun).
    + destruct Hres as (_ & t & Ht & Hb). eapply leads_blocked; [|done..]. by rewrite (bind_ok _ _ _ _ _ Hrun).
  - apply exec_ret. eapply try_send_call; [done|]. by apply Hus.
  - apply exec_ret. eapply try_recv_call; [done|]. by apply Hus.
  - by apply exec_select.
  - destruct (shutdown_step s pcs pd HV) as (s' & Hrun & HV' & Hsd & _ & _ & _ & Hq & _). right. exists None, s'.
    split; [by rewrite (bind_ok _ _ _ _ _ Hrun)|]. split; [by intros _|done].
  - apply exec_ret. eexists tt, _. split; [done|]. by eapply store_call.
Qed.
End exec.
End inv.
