(* ===== verification/SystemRuns.v ===== *)
(** * Steps of the whole runtime

    [act] never gets stuck, keeps the invariant, and never undoes the end of
    main; once main has ended, every step of a worker brings it closer to
    leaving its loop. *)

From S2P Require Import Prelude Posix Memory ArchX86 Task IoWait PollerApi Worker WorkerInv.
From S2P Require Import Resources WorkerIo WorkerLoop SchedInv SchedSteps SchedCalls.
From S2P Require Import WaitQueue Channel ChannelBuffer ChannelInv ChannelSpec ChannelRefine.
From S2P Require Import ChannelClients ChannelCalls WorkerChannels SchedChannels System SystemInv.

Section runs.
Context `{Alloc, Os, Entry} {P : Type} `{PollerLaws P}.
Implicit Types (s : cstate (sched P)) (wk : sched P) (pcs : list pc) (t u : tid) (pd : gmap tid blocked) (σ : sys P).

(** Valid arguments and answers. *)
Definition label_ok (lb : label P) σ : Prop :=
  match lb with
  | LWorker i answers => (∃ ms, sy_workers σ !! i = Some (InPoll ms)) → answers_ok answers
  | LStart => Z.of_nat (length (sy_workers σ)) + 1 < 2 ^ 32
  | LCall _ k | LOutside k => call_ok (sy_state σ) k
  | LSpurious | LYield _ | LReturn _ | LResume _ => True
  end.

Lemma running_some i σ t o : running i σ = Some (t, o) → sy_workers σ !! i = Some (Running t) ∧ o = sy_calls σ !! t.
Proof.
  unfold running. destruct (sy_workers σ !! i) as [x|] eqn:E; [|done]. destruct x; try done. by intros [= -> ->].
Qed.

(** ** One step *)

Section step.
Hypothesis grants : calloc_grants.
Hypothesis reliable : wake_reliable (P:=P).
Hypothesis pages : page_size_ok.
Hypothesis fresh_maps : mmap_fresh.
Context (ended : bool).
Abbreviation inv := (sys_inv grants reliable ended).

(** The outcome of a step. *)
Definition steps σ (o : outcome (sys P)) : Prop :=
  (∃ e, o = Abort e ∧ fatal e) ∨
  ∃ σ', o = Ok σ' ∧ inv σ' ∧ (halted (worker (sy_state σ)) → halted (worker (sy_state σ'))).

Lemma step_moved s pcs pd i t y (wk : sched P) :
  inv (mkSys s pcs pd) → pcs !! i = Some (Running t) → pd !! t = None →
  moved pcs (worker s) i (Back t y) wk →
  steps (mkSys s pcs pd) (Ok (mkSys (set_worker wk s) (<[i := Back t y]> pcs) pd)).
Proof.
  intros HV Hi Hn Hmv. right. eexists. split; [done|]. split; [|by apply halted_same; apply Hmv].
  eapply sys_moved; [done..|]. cbn. intros u Hu. right. by destruct y; simplify_eq/=.
Qed.

Lemma step_call s pcs pd i t k :
  inv (mkSys s pcs pd) → pcs !! i = Some (Running t) → pd !! t = None → call_ok s k →
  steps (mkSys s pcs pd) ('(r, s') ← exec (Some t) k s;
    Ok (match r with
        | None => mkSys s' pcs pd
        | Some (y, b) => mkSys s' (<[i := Back t y]> pcs) (partial_alter (λ _, b) t pd)
        end)).
Proof.
  intros HV Hi Hn Hk.
  destruct (exec_leads grants reliable pages fresh_maps ended s pcs pd HV (Some (i, t))) with (k := k)
    as [(e & He & Hf)|(r & s' & Hrun & Hq & Hr)]; [by intros ? ? [= <- <-]|done| |]; cbn in *.
  - left. exists e. by rewrite He.
  - right. rewrite Hrun. eexists. split; [done|]. destruct r as [[y b]|]; [|done].
    destruct Hr as (? & ? & [= <- <-] & Hr). done.
Qed.

Lemma step_outside s pcs pd k :
  inv (mkSys s pcs pd) → call_ok s k →
  steps (mkSys s pcs pd) ('(_, s') ← exec None k s; Ok (mkSys s' pcs pd)).
Proof.
  intros HV Hk. destruct (exec_leads grants reliable pages fresh_maps ended s pcs pd HV None) with (k := k)
    as [(e & He & Hf)|(r & s' & Hrun & Hq & Hr)]; [done..| |]; cbn in *.
  - left. exists e. by rewrite He.
  - right. rewrite Hrun. eexists. split; [done|]. destruct r as [[y b]|]; [|done]. by destruct Hr as (? & ? & ? & _).
Qed.

Lemma step_resume s pcs pd i t b :
  inv (mkSys s pcs pd) → pcs !! i = Some (Running t) → pd !! t = Some b →
  steps (mkSys s pcs pd) ('(_, s') ← continue t b s; Ok (mkSys s' pcs (delete t pd))).
Proof.
  intros HV Hi Hb. pose proof HV as [(A & l & HC) HR HK]. cbn in *.
  destruct (continue_call (H1 := sys_laws pcs ended grants reliable) s A l pd t b HC Hb) as (s' & Hrun & Hr).
  { intros (obj & Ho & Hs). destruct (HR i t Hi) as (obj' & Ho' & Hs' & _). congruence. }
  right. rewrite Hrun. eexists. split; [done|]. split; [|by apply halted_less; apply Hr].
  eapply sys_returned; [done..|]. intros j x u Hj Hx. destruct (HK j x u Hj Hx) as [?|Hn]; [by left|right].
  by rewrite lookup_delete_None; right.
Qed.

Lemma act_step lb σ o : inv σ → label_ok lb σ → act lb σ = Some o → steps σ o.
Proof.
  intros HV Hl Ha. destruct σ as [s pcs pd]. destruct lb as [i answers| | |i|i|i k|i|k]; cbn [act label_ok sy_state sy_workers] in *.
  - destruct (pcs !! i) as [x|] eqn:Hi; [|done]. cbn in Ha.
    destruct (worker_next x (worker s) answers) as [m|] eqn:Hm; [|done]. cbn in Ha. injection Ha as <-.
    destruct (worker_step grants reliable ended s pcs pd i x answers m HV Hi Hm) as [(e & He & Hf)|(y & s' & Hrun & HV' & Hq)].
    { intros [ms ->]. apply Hl. eauto. }
    + left. exists e. by rewrite He.
    + right. rewrite Hrun. eexists. split; [done|]. done.
  - destruct (Z.ltb_spec 0 (cond_waiting (worker s))); [|done]. injection Ha as <-.
    right. eexists. split; [done|]. split; [|done].
    apply sys_still; [done| |apply (sv_running _ _ _ _ HV)|by apply unnoticed_same].
    split; [by apply spurious_run; [apply (sys_sinv _ _ _ _ _ _ HV)|]|apply (sys_at _ _ _ _ _ _ HV)].
  - injection Ha as <-. right. eexists. split; [done|]. split; [|done].
    destruct (start_run pcs (worker s) (sys_sinv _ _ _ _ _ _ HV) (sv_running _ _ _ _ HV) Hl) as [HI HR].
    pose proof (sys_at _ _ _ _ _ _ HV) as [_ He]. destruct HV as [(A & l & HC) _ HK]. cbn in *. split; cbn; [|done|].
    + exists A, l. assert (set_worker (worker s) s = s) as E by (by destruct s). rewrite <-E.
      eapply chan_ok_worker; [done|by split|by apply unnoticed_same].
    + intros j x t [Hj|[_ Hj]]%lookup_app_Some Hx; [by eapply HK|]. apply list_lookup_singleton_Some in Hj as [_ <-]. done.
  - destruct (running i _) as [[t [b|]]|] eqn:Er; [done| |done]. apply running_some in Er as [Hi Hn]. cbn [sy_state sy_workers sy_calls] in *.
    destruct (yield_run pcs (worker s) i t (sys_sinv _ _ _ _ _ _ HV) (sv_running _ _ _ _ HV) Hi) as [_ Hmv].
    injection Ha as <-. assert (set_worker (worker s) s = s) as E by (by destruct s). rewrite <-E at 2.
    by eapply step_moved.
  - destruct (running i _) as [[t [b|]]|] eqn:Er; [done| |done]. apply running_some in Er as [Hi Hn]. cbn [sy_state sy_workers sy_calls] in *.
    destruct (finish_run pcs (worker s) i t reliable (sys_sinv _ _ _ _ _ _ HV) (sv_running _ _ _ _ HV) Hi)
      as (wk & obj & Hrun & Hmv & _).
    rewrite (on_worker_run _ _ _ _ Hrun) in Ha. injection Ha as <-. by eapply step_moved.
  - destruct (running i _) as [[t [b|]]|] eqn:Er; [done| |done]. apply running_some in Er as [Hi Hn]. cbn [sy_state sy_workers sy_calls] in *.
    injection Ha as <-. by apply step_call.
  - destruct (running i _) as [[t [b|]]|] eqn:Er; [|done..]. apply running_some in Er as [Hi Hn]. cbn [sy_state sy_workers sy_calls] in *.
    injection Ha as <-. by eapply step_resume.
  - injection Ha as <-. by apply step_outside.
Qed.
End step.

(** ** The pool of workers *)

Lemma exited_insert pcs i j x y : pcs !! i = Some x → x ≠ Exited →
  pcs !! j = Some Exited → <[i := y]> pcs !! j = Some Exited.
Proof. intros Hi Hx Hj. rewrite list_lookup_insert_ne; [done|]. intros ->. congruence. Qed.

(** The steps of a worker itself and those in which its task switches back to
    it; the others are steps inside a task or of threads outside the pool. *)
Definition own_step (lb : label P) : Z :=
  match lb with LWorker _ _ | LYield _ | LReturn _ => 1 | _ => 0 end.

(** How the workers move in a step. *)
Lemma act_workers lb σ σ' : act lb σ = Some (Ok σ') →
  sy_workers σ' = sy_workers σ ∧ own_step lb = 0 ∨
  lb = LStart ∧ sy_workers σ' = sy_workers σ ++ [AtTop] ∨
  (∃ i answers x m y s', lb = LWorker i answers ∧ sy_workers σ !! i = Some x ∧
     worker_next x (worker (sy_state σ)) answers = Some m ∧ on_worker m (sy_state σ) = Ok (y, s') ∧
     sy_workers σ' = <[i := y]> (sy_workers σ)) ∨
  (∃ i t y, sy_workers σ !! i = Some (Running t) ∧ sy_workers σ' = <[i := Back t y]> (sy_workers σ) ∧
     (lb = LYield i ∨ lb = LReturn i ∨ ∃ k, lb = LCall i k)).
Proof.
  destruct σ as [s pcs pd]. intros Ha.
  destruct lb as [i answers| | |i|i|i k|i|k]; cbn [act sy_state sy_workers] in *.
  - destruct (pcs !! i) as [x|] eqn:Hi; [|done]. cbn in Ha.
    destruct (worker_next x (worker s) answers) as [m|] eqn:Hm; [|done]. cbn in Ha. injection Ha as Ha.
    apply outcome_bind_inv in Ha as ([y s'] & Hrun & [= <-]). right. right. left. by exists i, answers, x, m, y, s'.
  - destruct (0 <? _); [|done]. injection Ha as <-. by left.
  - injection Ha as <-. right. by left.
  - destruct (running i _) as [[t [b|]]|] eqn:Er; [done| |done]. apply running_some in Er as [Hi _].
    injection Ha as <-. right. right. right. exists i, t, TASK_RUNNABLE. auto.
  - destruct (running i _) as [[t [b|]]|] eqn:Er; [done| |done]. apply running_some in Er as [Hi _].
    injection Ha as Ha. apply outcome_bind_inv in Ha as ([y s'] & Hrun & [= <-]).
    right. right. right. exists i, t, TASK_FINISHED. auto.
  - destruct (running i _) as [[t [b|]]|] eqn:Er; [done| |done]. apply running_some in Er as [Hi _].
    injection Ha as Ha. apply outcome_bind_inv in Ha as ([[[y b]|] s'] & Hrun & [= <-]); [|by left].
    right. right. right. exists i, t, y. split_and!; [done..|]. eauto.
  - destruct (running i _) as [[t [b|]]|] eqn:Er; [|done..]. injection Ha as Ha.
    apply outcome_bind_inv in Ha as ([[] s'] & Hrun & [= <-]). by left.
  - injection Ha as Ha. apply outcome_bind_inv in Ha as ([y s'] & Hrun & [= <-]). by left.
Qed.

(** A worker that has left its loop stays away, and only [pthread_create]
    adds workers. *)
Lemma act_exited lb σ σ' : act lb σ = Some (Ok σ') →
  (∀ i, sy_workers σ !! i = Some Exited → sy_workers σ' !! i = Some Exited) ∧
  (lb ≠ LStart → length (sy_workers σ') = length (sy_workers σ)).
Proof.
  intros [(-> & _)|[(-> & ->)|[(i & an & x & m & y & s' & -> & Hi & Hm & _ & ->)|(i & t & y & Hi & -> & _)]]]%act_workers.
  - done.
  - split; [|done]. intros i Hi. by apply lookup_app_l_Some.
  - split; [|by rewrite length_insert]. intros j. eapply exited_insert; [done|]. by intros ->.
  - split; [|by rewrite length_insert]. intros j. by eapply exited_insert.
Qed.

(** ** After the end of main *)

(** How many steps a worker takes at most before it leaves its loop, once
    main has ended. *)
Definition rank (x : pc) : Z :=
  match x with
  | Exited => 0
  | AtTop => 1
  | Polled _ | InWait _ | Dispatching _ _ _ => 2
  | InPoll _ | Back _ _ => 3
  | Running _ => 4
  end.
Definition ranks pcs : Z := foldr (λ x n, rank x + n) 0 pcs.

Lemma rank_nonneg x : 0 ≤ rank x ≤ 4.
Proof. destruct x; cbn; lia. Qed.
Lemma ranks_nonneg pcs : 0 ≤ ranks pcs ≤ 4 * Z.of_nat (length pcs).
Proof.
  induction pcs as [|x pcs IH]; [done|]. pose proof (rank_nonneg x). cbn [ranks foldr length] in *.
  fold (ranks pcs) in *. lia.
Qed.
Lemma ranks_insert pcs i x y : pcs !! i = Some x → ranks (<[i := y]> pcs) = ranks pcs - rank x + rank y.
Proof.
  revert i. induction pcs as [|z pcs IH]; intros [|i] Hi; [done..| |].
  - injection Hi as ->. cbn. lia.
  - change (rank z + ranks (<[i := y]> pcs) = rank z + ranks pcs - rank x + rank y). rewrite (IH i Hi). lia.
Qed.

Lemma stop_pass b wk : stopping wk → loop_pass b wk = Ok (LoopReturn, wk).
Proof.
  intros Hst. unfold loop_pass. rewrite (bind_ok _ _ wk wk wk) by done.
  assert (shutdown_requested wk || scheduler_main_finished wk = true) as -> by (by apply orb_true_iff). done.
Qed.
Lemma stop_polled r wk : stopping wk → ∃ wk', loop_polled r wk = Ok (LoopReturn, wk').
Proof.
  intros Hst. unfold loop_polled. rewrite (bind_ok _ _ wk tt (set_poller_waiter_active false wk)) by done.
  destruct (cond_broadcast_run (set_poller_waiter_active false wk)) as (s1 & Hb & _ & _ & _ & _ & E5 & _).
  rewrite (bind_ok _ _ _ _ _ Hb), (bind_ok _ _ s1 s1 s1) by done. destruct (rest_stop _ _ E5) as [-> ->].
  assert (shutdown_requested wk || scheduler_main_finished wk = true) as E by (by apply orb_true_iff).
  exists s1. cbn. by rewrite E.
Qed.

Lemma stop_next x wk answers m y wk' :
  stopping wk → worker_next x wk answers = Some m → m wk = Ok (y, wk') → rank y < rank x.
Proof.
  intros Hst Hm Hrun. destruct x as [|ms|r|b|t|t z|t z b|]; try done; cbn in Hm.
  - injection Hm as <-. rewrite (bind_ok _ _ _ _ _ (stop_pass false wk Hst)) in Hrun. by injection Hrun as <- _.
  - injection Hm as <-. apply outcome_bind_inv in Hrun as ([r ?] & _ & [= <- _]). done.
  - injection Hm as <-. destruct (stop_polled r wk Hst) as [wk1 E].
    rewrite (bind_ok _ _ _ _ _ E) in Hrun. by injection Hrun as <- _.
  - destruct (0 <? _); [|done]. injection Hm as <-. unfold loop_woken in Hrun.
    erewrite bind_ok in Hrun by (erewrite bind_ok by done; erewrite bind_ok by done; by apply stop_pass).
    by injection Hrun as <- _.
  - injection Hm as <-. by injection Hrun as <- _.
  - injection Hm as <-. apply outcome_bind_inv in Hrun as ([r ?] & _ & [= <- _]). done.
Qed.

Lemma act_rank lb σ σ' : stopping (worker (sy_state σ)) → lb ≠ LStart → act lb σ = Some (Ok σ') →
  ranks (sy_workers σ') + own_step lb ≤ ranks (sy_workers σ).
Proof.
  intros Hst Hlb [(-> & ->)|[(-> & ->)|[(i & an & x & m & y & s' & -> & Hi & Hm & Hrun & ->)|(i & t & y & Hi & -> & Hk)]]]%act_workers.
  - lia.
  - done.
  - unfold on_worker in Hrun. destruct (m _) as [[y' wk']| | |] eqn:E; try done. injection Hrun as <- <-.
    rewrite (ranks_insert _ _ _ _ Hi). pose proof (stop_next _ _ _ _ _ _ Hst Hm E). cbn. lia.
  - rewrite (ranks_insert _ _ _ _ Hi). cbn. destruct Hk as [->|[->|[k ->]]]; cbn; lia.
Qed.
End runs.
