(* ===== verification/RuntimeInv.v ===== *)
(** * The life cycle keeps the process in order

    Before initialisation nothing is allocated; between initialisation and
    shutdown the invariant of [System] holds and the owning thread's counters
    and array match the workers there are; afterwards everything has been
    released. *)

From S2P Require Import Prelude Posix Memory ArchX86 Task IoWait PollerApi Worker WorkerInv.
From S2P Require Import Resources WorkerIo WorkerLoop SchedInv SchedSteps SchedCalls WorkerStop.
From S2P Require Import WaitQueue Channel ChannelBuffer ChannelInv ChannelSpec ChannelRefine ChannelRegistry.
From S2P Require Import ChannelClients ChannelCalls WorkerChannels SchedChannels System Runtime SystemInv SystemRuns.

Section start.
Context `{Alloc, Os, Entry} {P : Type} `{PollerLaws P}.
Implicit Types (wk : sched P).

(** ** Start-up *)

(** Nothing has been allocated and nothing runs. *)
Record blank wk : Prop := {
  bk_heap : heap wk = ∅;
  bk_maps : maps wk = ∅;
  bk_blocks : blocks wk = ∅;
  bk_poller : poller_down (poller wk);
  bk_init : runtime_init_ok wk = false
}.
(** The zeroed static variables. *)
Record cold wk : Prop := {
  cd_blank : blank wk;
  cd_called : runtime_init_called wk = false;
  cd_idle : idle_workers wk = 0;
  cd_cv : cv wk = (0, 0)
}.
(** What is reset before initialisation. *)
Record fresh wk : Prop := {
  fr_cold : cold wk;
  fr_main : main_finished wk = false;
  fr_shutdown : shutdown_requested wk = false;
  fr_active : poller_waiter_active wk = false;
  fr_stack : 0 ≤ configured_stack_size wk < 2 ^ 62
}.

Lemma fresh_run wk size : cold wk → 0 < size < 2 ^ 62 →
  ∃ wk', (worker_configure_stack_size size;; worker_reset_main_state) wk = Ok (tt, wk') ∧ fresh wk' ∧
    configured_stack_size wk' = size.
Proof.
  intros [[B1 B2 B3 B4 B5] C1 C2 C3] Hs. eexists. split; [done|]. cbn.
  destruct (Z.eqb_spec size 0); [lia|]. split; [|done]. split; [split; [by split|done..]|done..|cbn; lia].
Qed.

(** The state just after initialisation has the invariant, with no worker. *)
Lemma ready_sinv wk q tb p :
  fresh wk → task_queue_init (Some (runnable_tasks wk)) INITIAL_RUN_QUEUE_CAPACITY = (true, Some q) →
  io_wait_table_init INITIAL_IO_WAIT_CAPACITY = (true, tb) →
  poller_ready p → (∀ fd, interest p fd = CROUTINE_IO_EVENT_NONE) →
  sinv [] (set_runtime_init_ok true (set_poller p (set_io_waits tb (set_runnable_tasks q
    (set_runtime_init_called true wk))))).
Proof.
  intros [[[B1 B2 B3 B4 B5] C1 C2 C3] F1 F2 F3 F4] Hq Ht Hp Hi. injection C3 as C3 C4.
  assert (tq_inv q (heap wk) []) as Hinv.
  { unfold task_queue_init in Hq. change (_ =? 0) with false in Hq. cbv iota in Hq. destruct (calloc_ok _ _); [|done]. injection Hq as <-.
    apply (empty_inv INITIAL_RUN_QUEUE_CAPACITY); [by unfold INITIAL_RUN_QUEUE_CAPACITY; lia|]. intros t obj. by rewrite B1. }
  pose proof (init_rep INITIAL_IO_WAIT_CAPACITY) as Hrep. rewrite Ht in Hrep. destruct Hrep as [Hrep _]; [by unfold INITIAL_IO_WAIT_CAPACITY; lia|].
  split; cbn; rewrite ?B1, ?B2, ?B3, ?C2, ?C3, ?C4, ?F1, ?F3; try done.
  - exists [], ∅. split; [|done]. split; cbn; rewrite ?B1; try done; [by rewrite <-B1|].
    intros t d (obj & Ho & _). done.
  - intros Hm. cbn in Hm. congruence.
Qed.

Lemma init_impl_run wk : fresh wk →
  ∃ wk', runtime_init_impl (set_runtime_init_called true wk) = Ok (tt, wk') ∧
    if runtime_init_ok wk'
    then sinv [] wk' ∧ heap wk' = ∅ ∧ configured_stack_size wk' = configured_stack_size wk
    else blank wk'.
Proof.
  intros HF. pose proof HF as [[[B1 B2 B3 B4 B5] C1 C2 C3] F1 F2 F3 F4].
  unfold runtime_init_impl. set (wk1 := set_runtime_init_called true wk).
  rewrite (bind_ok _ _ wk1 wk1 wk1) by done.
  destruct (task_queue_init (Some (runnable_tasks wk1)) INITIAL_RUN_QUEUE_CAPACITY) as [[|] q] eqn:Eq.
  2: { eexists. split; [reflexivity|]. by split. }
  assert (∃ q', q = Some q') as [q' ->].
  { unfold task_queue_init in Eq. change (_ =? 0) with false in Eq. cbv iota in Eq.
    destruct (calloc_ok _ _); [|done]. injection Eq as <-. eauto. }
  erewrite bind_ok by reflexivity.
  destruct (io_wait_table_init INITIAL_IO_WAIT_CAPACITY) as [ok tb] eqn:Et.
  erewrite bind_ok by reflexivity. destruct ok; cbn [negb].
  2: { eexists. split; [reflexivity|]. by split. }
  destruct (poller_init_law (poller wk) B4) as (b & p' & Hp & Hb).
  erewrite bind_ok by (by apply on_poller_run).
  destruct b; cbn [negb]; (eexists; split; [reflexivity|]).
  - destruct Hb as [Hr Hi]. cbn. split_and!; [|done..].
    by apply (ready_sinv wk q' tb p').
  - by split.
Qed.
Lemma init_run wk : fresh wk →
  ∃ b wk', worker_init wk = Ok (b, wk') ∧
    if b then sinv [] wk' ∧ heap wk' = ∅ ∧ configured_stack_size wk' = configured_stack_size wk
    else blank wk'.
Proof.
  intros HF. destruct (init_impl_run wk HF) as (wk' & Hrun & Hb). exists (runtime_init_ok wk'), wk'. split; [|done].
  unfold worker_init. rewrite (bind_ok _ _ wk false wk) by (by rewrite <-(cd_called _ (fr_cold _ HF))).
  by rewrite (bind_ok _ _ wk tt wk') by exact Hrun.
Qed.
End start.

(** ** The process *)

(** The first [i] threads. *)
Definition upto (i : Z) : gset nat := list_to_set (seq 0 (Z.to_nat i)).
Lemma upto_next i : 0 ≤ i → {[Z.to_nat i]} ∪ upto i = upto (i + 1) ∧ Z.to_nat i ∉ upto i.
Proof.
  intros Hi. unfold upto. replace (Z.to_nat (i + 1)) with (S (Z.to_nat i)) by lia.
  rewrite seq_S, list_to_set_app_L. cbn. split; [set_solver|].
  rewrite elem_of_list_to_set, elem_of_seq. lia.
Qed.


Section proc.
Context `{Alloc, Os, Entry} {P : Type} `{PollerLaws P}.
Hypothesis grants : calloc_grants.
Hypothesis reliable : wake_reliable (P:=P).
Hypothesis pages : page_size_ok.
Hypothesis fresh_maps : mmap_fresh.
Implicit Types (p : proc P) (s : cstate (sched P)) (ws : list pc) (e : bool) (σ : sys P).
Abbreviation inv := (sys_inv grants reliable).

Definition wks p : list pc := sy_workers (pr_sys p).
Definition sched_of p : sched P := worker (sy_state (pr_sys p)).
Definition nworkers p : Z := Z.of_nat (length (wks p)).
Definition gone ws : Prop := ∀ i x, ws !! i = Some x → x = Exited.

(** No worker is left that has not been joined. *)
Record at_rest p : Prop := {
  ar_started : runtime_started_workers p = 0;
  ar_array : runtime_workers p = None;
  ar_gone : gone (wks p);
  ar_joined : pr_joined p = upto (nworkers p);
  ar_ran : runtime_ran p = false → nworkers p = 0
}.
(** The workers that have been started are those in the array. *)
Record in_run p : Prop := {
  ir_started : runtime_started_workers p = nworkers p;
  ir_few : nworkers p ≤ runtime_worker_count p;
  ir_array : runtime_workers p = Some (runtime_worker_count p);
  ir_ran : runtime_ran p = true;
  ir_run : pr_run p = None ∨ pr_run p = Some None
}.

Definition driver_ok p e : Prop :=
  match pr_driver p with
  | Idle _ => pr_run p = None ∧ at_rest p
  | Creating worker_id => in_run p ∧ worker_id = nworkers p ∧ pr_joined p = ∅
  | WaitingMain => in_run p ∧ nworkers p = runtime_worker_count p ∧ pr_joined p = ∅
  | Joining i _ => in_run p ∧ 0 ≤ i ≤ nworkers p ∧ pr_joined p = upto i ∧ e = true ∧
      (∀ j : nat, Z.of_nat j < i → wks p !! j = Some Exited)
  | Stopping i => i = 0 ∧ pr_run p ≠ Some None ∧ halted (sched_of p) ∧ at_rest p
  end.

(** Between initialisation and shutdown. *)
Record up p e : Prop := {
  up_flags : runtime_initialized p = true ∧ runtime_ever_initialized p = true;
  up_sys : inv e (pr_sys p);
  up_count : 0 ≤ runtime_worker_count p < 2 ^ 32
}.
Definition live p e : Prop := up p e ∧ driver_ok p e.

Definition no_channels s : Prop :=
  channels s = ∅ ∧ waiters s = ∅ ∧ selects s = ∅ ∧ channel_registry s = None.
(** Before initialisation ... *)
Record before p : Prop := {
  bf_flags : runtime_initialized p = false ∧ runtime_ever_initialized p = false ∧ runtime_ran p = false;
  bf_idle : (∃ r, pr_driver p = Idle r) ∧ pr_run p = None;
  bf_rest : runtime_started_workers p = 0 ∧ runtime_workers p = None ∧ pr_joined p = ∅;
  bf_sys : sy_workers (pr_sys p) = [] ∧ sy_calls (pr_sys p) = ∅ ∧ no_channels (sy_state (pr_sys p));
  bf_cold : cold (sched_of p)
}.
(** ... and after shutdown or a failed initialisation. *)
Record over p : Prop := {
  ov_flags : runtime_initialized p = false ∧ runtime_ever_initialized p = true;
  ov_idle : (∃ r, pr_driver p = Idle r) ∧ pr_run p = None;
  ov_rest : runtime_started_workers p = 0 ∧ runtime_workers p = None ∧ gone (wks p);
  ov_blank : blank (sched_of p)
}.
Definition pinv p : Prop := before p ∨ (∃ e, live p e) ∨ over p.

(** ** Generalities *)

(** Whether main is known to have ended is a matter of the flag. *)
Lemma sys_inv_end e e' σ : inv e σ → (e' = true → main_finished (worker (sy_state σ)) = true) → inv e' σ.
Proof.
  destruct σ as [s pcs pd]. intros HV He. pose proof (sys_sinv _ _ _ _ _ _ HV) as HI.
  destruct HV as [(A & l & HC) HR HK]. split; [|done..]. exists A, l. cbn in *.
  assert (set_worker (worker s) s = s) as E by (by destruct s). rewrite <-E.
  eapply chan_ok_worker; [exact HC|by split|by apply unnoticed_same].
Qed.
Lemma empty_sys s ws pd :
  no_channels s → ws = [] → pd = ∅ → sinv [] (worker s) → heap (worker s) = ∅ → inv false (mkSys s ws pd).
Proof.
  intros (N1 & N2 & N3 & N4) -> -> HI Hh. split; cbn; [|by intros i t|by intros i x t].
  assert (∀ t, ¬ on_channel (worker s) t) as Hn by (intros t (obj & Ho & _); by rewrite Hh in Ho).
  exists (mkAState ∅ (values s)), []. split.
  - exists (λ _, []), (λ _ _, []). split; [split; rewrite ?N1, ?N2; try done|split].
    + by intros t Ht%Hn.
    + by intros c ch op.
    + unfold abs. by rewrite N1.
  - by intros c a.
  - split; cbn; rewrite ?N1, ?N4; try done; [constructor|]. intros c. rewrite lookup_fmap, lookup_empty. cbn.
    split; [by intros [? ?]|by intros ?%elem_of_nil].
  - split; [by intros t b|]. rewrite N2. by intros w x t.
Qed.

Lemma on_state_run {A} (m : M (cstate (sched P)) A) p a s' : m (sy_state (pr_sys p)) = Ok (a, s') →
  on_state m p = Ok (a, set_sys (mkSys s' (wks p) (sy_calls (pr_sys p))) p).
Proof. intros E. unfold on_state. by rewrite E. Qed.
Lemma on_sched_run {A} (m : M (sched P) A) p a wk : m (sched_of p) = Ok (a, wk) →
  on_sched m p = Ok (a, set_sys (mkSys (set_worker wk (sy_state (pr_sys p))) (wks p) (sy_calls (pr_sys p))) p).
Proof. intros E. apply on_state_run. by apply on_worker_run. Qed.

(** The rest of the process takes a step. *)
Lemma driver_ok_set p e e' σ :
  driver_ok p e → (e = true → e' = true) → length (sy_workers σ) = length (wks p) →
  (∀ i, wks p !! i = Some Exited → sy_workers σ !! i = Some Exited) →
  (halted (sched_of p) → halted (worker (sy_state σ))) → driver_ok (set_sys σ p) e'.
Proof.
  intros HD He Hl Hx Hh.
  assert (nworkers (set_sys σ p) = nworkers p) as En by (unfold nworkers, wks at 1; cbn; by rewrite Hl).
  assert (gone (wks p) → gone (sy_workers σ)) as Hg.
  { intros Hg i x Hi. destruct (lookup_lt_is_Some_2 (wks p) i) as [z Hz]; [apply lookup_lt_Some in Hi; lia|].
    pose proof (Hg i z Hz) as ->. apply Hx in Hz. congruence. }
  assert (at_rest p → at_rest (set_sys σ p)) as Hr.
  { intros [R1 R2 R3 R4 R5]. split; rewrite ?En; try done. by apply Hg. }
  assert (in_run p → in_run (set_sys σ p)) as Hi.
  { intros [R1 R2 R3 R4 R5]. split; rewrite ?En; done. }
  unfold driver_ok in *. cbn [pr_driver set_sys]. rewrite En.
  destruct (pr_driver p); cbn [pr_run pr_joined set_sys runtime_worker_count]; naive_solver.
Qed.
Lemma live_set p e e' σ :
  live p e → inv e' σ → (e = true → e' = true) → length (sy_workers σ) = length (wks p) →
  (∀ i, wks p !! i = Some Exited → sy_workers σ !! i = Some Exited) →
  (halted (sched_of p) → halted (worker (sy_state σ))) → live (set_sys σ p) e'.
Proof. intros [[U1 U2 U3] HD] HV He Hl Hx Hh. split; [done|]. by eapply driver_ok_set. Qed.

Lemma request_run p e : up p e →
  ∃ p' σ, on_state worker_request_shutdown p = Ok (tt, p') ∧ p' = set_sys σ p ∧ inv true σ ∧
    sy_workers σ = wks p ∧ halted (worker (sy_state σ)).
Proof.
  intros [U1 U2 U3]. unfold wks. destruct p as [[s pcs pd] n st arr i0 e0 r0 d0 w0 j0]. cbn in *.
  destruct (shutdown_step _ _ _ _ _ _ U2) as (s' & Hrun & HV & Hsd & Hm & _ & _ & Hn & _).
  eexists _, (mkSys s' pcs pd). split; [by apply on_state_run|]. split_and!; try done.
  by eapply sys_inv_end.
Qed.

(** ** Initialisation *)

Definition config_ok (config : option croutine_runtime_config) (online : Z) : Prop :=
  online < 2 ^ 32 ∧
  ∀ c, config = Some c → 0 ≤ cfg_worker_count c < 2 ^ 32 ∧ 0 ≤ cfg_stack_size c < 2 ^ 62.

(** Nothing but the rest of the process and the flags changes. *)
Lemma up_init p wk n :
  before p → sinv [] wk → heap wk = ∅ → 0 ≤ n < 2 ^ 32 →
  let p' := set_initialized true (set_worker_count n (set_ever_initialized true
    (set_sys (mkSys (set_worker wk (sy_state (pr_sys p))) (wks p) (sy_calls (pr_sys p))) p))) in
  up p' false ∧ at_rest p'.
Proof.
  intros [B1 B2 (B3 & B4 & B5) (B6 & B7 & B8) B9] HI Hh Hn p'. split; split; try done; cbn.
  - by apply empty_sys.
  - unfold p', gone, wks. cbn. rewrite B6. by intros i x.
  - unfold p', nworkers, wks. cbn. by rewrite B6, B5.
  - unfold p', nworkers, wks. cbn. by rewrite B6.
Qed.

Lemma init_step p config online : pinv p → config_ok config online →
  ∃ b p', croutine_runtime_init config online p = Ok (b, p') ∧
    pr_driver p' = pr_driver p ∧ pr_run p' = pr_run p ∧
    if b then before p ∧ up p' false ∧ at_rest p' ∧
      (wks p' = [] ∧ heap (sched_of p') = ∅ ∧ 0 < runtime_worker_count p' ∧
       MIN_STACK_SIZE ≤ configured_stack_size (sched_of p'))
    else p' = p ∨ before p ∧ over p'.
Proof.
  intros HP [Hon Hcfg]. unfold croutine_runtime_init. rewrite (bind_ok _ _ p p p) by done.
  destruct (runtime_initialized p || runtime_ever_initialized p) eqn:Ei; [exists false, p; auto|].
  assert (before p) as HB.
  { destruct HP as [?|[(e & [[[E _] _ _] _])|[[_ E] _ _ _]]]; [done| |]; rewrite E in Ei; [done|].
    by rewrite orb_true_r in Ei. }
  set (n0 := if config is Some c then cfg_worker_count c else 0). destruct ((n0 =? 0) && (online <=? 0)) eqn:Eon; [exists false, p; auto|].
  set (n := if n0 =? 0 then online else n0).
  set (z0 := if config is Some c then cfg_stack_size c else 0). set (z := if z0 =? 0 then CROUTINE_DEFAULT_STACK_SIZE else z0).
  assert (0 < n < 2 ^ 32 ∧ 0 ≤ z < 2 ^ 62) as [Hn Hz].
  { assert (0 ≤ n0 < 2 ^ 32 ∧ 0 ≤ z0 < 2 ^ 62) as [? ?].
    { unfold n0, z0. destruct config as [c|]; [by apply Hcfg|lia]. }
    unfold n, z, CROUTINE_DEFAULT_STACK_SIZE.
    destruct (Z.eqb_spec n0 0), (Z.leb_spec online 0), (Z.eqb_spec z0 0); cbn in Eon; try done; lia. }
  destruct (Z.ltb_spec z MIN_STACK_SIZE) as [?|Hmin]; [exists false, p; auto|].
  destruct (fresh_run (sched_of p) z (bf_cold _ HB)) as (wk & Hrun & HF & Hwz); [unfold MIN_STACK_SIZE in Hmin; lia|].
  destruct (init_run wk HF) as (b & wk' & Hi & Hb).
  set (p1 := set_sys (mkSys (set_worker wk (sy_state (pr_sys p))) (wks p) (sy_calls (pr_sys p))) p).
  set (p2 := set_sys (mkSys (set_worker wk' (sy_state (pr_sys p))) (wks p) (sy_calls (pr_sys p))) p).
  assert (∀ A (k : unit → M (proc P) A), (on_sched (worker_configure_stack_size z) ≫= (λ _, on_sched worker_reset_main_state ≫= k)) p
    = k tt p1) as E1 by (intros A k; injection Hrun as <-; done).
  rewrite E1. rewrite (bind_ok _ _ p1 b p2) by exact (on_sched_run worker_init p1 b wk' Hi).
  destruct b; cbn [negb].
  - destruct Hb as (HI & Hh & Hcz). eexists true, _. split; [done|]. destruct (up_init p wk' n HB HI Hh) as [J1 J2]; [lia|].
    split_and!; try done; [apply (bf_sys _ HB)|cbn; lia|]. change (MIN_STACK_SIZE ≤ configured_stack_size wk'). lia.
  - eexists false, _. split; [done|]. split_and!; try done. right. split; [done|].
    destruct HB as [(B0 & _) B2 (B3 & B4 & B5) (B6 & B7 & B8) B9]. split; try done; cbn.
    split_and!; try done. unfold gone, wks. cbn. rewrite B6. by intros i x.
Qed.

(** ** Shutdown *)

Lemma stop_step p e : up p e → at_rest p → pr_run p ≠ Some None →
  ∃ p', croutine_runtime_shutdown p = Ok (tt, p') ∧ live p' true ∧
    pr_driver p' = Stopping 0 ∧ pr_run p' = pr_run p ∧ wks p' = wks p.
Proof.
  intros HU [R1 R2 R3 R4 R5] Hr. pose proof HU as [[U1 U2] _ U3]. unfold croutine_runtime_shutdown.
  rewrite (bind_ok _ _ p p p), U1 by done. cbn [negb].
  destruct (request_run p e HU) as (p' & σ & Hrun & -> & HV & Hw & Hh). rewrite (bind_ok _ _ _ _ _ Hrun).
  eexists. split; [done|]. split_and!; [|done..]. split; [done|]. cbn. split_and!; try done.
  split; unfold nworkers, wks; cbn; rewrite ?Hw; done.
Qed.

Lemma returns_step p e r : up p e → at_rest p → pr_run p = None ∨ pr_run p = Some None →
  ∃ p' e', run_returns r p = Ok (tt, p') ∧ live p' e' ∧
    if pr_run p is Some _ then pr_driver p' = Stopping 0 ∧ pr_run p' = Some (Some r) else pr_driver p' = Idle (Some r).
Proof.
  intros HU HR Hr. unfold run_returns. rewrite (bind_ok _ _ p p p) by done. destruct Hr as [E|E]; rewrite E.
  - exists (set_driver (Idle (Some r)) p), e. split; [done|]. destruct HU as [U1 U2 U3], HR as [R1 R2 R3 R4 R5].
    split; [|done]. split; [done|]. by split; [|split].
  - destruct (stop_step (set_run (Some (Some r)) p) e) as (p' & Hrun & Hl & Hd & Hp & _);
      [by destruct HU; split|by destruct HR; split|done|]. by exists p', true.
Qed.

Lemma all_idle σ e l m : inv e σ → gone (sy_workers σ) → halted (worker (sy_state σ)) →
  winv (worker (sy_state σ)) l m → idle_tasks (heap (worker (sy_state σ))) l.
Proof.
  destruct σ as [s pcs pd]. cbn. intros HV Hg [_ Hn] HW t obj Ht. pose proof (sys_sinv _ _ _ _ _ _ HV) as HI.
  destruct (queued (scheduler obj)) eqn:Hq; [left; by apply (inv_flag _ _ _ (wi_queue _ _ _ HW) t obj Ht)|right].
  destruct (state (scheduler obj)) eqn:Hs; [exfalso|done|exfalso|exfalso].
  - destruct (si_loose _ _ HI t obj Ht) as (i & x & Hi & Hx); [by split; [|left]|]. by rewrite (Hg i x Hi) in Hx.
  - apply (Hn t). by exists obj.
  - destruct (si_loose _ _ HI t obj Ht) as (i & x & Hi & Hx); [by split; [|right]|]. by rewrite (Hg i x Hi) in Hx.
Qed.

Lemma shutdown_returns_run p :
  shutdown_returns p = Ok (tt, set_driver (Idle (mjoin (pr_run p))) (set_run None p)).
Proof.
  unfold shutdown_returns. rewrite (bind_ok _ _ p p p) by done. destruct (pr_run p) as [r|] eqn:E; [done|].
  unfold modify. do 2 f_equal. destruct p. cbn in *. by subst.
Qed.

Lemma stopped_step p e i : up p e → pr_driver p = Stopping i → driver_ok p e →
  ∃ p', shutdown_join_step i p = Ok (tt, p') ∧ over p' ∧
    pr_joined p' = upto (nworkers p') ∧ pr_driver p' = Idle (mjoin (pr_run p)).
Proof.
  intros [[U1 U2] U3 U4] Ed HD. unfold driver_ok in HD. rewrite Ed in HD.
  destruct HD as (-> & Hr & Hh & [R1 R2 R3 R4 R5]).
  unfold shutdown_join_step. rewrite (bind_ok _ _ p p p), R1 by done. cbn [Z.ltb Z.compare].
  set (p1 := set_started_workers 0 (set_workers None p)).
  rewrite (bind_ok _ _ p tt p1) by done.
  assert (sinv (wks p) (sched_of p)) as HI.
  { unfold wks, sched_of. destruct (pr_sys p) as [s pcs pd]. exact (sys_sinv _ _ _ _ _ _ U3). }
  destruct (si_sched _ _ HI) as (l & m & HW & _).
  destruct (deinit_run (sched_of p) l m) as (wk & Hrun & [D1 D2 D3 D4 D5 D6 D7 D8]);
    [done|apply HI|by eapply all_idle|apply HI|].
  rewrite (bind_ok _ _ _ _ _ (on_sched_run worker_deinit p1 tt wk Hrun)).
  erewrite bind_ok by reflexivity.
  eexists. split; [apply shutdown_returns_run|]. split; [|done]. split; cbn; try done; [by split; [eexists|]|].
  split; try done. by destruct D7.
Qed.

(** ** Running *)

Lemma main_spawned_run p e fpenv f a : up p e →
  ∃ b σ, on_sched (worker_spawn fpenv f a [] 0 false true) p = Ok (b, set_sys σ p) ∧ inv e σ ∧ sy_workers σ = wks p.
Proof.
  intros [_ U2 _]. unfold wks. destruct p as [[s pcs pd] n st arr i0 e0 r0 d0 w0 j0]. cbn in *.
  destruct (spawn_step pcs (worker s) fpenv f a [] 0 false true pages fresh_maps reliable
    (sys_sinv _ _ _ _ _ _ U2) (sv_running _ _ _ _ U2)) as (b & wk & Hrun & _); [done|].
  destruct (exec_spawn grants reliable pages fresh_maps e s pcs pd U2 None fpenv f a [] 0 false true)
    as [(m & Hab & _)|(r & s' & Hok & _ & Hr)]; [done| |].
  { by rewrite (bind_ok _ _ _ _ _ (on_worker_run _ _ _ _ Hrun)) in Hab. }
  rewrite (bind_ok _ _ _ _ _ (on_worker_run _ _ _ _ Hrun)) in Hok. injection Hok as <- <-.
  exists b, (mkSys (set_worker wk s) pcs pd). split; [|done].
  exact (on_sched_run _ _ b wk Hrun).
Qed.

Lemma run_step p e fpenv f a : up p e → at_rest p → pr_run p = None ∨ pr_run p = Some None →
  ∃ p' e', croutine_runtime_run fpenv f a p = Ok (tt, p') ∧ live p' e'.
Proof.
  assert (∀ p0 e0 r0, up p0 e0 → at_rest p0 → pr_run p0 = None ∨ pr_run p0 = Some None →
    ∃ p' e', run_returns r0 p0 = Ok (tt, p') ∧ live p' e') as Hret.
  { intros p0 e0 r0 A1 A2 A3. destruct (returns_step p0 e0 r0 A1 A2 A3) as (p' & e' & ? & ? & _). eauto. }
  intros HU HR Hr. unfold croutine_runtime_run. rewrite (bind_ok _ _ p p p) by done.
  destruct (_ || _) eqn:Ec; [by eapply Hret|]. apply orb_false_iff in Ec as [[_ Hran]%orb_false_iff _].
  set (p1 := set_ran true p). rewrite (bind_ok _ _ p tt p1) by done.
  assert (up p1 e) as HU1 by (by destruct HU).
  assert (nworkers p = 0) as Hn by (by apply HR).
  destruct (main_spawned_run p1 e fpenv f a HU1) as (b & σ & Hrun & HV & Hw).
  rewrite (bind_ok _ _ _ _ _ Hrun). set (p2 := set_sys σ p1). destruct HU as [U1 U2 U3].
  assert (nworkers p2 = nworkers p) as En by (unfold nworkers, wks at 1; cbn; by rewrite Hw).
  assert (up p2 e) as HU2 by done.
  assert (at_rest p2) as HR2.
  { destruct HR as [R1 R2 R3 R4 R5]. split; rewrite ?En; try done. unfold wks. cbn. by rewrite Hw. }
  destruct b; cbn [negb]; [|by eapply Hret]. destruct (calloc_ok _ _).
  - eexists _, e. split; [done|]. split; [done|]. destruct HR2 as [R1 R2 R3 R4 R5].
    split; [split; try done|split]; unfold nworkers, wks in *; cbn in *; try done; try lia.
    rewrite R4. by rewrite En, Hn.
  - destruct (request_run p2 e HU2) as (p3 & σ' & Hrun' & -> & HV' & Hw' & _). rewrite (bind_ok _ _ _ _ _ Hrun').
    eapply Hret; [by split| |done]. destruct HR2 as [R1 R2 R3 R4 R5].
    split; unfold nworkers, wks in *; cbn in *; rewrite ?Hw'; done.
Qed.

Lemma created p e : up p e → in_run p → pr_joined p = ∅ →
  (runtime_started_workers p = runtime_worker_count p ∨ e = true) →
  ∃ p', creation_done p = Ok (tt, p') ∧ live p' e.
Proof.
  intros [U1 U2 U3] HR Hj Hor. pose proof (ir_started _ HR) as Es. unfold creation_done. rewrite (bind_ok _ _ p p p) by done.
  destruct (Z.eqb_spec (runtime_started_workers p) (runtime_worker_count p)) as [E|E]; (eexists; split; [done|]).
  - split; [done|]. destruct HR as [R1 R2 R3 R4 R5]. split; [done|]. split; [|done].
    change (nworkers p = runtime_worker_count p). lia.
  - split; [done|]. destruct HR as [R1 R2 R3 R4 R5]. split; [done|].
    split_and!; [lia|unfold nworkers; lia|done|by destruct Hor|]. intros j Hlt. lia.
Qed.

Lemma u64_count n : 0 ≤ n < 2 ^ 32 → u64 n = n.
Proof. intros Hn. apply u64_small. lia. Qed.

Lemma creating_step p e i error : up p e → pr_driver p = Creating i → driver_ok p e →
  ∃ p' e', create_step i error p = Ok (tt, p') ∧ live p' e'.
Proof.
  intros HU Ed HD. unfold driver_ok in HD. rewrite Ed in HD. destruct HD as (HR & -> & Hj).
  pose proof HR as [R1 R2 R3 R4 R5]. pose proof HU as [U1 U2 U3]. pose proof (Nat2Z.is_nonneg (length (wks p))) as Hnn.
  unfold create_step. rewrite (bind_ok _ _ p p p), R3 by done.
  change (default 0 (Some (runtime_worker_count p))) with (runtime_worker_count p).
  destruct (Z.ltb_spec (nworkers p) (runtime_worker_count p)).
  2: { destruct (created p e HU HR Hj) as (p' & Hrun & Hl); [left; lia|]. by exists p', e. }
  destruct (error =? 0); cbn [negb].
  - assert (nworkers p + 1 < 2 ^ 32) as Hlt by lia.
    eexists _, e. split; [reflexivity|].
    assert (inv e (mkSys (sy_state (pr_sys p)) (wks p ++ [AtTop]) (sy_calls (pr_sys p)))) as HV.
    { unfold nworkers, wks in *. destruct (pr_sys p) as [s pcs pd] eqn:Es. cbn in *.
      destruct (act_step grants reliable pages fresh_maps e LStart (mkSys s pcs pd) _ U2 Hlt eq_refl)
        as [(m & ? & _)|(σ & [= <-] & HV & _)]; [done|exact HV]. }
    set (p' := set_driver _ _).
    assert (nworkers p' = nworkers p + 1) as En.
    { unfold nworkers, p', wks. cbn. rewrite length_app. cbn. lia. }
    split; [by split|]. unfold driver_ok, p' at 1. cbn [pr_driver set_driver]. rewrite En.
    rewrite u64_count by (unfold nworkers in *; lia). split_and!; try done.
    split; rewrite ?En; try done; cbn; [|lia]. rewrite R1. apply u64_count. unfold nworkers in *; lia.
  - destruct (request_run p e HU) as (p1 & σ & Hrun & -> & HV & Hw & _). rewrite (bind_ok _ _ _ _ _ Hrun).
    destruct (created (set_sys σ p) true) as (p' & Hrun' & Hl); [by split| |done|by right|by exists p', true].
    split; unfold nworkers, wks in *; cbn in *; rewrite ?Hw; done.
Qed.

Lemma join_next p i code : in_run p → 0 ≤ i < nworkers p → pr_joined p = upto i →
  join_step i code p = Ok (tt, set_driver (Joining (i + 1) code) (set_joined (upto (i + 1)) p)).
Proof.
  intros [R1 R2 R3 R4 R5] Hi Hj. destruct (upto_next i) as [E Hn]; [lia|].
  unfold join_step. rewrite (bind_ok _ _ p p p), R1 by done. destruct (Z.ltb_spec i (nworkers p)); [|lia].
  erewrite bind_ok; [reflexivity|]. unfold join_worker. rewrite (bind_ok _ _ p p p), R3 by done.
  destruct (Z.ltb_spec i (runtime_worker_count p)); [|lia]. rewrite Hj, bool_decide_eq_true_2 by done. cbn [andb].
  by rewrite E.
Qed.
Lemma join_last p e code : up p e → pr_driver p = Joining (nworkers p) code → driver_ok p e →
  ∃ p' e', join_step (nworkers p) code p = Ok (tt, p') ∧ live p' e' ∧
    if pr_run p is Some _ then pr_driver p' = Stopping 0 ∧ pr_run p' = Some (Some code) else pr_driver p' = Idle (Some code).
Proof.
  intros HU Ed HD. unfold driver_ok in HD. rewrite Ed in HD. destruct HD as (HR & Hi & Hj & -> & Hx).
  pose proof HR as [R1 R2 R3 R4 R5]. pose proof HU as [U1 U2 U3].
  unfold join_step. rewrite (bind_ok _ _ p p p), R1 by done. rewrite Z.ltb_irrefl.
  set (p1 := set_started_workers 0 (set_workers None p)). rewrite (bind_ok _ _ p tt p1) by done.
  apply (returns_step p1 true); [by split| |done]. split; try done.
  - intros j x Hjx. change (wks p1) with (wks p) in Hjx. pose proof (lookup_lt_Some _ _ _ Hjx).
    rewrite Hx in Hjx by (unfold nworkers; lia). by injection Hjx as <-.
  - intros E. change (runtime_ran p = false) in E. congruence.
Qed.

Lemma joining_step p e i code : up p e → pr_driver p = Joining i code → driver_ok p e → worker_gone p i = true →
  ∃ p' e', join_step i code p = Ok (tt, p') ∧ live p' e'.
Proof.
  intros HU Ed HD Hg. pose proof HD as HD'. unfold driver_ok in HD'. rewrite Ed in HD'.
  destruct HD' as (HR & Hi & Hj & -> & Hx). destruct (Z.ltb_spec i (nworkers p)) as [Hlt|Hge].
  - eexists _, true. split; [by apply join_next; [|lia|]|]. destruct HU as [U1 U2 U3], HR as [R1 R2 R3 R4 R5].
    split; [done|]. split; [done|]. split_and!; [lia|change (nworkers _) with (nworkers p); lia|done..|].
    intros j Hlt'. change (wks _) with (wks p). destruct (decide (Z.of_nat j < i)); [by apply Hx|].
    assert (j = Z.to_nat i) as -> by lia. unfold worker_gone in Hg. rewrite R1 in Hg.
    destruct (Z.ltb_spec i (nworkers p)); [|lia]. fold (wks p) in Hg. destruct (wks p !! Z.to_nat i) as [[]|]; done.
  - assert (i = nworkers p) as -> by lia. destruct (join_last p true code HU Ed HD) as (p' & e' & ? & ? & _). eauto.
Qed.

(** ** Every step *)

(** Arguments and answers that are valid; the program uses tasks, descriptors
    and channels between initialisation and shutdown. *)
Definition plabel_ok (lb : plabel P) p : Prop :=
  match lb with
  | PInit config online | PWhole config online _ _ _ => config_ok config online
  | PSys lb => runtime_initialized p = true ∧ label_ok lb (pr_sys p)
  | PRun _ _ _ | PShutdown | PDriver _ | PRequest => True
  end.

Lemma idle_up p r : pinv p → pr_driver p = Idle r →
  pr_run p = None ∧ (runtime_initialized p = false ∨ ∃ e, up p e ∧ at_rest p).
Proof.
  intros [[(B1 & _) [_ B2] _ _ _]|[(e & [HU HD])|[[B1 _] [_ B2] _ _]]] Ed; [by auto| |by auto].
  unfold driver_ok in HD. rewrite Ed in HD. destruct HD as [E HR]. eauto.
Qed.
Lemma set_idle p r r' : pinv p → pr_driver p = Idle r → pinv (set_driver (Idle r') p).
Proof.
  intros [[B1 [_ B2] B3 B4 B5]|[(e & [[U1 U2 U3] HD])|[B1 [_ B2] B3 B4]]] Ed.
  - left. split; try done. split; [by eexists|done].
  - right. left. exists e. split; [done|]. unfold driver_ok in HD. rewrite Ed in HD.
    destruct HD as [E [R1 R2 R3 R4 R5]]. split; [done|]. by split.
  - right. right. split; try done. split; [by eexists|done].
Qed.
Lemma initialized_live p : pinv p → runtime_initialized p = true → ∃ e, live p e.
Proof. by intros [[(B1 & _) _ _ _ _]|[?|[[B1 _] _ _ _]]] E; [congruence| |congruence]. Qed.

Definition proceeds (o : outcome (proc P)) : Prop :=
  (∃ m, o = Abort m ∧ fatal m) ∨ ∃ p', o = Ok p' ∧ pinv p'.
Lemma proceeds_live (m : M (proc P) unit) p : (∃ p' e, m p = Ok (tt, p') ∧ live p' e) → proceeds (exec_proc m p).
Proof. intros (p' & e & Hrun & Hl). right. exists p'. unfold exec_proc. rewrite Hrun. split; [done|]. right. left. eauto. Qed.

Lemma proceeds_init p r config online : pinv p → pr_driver p = Idle r → config_ok config online →
  proceeds (exec_proc (ok ← croutine_runtime_init config online; modify (set_driver (Idle (Some (Z.b2z ok))))) p).
Proof.
  intros HP Ed Hc. destruct (init_step p config online HP Hc) as (b & p' & Hrun & Ed' & _ & Hb).
  right. exists (set_driver (Idle (Some (Z.b2z b))) p'). split; [unfold exec_proc; by rewrite (bind_ok _ _ _ _ _ Hrun)|].
  destruct b.
  - destruct Hb as (HB & [U1 U2 U3] & [R1 R2 R3 R4 R5] & _). right. left. exists false. split; [done|].
    split; [|by split]. cbn. pose proof (init_step p config online HP Hc) as (b & p'' & Hrun' & _ & E & _).
    rewrite Hrun in Hrun'. injection Hrun' as _ <-. rewrite E. apply HB.
  - eapply (set_idle p' r); [|congruence]. destruct Hb as [->|[_ HO]]; [done|by right; right].
Qed.

Lemma proceeds_run p r fpenv f a : pinv p → pr_driver p = Idle r →
  proceeds (exec_proc (croutine_runtime_run fpenv f a) p).
Proof.
  intros HP Ed. destruct (idle_up p r HP Ed) as [Er [Ei|(e & HU & HR)]].
  - right. exists (set_driver (Idle (Some (-1))) p). split; [|by eapply set_idle].
    unfold exec_proc, croutine_runtime_run, run_returns. rewrite (bind_ok _ _ p p p), Ei by done. cbn [negb orb].
    by rewrite (bind_ok _ _ p p p), Er by done.
  - apply proceeds_live. eapply run_step; [done..|by left].
Qed.

Lemma proceeds_whole p r config online fpenv f a : pinv p → pr_driver p = Idle r → config_ok config online →
  proceeds (exec_proc (croutine_run config online fpenv f a) p).
Proof.
  intros HP Ed Hc. unfold croutine_run. destruct (f =? 0).
  { right. eexists. split; [done|]. by eapply set_idle. }
  destruct (init_step p config online HP Hc) as (b & p' & Hrun & Ed' & Er & Hb).
  unfold exec_proc. rewrite (bind_ok _ _ _ _ _ Hrun). destruct b; cbn [negb].
  - destruct Hb as (HB & [U1 U2 U3] & [R1 R2 R3 R4 R5] & _). rewrite (bind_ok _ _ _ tt (set_run (Some None) p')) by done.
    apply proceeds_live. eapply (run_step _ false); [by split|by split|by right].
  - right. eexists. split; [done|]. eapply (set_idle p' r); [|congruence].
    destruct Hb as [->|[_ HO]]; [done|by right; right].
Qed.

Lemma proceeds_driver p error m : pinv p → driver_next p error = Some m → proceeds (exec_proc m p).
Proof.
  intros HP Hm. unfold driver_next in Hm.
  destruct (pr_driver p) as [r|i| |i code|i] eqn:Ed; [done|..].
  all: destruct HP as [[_ [[r ?] _] _ _ _]|[(e & [HU HD])|[_ [[r ?] _] _ _]]]; [congruence| |congruence].
  - injection Hm as <-. apply proceeds_live. by eapply creating_step.
  - set (wk := worker (sy_state (pr_sys p))) in Hm. unfold worker_wait_for_main in Hm.
    rewrite (bind_ok _ _ wk wk wk) in Hm by done. unfold mret, M_ret in Hm.
    destruct (main_finished wk) eqn:Em; [|done]. injection Hm as <-.
    apply proceeds_live. eexists _, true. split; [done|]. unfold driver_ok in HD. rewrite Ed in HD.
    destruct HD as ([R1 R2 R3 R4 R5] & Hn & Hj), HU as [U1 U2 U3]. split; [split; try done|].
    { by eapply sys_inv_end. }
    split; [done|]. split_and!; [lia|unfold nworkers; lia|exact Hj|done|]. intros j Hlt. lia.
  - destruct (worker_gone p i) eqn:Eg; [|done]. injection Hm as <-. apply proceeds_live. by eapply joining_step.
  - destruct (worker_gone p i) eqn:Eg; [|done]. injection Hm as <-.
    destruct (stopped_step p e i HU Ed HD) as (p' & Hrun & HO & _). right. exists p'.
    unfold exec_proc. rewrite Hrun. split; [done|]. by right; right.
Qed.

Lemma live_act p e lb o : live p e → label_ok lb (pr_sys p) → lb ≠ LStart → act lb (pr_sys p) = Some o →
  (∃ m, o = Abort m ∧ fatal m) ∨ ∃ σ, o = Ok σ ∧ live (set_sys σ p) e.
Proof.
  intros HL Hl Hlb Ha. pose proof HL as [[_ HV _] _].
  destruct (act_step grants reliable pages fresh_maps e lb (pr_sys p) o HV Hl Ha) as [(m & -> & Hf)|(σ & -> & HV' & Hh)].
  - left. by exists m.
  - right. exists σ. split; [done|]. destruct (act_exited _ _ _ Ha) as [Hx Hlen].
    eapply live_set; [done..|by apply Hlen|done|done].
Qed.
Lemma proceeds_sys p lb o : pinv p → runtime_initialized p = true → label_ok lb (pr_sys p) → lb ≠ LStart →
  act lb (pr_sys p) = Some o → proceeds (σ ← o; Ok (set_sys σ p)).
Proof.
  intros HP Hi Hl Hlb Ha. destruct (initialized_live p HP Hi) as (e & HL).
  destruct (live_act p e lb o HL Hl Hlb Ha) as [(m & -> & Hf)|(σ & -> & HL')]; [left; by exists m|].
  right. eexists. split; [done|]. right. left. by exists e.
Qed.

Lemma pact_step lb p o : pinv p → plabel_ok lb p → pact lb p = Some o → proceeds o.
Proof.
  intros HP Hl Ha. destruct lb as [config online|fpenv f a| |config online fpenv f a|error| |lb]; cbn [pact plabel_ok] in *.
  - destruct (pr_driver p) as [r| | | |] eqn:Ed; try done. injection Ha as <-. by eapply proceeds_init.
  - destruct (pr_driver p) as [r| | | |] eqn:Ed; try done. injection Ha as <-. by eapply proceeds_run.
  - destruct (pr_driver p) as [r| | | |] eqn:Ed; try done. injection Ha as <-.
    destruct (idle_up p r HP Ed) as [Er [Ei|(e & HU & HR)]].
    + right. exists (set_driver (Idle None) p). split; [|by eapply set_idle].
      unfold exec_proc, croutine_runtime_shutdown, shutdown_returns. rewrite (bind_ok _ _ p p p), Ei by done.
      cbn [negb]. by rewrite (bind_ok _ _ p p p), Er by done.
    + apply proceeds_live. destruct (stop_step p e HU HR) as (p' & Hrun & HL & _); [congruence|eauto].
  - destruct (pr_driver p) as [r| | | |] eqn:Ed; try done. injection Ha as <-. by eapply proceeds_whole.
  - destruct (driver_next p error) as [m|] eqn:Em; [|done]. injection Ha as <-. by eapply proceeds_driver.
  - injection Ha as <-. unfold croutine_runtime_request_shutdown.
    destruct (runtime_initialized p) eqn:Ei.
    + destruct (initialized_live p HP Ei) as (e & HL). pose proof HL as [HU _].
      destruct (request_run p e HU) as (p' & σ & Hrun & -> & HV & Hw & Hh). apply proceeds_live.
      exists (set_sys σ p), true. split; [by rewrite (bind_ok _ _ p p p), Ei by done|].
      eapply live_set; [done..| | |done]; rewrite ?Hw; done.
    + right. exists p. split; [|done]. unfold exec_proc. by rewrite (bind_ok _ _ p p p), Ei by done.
  - destruct Hl as [Hi Hl]. destruct lb; try done; (destruct (act _ _) as [o'|] eqn:Ea; [|done]; injection Ha as <-;
      by eapply proceeds_sys).
Qed.

(** ** Runs *)

Inductive reachable p0 : proc P → Prop :=
| reach_start : reachable p0 p0
| reach_step p lb p' : reachable p0 p → plabel_ok lb p → pact lb p = Some (Ok p') → reachable p0 p'.

Lemma reachable_inv p0 p : before p0 → reachable p0 p → pinv p.
Proof.
  intros HB. induction 1 as [|p lb p' _ IH Hl Ha]; [by left|].
  destruct (pact_step lb p _ IH Hl Ha) as [(e & ? & _)|(p'' & [= <-] & HP)]; done.
Qed.
End proc.
