(* ===== verification/Demo.v ===== *)
(** * Concrete states

    A poller that keeps the requested events in a table (the least
    implementation of the poller interface), a scheduler with two executing
    tasks, and a channel of capacity one: the states on which the examples
    of the other files run. *)

From S2P Require Import Prelude Posix Memory ArchX86 Task IoWait PollerApi Worker WorkerInv.
From S2P Require Import WaitQueue.
From S2P Require Import Channel ChannelBuffer ChannelInv ChannelSpec ChannelRefine ChannelWait.
From S2P Require Import ChannelBlock ChannelRegistry WorkerChannels.

(** ** A table of interests as a poller *)

#[global] Instance table_poller : Poller (gmap Z Z) := {|
  kernel_event := CroutinePollEvent;
  poller_init p := Ok (true, p);
  poller_deinit _ := Ok (tt, ∅);
  poller_set fd _ new p := Ok (true, <[fd := new]> p);
  poller_wait _ answers p :=
    r ← retry answers; Ok (match r with Done evs => Some evs | Fails _ => None end, p);
  poller_wake p := Ok (true, p)
|}.

#[global] Instance table_poller_laws : PollerLaws (gmap Z Z).
Proof.
  refine {| poller_ready _ := True; fd_valid _ := fd_ok; interest p fd := default 0 (p !! fd); event_ok _ := True;
            wake_pending _ := True; poller_down p := p = ∅ |}.
  - intros fd old new p _ _ _ _ _. eexists true, _. split; [done|]. split_and!; [done|done| |done|].
    + intros fd' Hne. by rewrite lookup_insert_ne.
    + by rewrite lookup_insert_eq.
  - intros max answers p _ _ Ha Hf _. destruct (retry_answered answers Ha) as (r & l1 & l2 & Hr & _ & E & _).
    eexists _, p. split; [exact (outcome_bind_ok _ _ _ Hr)|]. split_and!; try done.
    intros evs. destruct r as [a|]; [|done]. intros [= ->]. apply Hf. rewrite E. set_solver.
  - intros p _. by exists true, p.
  - intros p ->. eexists true, _. split; [done|]. split; [done|]. intros fd. by rewrite lookup_empty.
  - intros p _. by exists ∅.
Defined.

(** ** A scheduler *)

#[global] Instance demo_entry : Entry := 0x401000.

(** Tasks 1 and 2 are being executed; nothing is queued and nobody waits. *)
Definition demo_sched : sched (gmap Z Z) :=
  mkSched demo_heap ∅ ∅ (λ _, 0) (demo_queue 4)
    (mkIoWaitTable (replicate 4 io_wait_entry_reset) 4 0)
    true true false false 0 0 0 false false true 0 65536 ∅.

Lemma demo_heap_task t obj : demo_heap !! t = Some obj → obj = demo_task ∧ (t = 1%positive ∨ t = 2%positive).
Proof.
  unfold demo_heap.
  intros [[<- <-]|[_ [<- <-]%lookup_singleton_Some]]%lookup_insert_Some; auto.
Qed.

Lemma demo_winv : winv demo_sched [] ∅.
Proof.
  split; simpl; try done.
  - apply empty_inv; [lia|exact demo_heap_idle].
  - set_solver.
  - apply (@init_rep generous 4). lia.
  - intros t d (obj & Ht & Hs & _). by apply demo_heap_task in Ht as [-> _].
Qed.

#[global] Existing Instance generous.
#[global] Existing Instance demo_os.
#[global] Instance demo_laws : SchedulerLaws (sched (gmap Z Z)) := worker_laws generous_grants.

(** ** Channels *)

Definition demo_channel : croutine_channel :=
  mkChannel 1 1 false (Some [Byte.x00]) 0 0 0 (mkWaitQueue None None) (mkWaitQueue None None) None None.
Definition demo_values : gmap positive (list byte) :=
  {[ 1%positive := [Byte.x2a]; 2%positive := [Byte.x00]; 3%positive := [Byte.x07] ]}.
(** One open channel of one-byte values and capacity one, nobody waiting. *)
Definition demo : cstate (sched (gmap Z Z)) :=
  mkCstate {[ 1%positive := demo_channel ]} ∅ ∅ (Some 1%positive) demo_values demo_sched.

Definition demo_abs : astate :=
  mkAState {[ 1%positive := mkAChan 1 1 false [] [] [] ]} demo_values.

Lemma demo_cref : cref demo demo_abs.
Proof.
  exists (λ _, []), (λ _ _, []). split; [split|split]; simpl; try done.
  - exists [], ∅. exact demo_winv.
  - intros c ch [<- <-]%lookup_singleton_Some. apply new_buf_rep; try (unfold SIZE_MAX; lia).
    + intros _. vm_compute. discriminate.
    + intros _. exists [Byte.x00]. done.
  - intros c ch op [<- <-]%lookup_singleton_Some. destruct op; split; try done; constructor.
  - intros c ch op w _ Hw. set_solver.
  - intros t (obj & Ht & Hs). by apply demo_heap_task in Ht as [-> _].
Qed.

Lemma demo_idle t : t = 1%positive ∨ t = 2%positive → idle demo t.
Proof.
  intros Ht. split; [|done]. exists demo_task. by destruct Ht as [-> | ->].
Qed.

Lemma demo_reg : reg_rep (reg_view demo) [1%positive].
Proof.
  split; simpl; try done.
  - apply NoDup_singleton.
  - intros c. rewrite lookup_fmap, fmap_is_Some. destruct (decide (c = 1%positive)) as [->|Hne].
    + split; [set_solver|]. intros _. by eexists.
    + rewrite lookup_singleton_ne by done. split; [by intros []|set_solver].
Qed.

Lemma demo_aok : aok demo_abs.
Proof.
  intros c ch. simpl. intros [<- <-]%lookup_singleton_Some. split; simpl; try done; try lia; set_solver.
Qed.
