(* ===== verification/RuntimeProps.v ===== *)
(** * What the runtime guarantees

    Theorems on every state a program can reach from its start on a
    [platform], whatever its tasks call with valid arguments and however the
    threads are scheduled; and a concrete program on the epoll poller that reaches the
    states they speak of. *)

From S2P Require Import Prelude Posix Memory ArchX86 Task IoWait PollerApi PollerEpoll EpollInv EpollProps.
From S2P Require Import Worker WorkerInv Resources WorkerIo WorkerLoop SchedInv SchedSteps SchedCalls WorkerStop.
From S2P Require Import WaitQueue Channel ChannelBuffer ChannelInv ChannelSpec ChannelRefine ChannelRegistry.
From S2P Require Import ChannelClients ChannelCalls WorkerChannels SchedChannels System Runtime SystemInv SystemRuns.
From S2P Require Import RuntimeInv Demo.

Section props.
Context `{Alloc, Os, Entry} {P : Type} `{PollerLaws P}.
Implicit Types (p : proc P) (t : tid) (obj : Task) (x : pc).

(** What is asked of the platform: memory for bookkeeping, pages of a sane
    size, mappings that are new, and wake-ups that arrive. *)
Record platform : Prop := {
  pf_grants : calloc_grants;
  pf_wake : wake_reliable (P:=P);
  pf_pages : page_size_ok;
  pf_maps : mmap_fresh
}.

(** A program that can be observed: started from zeroed variables. *)
Definition observed p : Prop := ∃ p0, before p0 ∧ reachable p0 p.

Lemma observed_inv (HF : platform) p : observed p → pinv (pf_grants HF) (pf_wake HF) p.
Proof. intros (p0 & HB & HR). eapply reachable_inv; [apply HF..|done|done]. Qed.
Lemma observed_live (HF : platform) p : observed p → runtime_initialized p = true →
  ∃ e, live (pf_grants HF) (pf_wake HF) p e.
Proof. intros HO Hi. eapply initialized_live; [by apply observed_inv|done]. Qed.
Lemma observed_sched (HF : platform) p : observed p → runtime_initialized p = true →
  sinv (wks p) (sched_of p) ∧ running_ok (wks p) (sched_of p).
Proof.
  intros HO Hi. destruct (observed_live HF p HO Hi) as (e & [[_ HV _] _]). unfold wks, sched_of.
  destruct (pr_sys p) as [s pcs pd]. split; [exact (sys_sinv _ _ _ _ _ _ HV)|apply (sv_running _ _ _ _ HV)].
Qed.

(** ** Safety *)

(** C1: on a [platform], in every reachable state, every enabled step of the owning thread, of
    a worker, of a task inside or outside a call, or of another thread, with
    valid arguments, runs to its end; the only exception is the deliberate
    abort of the process when the kernel refuses to change a registration or
    waiting fails.  No step dereferences a freed task, channel, waiter or
    stack, leaves an array or joins a thread twice. *)
Theorem runtime_never_stuck p lb o :
  platform → observed p → plabel_ok lb p → pact lb p = Some o →
  (∃ m, o = Abort m ∧ fatal m) ∨ ∃ p', o = Ok p' ∧ observed p'.
Proof.
  intros HF HO Hl Ha. pose proof (observed_inv HF p HO) as HP. destruct HO as (p0 & HB & HR).
  destruct (pact_step (pf_grants HF) (pf_wake HF) (pf_pages HF) (pf_maps HF) lb p o HP Hl Ha)
    as [?|(p' & -> & _)]; [by left|right].
  exists p'. split; [done|]. exists p0. split; [done|]. by eapply reach_step.
Qed.

(** ** Where the tasks are *)

Inductive place := InQueue | WithWorker (i : nat) | OnDescriptor (d : Z) | OnChannel.

Definition is_at p (l : list tid) (m : gmap Z (option tid * option tid)) t (pl : place) : Prop :=
  match pl with
  | InQueue => t ∈ l
  | WithWorker i => ∃ x, wks p !! i = Some x ∧ holds x = Some t
  | OnDescriptor d => ∃ r w, m !! d = Some (r, w) ∧ (r = Some t ∨ w = Some t)
  | OnChannel => on_channel (sched_of p) t ∧ is_Some (sy_calls (pr_sys p) !! t)
  end.

(** What the task's record says when it is in a place. *)
Lemma place_says p l m t obj pl :
  sinv (wks p) (sched_of p) → running_ok (wks p) (sched_of p) → winv (sched_of p) l m →
  heap (sched_of p) !! t = Some obj → is_at p l m t pl →
  match pl with
  | InQueue => queued (scheduler obj) = true ∧ state (scheduler obj) = TASK_RUNNABLE
  | WithWorker _ => loose obj
  | OnDescriptor d => state (scheduler obj) = TASK_WAITING_IO ∧ io_fd (io_wait obj) = d
  | OnChannel => state (scheduler obj) = TASK_WAITING_CHANNEL
  end.
Proof.
  intros HI HR HW Ht Hpl. destruct pl as [|i|d|]; cbn in Hpl.
  - split; [by apply (inv_flag _ _ _ (wi_queue _ _ _ HW) t obj Ht)|by eapply (wi_runnable _ _ _ HW)].
  - destruct Hpl as (x & Hi & Hx). destruct x as [|ms|r|b|u|u y|u y b|]; try done.
    + injection Hx as ->. destruct (HR i t Hi) as (o & Ho & Hs & Hq). simplify_eq. split; auto.
    + destruct (si_holds _ _ HI i _ t Hi Hx) as (o & Ho & Hq & Hs). simplify_eq.
      split; [done|]. destruct (state (scheduler obj)); try done; auto.
    + destruct (si_holds _ _ HI i _ t Hi Hx) as (o & Ho & Hq & Hs). simplify_eq.
      split; [done|]. destruct (state (scheduler obj)); try done; auto.
  - destruct Hpl as (r & w & Hm & Hrw). destruct (wi_entry _ _ _ HW d r w Hm) as (_ & _ & Hw).
    destruct (Hw t Hrw) as (o & Ho & Hs & Hd). by simplify_eq.
  - destruct Hpl as [(o & Ho & Hs) _]. by simplify_eq.
Qed.

(** C2: while the runtime is initialised, every task that has not been freed
    is in exactly one place: in the run queue, with one worker, parked on one
    descriptor, or parked on a channel inside a call.  The run queue holds no
    task twice and no task runs on two workers. *)
Theorem task_in_one_place p :
  platform → observed p → runtime_initialized p = true →
  ∃ l m, tq_inv (runnable_tasks (sched_of p)) (heap (sched_of p)) l ∧ it_rep (io_waits (sched_of p)) m ∧
    ∀ t obj, heap (sched_of p) !! t = Some obj →
      ∃ pl, is_at p l m t pl ∧ ∀ pl', is_at p l m t pl' → pl' = pl.
Proof.
  intros HF HO Hi. destruct (observed_sched HF p HO Hi) as [HI HR]. destruct (si_sched _ _ HI) as (l & m & HW & _).
  exists l, m. split_and!; [apply HW..|]. intros t obj Ht.
  pose proof (place_says p l m t obj) as Hsay. pose proof (λ pl, Hsay pl HI HR HW Ht) as Hat. clear Hsay.
  assert (∃ pl, is_at p l m t pl) as [pl Hpl].
  { destruct (queued (scheduler obj)) eqn:Hq; [exists InQueue; by apply (inv_flag _ _ _ (wi_queue _ _ _ HW) t obj Ht)|].
    destruct (state (scheduler obj)) eqn:Hs.
    - destruct (si_loose _ _ HI t obj Ht) as (i & x & ?); [by split; [|left]|]. exists (WithWorker i). by exists x.
    - destruct (wi_waiting _ _ _ HW t (io_fd (io_wait obj))) as (r & w & ?); [by exists obj|].
      exists (OnDescriptor (io_fd (io_wait obj))). by exists r, w.
    - exists OnChannel. assert (on_channel (sched_of p) t) as Hc by (by exists obj). split; [done|].
      destruct (observed_live HF p HO Hi) as (e & [[_ [(A & k & HC) _ _] _] _]).
      by eapply (parked_client (H1 := sys_laws (wks p) e (pf_grants HF) (pf_wake HF)) _ A); [apply HC..|].
    - destruct (si_loose _ _ HI t obj Ht) as (i & x & ?); [by split; [|right]|]. exists (WithWorker i). by exists x. }
  exists pl. split; [done|]. intros pl' Hpl'. pose proof (Hat pl Hpl) as S. pose proof (Hat pl' Hpl') as S'.
  destruct pl as [|i|d|], pl' as [|i'|d'|]; try done; unfold loose in *; try (intuition congruence).
  - destruct Hpl as (x & Hx & Hh), Hpl' as (x' & Hx' & Hh'). f_equal. by eapply (si_once _ _ HI).
Qed.

(** ** Nobody is forgotten *)

(** C3: while the runtime is up and not stopping, the workers never all sleep
    while a task is runnable.  If every worker is blocked in the condition
    variable or in the poller, no signal is under way and the poller has no
    wake-up, then the run queue is empty, exactly one worker is in the poller
    and all others wait on the condition variable. *)
Theorem sleep_only_without_work p :
  platform → observed p → runtime_initialized p = true → ¬ stopping (sched_of p) → wks p ≠ [] →
  (∀ i x, wks p !! i = Some x → awake_pc x = false) → cond_woken (sched_of p) = 0 →
  ¬ wake_pending (poller (sched_of p)) →
  task_queue_is_empty (Some (runnable_tasks (sched_of p))) = true ∧
  SchedInv.count polling (wks p) = 1 ∧ cond_waiting (sched_of p) = nworkers p - 1.
Proof.
  intros HF HO Hi Hst Hne Hsl Hcw Hwp. destruct (observed_sched HF p HO Hi) as [HI _].
  destruct (si_sched _ _ HI) as (l & m & HW & Hsv). pose proof (si_cond _ _ HI) as (C1 & C2 & C3).
  assert (SchedInv.count awake_pc (wks p) = 0) as Ha.
  { pose proof (count_nonneg awake_pc (wks p)). destruct (decide (SchedInv.count awake_pc (wks p) = 0)); [done|].
    destruct (count_pos awake_pc (wks p)) as (i & x & Hx & E); [lia|]. by rewrite (Hsl i x Hx) in E. }
  assert (l = []) as ->.
  { destruct (decide (l = [])) as [|Hl]; [done|]. destruct (Hsv Hl) as [?|[?|[?|[?|[? _]]]]]; try done; lia. }
  assert (∀ ws, (∀ i x, ws !! i = Some x → awake_pc x = false ∧ x ≠ Exited) →
    SchedInv.count waiting ws + SchedInv.count polling ws = Z.of_nat (length ws)) as Hsum.
  { induction ws as [|x ws IH]; intros Hws; [done|]. rewrite !count_cons, length_cons.
    destruct (Hws 0%nat x eq_refl) as [E1 E2]. specialize (IH (λ i, Hws (S i))).
    destruct x; try done; cbn [waiting polling Z.b2z]; lia. }
  specialize (Hsum (wks p)). rewrite <-C1, Hcw, (si_poll _ _ HI) in Hsum.
  assert (cond_waiting (sched_of p) + Z.b2z (poller_waiter_active (sched_of p)) = nworkers p) as Hs.
  { unfold nworkers. rewrite <-Hsum; [lia|]. intros i x Hx. split; [by eapply Hsl|]. intros ->.
    by destruct Hst; eapply (si_exited _ _ HI). }
  assert (poller_waiter_active (sched_of p) = true) as Hact.
  { destruct (decide (0 < cond_waiting (sched_of p))); [by apply (si_asleep _ _ HI)|].
    destruct (poller_waiter_active (sched_of p)); [done|]. cbn in Hs. unfold nworkers in Hs.
    destruct (wks p); [done|cbn in Hs; lia]. }
  split_and!; [by rewrite (is_empty_run _ _ _ HW)|by rewrite (si_poll _ _ HI), Hact|].
  rewrite Hact in Hs. cbn in Hs. lia.
Qed.

(** C4: in every reachable state the channels represent an abstract state in
    which nobody waits in vain: buffers hold at most their capacity, senders
    wait only on full channels, receivers only on empty ones, nobody waits on
    a closed channel; the registry lists the live channels, and every task
    parked on a channel is inside a call that can be completed. *)
Theorem nobody_waits_in_vain p (HF : platform) :
  observed p → runtime_initialized p = true →
  ∃ e A l, cref (H0 := sys_laws (wks p) e (pf_grants HF) (pf_wake HF)) (sy_state (pr_sys p)) A ∧
    (∀ c a, a_chans A !! c = Some a →
      Z.of_nat (length (a_buf a)) ≤ a_cap a ∧
      (a_senders a ≠ [] → Z.of_nat (length (a_buf a)) = a_cap a) ∧
      (a_receivers a ≠ [] → a_buf a = []) ∧
      (a_closed a = true → a_senders a = [] ∧ a_receivers a = [])) ∧
    reg_rep (reg_view (sy_state (pr_sys p))) l ∧
    ∀ t, on_channel (sched_of p) t → ∃ b, sy_calls (pr_sys p) !! t = Some b ∧
      wait_ok (H1 := sys_laws (wks p) e (pf_grants HF) (pf_wake HF)) (sy_state (pr_sys p)) t b.
Proof.
  intros HO Hi. destruct (observed_live HF p HO Hi) as (e & [[_ [(A & l & HC) _ _] _] _]).
  exists e, A, l. pose proof HC as [C1 C2 C3 C4]. split_and!; [done| |done|].
  - intros c a Ha. destruct (C2 c a Ha) as [O1 O2 O3 O4 O5 O6]. done.
  - intros t Ht. destruct (parked_client (H1 := sys_laws (wks p) e (pf_grants HF) (pf_wake HF)) _ A _ t C1 C4 Ht) as [b Hb].
    exists b. split; [done|]. by apply (cn_wait _ _ C4).
Qed.

(** ** Shutdown *)

(** A run of workers, tasks and other threads, with the owning thread at
    rest. *)
Inductive path : proc P → list (label P) → proc P → Prop :=
| path_nil p : path p [] p
| path_cons p lb p1 lbs p' :
    plabel_ok (PSys lb) p → pact (PSys lb) p = Some (Ok p1) → path p1 lbs p' → path p (lb :: lbs) p'.

(** How often the workers and the tasks' switches had their turn. *)
Definition turns (lbs : list (label P)) : Z := foldr (λ lb n, own_step lb + n) 0 lbs.

Lemma pact_sys lb p p' : pact (PSys lb) p = Some (Ok p') → lb ≠ LStart ∧ ∃ σ, act lb (pr_sys p) = Some (Ok σ) ∧ p' = set_sys σ p.
Proof.
  intros Ha. assert (lb ≠ LStart) as Hlb by (by intros ->). split; [done|].
  assert (pact (PSys lb) p = o ← act lb (pr_sys p); Some (σ ← o; Ok (set_sys σ p))) as E.
  { cbn [pact]. destruct lb; try done. }
  rewrite E in Ha. destruct (act lb (pr_sys p)) as [o|]; [|done]. injection Ha as Ha.
  apply outcome_bind_inv in Ha as (σ & -> & [= <-]). eauto.
Qed.

Lemma path_turns (HF : platform) p lbs p' : path p lbs p' → live (pf_grants HF) (pf_wake HF) p true →
  turns lbs + ranks (wks p') ≤ ranks (wks p).
Proof.
  induction 1 as [p|p lb p1 lbs p' Hl Ha Hp IH]; intros HL; [cbn; lia|].
  destruct (pact_sys _ _ _ Ha) as (Hlb & σ & Hact & ->). destruct Hl as [_ Hl].
  destruct (live_act (pf_grants HF) (pf_wake HF) (pf_pages HF) (pf_maps HF) p true lb _ HL Hl Hlb Hact)
    as [(m & ? & _)|(σ' & [= <-] & HL')]; [done|].
  specialize (IH HL'). cbn [turns foldr]. fold (turns lbs).
  assert (stopping (sched_of p)) as Hst.
  { destruct HL as [[_ HV _] _]. unfold sched_of. destruct (pr_sys p) as [s pcs pd].
    pose proof (sys_at _ _ _ _ _ _ HV) as [HI He]. by apply (si_calm _ _ HI), He. }
  pose proof (act_rank lb (pr_sys p) σ Hst Hlb Hact) as Hr. unfold wks in *. cbn in IH. lia.
Qed.

(** C8: once main has ended or shutdown was requested, the workers leave.
    Nobody sleeps: the runtime is stopping, no worker is blocked on the
    condition variable, one that is in the poller has a wake-up pending, and
    every worker has left its loop, runs a task, or can take its next step.
    And they take few steps: in any run, the turns of the workers together,
    counting the switches of the tasks they run, are at most four per
    worker. *)
Theorem shutdown_terminates p lbs p' :
  platform → observed p → runtime_initialized p = true → main_finished (sched_of p) = true →
  path p lbs p' →
  turns lbs ≤ 4 * nworkers p ∧ stopping (sched_of p) ∧ cond_waiting (sched_of p) = 0 ∧
  (∀ i ms, wks p !! i = Some (InPoll ms) → wake_pending (poller (sched_of p))) ∧
  ∀ i x answers, wks p !! i = Some x →
    x = Exited ∨ (∃ t, x = Running t) ∨ ∃ o, pact (PSys (LWorker i answers)) p = Some o.
Proof.
  intros HF HO Hi Hm Hp. destruct (observed_sched HF p HO Hi) as [HI _]. destruct (observed_live HF p HO Hi) as (e & HL).
  destruct (si_calm _ _ HI Hm) as (Hst & Hc & Hpoll). split_and!; try done.
  - assert (live (pf_grants HF) (pf_wake HF) p true) as HL1.
    { pose proof HL as [[_ HV _] _].
      assert (set_sys (pr_sys p) p = p) as <- by (by destruct p).
      eapply live_set; [exact HL|by eapply sys_inv_end|done..]. }
    pose proof (path_turns HF p lbs p' Hp HL1). pose proof (ranks_nonneg (wks p)). pose proof (ranks_nonneg (wks p')).
    unfold nworkers. lia.
  - intros i x answers Hx. unfold wks in Hx. cbn [pact act]. destruct (pr_sys p) as [s pcs pd] eqn:Es. cbn [act].
    cbn in Hx. rewrite Hx. cbn. destruct x as [|ms|r|b|t|t y|t y b|]; eauto; right; right; cbn; eauto.
    assert (0 < cond_woken (worker s)) as Hw.
    { pose proof (si_cond _ _ HI) as (C1 & _ & _). unfold sched_of, wks in *. rewrite Es in *.
      cbn [sy_state sy_workers] in *.
      pose proof (count_elem waiting pcs i _ Hx eq_refl). lia. }
    destruct (Z.ltb_spec 0 (cond_woken (worker s))); [|lia]. cbn. eauto.
Qed.

(** C9: after [croutine_runtime_shutdown], and after an initialisation that
    failed, nothing is left: no task, no stack mapping, no copied argument, no
    array of threads, a poller that is down, and no worker thread that has
    not ended. *)
Theorem nothing_left_behind p :
  platform → observed p → runtime_initialized p = false →
  heap (sched_of p) = ∅ ∧ maps (sched_of p) = ∅ ∧ blocks (sched_of p) = ∅ ∧
  poller_down (poller (sched_of p)) ∧ runtime_workers p = None ∧
  ∀ i x, wks p !! i = Some x → x = Exited.
Proof.
  intros HF HO Hi. destruct (observed_inv HF p HO) as [[B1 B2 (B3 & B4 & B5) (B6 & _) [[K1 K2 K3 K4 K5] _ _ _]]|
    [(e & [[[E _] _ _] _])|[O1 O2 (O3 & O4 & O5) [K1 K2 K3 K4 K5]]]].
  - split_and!; try done. unfold wks. rewrite B6. by intros i x.
  - congruence.
  - done.
Qed.

(** ** The life cycle *)


(** The owning thread alone. *)
Fixpoint drive (n : nat) p : option (proc P) :=
  match n with
  | O => Some p
  | S n => match pact (PDriver 0) p with Some (Ok p') => drive n p' | _ => None end
  end.

Lemma drive_add n k p p1 : drive n p = Some p1 → drive (n + k) p = drive k p1.
Proof.
  revert p. induction n as [|n IH]; cbn [drive plus]; intros p; [by intros [= ->]|].
  destruct (pact (PDriver 0) p) as [[p2| | |]|]; try done. apply IH.
Qed.

Lemma drive_stop (HF : platform) p e : live (pf_grants HF) (pf_wake HF) p e → pr_driver p = Stopping 0 →
  ∃ p', drive 1 p = Some p' ∧ pr_driver p' = Idle (mjoin (pr_run p)) ∧ pr_joined p' = upto (nworkers p') ∧
    runtime_initialized p' = false.
Proof.
  intros [HU HD] Ed. destruct (stopped_step _ _ p e 0 HU Ed HD) as (p' & Hrun & [[O1 _] _ _ _] & Hj & Hd).
  exists p'. split; [|done]. cbn [drive pact driver_next]. unfold driver_next. rewrite Ed.
  unfold driver_ok in HD. rewrite Ed in HD. destruct HD as (_ & _ & _ & [R1 _ _ _ _]).
  unfold worker_gone. rewrite R1. cbn [Z.ltb Z.compare mbind option_bind]. unfold exec_proc. by rewrite Hrun.
Qed.

(** The joins and what follows them, when the workers have left. *)
Lemma drive_join (HF : platform) k : ∀ p e i code,
  live (pf_grants HF) (pf_wake HF) p e → pr_driver p = Joining i code → gone (wks p) → nworkers p - i = Z.of_nat k →
  ∃ n p', drive n p = Some p' ∧ pr_driver p' = Idle (Some code) ∧ pr_joined p' = upto (nworkers p') ∧
    (is_Some (pr_run p) → runtime_initialized p' = false).
Proof.
  induction k as [|k IH]; intros p e i code HL Ed Hg Hk; pose proof HL as [HU HD]; pose proof HD as HD';
    unfold driver_ok in HD'; rewrite Ed in HD'; destruct HD' as (HR & Hi & Hj & -> & Hx); pose proof (ir_started _ HR) as Es.
  - assert (i = nworkers p) as -> by lia.
    destruct (join_last _ _ p true code HU Ed HD) as (p1 & e1 & Hrun & HL1 & Hr).
    assert (drive 1 p = Some p1) as H1'.
    { cbn [drive pact]. unfold driver_next. rewrite Ed. unfold worker_gone. rewrite Es, Z.ltb_irrefl.
      cbn [mbind option_bind]. unfold exec_proc. by rewrite Hrun. }
    destruct (pr_run p) as [w|].
    2:{ destruct HL1 as [_ HD1]. unfold driver_ok in HD1. rewrite Hr in HD1. destruct HD1 as [_ [_ _ _ Hj1 _]].
      by exists 1%nat, p1; split_and!; [done|done|done|intros [? ?]]. }
    destruct Hr as [Hd1 Hr1]. destruct (drive_stop HF p1 e1 HL1 Hd1) as (p2 & H2' & Hd2 & Hj2 & Hi2).
    exists (1 + 1)%nat, p2. rewrite (drive_add 1 1 p p1 H1'). split_and!; [done| |done..]. by rewrite Hd2, Hr1.
  - set (p1 := set_driver (Joining (i + 1) code) (set_joined (upto (i + 1)) p)).
    assert (0 ≤ i < nworkers p) as Hlt by (split; lia).
    assert (worker_gone p i = true) as Hwg.
    { unfold worker_gone. rewrite Es. destruct (Z.ltb_spec i (nworkers p)); [|done].
      destruct (lookup_lt_is_Some_2 (wks p) (Z.to_nat i)) as [x Hx']; [unfold nworkers in *; lia|].
      pose proof (Hg _ _ Hx') as ->. unfold wks in Hx'. by rewrite Hx'. }
    assert (drive 1 p = Some p1) as H1'.
    { cbn [drive pact]. unfold driver_next. rewrite Ed, Hwg. cbn [mbind option_bind]. unfold exec_proc.
      by rewrite (join_next p i code HR Hlt Hj). }
    destruct (joining_step _ _ p true i code HU Ed HD Hwg) as (p1' & e1 & Hrun & HL1).
    rewrite (join_next p i code HR Hlt Hj) in Hrun. injection Hrun as <-.
    destruct (IH p1 e1 (i + 1) code HL1 eq_refl Hg) as (n & p' & Hn & ?); [change (nworkers p1) with (nworkers p); lia|].
    exists (1 + n)%nat, p'. by rewrite (drive_add 1 n p p1 H1').
Qed.

(** C12: when main has ended and the workers have left, the owning thread gets
    through: [croutine_runtime_run] returns the exit code that was set, after
    joining every worker once, and [croutine_run] shuts the runtime down as
    well. *)
Theorem run_returns_exit_code p :
  platform → observed p → runtime_initialized p = true → pr_driver p = WaitingMain →
  main_finished (sched_of p) = true → gone (wks p) →
  ∃ n p', drive n p = Some p' ∧ pr_driver p' = Idle (Some (main_exit_code (sched_of p))) ∧
    pr_joined p' = upto (nworkers p') ∧ (is_Some (pr_run p) → runtime_initialized p' = false).
Proof.
  intros HF HO Hi Ed Hm Hg. destruct (observed_live HF p HO Hi) as (e & [HU HD]).
  set (p1 := set_driver (Joining 0 (main_exit_code (sched_of p))) p).
  unfold driver_ok in HD. rewrite Ed in HD. destruct HD as ([R1 R2 R3 R4 R5] & Hn & Hj), HU as [U1 U2 U3].
  assert (live (pf_grants HF) (pf_wake HF) p1 true) as HL1.
  { split; [split; try done; by eapply sys_inv_end|]. split; [done|].
    split_and!; [lia|unfold nworkers; lia|exact Hj|done|]. intros j Hlt. lia. }
  destruct (drive_join HF (length (wks p)) p1 true 0 _ HL1 eq_refl Hg) as (n & p' & Hrun & ?).
  { unfold nworkers. change (wks p1) with (wks p). lia. }
  exists (1 + n)%nat, p'. rewrite (drive_add 1 n p p1); [done|].
  cbn [drive pact]. unfold driver_next. rewrite Ed. unfold worker_wait_for_main.
  rewrite (bind_ok _ _ (sched_of p) (sched_of p) (sched_of p)) by done. by rewrite Hm.
Qed.
End props.

(** ** A program *)

Module RuntimeExample.
Import EpollKernelModel.
Export Demo.

Lemma demo_platform : platform (P:=epoll ek).
Proof.
  split; [exact generous_grants| |exact demo_page_size_ok|exact demo_mmap_fresh].
  intros p _. eexists. reflexivity.
Qed.

(** Zeroed variables, standard input open. *)
Definition p0 : proc (epoll ek) :=
  mkProc (mkSys (mkCstate ∅ ∅ ∅ None ∅
      (mkSched ∅ ∅ ∅ (λ _, 0) (mkTaskQueue None 0 0 0 0) (mkIoWaitTable [] 0 0)
        false false false false 0 0 0 false false false 0 0 (off (mkEk ∅ ∅ {[0]})))) [] ∅)
    0 0 None false false false (Idle None) None ∅.

Lemma p0_before : before p0.
Proof. split; try done; [by split; [eexists|]|]. split; try done. split; try done. by eexists. Qed.

Definition next (lb : plabel (epoll ek)) (p : proc (epoll ek)) : proc (epoll ek) :=
  match pact lb p with Some (Ok p') => p' | _ => p end.
Definition fine (lb : plabel (epoll ek)) (p : proc (epoll ek)) : bool :=
  match pact lb p with Some (Ok _) => true | _ => false end.
Lemma fine_next lb p : fine lb p = true → pact lb p = Some (Ok (next lb p)).
Proof. unfold fine, next. by destruct (pact lb p) as [[p'| | |]|]. Qed.
Lemma next_observed lb p : observed p → plabel_ok lb p → fine lb p = true → observed (next lb p).
Proof. intros (q & HB & HR) Hl Hf. exists q. split; [done|]. eapply reach_step; [done..|]. by apply fine_next. Qed.

(** The runtime is started with one worker and a main function; the worker
    polls without blocking and runs main. *)
Definition p1 := next (PInit (Some (mkConfig 1 65536)) 4) p0.
Definition p2 := next (PRun (0, 0) 7 0) p1.
Definition p3 := next (PDriver 0) p2.
Definition p4 := next (PDriver 0) p3.
Definition p5 := next (PSys (LWorker 0 [])) p4.
Definition p6 := next (PSys (LWorker 0 [Done []])) p5.
Definition p7 := next (PSys (LWorker 0 [])) p6.
(** Main returns, the worker frees it and leaves. *)
Definition p8 := next (PSys (LReturn 0)) p7.
Definition p9 := next (PSys (LWorker 0 [])) p8.
Definition p10 := next (PSys (LWorker 0 [])) p9.
Definition p11 := next (PSys (LWorker 0 [])) p10.
(** The owning thread joins it and shuts the runtime down. *)
Definition p14 := next (PDriver 0) (next (PDriver 0) (next (PDriver 0) p11)).
Definition p16 := next (PDriver 0) (next PShutdown p14).
(** Or main waits for standard input, and the worker blocks in the poller. *)
Definition q8 := next (PSys (LCall 0 (System.IoWait 0 CROUTINE_IO_EVENT_READ))) p7.
Definition q9 := next (PSys (LWorker 0 [])) q8.
Definition q10 := next (PSys (LWorker 0 [])) q9.
Definition q11 := next (PSys (LWorker 0 [])) q10.

(** A step of a worker that is not in the poller. *)
Lemma worker_turn i p : observed p →
  match wks p !! i with Some (InPoll _) => false | _ => true end = true →
  runtime_initialized p && fine (PSys (LWorker i [])) p = true → observed (next (PSys (LWorker i [])) p).
Proof.
  intros HO Hx [Hi Hf]%andb_true_iff. apply next_observed; [done| |done]. split; [done|].
  intros [ms E]. unfold wks in Hx. by rewrite E in Hx.
Qed.

Lemma p2_observed : observed p2.
Proof.
  apply next_observed; [apply next_observed| |]; [exists p0; split; [exact p0_before|constructor]| |..].
  - split; [lia|]. intros c [= <-]. cbn. lia.
  - vm_compute. reflexivity.
  - done.
  - vm_compute. reflexivity.
Qed.
Lemma p4_observed : observed p4.
Proof.
  apply next_observed; [apply next_observed| |]; [exact p2_observed|done|vm_compute; reflexivity|done|vm_compute; reflexivity].
Qed.
Lemma no_events_ok : answers_ok (P:=epoll ek) [Done []].
Proof.
  split_and!.
  - exists (Done []). split; [left|done].
  - intros evs [[= ->]|[]%elem_of_nil]%elem_of_cons. cbn. unfold MAX_POLLER_EVENTS. lia.
  - intros evs [[= ->]|[]%elem_of_nil]%elem_of_cons. constructor.
Qed.
Lemma p7_observed : observed p7.
Proof.
  apply worker_turn; [|vm_compute; reflexivity..]. apply next_observed; [|split|vm_compute; reflexivity].
  - apply worker_turn; [exact p4_observed|vm_compute; reflexivity..].
  - vm_compute. reflexivity.
  - intros _. exact no_events_ok.
Qed.
Lemma p8_observed : observed p8.
Proof. apply next_observed; [exact p7_observed|split; [vm_compute; reflexivity|done]|vm_compute; reflexivity]. Qed.
Lemma p11_observed : observed p11.
Proof. do 3 (apply worker_turn; [|vm_compute; reflexivity..]). exact p8_observed. Qed.
Lemma p16_observed : observed p16.
Proof. do 5 (apply next_observed; [|done|vm_compute; reflexivity]). exact p11_observed. Qed.
Lemma q11_observed : observed q11.
Proof.
  do 3 (apply worker_turn; [|vm_compute; reflexivity..]). apply next_observed; [exact p7_observed| |vm_compute; reflexivity].
  split; [vm_compute; reflexivity|]. split; [|by left]. unfold fd_valid. cbn. unfold fd_ok. lia.
Qed.
End RuntimeExample.
Import RuntimeExample.

(** The owning thread creates the worker. *)
Lemma runtime_never_stuck_witness :
  (∃ m, Ok p3 = Abort m ∧ fatal m) ∨ ∃ p', Ok p3 = Ok p' ∧ observed p'.
Proof.
  apply (runtime_never_stuck p2 (PDriver 0) (Ok p3) demo_platform p2_observed I).
  apply fine_next. vm_compute. reflexivity.
Defined.

(** Main is with the worker that runs it, and nowhere else. *)
Lemma task_in_one_place_witness :
  ∃ l m, tq_inv (runnable_tasks (sched_of p7)) (heap (sched_of p7)) l ∧ it_rep (io_waits (sched_of p7)) m ∧
    ∀ t obj, heap (sched_of p7) !! t = Some obj →
      ∃ pl, is_at p7 l m t pl ∧ ∀ pl', is_at p7 l m t pl' → pl' = pl.
Proof. apply (task_in_one_place p7 demo_platform p7_observed). vm_compute. reflexivity. Defined.

(** Main waits for standard input and the only worker is in the poller. *)
Lemma sleep_only_without_work_witness :
  task_queue_is_empty (Some (runnable_tasks (sched_of q11))) = true ∧
  SchedInv.count polling (wks q11) = 1 ∧ cond_waiting (sched_of q11) = nworkers q11 - 1.
Proof.
  assert (wks q11 = [InPoll (-1)]) as Hw by (vm_compute; reflexivity).
  apply (sleep_only_without_work q11 demo_platform q11_observed).
  - vm_compute. reflexivity.
  - intros [E|E]; vm_compute in E; discriminate E.
  - rewrite Hw. discriminate.
  - rewrite Hw. intros i x. rewrite list_lookup_singleton_Some. by intros [_ <-].
  - vm_compute. reflexivity.
  - intros Hp. vm_compute in Hp. discriminate Hp.
Defined.

Lemma nobody_waits_in_vain_witness :
  ∃ (e : bool) (A : astate) l,
    cref (H0 := sys_laws (wks p7) e (pf_grants demo_platform) (pf_wake demo_platform)) (sy_state (pr_sys p7)) A ∧
    reg_rep (reg_view (sy_state (pr_sys p7))) l.
Proof.
  destruct (nobody_waits_in_vain p7 demo_platform p7_observed) as (e & A & l & HA & _ & Hl & _);
    [vm_compute; reflexivity|]. exists e, A, l. exact (conj HA Hl).
Defined.

(** Main has returned; the worker frees it and leaves in three turns. *)
Lemma shutdown_terminates_witness :
  turns (P := epoll EpollKernelModel.ek) [LWorker 0 []; LWorker 0 []; LWorker 0 []] ≤ 4 * nworkers p8 ∧ stopping (sched_of p8).
Proof.
  destruct (shutdown_terminates p8 [LWorker 0 []; LWorker 0 []; LWorker 0 []] p11 demo_platform p8_observed)
    as (Ht & Hs & _); [vm_compute; reflexivity..| |exact (conj Ht Hs)].
  assert (∀ p q lbs p', q = next (PSys (LWorker 0 [])) p →
    runtime_initialized p && fine (PSys (LWorker 0 [])) p = true →
    match wks p !! 0%nat with Some (InPoll _) => false | _ => true end = true →
    path q lbs p' → path p (LWorker 0 [] :: lbs) p') as Hgo.
  { intros p q lbs p' -> [Hi Hf]%andb_true_iff Hx Hp. eapply path_cons; [|by apply fine_next|done]. split; [done|].
    intros [ms E]. unfold wks in Hx. by rewrite E in Hx. }
  apply (Hgo p8 p9); [reflexivity|vm_compute; reflexivity..|].
  apply (Hgo p9 p10); [reflexivity|vm_compute; reflexivity..|].
  apply (Hgo p10 p11); [reflexivity|vm_compute; reflexivity..|].
  exact (path_nil p11).
Defined.

(** After shutdown. *)
Lemma nothing_left_behind_witness :
  runtime_initialized p16 = false ∧ heap (sched_of p16) = ∅ ∧ maps (sched_of p16) = ∅.
Proof.
  assert (runtime_initialized p16 = false) as Hi by (vm_compute; reflexivity).
  destruct (nothing_left_behind p16 demo_platform p16_observed Hi) as (Hh & Hm & _). exact (conj Hi (conj Hh Hm)).
Defined.


(** Main has returned and the worker has left. *)
Lemma run_returns_exit_code_witness :
  ∃ n p', drive n p11 = Some p' ∧ pr_driver p' = Idle (Some (main_exit_code (sched_of p11))).
Proof.
  destruct (run_returns_exit_code p11 demo_platform p11_observed) as (n & p' & Hd & Hr & _);
    [vm_compute; reflexivity..| |exists n, p'; exact (conj Hd Hr)].
  assert (wks p11 = [Exited]) as -> by (vm_compute; reflexivity).
  intros i x. rewrite list_lookup_singleton_Some. by intros [_ <-].
Defined.
