(* ===== verification/WorkerProps.v ===== *)
(** * What the scheduler's entry points guarantee

    Spawning, waiting for a descriptor and waking (src/worker.c), in every
    state of a running program. *)

From S2P Require Import Prelude Posix Memory ArchX86 Task IoWait PollerApi PollerEpoll EpollInv EpollProps.
From S2P Require Import Worker WorkerInv Resources WorkerIo WorkerLoop SchedInv SchedSteps.
From S2P Require Import WaitQueue Channel ChannelClients System Runtime SystemInv RuntimeInv Demo RuntimeProps.

Section props.
Context `{Alloc, Os, Entry} {P : Type} `{PollerLaws P}.
Implicit Types (p : proc P) (s : sched P) (t : tid) (obj : Task).

(** C14: [worker_spawn] is all-or-nothing.  It succeeds only before shutdown
    and for the first main task, and then there is one new task, runnable and
    queued, with its function and its argument, the bytes copied when asked
    for; or it fails, and no task, stack or block is left of the attempt. *)
Theorem spawn_all_or_nothing p fpenv f a bytes asz copy main :
  platform (P:=P) → observed p → runtime_initialized p = true →
  (copy && (0 <? asz) = true → asz ≤ Z.of_nat (length bytes)) →
  (∃ s' t obj, worker_spawn fpenv f a bytes asz copy main (sched_of p) = Ok (true, s') ∧
     shutdown_requested (sched_of p) = false ∧ main && main_spawned (sched_of p) = false ∧
     heap (sched_of p) !! t = None ∧ heap s' = <[t := obj]> (heap (sched_of p)) ∧ fn obj = f ∧
     scheduler obj = mkTaskSchedulerState TASK_RUNNABLE true main ∧
     if copy && (0 <? asz)
     then owns_arg obj = true ∧ blocks s' = <[arg obj := take (Z.to_nat asz) bytes]> (blocks (sched_of p))
     else owns_arg obj = false ∧ arg obj = a ∧ blocks s' = blocks (sched_of p)) ∨
  (∃ mm, worker_spawn fpenv f a bytes asz copy main (sched_of p) = Ok (false, set_stack_mem mm (sched_of p))).
Proof.
  intros HF HO Hi Hb. destruct (observed_sched HF p HO Hi) as [HI _]. destruct (si_sched _ _ HI) as (l & m & HW & _).
  destruct (spawn_run fpenv f a bytes asz copy main (sched_of p) l m HW (si_owned _ _ HI) (si_init _ _ HI)
    (pf_pages HF) (pf_maps HF) (si_stack _ _ HI) Hb) as [(s' & t & obj & Hrun & [S1 S2 (T1 & T2 & T3 & T4) S4 S5 S6 S7 S8 (M1 & M2 & _) _ _])|?];
    [left|by right].
  exists s', t, obj. split_and!; try done. destruct (copy && (0 <? asz)); [done|]. by destruct S4.
Qed.

Lemma joins_woken ev t v ev' : one_event ev → ready ev' ev = true → t ∈ woken ev' (joins ev t v).
Proof.
  intros Hev Hr. unfold woken, joins. rewrite elem_of_remove_dups, elem_of_app.
  destruct Hev as [-> | ->]; cbn; rewrite Hr; [left|right]; cbn; apply elem_of_cons; by left.
Qed.

(** The state of a task after it was woken with outcome [b]. *)
Lemma woken_resumes s ts h t obj b :
  NoDup ts → t ∈ ts → h !! t = Some obj → heap s = wake_heap b ts h →
  worker_resume_from_io t s = Ok (if b then CROUTINE_IO_WAIT_READY else CROUTINE_IO_WAIT_CLOSED, s) ∧
  ∃ obj', heap s !! t = Some obj' ∧ state (scheduler obj') = TASK_RUNNABLE ∧ queued (scheduler obj') = true.
Proof.
  intros Hnd Ht Hobj Hh. assert (heap s !! t = Some (io_awake b obj)) as Hs.
  { rewrite Hh, wake_heap_lookup, decide_True, Hobj by done. done. }
  split; [|by exists (io_awake b obj)]. unfold worker_resume_from_io.
  rewrite (bind_ok _ _ _ _ _ (get_task_run _ _ _ Hs)). by destruct b.
Qed.

(** C13: a task that parks on a descriptor is resumed with the right outcome:
    when the poller reports the event it waits for, it is queued again and its
    call returns [CROUTINE_IO_WAIT_READY]; when the descriptor is forgotten,
    it is queued again and its call returns [CROUTINE_IO_WAIT_CLOSED]. *)
Theorem io_wait_roundtrip p i t d ev s1 :
  platform (P:=P) → observed p → runtime_initialized p = true → wks p !! i = Some (Running t) →
  fd_valid (poller (sched_of p)) d → 0 ≤ d → one_event ev →
  worker_park_current_on_io (Some t) d ev (sched_of p) = Ok (true, s1) →
  (∀ ev' n s2, ready ev' ev = true → wake_waiting_tasks_locked d ev' true s1 = Ok (n, s2) →
     worker_resume_from_io t s2 = Ok (CROUTINE_IO_WAIT_READY, s2) ∧
     ∃ obj, heap s2 !! t = Some obj ∧ state (scheduler obj) = TASK_RUNNABLE ∧ queued (scheduler obj) = true) ∧
  (∀ s2, worker_forget_fd d s1 = Ok (tt, s2) →
     worker_resume_from_io t s2 = Ok (CROUTINE_IO_WAIT_CLOSED, s2) ∧
     ∃ obj, heap s2 !! t = Some obj ∧ state (scheduler obj) = TASK_RUNNABLE ∧ queued (scheduler obj) = true).
Proof.
  intros HF HO Hi Ht Hd Hd0 Hev Hpark. destruct (observed_sched HF p HO Hi) as [HI HR].
  destruct (si_sched _ _ HI) as (l & m & HW & _). destruct (HR i t Ht) as (obj & Hobj & Hs & Hq).
  assert (shutdown_requested (sched_of p) = false) as Hsd.
  { destruct (shutdown_requested (sched_of p)) eqn:E; [|done]. unfold worker_park_current_on_io in Hpark.
    destruct (Z.eqb_spec ev CROUTINE_IO_EVENT_NONE); [done|].
    by rewrite (bind_ok _ _ _ true (sched_of p)) in Hpark by (by rewrite <-E). }
  destruct (park_io_run _ l m t obj d ev HW Hobj Hs Hq Hsd Hd Hev) as [(_ & _ & E)|E]; [congruence|].
  destruct (taken ev _); [congruence|]. destruct E as (ok & p' & _ & E). destruct ok.
  2: { destruct E as (s' & E & _). congruence. }
  destruct E as (s1' & E & HW1 & Hh1 & _). rewrite Hpark in E. injection E as <-.
  assert (heap s1 !! t = Some (parked_io d ev obj)) as Ht1 by (by rewrite Hh1, lookup_insert_eq). split.
  - intros ev' n s2 Hr Hw.
    destruct (wake_waiting_run s1 l _ d ev' true _ HW1 (pf_grants HF) (lookup_insert_eq _ _ _)) as (ok & q & _ & E).
    destruct ok; [|congruence]. destruct E as (s2' & E & _ & Hh2 & _). rewrite Hw in E. injection E as _ <-.
    apply (woken_resumes s2 _ (heap s1) t _ true (NoDup_remove_dups _) (joins_woken _ _ _ _ Hev Hr) Ht1 Hh2).
  - intros s2 Hf. destruct (forget_run s1 l _ d HW1 (pf_grants HF) Hd0) as [(s2' & E & _ & Hh2 & _)|[E _]]; [|congruence].
    rewrite Hf in E. injection E as <-. rewrite lookup_insert_eq in Hh2. cbn [default] in Hh2.
    assert (ready RW ev = true) as Hr by (by destruct Hev as [-> | ->]).
    apply (woken_resumes s2 _ (heap s1) t _ false (NoDup_remove_dups _) (joins_woken _ _ _ _ Hev Hr) Ht1 Hh2).
Qed.
(** A worker that was signalled and has not run yet still counts as idle: when
    nobody is blocked on the condition variable any more, a second task made
    runnable then wakes nobody, not even the worker blocked in the poller. *)
Lemma signalled_worker_counts_as_idle s l m t obj b :
  winv s l m → calloc_grants → heap s !! t = Some obj → state (scheduler obj) = TASK_WAITING_CHANNEL →
  cond_waiting s = 0 → 0 < idle_workers s →
  ∃ s', worker_wake_task_locked (Some t) b s = Ok (true, s') ∧ winv s' (l ++ [t]) m ∧
    poller s' = poller s ∧ cv s' = cv s.
Proof.
  intros HW Hg Ht Hs Hc Hi. destruct (wake_task_run s l m t obj b HW Hg Ht Hs) as (s' & Hrun & HW' & _ & _ & Ec & _ & _ & Hp).
  exists s'. split_and!; try done; [apply Hp; lia|]. rewrite Ec. unfold signalled, cv. cbn. by rewrite Hc.
Qed.
End props.

(** ** Witnesses *)

Import RuntimeExample.

(** Main spawns a task with a copy of two bytes. *)
Lemma spawn_all_or_nothing_witness :
  ∃ b s', worker_spawn (0, 0) 9 100 [Byte.x01; Byte.x02] 2 true false (sched_of p7) = Ok (b, s').
Proof.
  destruct (spawn_all_or_nothing p7 (0, 0) 9 100 [Byte.x01; Byte.x02] 2 true false demo_platform p7_observed)
    as [(s' & t & obj & E & _)|(mm & E)]; [vm_compute; reflexivity|intros _; cbn; lia|eexists _, _; exact E..].
Defined.

(** The state a piece of code ends in. *)
Definition final {S A} (m : M S A) (s : S) : S := match m s with Ok (_, s') => s' | _ => s end.
Lemma yields_true {S} (m : M S bool) s :
  match m s with Ok (b, _) => b | _ => false end = true → m s = Ok (true, final m s).
Proof. unfold final. by destruct (m s) as [[[] s']| | |]. Qed.
Lemma runs_through {S} (m : M S unit) s :
  match m s with Ok _ => true | _ => false end = true → m s = Ok (tt, final m s).
Proof. unfold final. by destruct (m s) as [[[] s']| | |]. Qed.

(** Main waits for standard input, which is then forgotten. *)
Definition waiting : sched (epoll EpollKernelModel.ek) :=
  final (worker_park_current_on_io (Some 1%positive) 0 CROUTINE_IO_EVENT_READ) (sched_of p7).
Definition forgotten : sched (epoll EpollKernelModel.ek) := final (worker_forget_fd 0) waiting.
Lemma io_wait_roundtrip_witness :
  worker_resume_from_io 1 forgotten = Ok (CROUTINE_IO_WAIT_CLOSED, forgotten).
Proof.
  destruct (io_wait_roundtrip p7 0 1 0 CROUTINE_IO_EVENT_READ waiting demo_platform p7_observed)
    as [_ Hc]; [vm_compute; reflexivity|vm_compute; reflexivity|cbn; unfold fd_ok; lia|lia|by left| |].
  - refine (yields_true (worker_park_current_on_io (Some 1%positive) 0 CROUTINE_IO_EVENT_READ) (sched_of p7) _).
    vm_compute. reflexivity.
  - refine (proj1 (Hc forgotten (runs_through (worker_forget_fd 0) waiting _))). vm_compute. reflexivity.
Defined.
