(* ===== verification/ChannelProps.v ===== *)
(** * What the channels of src/channel.c guarantee

    The theorems about the public operations: each one run in a state that
    represents an abstract state behaves as the abstract machine says, on
    every branch; tasks wait only while they must; values are delivered in
    order. *)

From S2P Require Import Prelude Task WaitQueue Channel ChannelBuffer ChannelInv ChannelSpec.
From S2P Require Import ChannelRefine ChannelOps ChannelWait ChannelBlock ChannelClose.
From S2P Require Import ChannelRegistry ChannelCalls Worker Demo.

Section props.
Context `{Alloc} {W : Type} `{SchedulerLaws W}.
Implicit Types (s : cstate W) (c w : positive) (t : tid).

(** C5: [croutine_channel_send].  Null arguments and a closed channel are
    refused without an effect.  Otherwise the value is handed to the first
    waiting receiver, which is woken with success and whose other offers are
    withdrawn, or it is appended to the buffer; when neither is possible the
    calling task is parked with one offer at the end of the senders, and
    outside a task the call fails without an effect.  The call never aborts
    and the parking is never refused. *)
Theorem channel_send_refines s A t c p r T A' :
  cref s A → idle s t →
  a_try_send (sched_shutdown (worker s)) c (Some p) A = Some (r, T, A') →
  (∀ cur, croutine_channel_send cur None (Some p) s = Ok (SendReturn CROUTINE_CHANNEL_SEND_CLOSED, s)) ∧
  (∀ cur, croutine_channel_send cur (Some c) None s = Ok (SendReturn CROUTINE_CHANNEL_SEND_CLOSED, s)) ∧
  match r with
  | TRY_SEND r => ∀ cur, ∃ s',
      croutine_channel_send cur (Some c) (Some p) s = Ok (SendReturn r, s') ∧ evolves s s' T A'
  | TRY_SEND_WOULD_BLOCK => A' = A ∧
      (∃ s', croutine_channel_send None (Some c) (Some p) s =
               Ok (SendReturn CROUTINE_CHANNEL_SEND_CLOSED, s') ∧ evolves s s' [] A) ∧
      (∃ s' w, croutine_channel_send (Some t) (Some c) (Some p) s = Ok (SendPark true w, s') ∧
         parks s s' t
           [(w, mkWaiter CW_REGULAR SEND None None None (Some t) (Some p) None 0)]
           (a_wait c SEND (mkOffer t (Some p) None) A))
  end.
Proof.
  intros HR Hidle Hrun. split; [done|]. split; [done|].
  destruct (try_send_sim _ _ _ _ _ _ _ HR Hrun) as (s1 & Hs1 & Hev).
  unfold croutine_channel_send.
  destruct r as [r|]; [intros cur; exists s1; by rewrite (bind_ok _ _ _ _ _ Hs1)|].
  destruct (a_try_send_blocked _ _ _ _ _ _ Hrun) as (-> & -> & Hsd & a & Ha & Hcl & Hv & _).
  rewrite !(bind_ok _ _ _ _ _ Hs1). split; [done|]. split; [by eauto|]. destruct Hev as [HR1 F1 Hw1].
  destruct (block_refines s1 A c a SEND t (Some p) SendPark HR1) as (s2 & w & Hrun2 & Hpk); try done.
  { by eapply idle_frame. }
  { by rewrite (cf_shutdown _ _ F1). }
  exists s2, w. split; [exact Hrun2|]. by eapply parks_after.
Qed.

(** C6: [croutine_channel_recv], likewise: the oldest buffered value is
    copied out and the first waiting sender takes the free slot; on an empty
    buffer the value comes from the first waiting sender; a closed channel
    reports it; otherwise the calling task is parked. *)
Theorem channel_recv_refines s A t c p r T A' :
  cref s A → idle s t →
  a_try_recv (sched_shutdown (worker s)) c (Some p) A = Some (r, T, A') →
  (∀ a, a_chans A !! c = Some a → is_Some (a_read A (Some p) (a_elem a))) →
  (∀ cur, croutine_channel_recv cur None (Some p) s = Ok (RecvReturn CROUTINE_CHANNEL_RECV_CLOSED, s)) ∧
  (∀ cur, croutine_channel_recv cur (Some c) None s = Ok (RecvReturn CROUTINE_CHANNEL_RECV_CLOSED, s)) ∧
  match r with
  | CROUTINE_CHANNEL_RECV_EMPTY => A' = A ∧
      (∃ s', croutine_channel_recv None (Some c) (Some p) s =
               Ok (RecvReturn CROUTINE_CHANNEL_RECV_EMPTY, s') ∧ evolves s s' [] A) ∧
      (∃ s' w, croutine_channel_recv (Some t) (Some c) (Some p) s = Ok (RecvPark true w, s') ∧
         parks s s' t
           [(w, mkWaiter CW_REGULAR RECV None None None (Some t) (Some p) None 0)]
           (a_wait c RECV (mkOffer t (Some p) None) A))
  | r => ∀ cur, ∃ s',
      croutine_channel_recv cur (Some c) (Some p) s = Ok (RecvReturn r, s') ∧ evolves s s' T A'
  end.
Proof.
  intros HR Hidle Hrun Hslot. split; [done|]. split; [done|].
  destruct (try_recv_sim _ _ _ _ _ _ _ HR Hrun) as (s1 & Hs1 & Hev).
  unfold croutine_channel_recv.
  destruct r; [intros cur; exists s1; by rewrite (bind_ok _ _ _ _ _ Hs1)| |
    intros cur; exists s1; by rewrite (bind_ok _ _ _ _ _ Hs1)].
  destruct (a_try_recv_blocked _ _ _ _ _ _ Hrun) as (-> & -> & Hsd & a & Ha & Hcl & _).
  rewrite !(bind_ok _ _ _ _ _ Hs1). split; [done|]. split; [by eauto|]. destruct Hev as [HR1 F1 Hw1].
  destruct (block_refines s1 A c a RECV t (Some p) RecvPark HR1) as (s2 & w & Hrun2 & Hpk); try done.
  { by eapply idle_frame. }
  { by rewrite (cf_shutdown _ _ F1). }
  { by apply Hslot. }
  exists s2, w. split; [exact Hrun2|]. by eapply parks_after.
Qed.

(** C20: [croutine_channel_try_send] and [croutine_channel_try_recv] are the
    non-blocking halves: they report success exactly when the abstract
    attempt succeeds, they never park, and null arguments are refused. *)
Theorem channel_try_refines s A c p rs Ts As rr Tr Ar :
  cref s A →
  a_try_send (sched_shutdown (worker s)) c (Some p) A = Some (rs, Ts, As) →
  a_try_recv (sched_shutdown (worker s)) c (Some p) A = Some (rr, Tr, Ar) →
  croutine_channel_try_send None (Some p) s = Ok (false, s) ∧
  croutine_channel_try_send (Some c) None s = Ok (false, s) ∧
  croutine_channel_try_recv None (Some p) s = Ok (false, s) ∧
  croutine_channel_try_recv (Some c) None s = Ok (false, s) ∧
  (∃ s' b, croutine_channel_try_send (Some c) (Some p) s = Ok (b, s') ∧ evolves s s' Ts As ∧
     (b = true ↔ rs = TRY_SEND CROUTINE_CHANNEL_SEND_OK)) ∧
  (∃ s' b, croutine_channel_try_recv (Some c) (Some p) s = Ok (b, s') ∧ evolves s s' Tr Ar ∧
     (b = true ↔ rr = CROUTINE_CHANNEL_RECV_VALUE)).
Proof.
  intros HR Hs Hr. split_and!; try done.
  - destruct (try_send_sim _ _ _ _ _ _ _ HR Hs) as (s1 & Hs1 & Hev).
    eexists s1, _. unfold croutine_channel_try_send. rewrite (bind_ok _ _ _ _ _ Hs1).
    split; [done|]. split; [done|]. by destruct rs as [[]|].
  - destruct (try_recv_sim _ _ _ _ _ _ _ HR Hr) as (s1 & Hs1 & Hev).
    eexists s1, _. unfold croutine_channel_try_recv. rewrite (bind_ok _ _ _ _ _ Hs1).
    split; [done|]. split; [done|]. by destruct rr.
Qed.

(** C19: a sender or receiver that runs again after it was parked returns
    what the waker recorded, success or closed, and takes its waiter with
    it; nothing else changes, in particular its waiter is in no queue any
    more, so that the unlinking branch after the switch is never taken. *)
Theorem channel_resume_reports s A t c w x b :
  cref s A → waiters s !! w = Some x → w_kind x = CW_REGULAR → w_task x = Some t →
  ¬ sch_parked (worker s) t → sch_flag (worker s) t = Some b →
  croutine_channel_send_resume t true c w s =
    Ok (if b then CROUTINE_CHANNEL_SEND_OK else CROUTINE_CHANNEL_SEND_CLOSED, del_waiter s w) ∧
  croutine_channel_recv_resume t true c w s =
    Ok (if b then CROUTINE_CHANNEL_RECV_VALUE else CROUTINE_CHANNEL_RECV_CLOSED, del_waiter s w) ∧
  cref (del_waiter s w) A ∧ w_channel x = None.
Proof.
  intros HR Hx Hk Ht Hp Hf.
  destruct (channel_resume_refines s A SEND t c w x b HR Hx Hk Ht Hp Hf) as [Hs HR'].
  destruct (channel_resume_refines s A RECV t c w x b HR Hx Hk Ht Hp Hf) as [Hr _].
  unfold croutine_channel_send_resume, croutine_channel_recv_resume.
  rewrite (bind_ok _ _ _ _ _ Hs), (bind_ok _ _ _ _ _ Hr). split_and!; try done.
  destruct HR as (B & Q & HI & _). eapply unqueued_channel; [done| |done].
  eapply running_unqueued; try done. unfold wlive. by rewrite Hk.
Qed.

(** C11: [croutine_channel_close] wakes every task that waits on the channel,
    exactly once and on both queues, a regular operation with failure and a
    select with the closed case, and withdraws the offers of those tasks
    everywhere; buffered values stay receivable.  Closing again, or closing
    null, has no effect. *)
Theorem channel_close_wakes s A c a :
  cref s A → a_chans A !! c = Some a →
  croutine_channel_close None s = Ok (tt, s) ∧
  ∃ s' T, croutine_channel_close (Some c) s = Ok (tt, s') ∧ cref s' (a_close c A) ∧ closes s s' T ∧
    (a_closed a = true → T = []) ∧
    (a_closed a = false →
       NoDup (tasks T) ∧ (∀ k, k ∈ T → k.2 = CROUTINE_SELECT_STATUS_CLOSED) ∧
       (∀ t, t ∈ tasks T ↔ ∃ o, o ∈ a_senders a ++ a_receivers a ∧ o_task o = t)).
Proof.
  intros HR Ha. split; [done|].
  destruct (channel_close_sim s A c a HR Ha) as (s' & T & Hrun & HR' & Hcs & H1' & H2').
  exists s', T. split; [exact Hrun|]. split_and!; try done. intros Hcl.
  destruct (H2' Hcl) as [[C1 C2] C3]. split_and!; [done|intros k Hk; by apply C1|].
  intros t. split.
  - intros (k & -> & Hk)%list_elem_of_fmap. exists k.1. split; [by apply C1|done].
  - intros (o & Ho & <-). by apply C3.
Qed.

(** C21: [croutine_channel_create] succeeds exactly when the buffer size does
    not overflow and the allocator grants both blocks; the new channel is
    open and empty and joins the registry in front, and a refusal changes
    nothing. *)
Theorem channel_create_spec s A l esz cap :
  cref s A → reg_rep (reg_view s) l → 0 ≤ esz ≤ SIZE_MAX → 0 ≤ cap ≤ SIZE_MAX →
  (create_granted esz cap → ∃ c s',
     croutine_channel_create esz cap s = Ok (Some c, s') ∧ a_chans A !! c = None ∧
     cref s' (a_new c esz cap A) ∧ reg_rep (reg_view s') (c :: l) ∧ registers s s') ∧
  (¬ create_granted esz cap → croutine_channel_create esz cap s = Ok (None, s)).
Proof. apply create_sim. Qed.

(** C22: [croutine_channel_destroy] frees a closed channel and unlinks it from
    the registry, and refuses an open one.  Its test for waiters never
    matters: a closed channel has none. *)
Theorem channel_destroy_spec s A l c a :
  cref s A → reg_rep (reg_view s) l → a_chans A !! c = Some a →
  croutine_channel_destroy None s = Ok (true, s) ∧
  (a_closed a = false → croutine_channel_destroy (Some c) s = Ok (false, s)) ∧
  (a_closed a = true → ∃ s' l1 l2, croutine_channel_destroy (Some c) s = Ok (true, s') ∧
     cref s' (a_free c A) ∧ l = l1 ++ c :: l2 ∧ reg_rep (reg_view s') (l1 ++ l2) ∧ registers s s').
Proof. intros HR Hreg Ha. split; [done|]. by apply destroy_sim. Qed.

(** C16: [croutine_channel_shutdown_all_locked] closes every channel of the
    registry and ends within its bound; afterwards no task is parked on a
    channel, and no buffered value was lost. *)
Theorem shutdown_closes_all s A l :
  cref s A → reg_rep (reg_view s) l →
  ∃ s' T A', croutine_channel_shutdown_all_locked s = Ok (tt, s') ∧ cref s' A' ∧ closes s s' T ∧
    (∀ t, ¬ sch_parked (worker s') t) ∧
    (∀ c a', a_chans A' !! c = Some a' → a_closed a' = true ∧
       ∃ a, a_chans A !! c = Some a ∧ a_buf a' = a_buf a).
Proof.
  intros HR Hreg. destruct (shutdown_all_sim s A l HR Hreg) as (s' & T & Hrun & HR' & Hcs & Hp).
  exists s', T, (a_close_all l A). split_and!; try done. intros c a' Ha'.
  destruct (a_close_all_closed l A c a' Ha') as (a & Ha & Hcl & Hb). split; [|eauto].
  apply Hcl. left. apply (rr_dom _ _ Hreg), reg_live.
  destruct HR as (B & Q & _ & _ & <-). destruct (abs_get _ _ _ _ _ Ha) as (ch & -> & _). eauto.
Qed.

(** ** First in, first out *)

(** The values on their way through a channel: the buffered ones, then those
    of the waiting senders. *)
Definition in_transit (A : astate) (a : achan) : option (list (list byte)) :=
  vs ← mapM (λ o, a_read A (o_slot o) (a_elem a)) (a_senders a); Some (a_buf a ++ vs).

Lemma others_notin t l : (∀ o, o ∈ l → o_task o ≠ t) → others [t] l = l.
Proof.
  induction l as [|o l IH]; intros Hl; [done|]. rewrite others_cons, decide_False.
  - f_equal. apply IH. intros o' Ho'. apply Hl. by right.
  - rewrite list_elem_of_singleton. apply Hl. left.
Qed.

Lemma a_read_write A p q n v A' :
  a_write A p v = Some A' → (p ≠ q ∨ n = 0) → a_read A' q n = a_read A q n.
Proof.
  unfold a_write, a_read. intros Hw [Hne| ->]; [|done]. case_bool; [done|].
  destruct (length v =? 0)%nat; [by simplify_eq|].
  destruct p as [[o|]|]; try done. destruct (a_vals A !! o) as [bs|] eqn:Ho; [|done]. simpl in Hw.
  case_match; [|done]. simplify_eq/=. destruct q as [[o'|]|]; try done.
  rewrite lookup_insert_ne by congruence. done.
Qed.

Lemma a_read_vals A A' p n : a_vals A' = a_vals A → a_read A' p n = a_read A p n.
Proof. unfold a_read. by intros ->. Qed.

Lemma mapM_ext_in {X Y} (f g : X → option Y) l : (∀ x, x ∈ l → f x = g x) → mapM f l = mapM g l.
Proof.
  induction l as [|x l IH]; intros Hfg; [done|]. simpl.
  rewrite (Hfg x) by left. rewrite IH; [done|]. intros z Hz. apply Hfg. by right.
Qed.

Lemma mapM_snoc {X Y} (f : X → option Y) l x ys y :
  mapM f l = Some ys → f x = Some y → mapM f (l ++ [x]) = Some (ys ++ [y]).
Proof.
  rewrite !mapM_Some. intros Hl Hx. apply Forall2_app; [done|]. by constructor.
Qed.

Lemma lookup_alter_chan f c A a :
  a_chans A !! c = Some a → a_chans (a_alter f c A) !! c = Some (f a).
Proof. intros Ha. unfold a_alter. simpl. by rewrite lookup_alter_eq, Ha. Qed.

(** C18: a value sent while nobody waits to receive goes to the end of the
    channel's queue, whether it fits in the buffer or its sender waits. *)
Theorem channel_fifo_send s A c a p v vs t r T A' :
  cref s A → aok A → a_chans A !! c = Some a → a_receivers a = [] →
  in_transit A a = Some vs → a_read A p (a_elem a) = Some v →
  a_try_send (sched_shutdown (worker s)) c p A = Some (r, T, A') →
  ∃ s', try_send_locked c p s = Ok (r, s') ∧ cref s' A' ∧
    match r with
    | TRY_SEND CROUTINE_CHANNEL_SEND_OK =>
        ∃ a', a_chans A' !! c = Some a' ∧ in_transit A' a' = Some (vs ++ [v])
    | TRY_SEND CROUTINE_CHANNEL_SEND_CLOSED => A' = A
    | TRY_SEND_WOULD_BLOCK =>
        let o := mkOffer t p None in
        in_transit (a_wait c SEND o A') (a_add_offer SEND o a) = Some (vs ++ [v])
    end.
Proof.
  intros HR HA Ha Hr Hvs Hv Hrun.
  destruct (try_send_sim _ _ _ _ _ _ _ HR Hrun) as (s' & Hs' & [HR' _ _]).
  exists s'. split; [done|]. split; [done|]. unfold a_try_send in Hrun. rewrite Ha in Hrun. simpl in Hrun.
  destruct (a_closed a || sched_shutdown (worker s)); [by simplify_eq|].
  rewrite Hv, Hr in Hrun. simpl in Hrun. unfold in_transit in *.
  apply bind_Some in Hvs as (us & Hus & [= <-]).
  destruct (Z.ltb_spec (Z.of_nat (length (a_buf a))) (a_cap a)) as [Hlt|Hge]; simplify_eq.
  - eexists. split; [by apply lookup_alter_chan|].
    assert (a_senders a = []) as Hs.
    { destruct (a_senders a) eqn:Es; [done|]. pose proof (ao_send _ (HA c a Ha)) as Hf.
      rewrite Es in Hf. specialize (Hf ltac:(done)). lia. }
    simpl. rewrite Hs in *. injection Hus as <-. simpl. by rewrite !app_nil_r.
  - simpl. erewrite mapM_snoc; [|exact Hus|exact Hv]. simpl. by rewrite app_assoc.
Qed.

Lemma a_write_read A p v A' n :
  a_write A p v = Some A' → Z.of_nat (length v) = n → a_read A' p n = Some v.
Proof.
  unfold a_write, a_read. intros Hw <-. destruct (Nat.eqb_spec (length v) 0) as [E|E].
  { rewrite E. simpl. by apply nil_length_inv in E as ->. }
  case_bool; [lia|]. destruct p as [[o|]|]; try done.
  destruct (a_vals A !! o) as [bs|] eqn:Ho; [|done]. simpl in Hw.
  destruct (Nat.leb_spec (length v) (length bs)); [|done]. simplify_eq/=.
  rewrite lookup_insert_eq. simpl. rewrite overwrite_length by lia.
  case_bool; [|lia]. f_equal. unfold overwrite. simpl. rewrite Nat2Z.id. apply take_app_length.
Qed.

(** Accepting the first sender leaves the others, with their values. *)
Lemma senders_left A A1 out v o rest us n :
  a_write A out v = Some A1 → NoDup (o_task <$> o :: rest) → (∀ o', o' ∈ rest → o_slot o' ≠ out) →
  mapM (λ o, a_read A (o_slot o) n) rest = Some us →
  others [o_task o] (o :: rest) = rest ∧ mapM (λ o, a_read A1 (o_slot o) n) rest = Some us.
Proof.
  intros Hw Hnd Hs Hus. apply NoDup_cons in Hnd as [Hn _]. split.
  - rewrite others_cons, decide_True by set_solver. apply others_notin. intros o' Ho' E. apply Hn.
    rewrite <-E. by apply list_elem_of_fmap_2.
  - rewrite <-Hus. apply mapM_ext_in. intros o' Ho'. eapply a_read_write; [done|].
    left. intros ->. by apply (Hs o').
Qed.

(** C17: a receive takes the oldest value: whatever a channel has in transit,
    buffered or held by a waiting sender, comes out in the order in which it
    went in.  (The senders are distinct tasks, and the receiver's object is
    not one of the objects waiting to be sent.) *)
Theorem channel_fifo_recv s A c a out v vs :
  cref s A → aok A → a_chans A !! c = Some a → NoDup (o_task <$> a_senders a) →
  in_transit A a = Some (v :: vs) → is_Some (a_write A out v) →
  (∀ o, o ∈ a_senders a → o_slot o ≠ out) →
  ∃ s' A' a', try_recv_locked c out s = Ok (CROUTINE_CHANNEL_RECV_VALUE, s') ∧ cref s' A' ∧
    a_chans A' !! c = Some a' ∧ in_transit A' a' = Some vs ∧ a_read A' out (a_elem a) = Some v.
Proof.
  intros HR HA Ha Hnd Htr [A1 Hw] Hslots. unfold in_transit in Htr.
  apply bind_Some in Htr as (us & Hus & [= Htr]).
  pose proof (a_write_chans _ _ _ _ Hw) as Hch.
  assert (a_chans A1 !! c = Some a) as Ha1 by (by rewrite Hch).
  pose proof (HA c a Ha) as [_ Hvals _ _ _ Hcl].
  assert (∃ T A', a_try_recv (sched_shutdown (worker s)) c out A = Some (CROUTINE_CHANNEL_RECV_VALUE, T, A') ∧
    a_vals A' = a_vals A1 ∧ ∃ a', a_chans A' !! c = Some a' ∧ in_transit A' a' = Some vs)
    as (T & A' & Hrun & Ev & a' & Ha' & Htr').
  { unfold a_try_recv. rewrite Ha. simpl. destruct (a_buf a) as [|v0 l] eqn:Eb.
    - destruct (a_senders a) as [|o rest] eqn:Es; [by injection Hus as <-|].
      simpl in Hus. apply bind_Some in Hus as (v0 & Hv0 & Hus). apply bind_Some in Hus as (us' & Hus & [= <-]).
      injection Htr as <- <-. rewrite Hv0. simpl. rewrite Hw. simpl. eexists _, _. split; [done|]. split; [done|].
      destruct (senders_left A A1 out v0 o rest us' (a_elem a)) as [Hr1 Hr2]; try done.
      { intros o' Ho'. apply Hslots. by right. }
      eexists. split; [rewrite a_withdraw_lookup, Ha1; done|]. unfold in_transit. simpl.
      rewrite Es, Hr1, Eb. simpl. rewrite (mapM_ext_in _ (λ o, a_read A1 (o_slot o) (a_elem a))), Hr2; done.
    - injection Htr as <- <-. rewrite Hw. simpl. destruct (a_senders a) as [|o rest] eqn:Es.
      + injection Hus as <-. eexists _, _. split; [done|]. split; [done|]. eexists.
        split; [by apply lookup_alter_chan|]. unfold in_transit. simpl. by rewrite Es.
      + destruct (a_closed a); [by destruct (Hcl eq_refl)|].
        simpl in Hus. apply bind_Some in Hus as (u & Hu & Hus). apply bind_Some in Hus as (us' & Hus & [= <-]).
        assert (a_read A1 (o_slot o) (a_elem a) = Some u) as Hu1.
        { rewrite <-Hu. eapply a_read_write; [done|]. left. intros ->. by apply (Hslots o); [left|]. }
        rewrite Hu1. simpl. eexists _, _. split; [done|]. split; [done|].
        destruct (senders_left A A1 out v0 o rest us' (a_elem a)) as [Hr1 Hr2]; try done.
        { intros o' Ho'. apply Hslots. by right. }
        eexists. split; [rewrite a_withdraw_lookup, (lookup_alter_chan _ _ _ _ Ha1); done|].
        unfold in_transit. simpl. rewrite Es, Hr1.
        rewrite (mapM_ext_in _ (λ o, a_read A1 (o_slot o) (a_elem a))), Hr2 by done.
        simpl. by rewrite <-app_assoc. }
  destruct (try_recv_sim _ _ _ _ _ _ _ HR Hrun) as (s' & Hs' & [HR' _ _]).
  exists s', A', a'. split_and!; try done. rewrite (a_read_vals A1 A') by done.
  eapply a_write_read; [done|]. destruct (a_buf a) as [|v0 l] eqn:Eb.
  - destruct (a_senders a) as [|o rest]; [injection Hus as <-; discriminate Htr|]. simpl in Hus.
    apply bind_Some in Hus as (v0 & Hv0 & Hus). apply bind_Some in Hus as (us' & _ & [= <-]).
    injection Htr as <- <-. eapply a_read_length; [|done]. exact (cref_elem _ _ _ _ HR Ha).
  - injection Htr as <- <-. by apply Forall_cons in Hvals as [? _].
Qed.
End props.

(** ** On a concrete channel

    [demo] has one open channel of one-byte values and capacity one; the
    tasks 1 and 2 are running, and the objects 1, 2 and 3 hold a byte each. *)

Definition demo_sent : astate := a_alter (a_set_buf [[Byte.x2a]]) 1 demo_abs.

Lemma channel_send_refines_witness :
  ∃ s', croutine_channel_send (Some 2%positive) (Some 1%positive) (Some (UserPtr 1)) demo =
          Ok (SendReturn CROUTINE_CHANNEL_SEND_OK, s') ∧ evolves demo s' [] demo_sent.
Proof.
  destruct (channel_send_refines demo demo_abs 2 1 (UserPtr 1)
    (TRY_SEND CROUTINE_CHANNEL_SEND_OK) [] demo_sent) as (_ & _ & Hrun).
  - exact demo_cref.
  - apply demo_idle. by right.
  - reflexivity.
  - exact (Hrun (Some 2%positive)).
Defined.

(** Task 1 finds the channel empty and waits. *)
Definition demo_waiting : astate := a_wait 1 RECV (mkOffer 1 (Some (UserPtr 2)) None) demo_abs.

Lemma channel_recv_refines_witness :
  ∃ s' w, croutine_channel_recv (Some 1%positive) (Some 1%positive) (Some (UserPtr 2)) demo =
            Ok (RecvPark true w, s') ∧
    parks demo s' 1 [(w, mkWaiter CW_REGULAR RECV None None None (Some 1%positive)
                          (Some (UserPtr 2)) None 0)] demo_waiting.
Proof.
  destruct (channel_recv_refines demo demo_abs 1 1 (UserPtr 2)
    CROUTINE_CHANNEL_RECV_EMPTY [] demo_abs) as (_ & _ & _ & _ & Hrun).
  - exact demo_cref.
  - apply demo_idle. by left.
  - reflexivity.
  - intros a. simpl. intros [_ <-]%lookup_singleton_Some. by eexists.
  - exact Hrun.
Defined.

Lemma channel_try_refines_witness :
  ∃ s' s'', croutine_channel_try_send (Some 1%positive) (Some (UserPtr 1)) demo = Ok (true, s') ∧
    croutine_channel_try_recv (Some 1%positive) (Some (UserPtr 1)) demo = Ok (false, s'').
Proof.
  destruct (channel_try_refines demo demo_abs 1 (UserPtr 1)
    (TRY_SEND CROUTINE_CHANNEL_SEND_OK) [] demo_sent CROUTINE_CHANNEL_RECV_EMPTY [] demo_abs)
    as (_ & _ & _ & _ & (s' & b & Hs & _ & Hb) & (s'' & b' & Hr & _ & Hb')).
  - exact demo_cref.
  - reflexivity.
  - reflexivity.
  - exists s', s''. rewrite Hs, Hr. split.
    + by destruct (proj2 Hb eq_refl).
    + destruct b'; [|done]. by specialize (proj1 Hb' eq_refl).
Defined.

(** A parked receiver, found by running [block_refines]. *)
Lemma demo_parked_receiver : ∃ s w x,
  cref s demo_waiting ∧ waiters s !! w = Some x ∧ w_kind x = CW_REGULAR ∧ w_task x = Some 1%positive ∧
  sch_parked (worker s) 1%positive ∧ reg_view s = reg_view demo.
Proof.
  destruct (block_refines demo demo_abs 1 (mkAChan 1 1 false [] [] []) RECV 1 (Some (UserPtr 2))
    RecvPark demo_cref (demo_idle 1 (or_introl eq_refl))) as (s & w & _ & [R1 R2 R3 _ _ R6 _ _ _ _]);
    try reflexivity; [by eexists|].
  pose proof (f_equal (lookup w) R3) as E. rewrite !lookup_fmap in E. simpl in E.
  rewrite lookup_union, lookup_insert_eq in E. simpl in E.
  destruct (waiters s !! w) as [x|] eqn:Hx; [|done].
  exists s, w, x. apply (inj Some) in E. injection E as P1 P2 P3 P4 P5 P6.
  split_and!; try done. apply R6. by right.
Qed.

Lemma channel_close_wakes_witness : ∃ s s' T,
  cref s demo_waiting ∧ croutine_channel_close (Some 1%positive) s = Ok (tt, s') ∧
  cref s' (a_close 1 demo_waiting) ∧ 1%positive ∈ tasks T.
Proof.
  destruct demo_parked_receiver as (s & w & x & HR & _).
  destruct (channel_close_wakes s demo_waiting 1 (mkAChan 1 1 false [] []
    [mkOffer 1 (Some (UserPtr 2)) None]) HR eq_refl) as (_ & s' & T & Hrun & HR' & _ & _ & Hopen).
  exists s, s', T. split; [done|]. split; [exact Hrun|]. split; [done|].
  apply (Hopen eq_refl). eexists. split; [apply list_elem_of_singleton; reflexivity|done].
Defined.

(** The receiver runs again after the channel was closed. *)
Lemma channel_resume_reports_witness : ∃ s w,
  croutine_channel_recv_resume 1 true 1 w s = Ok (CROUTINE_CHANNEL_RECV_CLOSED, del_waiter s w).
Proof.
  destruct demo_parked_receiver as (s & w & x & HR & Hx & Hk & Ht & _).
  destruct (channel_close_sim s demo_waiting 1 (mkAChan 1 1 false [] []
    [mkOffer 1 (Some (UserPtr 2)) None]) HR eq_refl) as (s' & T & _ & HR' & [C1 C2 C3 C4] & _ & Hopen).
  destruct (Hopen eq_refl) as [[Hcl _] Hin].
  destruct (fmap_payload_lookup _ _ w x (eq_sym C2) Hx) as (y & Hy & Hp).
  injection Hp as P1 P2 P3 P4 P5 P6.
  assert (∃ k, k ∈ T ∧ o_task k.1 = 1%positive ∧ success k = false) as (k & Hk1 & Hk2 & Hk3).
  { specialize (Hin _ (proj2 (list_elem_of_singleton _ _) eq_refl)).
    apply list_elem_of_fmap in Hin as (k & Hk1 & Hk2). exists k. split; [done|]. split; [done|].
    destruct (Hcl k Hk2) as [Ho Hs]. apply list_elem_of_singleton in Ho.
    unfold success. rewrite Ho, Hs. done. }
  exists s', w.
  destruct (channel_resume_reports s' (a_close 1 demo_waiting) 1 1 w y false HR' Hy)
    as (_ & Hr & _); [congruence..| | |exact Hr].
  - intros Hpk. apply (wk_parked _ _ _ C4) in Hpk as [_ Hn]. apply Hn.
    apply list_elem_of_fmap. by exists k.
  - rewrite <-Hk2, (wk_flag _ _ _ C4 k Hk1). by rewrite Hk3.
Defined.

Lemma channel_create_spec_witness : ∃ c s',
  croutine_channel_create 4 8 demo = Ok (Some c, s') ∧ cref s' (a_new c 4 8 demo_abs).
Proof.
  destruct (channel_create_spec demo demo_abs [1%positive] 4 8 demo_cref demo_reg) as [Hc _];
    [unfold SIZE_MAX; lia..|].
  destruct Hc as (c & s' & Hrun & _ & HR & _); [|by eauto].
  split_and!; [unfold SIZE_MAX; lia|done|]. intros _. by eexists.
Defined.

(** Close, then destroy. *)
Lemma channel_destroy_spec_witness : ∃ s s' : cstate (sched (gmap Z Z)),
  croutine_channel_close (Some 1%positive) demo = Ok (tt, s) ∧
  croutine_channel_destroy (Some 1%positive) s = Ok (true, s') ∧ reg_rep (reg_view s') [] ∧
  croutine_channel_destroy (Some 1%positive) demo = Ok (false, demo).
Proof.
  pose proof (channel_destroy_spec demo demo_abs [1%positive] 1 (mkAChan 1 1 false [] [] [])
    demo_cref demo_reg eq_refl) as (_ & Hopen & _).
  destruct (channel_close_sim demo demo_abs 1 (mkAChan 1 1 false [] [] []) demo_cref eq_refl)
    as (s & T & Hrun & HR & [C1 _ _ _] & _).
  pose proof demo_reg as Hreg. rewrite <-C1 in Hreg.
  destruct (channel_destroy_spec s (a_close 1 demo_abs) [1%positive] 1 (mkAChan 1 1 true [] [] [])
    HR Hreg eq_refl) as (_ & _ & Hd).
  destruct (Hd eq_refl) as (s' & l1 & l2 & Hrun' & _ & El & Hreg' & _).
  exists s, s'. split; [exact Hrun|]. split; [exact Hrun'|]. split; [|by apply Hopen].
  assert (l1 ++ l2 = []) as E; [|by rewrite <-E].
  apply (f_equal length) in El. rewrite length_app in El. simpl in El.
  apply nil_length_inv. rewrite length_app. lia.
Defined.

Lemma shutdown_closes_all_witness : ∃ s s',
  sch_parked (worker s) 1%positive ∧ croutine_channel_shutdown_all_locked s = Ok (tt, s') ∧
  ∀ t, ¬ sch_parked (worker s') t.
Proof.
  destruct demo_parked_receiver as (s & w & x & HR & Hx & Hk & Ht & Hpk & Hreg).
  pose proof demo_reg as Hr. rewrite <-Hreg in Hr.
  destruct (shutdown_closes_all s demo_waiting [1%positive] HR Hr) as (s' & T & A' & Hrun & _ & _ & Hp & _).
  by exists s, s'.
Defined.

Lemma channel_fifo_send_witness : ∃ s',
  try_send_locked 1 (Some (UserPtr 1)) demo = Ok (TRY_SEND CROUTINE_CHANNEL_SEND_OK, s') ∧
  in_transit demo_sent (mkAChan 1 1 false [[Byte.x2a]] [] []) = Some [[Byte.x2a]].
Proof.
  destruct (channel_fifo_send demo demo_abs 1 (mkAChan 1 1 false [] [] []) (Some (UserPtr 1))
    [Byte.x2a] [] 1 (TRY_SEND CROUTINE_CHANNEL_SEND_OK) [] demo_sent demo_cref demo_aok
    eq_refl eq_refl eq_refl eq_refl eq_refl) as (s' & Hrun & _ & a' & Ha' & Htr).
  exists s'. split; [exact Hrun|]. injection Ha' as <-. exact Htr.
Defined.

Lemma channel_fifo_recv_witness : ∃ s s' A',
  try_send_locked 1 (Some (UserPtr 1)) demo = Ok (TRY_SEND CROUTINE_CHANNEL_SEND_OK, s) ∧
  try_recv_locked 1 (Some (UserPtr 2)) s = Ok (CROUTINE_CHANNEL_RECV_VALUE, s') ∧
  cref s' A' ∧ a_read A' (Some (UserPtr 2)) 1 = Some [Byte.x2a].
Proof.
  destruct (try_send_sim demo demo_abs 1 (Some (UserPtr 1)) (TRY_SEND CROUTINE_CHANNEL_SEND_OK) []
    demo_sent demo_cref eq_refl) as (s & Hrun & [HR _ _]).
  destruct (channel_fifo_recv s demo_sent 1 (mkAChan 1 1 false [[Byte.x2a]] [] [])
    (Some (UserPtr 2)) [Byte.x2a] []) as (s' & A' & a' & Hrun' & HR' & _ & _ & Hv); try done.
  - eapply aok_try_send; [exact demo_aok| |].
    + intros ch. simpl. by intros [_ <-]%lookup_singleton_Some.
    + exact (eq_refl : a_try_send false 1 (Some (UserPtr 1)) demo_abs = Some (_, _, demo_sent)).
  - by constructor.
  - set_solver.
  - by exists s, s', A'.
Defined.
