(* ===== verification/SelectProps.v ===== *)
(** * What select guarantees *)

From S2P Require Import Prelude Task WaitQueue Channel ChannelBuffer ChannelInv ChannelSpec.
From S2P Require Import ChannelRefine ChannelOps ChannelWait ChannelBlock ChannelClose Select.
From S2P Require Import SelectOrder SelectSim Worker Demo.

(** C23: the order in which a select tries its cases is a permutation of all
    case indices, also when the heap array for it cannot be allocated; the
    shuffle stays inside the array, and the generator's state is never zero
    again once a thread has drawn a number. *)
Theorem select_order_permutes `{Alloc} task now rng n :
  0 ≤ rng < 2 ^ 64 → Z.of_nat n ≤ 2 ^ 31 →
  (∃ rng' order, select_order task now rng n = Ok (rng', order) ∧
     order ≡ₚ Z.of_nat <$> seq 0 n ∧ 0 ≤ rng' < 2 ^ 64) ∧
  0 < select_rng_next task now rng < 2 ^ 64.
Proof. intros Hr Hn. split; [by apply select_order_perm|by apply rng_range]. Qed.

Section props.
Context `{Alloc} {W : Type} `{SchedulerLaws W}.
Implicit Types (s : cstate W) (t : tid) (cases : list croutine_select_case).

(** C7: [croutine_select].  Without cases it takes the default or stops the
    process.  Otherwise the cases are tried in an order that contains each
    of them once: the first that can proceed does, alone, with the effect of
    the corresponding send or receive.  When none can, the default is taken,
    or the task is parked with one offer for each case with a channel; the
    call parks only if no case was ready. *)
Theorem select_refines s A t addr now rng cases has_default :
  cref s A → idle s t → slots_ok A cases → 0 ≤ rng < 2 ^ 64 →
  0 < Z.of_nat (length cases) ≤ 2 ^ 31 →
  ((32 < length cases)%nat → calloc_ok (Z.of_nat (length cases)) SIZEOF_WAITER = true) →
  (∀ cur, croutine_select cur addr now rng [] true s = Ok ((SelectReturn (-1) [], rng), s) ∧
          croutine_select cur addr now rng [] false s =
            Abort "croutine_select: no cases and no default arm") ∧
  ∃ rng' order, order ≡ₚ Z.of_nat <$> seq 0 (length cases) ∧ ∀ k T A',
  a_try_cases (sched_shutdown (worker s)) order cases A = Some (k, T, A') →
  match k with
  | Some (i, v) => ∀ cur, ∃ s',
      croutine_select cur addr now rng cases has_default s =
        Ok ((SelectReturn i (with_status k cases), rng'), s') ∧
      0 ≤ i < Z.of_nat (length cases) ∧ evolves s s' T A'
  | None => A' = A ∧
      if has_default || bool_decide (Forall (λ cs, case_channel cs = None) cases) then
        ∃ s', croutine_select (Some t) addr now rng cases has_default s =
                Ok ((SelectReturn CROUTINE_SELECT_DEFAULT_INDEX cases, rng'), s') ∧ evolves s s' [] A
      else
        ∃ s' ws st, croutine_select (Some t) addr now rng cases has_default s =
                      Ok ((SelectPark true ws st cases, rng'), s') ∧
          parks s s' t (case_waiters t st ws cases) (a_wait_all t st 0 cases A) ∧
          selecting s' t ws st ∧ selects s' !! st = Some unfired
  end.
Proof.
  intros HR Hidle Hslots Hrng Hlen Hmem. split; [done|].
  destruct (select_call_sim s A addr now rng cases has_default HR Hslots Hrng Hlen Hmem)
    as (rng' & order & Hp & Hall).
  exists rng', order. split; [done|]. intros k T A' Hrun. specialize (Hall k T A' Hrun).
  destruct k as [[i v]|]; [done|]. destruct Hall as (E & _ & Ht). specialize (Ht t Hidle).
  split; [done|]. destruct (_ || _); [done|].
  destruct Ht as (s' & ws & st & Hs & Hpk & Hsel & Hss & _). by exists s', ws, st.
Qed.

(** C10: [croutine_select] after its task was switched back in.  It returns
    the index of the case that was completed and writes the recorded status
    into that case only; the waiters of all cases are unlinked and gone, the
    select's state too, and the channels' contents and the other waiting
    tasks are untouched. *)
Theorem select_resume_reports s A t ws st cases i v :
  cref s A → selecting s t ws st → selects s !! st = Some (mkSelectState true i v) →
  sch_flag (worker s) t = Some true → 0 ≤ i < Z.of_nat (length cases) →
  ∃ s', croutine_select_resume t true ws st cases s = Ok ((i, with_status (Some (i, v)) cases), s') ∧
    cref s' A ∧ leaves s s' ws st ∧
    (∀ w x, waiters s' !! w = Some x → w_kind x = CW_SELECT → w_state x ≠ Some st).
Proof.
  intros HR Hsel Hss Hf Hi.
  destruct (select_resume_sim s A t ws st cases i v HR Hsel Hss Hf Hi) as (s' & Hrun & HR' & Hl).
  exists s'. split_and!; try done. intros w x Hx Hk Hst.
  destruct (fmap_payload_lookup _ _ w x (lv_waiters _ _ _ _ Hl) Hx) as (y & Hy & Hp).
  injection Hp as P1 P2 P3 P4 P5 P6. rewrite without_lookup in Hy. case_decide as Hw; [done|].
  apply Hw. eapply (sl_only _ _ _ _ Hsel); [done|congruence..].
Qed.
End props.

(** ** On a concrete channel *)

Lemma select_order_permutes_witness : ∃ rng' order,
  @select_order generous 0 0 1 3 = Ok (rng', order) ∧ order ≡ₚ [0; 1; 2].
Proof.
  destruct (@select_order_permutes generous 0 0 1 3) as [(rng' & order & Hrun & Hp & _) _]; [lia..|].
  by exists rng', order.
Defined.

(** A select on the demo channel: receive into object 2. *)
Definition demo_case : croutine_select_case :=
  mkCase (Some 1%positive) RECV (Some (UserPtr 2)) CROUTINE_SELECT_STATUS_VALUE.

Lemma demo_slots : slots_ok demo_abs [demo_case].
Proof.
  intros cs c a ->%list_elem_of_singleton [= <-]. simpl. intros [_ <-]%lookup_singleton_Some.
  by eexists.
Qed.

Lemma select_refines_witness : ∃ rng' s' ws st,
  croutine_select (Some 1%positive) 0 0 1 [demo_case] false demo =
    Ok ((SelectPark true ws st [demo_case], rng'), s') ∧
  cref s' (a_wait_all 1 st 0 [demo_case] demo_abs).
Proof.
  destruct (select_refines demo demo_abs 1 0 0 1 [demo_case] false demo_cref
    (demo_idle 1 (or_introl eq_refl)) demo_slots) as (_ & rng' & order & Hp & Hrun); [done|simpl; lia|simpl; lia|].
  assert (order = [0]) as -> by (by apply Permutation_singleton_r in Hp).
  destruct (Hrun None [] demo_abs eq_refl) as (_ & s' & ws & st & Hsel & Hpk & _).
  exists rng', s', ws, st. split; [exact Hsel|apply Hpk].
Defined.

(** The channel is closed while task 1 waits in its select. *)
Lemma select_resume_reports_witness : ∃ s s' ws st,
  croutine_select_resume 1 true ws st [demo_case] s =
    Ok ((0, [set_case_status CROUTINE_SELECT_STATUS_CLOSED demo_case]), s').
Proof.
  destruct (select_block_sim demo demo_abs 1 [demo_case] (λ b ws st, (b, ws, st)) stuck demo_cref
    (demo_idle 1 (or_introl eq_refl)) eq_refl) as (s & ws & st & _ & Hpk & Hsel & _ & _ & Hst).
  { intros cs ->%list_elem_of_singleton c [= <-]. eexists. split; [reflexivity|]. split; [done|by eexists]. }
  { exists demo_case. split; [by left|done]. }
  set (a := mkAChan 1 1 false [] [] [mkOffer 1 (Some (UserPtr 2)) (Some (st, 0))]).
  destruct (channel_close_sim s _ 1 a (pk_ref _ _ _ _ _ Hpk) eq_refl)
    as (s' & T & _ & HR' & [C1 C2 C3 C4] & _ & Hopen).
  destruct (Hopen eq_refl) as [[Hcl _] Hin].
  specialize (Hin _ (proj2 (list_elem_of_singleton _ _) eq_refl)).
  apply list_elem_of_fmap in Hin as (k & Hk1 & Hk2). destruct (Hcl k Hk2) as [Ho Hs].
  apply list_elem_of_singleton in Ho.
  assert (selecting s' 1 ws st) as Hsel'.
  { destruct Hsel as [S1 S2]. split.
    - intros w Hw. destruct (S1 w Hw) as (x & Hx & K1 & K2 & K3).
      destruct (fmap_payload_lookup _ _ w x (eq_sym C2) Hx) as (y & Hy & Hp).
      injection Hp as P1 P2 P3 P4 P5 P6. exists y. split_and!; congruence.
    - intros w x Hx K1 K2. destruct (fmap_payload_lookup _ _ w x C2 Hx) as (y & Hy & Hp).
      injection Hp as P1 P2 P3 P4 P5 P6. eapply S2; [done|congruence..]. }
  destruct (select_resume_reports s' _ 1 ws st [demo_case] 0 CROUTINE_SELECT_STATUS_CLOSED HR' Hsel')
    as (s'' & Hrun & _).
  - rewrite (wk_select _ _ _ C4 k st 0 Hk2); [by rewrite Hs|by rewrite Ho].
  - change 1%positive with (o_task (mkOffer 1 (Some (UserPtr 2)) (Some (st, 0)))). rewrite <-Ho.
    rewrite (wk_flag _ _ _ C4 k Hk2). unfold success. by rewrite Ho.
  - simpl. lia.
  - by exists s', s'', ws, st.
Defined.
